(* ===== verification/_CoqProject ===== *)
-Q . S2P
Prelude.v
CString.v
Itoa.v
WordScan.v
WordCopy.v
MemMove.v
Machine.v
OffTime.v
Strftime.v
StdioRead.v
StdioSeek.v
StdioWrite.v
ConfigFile.v
Log.v
JinzhiConvert.v
DataHeader.v
RecordData.v
Inet.v
StrToL.v
MSort.v
QuickSort.v
QsortR.v
ScanDir.v
ReadDir.v
Playback.v
Distribute.v
Session.v
ClientThreads.v
Mutex.v
HandOver.v
ThreadPool.v
PoolRuns.v
Programs.v
Printf.v
PrintfFast.v
PrintfText.v
PrintfFormat.v
PrintfStreams.v
PrintfProgram.v
PrintfPositional.v
PrintfExplicit.v
PrintfUnbuffered.v
PrintfFaults.v
