(* ===== verification/Prelude.v ===== *)
(** * dup-distribute: a verification of the packet distributor

    This library models dup-distribute (the C files directly under [src/]) and
    the functions of the glibc 2.27 kept beside it ([src/glibc-2.27/]) that it
    stands on.  This file is the root of the library: after this description it
    holds the notation, tactics and lemmas that all other files share.

    ** The program

    [dd-server] (server.c) reads [engine.conf] (ConfigFile.c) into a table of
    peers (util.c, [parseFile_distributeTcpInfo]) and accepts connections
    ([distribute_server]), one process per connection.  A process receives
    packets ([distribute_receive]), recognises them by the headers of
    dataHeader.h, and hands each to [distribute_run]: a packet with data is
    recorded in a file of the day (recordData.c), then every client gets a
    thread, one at a time under a mutex, that connects and forwards the packet
    ([distribute_client_send]).  A playback command makes the thread of the
    client it came from replay the recorded packets of a time window
    (playback.c) with the changed [scandir] of the repository's glibc; a lock file
    keeps live packets away from that client meanwhile.  Everything reports
    through [LogWrite] (log.c).  [dd-client] (client.c) prints what it
    receives, [dd-sender] (sender.c) sends a test packet every second.
    threadpool.c is a thread pool, jinzhiConvert.c converts to and from
    hexadecimal text.

    ** Files, and what their theorems show

    - [Prelude]: faults, the result type [res], the outcome type and the state
      monad [M] of all effectful code, integers at their width.
    - [CString]: character arrays and the C string functions, byte by byte.
      These are the reference definitions that the program's own files call.
    - [WordScan] (glibc string/strlen.c, strchr.c, strchrnul.c, strrchr.c,
      strnlen.c, memchr.c, rawmemchr.c, memrchr.c), [WordCopy] (memcpy.c,
      memset.c, wordcopy.c, memcopy.h, strcpy.c, stpcpy.c, strcat.c,
      strncpy.c, strncat.c, strcmp.c, strncmp.c), [MemMove] (memmove.c and the
      backward loops of wordcopy.c), [StrToL] (stdlib/strtol_l.c, strtol.c,
      atoi.c, getenv.c), [Itoa] (stdio-common/_itoa.c): the implementations,
      which go through memory a word at a time, use precomputed overflow limits
      or fill a buffer from its end, agree with the reference definitions for
      every alignment, overlap and input.
    - [Machine]: the process state [World] (files, directories, [errno], the
      globals of the C files, the events seen outside) and the system calls.
    - [StdioRead] (libio/iofgets.c, iogetline.c, iofread.c, fileops.c, genops.c):
      [fgets] and [fread] through the buffer of a stream do what [Machine] says,
      however the kernel cuts the file into pieces; a failing read is reported.
    - [StdioSeek] (libio/fseek.c, ioseekoff.c, ioftell.c, rewind.c, fileops.c):
      [fseek], [ftell] and [rewind] move between the bytes of the file whatever is in
      the buffer; the size the program asks for is the file's.
    - [StdioWrite] (libio/iofwrite.c, iofflush.c, iofclose.c, fileops.c, genops.c):
      what [fwrite] and [fclose] report about a packet is true of the file, and
      without errors the pieces of a message arrive as [Machine] says.
    - [OffTime] (time/offtime.c, [ydhms_diff] of time/mktime.c): the calendar
      conversion ends, its fields name the instant, and it is inverted by
      [ydhms_diff]; it satisfies the interface [Calendar] the others assume.
    - [Strftime] (time/strftime_l.c, locale/C-time.c): every format yields one
      text, stored with its NUL when it fits and refused otherwise; on the
      program's formats this is what [Machine] says.
    - [ConfigFile] (ConfigFile.c): a written configuration is read back;
      reading is memory safe exactly for short keys and values.
    - [Log] (log.c): the line and file of every message, the mutex, the level
      mask; [LogWrite_impl] satisfies the interface [Logger].
    - [JinzhiConvert] (jinzhiConvert.c): the hexadecimal round trip, and where
      it fails for odd lengths.
    - [DataHeader] (dataHeader.h): layout and round trip of the headers, and
      which packets are of which kind.
    - [RecordData] (recordData.c): the file each packet goes to, the error
      returns, the bound of the packet number.
    - [Inet] (glibc resolv/inet_addr.c, inet/inet_ntoa.c, inet/htons.c):
      addresses and their text.
    - [MSort], [QuickSort], [QsortR] (stdlib/msort.c, qsort.c): [qsort] sorts on
      every path, in place, without leaving its arrays or its stack of
      partitions.
    - [ScanDir] (dirent/scandir.c, scandir-tail.c, alphasort.c): the result is the
      sorted selection, or -1 and never a partial list.
    - [ReadDir] (sysdeps/posix/readdir.c, opendir.c): the records of the kernel,
      read block by block, are the entries [ScanDir] goes through.
    - [Playback] (playback.c): the selection; that a replay which
      finishes each recording in its first turn, and so frees no entry twice, sends the
      recordings of the window in name order, once each, whatever freed memory reads as; the life of the lock file; and what the reads
      of freed memory and unterminated arrays do.
    - [Distribute], [Session] (util.c): what one packet does (recorded, then
      forwarded to every unlocked client in order), what a connection does (all
      packets served until the peer closes), how the server starts and fails.
    - [ClientThreads] (util.c): the threads of [distribute_run] as a step
      relation, with a flag for the mutex; every interleaving is the sequence of
      [Distribute], at most one client thread is in its body, and when the sequence
      returns the threads do not deadlock and end.
    - [Mutex] (nptl/pthread_mutex_lock.c, pthread_mutex_unlock.c,
      pthread_mutex_trylock.c, lowlevellock.c): the futex protocol of the mutex
      as a step relation, for threads that unlock what they locked; at most one
      has the mutex, and no wake-up is lost.
    - [HandOver] (util.c with the operations of [Mutex]): the mutex of
      [distribute_run], which the main thread locks and each client thread unlocks, on the
      futex word: it refines the flag of [ClientThreads] and loses no wake-up.
    - [ThreadPool] (threadpool.c): workers, manager, callers and destroyer as a
      step relation with mutex and condition variables; the invariant of the
      pool, the task queue as a bounded first-in first-out queue, the hangs of
      create and destroy.  [threadpool_create] never gets past its last loop, which
      joins the workers; callers and destroyer act on the pool as it is before it.
    - [PoolRuns]: a scheduler that runs the pool, shown to take only its steps;
      a pool of fixed size takes every task it was given.
    - [Programs] (server.c, client.c, sender.c): the three mains.
    - [Printf], [PrintfFast] (stdio-common/vfprintf.c, printf-parse.h,
      printf-parsemb.c, libio/iopadn.c): [vfprintf], its automaton over the
      format with the jump tables, the conversions, and the slow path that parses the
      format first.  [PrintfText] says what each conversion writes on any stream that keeps
      the contract [SinkLaws], [PrintfFormat] what a whole format writes and returns;
      [PrintfPositional] shows the same of the slow path, [PrintfExplicit] of formats that
      name their arguments.  [PrintfStreams]
      (libio/iovsprintf.c, vsnprintf.c) has the streams: files, [sprintf],
      [snprintf]; [PrintfUnbuffered] the temporary buffer for unbuffered ones.  [PrintfProgram]: the texts that the other files write with
      [show_int] and the like are what [vfprintf] makes of the formats in the source.
      [PrintfFaults]: inputs on which the code fails.

    ** How the code is rendered

    Bytes, [int], [long] and [size_t] are [Z] with [int8], [int32], [uint64] ...
    written where the C code converts or wraps.  A C array is the list of
    its bytes, of the declared length; a store or load outside it is the value
    [Bad OutOfBounds], a string without NUL [Bad Unterminated], a NULL
    dereference [Bad NullPointer].  Effectful code is [IO A], a function from
    [World] to an [outcome]: a value with the new world, a crash, an exit, or
    a wait that nothing ends.  Code with threads is an inductive step relation.

    ** Parameters

    - [Env]: what the operating system decides (clock, results of socket calls
      and [fork], refused file operations, directory order, the memory [qsort]
      finds), as functions of the number of system calls made; [Calendar],
      [DirOrder], [Errnos] state what is documented of it.
    - [Logger]: what the other files need of [LogWrite]; discharged in [Log].
    - [heap_policy] and [tail] in [Playback]: what a read of freed memory gives
      and which bytes follow a stack array.  No value of them is documented: a
      theorem holds for all values or names what it needs of them.
    - [Reads] in [StdioRead], [Seeks] in [StdioSeek], [Writes] in [StdioWrite],
      [Getdents] in [ReadDir]: what each call of the kernel delivers, within what
      its documentation allows ([ReadLaws], [WriteLaws], [GetdentsLaws]).
    - [mktime] and the zone names in [Strftime]; in [Mutex] the kernel's futex
      calls are steps of the relation, as futex(2) describes them.
    - [Sink] in [Printf]: the stream that is written to, with [SinkLaws] discharged for
      files, arrays and the helper of unbuffered streams; [Libc]: memory, error texts, wide characters, floating point and the
      locale, with [PlainLibc] for the C locale and enough memory.
    - comparison functions of the sorts, with the classes [Comparator] (total
      and transitive) and [SignComparator] (swapped arguments, opposite sign).
    The examples and witnesses instantiate all of them with concrete values.

    ** Bounds

    Recursion that is not structural takes fuel.  [show_nat] prints up to 20
    digits, enough for 64 bits.  [year_loop] of the calendar has fuel 7, shown
    to be enough for every 64-bit time.  Loops over memory take the length plus
    one, the quicksort loop the number of elements plus one, the merge sort
    the number of elements, [_itoa_word] 64 digits, [vfprintf] the length of the format, [readdir] the bytes of the block
    and the entries left; their theorems say the fuel suffices.  The main
    loops of the programs do not end by themselves: their fuel counts
    packets or connections, and the theorems either give a bound from the
    input (a closed connection, a failed call) or say that every amount is used
    up; [scanAndSend] needs one turn more than files are selected.  The client
    threads are shown to end after at most 16 n + 2 steps for n clients (192 n + 31
    with the steps of the mutex), the users of a mutex after at most [work] steps.  [strftime_l] allows
    two levels of formats, which the C locale does not exceed.

    ** Not modelled

    [destroInfo_ConfigFile] only calls [free].  The messages of threadpool.c and
    its demonstration task are left out, and [pthread_create] succeeds there.
    In [Machine] a write to an opened file is complete ([StdioWrite] has the writes
    that fail), and a file that exists can be opened for reading.
    [strtol] is modelled for narrow characters, the C locale and no digit
    grouping, which is how it is called.  The search around [ydhms_diff] in
    mktime is not used by the program.  Streams are narrow, and either read or
    written; characters are not pushed back.  Of the mutex types the default one
    is modelled, with sequentially consistent steps; condition variables are those of
    [ThreadPool].  [FLOAT] fields are carried as
    their 32 bits.  Of [vfprintf] the tests before its body ([ORIENT], [ARGCHECK]), the version for wide streams and
    registered handlers are left out, and floating point is a parameter; the theorems are
    about formats that name all their arguments or none.  Of [fclose] the status and the
    contents of the file are modelled, not the release of the FILE.  The rest of glibc is the library's own business: of what
    the program calls and no file here translates (opening files,
    sockets, thread creation, condition variables) the documented behaviour is in [Machine]. *)

From stdpp Require Export prelude gmap strings.
From Stdlib Require Export ZArith Lia Ascii.

#[global] Open Scope Z_scope.

(** Comparisons reduce only on two literals. *)
#[global] Arguments Z.eqb !x !y.
#[global] Arguments Z.ltb !x !y.
#[global] Arguments Z.leb !x !y.

(** ** Faults, results and effectful computations *)

(** The ways a C operation leaves defined behaviour. *)
Inductive fault :=
| NullPointer      (* dereference of NULL, e.g. strcpy (dst, NULL) *)
| OutOfBounds      (* a store or load outside an object *)
| Unterminated     (* a string function runs off an array without NUL *)
| DanglingRead     (* a read through a freed pointer *)
| DoubleFree       (* free of a freed pointer *)
| BadVarArg        (* va_arg with the wrong type, or past the last argument *)
| Unspecified.     (* a value the C standard leaves indeterminate *)

#[global] Instance fault_eq_dec : EqDecision fault.
Proof. solve_decision. Defined.

(** A memory operation: a value, or the fault it runs into. *)
Inductive res (A : Type) :=
| Ok (a : A)
| Bad (f : fault).
Arguments Ok {A} a.
Arguments Bad {A} f.

#[global] Instance res_ret : MRet res := λ A a, Ok a.
#[global] Instance res_bind : MBind res := λ A B f m,
  match m with Ok a => f a | Bad x => Bad x end.

(** The outcome of running code on a state: a value, a fault, [_exit], a
    wait that nothing ends ([Blocked]), or an exhausted loop bound. *)
Inductive outcome (S A : Type) :=
| Ret (a : A) (s : S)
| Crash (f : fault)
| Exit (code : Z) (s : S)
| Blocked
| OutOfFuel.
Arguments Ret {S A} a s.
Arguments Crash {S A} f.
Arguments Exit {S A} code s.
Arguments Blocked {S A}.
Arguments OutOfFuel {S A}.

Definition M (S A : Type) : Type := S → outcome S A.

#[global] Instance M_ret {S} : MRet (M S) := λ A a s, Ret a s.
#[global] Instance M_bind {S} : MBind (M S) := λ A B f m s,
  match m s with
  | Ret a s' => f a s'
  | Crash x => Crash x
  | Exit c s' => Exit c s'
  | Blocked => Blocked
  | OutOfFuel => OutOfFuel
  end.

(** Lifting a memory operation into code, reading and writing the state. *)
Definition lift {S A} (r : res A) : M S A := λ s,
  match r with Ok a => Ret a s | Bad f => Crash f end.
Definition gets {S A} (f : S → A) : M S A := λ s, Ret (f s) s.
Definition modify {S} (f : S → S) : M S unit := λ s, Ret tt (f s).
Definition exit_with {S A} (code : Z) : M S A := λ s, Exit code s.
Definition when {S} (b : bool) (m : M S unit) : M S unit :=
  if b then m else mret tt.

(** [for (i = from; i < from + n; i++) body (i)] *)
Fixpoint for_up {S} (from : Z) (n : nat) (body : Z → M S unit) : M S unit :=
  match n with
  | O => mret tt
  | S n' => body from ;; for_up (from + 1) n' body
  end.

(** ** Machine integers (x86-64 Linux: [char] signed, [int] 32 bits, [long] 64) *)

Definition uint8 (z : Z) : Z := z `mod` 2 ^ 8.
Definition uint16 (z : Z) : Z := z `mod` 2 ^ 16.
Definition uint32 (z : Z) : Z := z `mod` 2 ^ 32.
Definition uint64 (z : Z) : Z := z `mod` 2 ^ 64.
Definition int8 (z : Z) : Z := (z + 2 ^ 7) `mod` 2 ^ 8 - 2 ^ 7.
Definition int32 (z : Z) : Z := (z + 2 ^ 31) `mod` 2 ^ 32 - 2 ^ 31.
Definition int64 (z : Z) : Z := (z + 2 ^ 63) `mod` 2 ^ 64 - 2 ^ 63.

(** A byte of memory is a [Z] in [0, 256). *)
Definition is_byte (b : Z) : Prop := 0 ≤ b < 256.
Definition bytes_ok (l : list Z) : Prop := Forall is_byte l.

(** String literals as bytes. *)
Fixpoint lit (s : string) : list Z :=
  match s with
  | EmptyString => []
  | String a s' => Z.of_N (Ascii.N_of_ascii a) :: lit s'
  end.
Definition chr (a : Ascii.ascii) : Z := Z.of_N (Ascii.N_of_ascii a).
Arguments chr a%_char.

(** Boolean equality of byte strings. *)
Definition beq (a b : list Z) : bool := bool_decide (a = b).

(** [l] ends with the suffix [s]. *)
Definition ends_with (s l : list Z) : Prop := ∃ p, l = p ++ s.

(** ** Laws of the two monads *)

Lemma res_bind_Ok {A B} (r : res A) (f : A → res B) b :
  (r ≫= f) = Ok b ↔ ∃ a, r = Ok a ∧ f a = Ok b.
Proof.
  destruct r as [a|x]; simpl.
  - split; [by exists a|]. intros (a' & E & H). by simplify_eq.
  - split; [done|]. by intros (a' & E & H).
Qed.

Lemma bind_Ret {S A B} (m : M S A) (f : A → M S B) s a s' :
  m s = Ret a s' → (m ≫= f) s = f a s'.
Proof. intros H. unfold mbind, M_bind. by rewrite H. Qed.

Lemma bind_Crash {S A B} (m : M S A) (f : A → M S B) s x :
  m s = Crash x → (m ≫= f) s = Crash x.
Proof. intros H. unfold mbind, M_bind. by rewrite H. Qed.

Lemma bind_Exit {S A B} (m : M S A) (f : A → M S B) s c s' :
  m s = Exit c s' → (m ≫= f) s = Exit c s'.
Proof. intros H. unfold mbind, M_bind. by rewrite H. Qed.

Lemma bind_OutOfFuel {S A B} (m : M S A) (f : A → M S B) s :
  m s = OutOfFuel → (m ≫= f) s = OutOfFuel.
Proof. intros H. unfold mbind, M_bind. by rewrite H. Qed.

Lemma bind_Ret_inv {S A B} (m : M S A) (f : A → M S B) s b s2 :
  (m ≫= f) s = Ret b s2 → ∃ a s1, m s = Ret a s1 ∧ f a s1 = Ret b s2.
Proof. unfold mbind, M_bind. destruct (m s); intros H; try done. eauto. Qed.

Lemma mret_eq {S A} (a : A) (s : S) : (mret a : M S A) s = Ret a s.
Proof. done. Qed.

Lemma lift_Ok {S A} (a : A) (s : S) : lift (Ok a) s = Ret a s.
Proof. done. Qed.

Lemma bind_lift_Ok {S A B} (a : A) (f : A → M S B) s : (lift (Ok a) ≫= f) s = f a s.
Proof. done. Qed.
Lemma bind_lift_Bad {S A B} x (f : A → M S B) s : (lift (Bad x) ≫= f) s = Crash x.
Proof. done. Qed.
Lemma bind_mret {S A B} (a : A) (f : A → M S B) s : ((mret a : M S A) ≫= f) s = f a s.
Proof. done. Qed.
Lemma bind_gets {S A B} (g : S → A) (f : A → M S B) s : (gets g ≫= f) s = f (g s) s.
Proof. done. Qed.
Lemma bind_modify {S B} (g : S → S) (f : unit → M S B) s : (modify g ≫= f) s = f tt (g s).
Proof. done. Qed.
Lemma bind_assoc {S A B C} (m : M S A) (f : A → M S B) (g : B → M S C) s :
  ((m ≫= f) ≫= g) s = (m ≫= (λ a, f a ≫= g)) s.
Proof. unfold mbind, M_bind. by destruct (m s). Qed.

(** Head reduction of effectful code on a state. *)
Create Rewrite HintDb io.
#[export] Hint Rewrite @bind_lift_Ok @bind_lift_Bad @bind_mret @bind_gets @bind_modify
  @bind_assoc : io.

(** Stepping through effectful code: evaluate the first action of a bind. *)
Ltac mstep :=
  first
    [ erewrite bind_Ret; [|solve [eauto]]
    | erewrite bind_Crash; [|solve [eauto]]
    | erewrite bind_Exit; [|solve [eauto]] ].

(** Case analysis on the boolean comparisons of the source. *)
Ltac bsimpl :=
  repeat match goal with
  | H : _ && _ = true |- _ => apply andb_true_iff in H as [??]
  | H : _ || _ = false |- _ => apply orb_false_iff in H as [??]
  | H : negb _ = true |- _ => apply negb_true_iff in H
  | H : negb _ = false |- _ => apply negb_false_iff in H
  | H : bool_decide _ = true |- _ => apply bool_decide_eq_true in H
  | H : bool_decide _ = false |- _ => apply bool_decide_eq_false in H
  | H : (_ =? _) = true |- _ => apply Z.eqb_eq in H
  | H : (_ =? _) = false |- _ => apply Z.eqb_neq in H
  | H : (_ <? _) = true |- _ => apply Z.ltb_lt in H
  | H : (_ <? _) = false |- _ => apply Z.ltb_ge in H
  | H : (_ <=? _) = true |- _ => apply Z.leb_le in H
  | H : (_ <=? _) = false |- _ => apply Z.leb_gt in H
  end.

(** Split the first boolean comparison of the goal. *)
Ltac bcase :=
  match goal with
  | |- context [?a =? ?b] => destruct (Z.eqb_spec a b)
  | |- context [?a <? ?b] => destruct (Z.ltb_spec a b)
  | |- context [?a <=? ?b] => destruct (Z.leb_spec a b)
  end.

Lemma for_up_ind {S} (I : Z → S → Prop) (body : Z → M S unit) n : ∀ from s,
  I from s →
  (∀ i s', from ≤ i < from + Z.of_nat n → I i s' →
     ∃ s'', body i s' = Ret tt s'' ∧ I (i + 1) s'') →
  ∃ s', for_up from n body s = Ret tt s' ∧ I (from + Z.of_nat n) s'.
Proof.
  induction n as [|n IH]; intros from s HI Hb; simpl.
  - exists s. rewrite Z.add_0_r. by split.
  - destruct (Hb from s) as (s1 & H1 & HI1); [lia|done|].
    rewrite (bind_Ret _ _ _ _ _ H1).
    destruct (IH (from + 1) s1) as (s2 & H2 & HI2); [done| |].
    { intros i s' Hi. apply Hb. lia. }
    exists s2. split; [done|]. by replace (from + Z.of_nat (Datatypes.S n))
      with (from + 1 + Z.of_nat n) by lia.
Qed.

(** ** Machine integers *)

Lemma int32_small z : - 2 ^ 31 ≤ z < 2 ^ 31 → int32 z = z.
Proof. intros. unfold int32. rewrite Z.mod_small; lia. Qed.
Lemma uint32_small z : 0 ≤ z < 2 ^ 32 → uint32 z = z.
Proof. intros. unfold uint32. by rewrite Z.mod_small. Qed.
Lemma uint64_small z : 0 ≤ z < 2 ^ 64 → uint64 z = z.
Proof. intros. unfold uint64. by rewrite Z.mod_small. Qed.
Lemma uint8_small z : 0 ≤ z < 2 ^ 8 → uint8 z = z.
Proof. intros. unfold uint8. by rewrite Z.mod_small. Qed.
Lemma int8_small z : - 2 ^ 7 ≤ z < 2 ^ 7 → int8 z = z.
Proof. intros. unfold int8. rewrite Z.mod_small; lia. Qed.
Lemma int32_range z : - 2 ^ 31 ≤ int32 z < 2 ^ 31.
Proof. unfold int32. pose proof (Z.mod_pos_bound (z + 2 ^ 31) (2 ^ 32)). lia. Qed.
Lemma uint32_range z : 0 ≤ uint32 z < 2 ^ 32.
Proof. unfold uint32. apply Z.mod_pos_bound. lia. Qed.
Lemma uint8_range z : 0 ≤ uint8 z < 256.
Proof. unfold uint8. apply (Z.mod_pos_bound z 256). lia. Qed.

(** ** Byte strings *)

Lemma chr_byte a : is_byte (chr a).
Proof.
  unfold chr, is_byte. pose proof (Ascii.N_ascii_bounded a). lia.
Qed.

Lemma lit_bytes s : bytes_ok (lit s).
Proof. induction s; constructor; [apply chr_byte|done]. Qed.

Lemma lit_app s1 s2 : lit (s1 +:+ s2) = lit s1 ++ lit s2.
Proof. induction s1; simpl; f_equal; done. Qed.

Lemma beq_true a b : beq a b = true ↔ a = b.
Proof. apply bool_decide_eq_true. Qed.
Lemma beq_refl a : beq a a = true.
Proof. by apply beq_true. Qed.
Lemma beq_false a b : beq a b = false ↔ a ≠ b.
Proof. apply bool_decide_eq_false. Qed.

Lemma app_snoc {A} (l : list A) x r : l ++ x :: r = (l ++ [x]) ++ r.
Proof. by rewrite <-app_assoc. Qed.

(** ** Counting *)

(** The sum of [f] over the elements of [l]. *)
Abbreviation total f l := (sum_list_with f l).

Lemma total_insert {A} (f : A → nat) (l : list A) j x y :
  l !! j = Some x → (total f (<[j := y]> l) + f x = total f l + f y)%nat.
Proof.
  revert j. induction l as [|z l IH]; intros [|j] Hj; [done|done|..].
  - injection Hj as ->. cbn [insert list_insert sum_list_with]. lia.
  - specialize (IH j Hj). change (<[S j := y]> (z :: l)) with (z :: <[j := y]> l). cbn [sum_list_with]. lia.
Qed.

Lemma total_fmap {A} (f : A → nat) (g : A → A) (l : list A) : (∀ x, f (g x) = f x) → total f (g <$> l) = total f l.
Proof. intros Hg. induction l as [|x l IH]; [done|]. cbn. by rewrite IH, Hg. Qed.

Lemma total_pos {A} (f : A → nat) (l : list A) j x : l !! j = Some x → (f x ≤ total f l)%nat.
Proof.
  revert j. induction l as [|y l IH]; intros [|j] Hj; [done|done|..]; cbn.
  - injection Hj as ->. lia.
  - specialize (IH j Hj). lia.
Qed.

Lemma total_exists {A} (f : A → nat) (l : list A) : (0 < total f l)%nat → ∃ j x, l !! j = Some x ∧ (0 < f x)%nat.
Proof.
  induction l as [|x l IH]; cbn [sum_list_with]; [lia|]. intros H. destruct (decide (0 < f x)%nat).
  - by exists 0%nat, x.
  - destruct IH as (j & y & ? & ?); [lia|]. by exists (S j), y.
Qed.

Create HintDb c_arith.
Create Rewrite HintDb c_len.
#[export] Hint Resolve int32_range uint32_range uint8_range chr_byte lit_bytes : c_arith.
#[export] Hint Rewrite @length_app @length_take @length_drop @length_replicate
  @length_insert @length_fmap : c_len.

(** Linear arithmetic about list lengths. *)
Ltac len := autorewrite with c_len in *; simpl in *; lia.

(** Decide a closed proposition by evaluation. *)
Ltac by_decide := refine (bool_decide_unpack _ _); vm_compute; exact I.
