(* ===== verification/CString.v ===== *)
(** * C strings, character arrays and decimal conversions

    Models the part of the C library the program's own files use on memory:
    [strlen], [strchr], [strcmp], [strcpy], [strcat], [strncpy], [memcpy],
    [memset], [atoi] and the [%d] / [%0Nd] conversions of [sprintf].

    A [char] array of the source is the list of its bytes, of the array's
    declared length, so a store past its end is the fault [OutOfBounds] and a
    string function that finds no NUL in it is the fault [Unterminated].
    WordScan, WordCopy and StrToL show that glibc's implementations agree with
    these definitions. *)

From S2P Require Import Prelude.

(** ** Reading strings *)

(** The C string an array holds: the bytes before its first NUL. *)
Fixpoint cstr (a : list Z) : res (list Z) :=
  match a with
  | [] => Bad Unterminated
  | c :: a' => if c =? 0 then Ok [] else s ← cstr a'; Ok (c :: s)
  end.

Definition strlen (a : list Z) : res Z :=
  s ← cstr a; Ok (Z.of_nat (length s)).

(** The offset of the first [c] before the NUL, [None] for NULL. *)
Fixpoint strchr (a : list Z) (c : Z) : res (option nat) :=
  match a with
  | [] => Bad Unterminated
  | x :: a' =>
      if x =? c then Ok (Some 0%nat)
      else if x =? 0 then Ok None
      else r ← strchr a' c; Ok (option_map S r)
  end.

(** Byte-wise comparison as unsigned char, stopping at the first difference. *)
Fixpoint strcmp (a b : list Z) : res Z :=
  match a, b with
  | x :: a', y :: b' =>
      if negb (x =? y) then Ok (x - y)
      else if x =? 0 then Ok 0 else strcmp a' b'
  | _, _ => Bad Unterminated
  end.

(** ** Writing arrays *)

(** Store [src] at offset [off] of the array [dst]. *)
Definition blit (dst : list Z) (off : nat) (src : list Z) : res (list Z) :=
  if decide (off + length src ≤ length dst)%nat
  then Ok (take off dst ++ src ++ drop (off + length src) dst)
  else Bad OutOfBounds.

Definition strcpy_at (dst : list Z) (off : nat) (src : list Z) : res (list Z) :=
  s ← cstr src; blit dst off (s ++ [0]).
Definition strcpy (dst src : list Z) : res (list Z) := strcpy_at dst 0 src.

Definition strcat (dst src : list Z) : res (list Z) :=
  d ← cstr dst; strcpy_at dst (length d) src.

(** What [strncpy] stores: [n] bytes of [src], zero filled after its NUL. *)
Fixpoint strn (n : nat) (src : list Z) : res (list Z) :=
  match n, src with
  | O, _ => Ok []
  | S n', [] => Bad Unterminated
  | S n', c :: src' =>
      if c =? 0 then Ok (replicate n 0)
      else r ← strn n' src'; Ok (c :: r)
  end.
Definition strncpy (dst src : list Z) (n : nat) : res (list Z) :=
  r ← strn n src; blit dst 0 r.

Definition memcpy (dst : list Z) (off : nat) (src : list Z) (n : nat) : res (list Z) :=
  if decide (n ≤ length src)%nat then blit dst off (take n src) else Bad OutOfBounds.

Definition memset (dst : list Z) (c : Z) (n : nat) : res (list Z) :=
  blit dst 0 (replicate n c).

(** [char a[n] = {0x0};] *)
Definition zeros (n : nat) : list Z := replicate n 0.

(** ** Decimal conversions *)

Definition is_space (c : Z) : bool := (c =? 32) || ((9 <=? c) && (c <=? 13)).
Definition is_digit (c : Z) : bool := (48 <=? c) && (c <=? 57).

Fixpoint skip_space (a : list Z) : res (list Z) :=
  match a with
  | [] => Bad Unterminated
  | c :: a' => if is_space c then skip_space a' else Ok a
  end.

(** The value of the leading decimal digits; the first non-digit ends them. *)
Fixpoint dec_value (a : list Z) (acc : Z) : res Z :=
  match a with
  | [] => Bad Unterminated
  | c :: a' => if is_digit c then dec_value a' (acc * 10 + (c - 48)) else Ok acc
  end.

(** [strtol (a, NULL, 10)], saturating at the range of [long]. *)
Definition strtol10 (a : list Z) : res Z :=
  a ← skip_space a;
  match a with
  | [] => Bad Unterminated
  | c :: a' =>
      if c =? chr "-" then
        v ← dec_value a' 0; Ok (Z.max (- 2 ^ 63) (- v))
      else
        v ← dec_value (if c =? chr "+" then a' else a) 0;
        Ok (Z.min (2 ^ 63 - 1) v)
  end.

(** [atoi]: the [long] truncated to [int]. *)
Definition atoi (a : list Z) : res Z := v ← strtol10 a; Ok (int32 v).

(** The decimal digits of [n >= 0], most significant first. *)
Fixpoint dec_digits (fuel : nat) (n : Z) (acc : list Z) : list Z :=
  match fuel with
  | O => acc
  | S fuel' =>
      let acc' := (48 + n `mod` 10) :: acc in
      if n <? 10 then acc' else dec_digits fuel' (n / 10) acc'
  end.

(** [%d]: twenty digits are enough for every 64-bit value. *)
Definition show_nat (n : Z) : list Z := dec_digits 20 n [].
Definition show_int (z : Z) : list Z :=
  if z <? 0 then chr "-" :: show_nat (- z) else show_nat z.

(** [%0wd]: zero padded to width [w], the sign first. *)
Definition show_pad (w : nat) (z : Z) : list Z :=
  let d := show_nat (Z.abs z) in
  if z <? 0 then chr "-" :: replicate (w - 1 - length d) (chr "0") ++ d
  else replicate (w - length d) (chr "0") ++ d.

#[global] Arguments dec_digits : simpl never.
#[global] Arguments show_nat : simpl never.
#[global] Arguments show_int : simpl never.
#[global] Arguments show_pad : simpl never.

(** A well-formed C string value: bytes other than NUL. *)
Definition str_ok (s : list Z) : Prop := Forall (λ c, 0 < c < 256) s.

(** ** Lemmas on reading *)

Lemma str_ok_no_nul s c : str_ok s → c ∈ s → c ≠ 0.
Proof. intros Hs Hc. eapply Forall_forall in Hs; [|done]. simpl in Hs. lia. Qed.

Lemma cstr_app s r : str_ok s → cstr (s ++ 0 :: r) = Ok s.
Proof.
  induction 1 as [|c s Hc Hs IH]; simpl; [done|].
  destruct (Z.eqb_spec c 0); [lia|]. by rewrite IH.
Qed.

Lemma cstr_split a s : cstr a = Ok s → ∃ r, a = s ++ 0 :: r ∧ Forall (λ c, c ≠ 0) s.
Proof.
  revert s. induction a as [|c a IH]; simpl; intros s H; [done|].
  destruct (Z.eqb_spec c 0) as [->|Hc].
  - injection H as <-. by exists a.
  - apply res_bind_Ok in H as (s' & Hs' & [= <-]).
    destruct (IH _ Hs') as (r & -> & Hf). exists r. by split; [|constructor].
Qed.

Lemma cstr_app_ne s r : Forall (λ c, c ≠ 0) s → cstr (s ++ 0 :: r) = Ok s.
Proof.
  induction 1 as [|c s Hc Hs IH]; simpl; [done|].
  destruct (Z.eqb_spec c 0); [lia|]. by rewrite IH.
Qed.

Lemma cstr_prefix a s r : cstr a = Ok s → cstr (a ++ r) = Ok s.
Proof.
  intros (r' & -> & Hf)%cstr_split. rewrite <-app_assoc. simpl. by apply cstr_app_ne.
Qed.

Lemma cstr_length a s : cstr a = Ok s → (length s < length a)%nat.
Proof. intros (r & -> & _)%cstr_split. len. Qed.

Lemma cstr_full a : Forall (λ c, c ≠ 0) a → cstr a = Bad Unterminated.
Proof.
  induction 1 as [|c a Hc Ha IH]; simpl; [done|].
  destruct (Z.eqb_spec c 0); [done|]. by rewrite IH.
Qed.

Lemma cstr_zeros n r : (0 < n)%nat → cstr (zeros n ++ r) = Ok [].
Proof. destruct n; [lia|done]. Qed.

Lemma strlen_app s r : str_ok s → strlen (s ++ 0 :: r) = Ok (Z.of_nat (length s)).
Proof. intros. unfold strlen. by rewrite cstr_app. Qed.

Lemma strlen_ne s r : Forall (λ c, c ≠ 0) s → strlen (s ++ 0 :: r) = Ok (Z.of_nat (length s)).
Proof. intros. unfold strlen. by rewrite cstr_app_ne. Qed.

Lemma strchr_found k v c :
  Forall (λ x, x ≠ 0 ∧ x ≠ c) k → strchr (k ++ c :: v) c = Ok (Some (length k)).
Proof.
  induction 1 as [|x k [H0 Hx] Hk IH]; simpl; [by rewrite Z.eqb_refl|].
  destruct (Z.eqb_spec x c); [done|]. destruct (Z.eqb_spec x 0); [done|]. by rewrite IH.
Qed.

Lemma strchr_none s r c :
  c ≠ 0 → Forall (λ x, x ≠ 0 ∧ x ≠ c) s → strchr (s ++ 0 :: r) c = Ok None.
Proof.
  intros Hc. induction 1 as [|x s [H0 Hx] Hs IH]; simpl.
  - by destruct (Z.eqb_spec 0 c).
  - destruct (Z.eqb_spec x c); [done|]. destruct (Z.eqb_spec x 0); [done|]. by rewrite IH.
Qed.

(** [strchr] splits the string at the first occurrence. *)
Lemma strchr_split a c i : c ≠ 0 → strchr a c = Ok (Some i) →
  ∃ k v, a = k ++ c :: v ∧ length k = i ∧ Forall (λ x, x ≠ 0 ∧ x ≠ c) k.
Proof.
  intros Hc. revert i. induction a as [|x a IH]; simpl; intros i H; [done|].
  destruct (Z.eqb_spec x c) as [->|Hx].
  - injection H as <-. by exists [], a.
  - destruct (Z.eqb_spec x 0); [done|].
    apply res_bind_Ok in H as ([j|] & Hj & [= <-]).
    destruct (IH _ Hj) as (k & v & -> & <- & Hf).
    exists (x :: k), v. repeat split. by constructor.
Qed.

(** [strcmp] returns 0 exactly when the two strings are the same. *)
Lemma strcmp_eq s r1 r2 :
  Forall (λ c, c ≠ 0) s → strcmp (s ++ 0 :: r1) (s ++ 0 :: r2) = Ok 0.
Proof.
  induction 1 as [|c s Hc Hs IH]; simpl; [done|].
  rewrite Z.eqb_refl. simpl. by destruct (Z.eqb_spec c 0).
Qed.

Lemma strcmp_cstr a b s t :
  cstr a = Ok s → cstr b = Ok t →
  ∃ d, strcmp a b = Ok d ∧ (d = 0 ↔ s = t).
Proof.
  revert b s t. induction a as [|x a IH]; intros [|y b] s t Ha Hb; simpl in *; try done.
  destruct (Z.eqb_spec x 0) as [->|Hx]; destruct (Z.eqb_spec y 0) as [->|Hy].
  - simplify_eq. by exists 0.
  - apply res_bind_Ok in Hb as (t' & Ht' & [= <-]). simplify_eq.
    destruct (Z.eqb_spec 0 y); [lia|]. exists (0 - y). split; [done|]. split; [lia|done].
  - apply res_bind_Ok in Ha as (s' & Hs' & [= <-]). simplify_eq.
    destruct (Z.eqb_spec x 0); [lia|]. exists (x - 0). split; [done|]. split; [lia|done].
  - apply res_bind_Ok in Ha as (s' & Hs' & [= <-]).
    apply res_bind_Ok in Hb as (t' & Ht' & [= <-]).
    destruct (Z.eqb_spec x y) as [->|Hxy]; simpl.
    + destruct (IH b s' t' Hs' Ht') as (d & Hd & Hiff).
      exists d. split; [done|]. rewrite Hiff. split; [congruence|by intros [= ->]].
    + exists (x - y). split; [done|]. split; [lia|]. by intros [= ->].
Qed.

(** ** Lemmas on writing *)

Lemma blit_ok dst off src :
  (off + length src ≤ length dst)%nat →
  blit dst off src = Ok (take off dst ++ src ++ drop (off + length src) dst).
Proof. intros. unfold blit. by rewrite decide_True. Qed.

Lemma blit_over dst off src :
  (length dst < off + length src)%nat → blit dst off src = Bad OutOfBounds.
Proof. intros. unfold blit. rewrite decide_False; [done|lia]. Qed.

Lemma blit_length dst off src d : blit dst off src = Ok d → length d = length dst.
Proof. unfold blit. case_decide; [|done]. intros [= <-]. len. Qed.

Lemma blit_0 dst src :
  (length src ≤ length dst)%nat →
  blit dst 0 src = Ok (src ++ drop (length src) dst).
Proof. intros. rewrite blit_ok; [done|lia]. Qed.

(** Storing after a prefix of known length. *)
Lemma blit_app p q src :
  (length src ≤ length q)%nat →
  blit (p ++ q) (length p) src = Ok (p ++ src ++ drop (length src) q).
Proof.
  intros. rewrite blit_ok by len. rewrite take_app_length. f_equal.
  by rewrite drop_app_add.
Qed.

(** An array that holds the string [s]: [s], its NUL, and unread bytes. *)
Definition holds (a s : list Z) : Prop := cstr a = Ok s.

Lemma holds_app s r : str_ok s → holds (s ++ 0 :: r) s.
Proof. apply cstr_app. Qed.

Lemma strcpy_holds dst src s :
  holds src s → (length s < length dst)%nat →
  strcpy dst src = Ok (s ++ 0 :: drop (S (length s)) dst) ∧
  holds (s ++ 0 :: drop (S (length s)) dst) s.
Proof.
  intros Hs Hl. unfold strcpy, strcpy_at. rewrite Hs. simpl.
  rewrite blit_0 by len. split.
  - rewrite length_app. simpl. rewrite Nat.add_1_r. f_equal. by rewrite <-app_assoc.
  - apply cstr_split in Hs as (r & -> & Hf). by apply cstr_app_ne.
Qed.

Lemma strcpy_over dst src s :
  holds src s → (length dst ≤ length s)%nat → strcpy dst src = Bad OutOfBounds.
Proof.
  intros Hs Hl. unfold strcpy, strcpy_at. rewrite Hs. simpl. apply blit_over. len.
Qed.

Lemma strcat_holds dst src d s :
  holds dst d → holds src s → (length d + length s < length dst)%nat →
  ∃ a, strcat dst src = Ok a ∧ holds a (d ++ s) ∧ length a = length dst ∧
       a = d ++ s ++ 0 :: drop (S (length d + length s)) dst.
Proof.
  intros Hd Hs Hl. unfold strcat, strcpy_at. rewrite Hd. simpl. rewrite Hs. simpl.
  apply cstr_split in Hd as (r & -> & Hfd). apply cstr_split in Hs as (r' & -> & Hfs).
  rewrite blit_app by len. eexists; split; [done|]. split; [|split].
  - unfold holds. rewrite <-!app_assoc. rewrite app_assoc. apply cstr_app_ne.
    by apply Forall_app.
  - len.
  - rewrite <-app_assoc. do 3 f_equal. rewrite length_app. simpl.
    rewrite Nat.add_1_r. replace (S (length d + length s)) with (length d + S (length s))%nat by lia.
    by rewrite drop_app_add.
Qed.

Lemma strn_exact n src :
  (n ≤ length src)%nat → Forall (λ c, c ≠ 0) (take n src) → strn n src = Ok (take n src).
Proof.
  revert src. induction n as [|n IH]; intros [|c src] Hl Hf; simpl in *; try done; [lia|].
  inversion Hf; subst. destruct (Z.eqb_spec c 0); [done|]. rewrite IH; [done|lia|done].
Qed.

Lemma strn_pad n s r :
  Forall (λ c, c ≠ 0) s → (length s ≤ n)%nat →
  strn n (s ++ 0 :: r) = Ok (s ++ replicate (n - length s) 0).
Proof.
  intros Hf. revert n. induction Hf as [|c s Hc Hs IH]; intros n Hl; simpl in *.
  - destruct n; done.
  - destruct n as [|n]; [lia|]. simpl. destruct (Z.eqb_spec c 0); [done|].
    rewrite IH by lia. done.
Qed.

Lemma strn_length n src r : strn n src = Ok r → length r = n.
Proof.
  revert src r. induction n as [|n IH]; intros [|c src] r; simpl; intros H; simplify_eq; try done.
  destruct (c =? 0); [simplify_eq; simpl; by rewrite length_replicate|].
  apply res_bind_Ok in H as (r' & Hr & [= <-]). simpl. f_equal. eauto.
Qed.

Lemma memcpy_ok dst off src n :
  (n ≤ length src)%nat → (off + n ≤ length dst)%nat →
  memcpy dst off src n = Ok (take off dst ++ take n src ++ drop (off + n) dst).
Proof.
  intros. unfold memcpy. rewrite decide_True by done.
  rewrite blit_ok by len. rewrite length_take. by rewrite Nat.min_l.
Qed.

(** ** Zero-padded arrays

    An array that starts zeroed and is only written through the string
    functions holds a string followed by zeros up to its length. *)

Abbreviation nz s := (Forall (λ c : Z, c ≠ 0) s).

Definition pad_to (n : nat) (l : list Z) : list Z := l ++ replicate (n - length l) 0.

Lemma pad_to_length n s : (length s ≤ n)%nat → length (pad_to n s) = n.
Proof. intros. unfold pad_to. len. Qed.

Lemma pad_to_split n s : (length s < n)%nat → pad_to n s = s ++ 0 :: replicate (n - S (length s)) 0.
Proof.
  intros. unfold pad_to. replace (n - length s)%nat with (S (n - S (length s))) by lia. done.
Qed.

Lemma pad_to_nil n : pad_to n [] = zeros n.
Proof. unfold pad_to, zeros. simpl. by rewrite Nat.sub_0_r. Qed.

Lemma cstr_pad n s : nz s → (length s < n)%nat → cstr (pad_to n s) = Ok s.
Proof. intros. rewrite pad_to_split by done. by apply cstr_app_ne. Qed.

Lemma strlen_pad n s : nz s → (length s < n)%nat → strlen (pad_to n s) = Ok (Z.of_nat (length s)).
Proof. intros. unfold strlen. by rewrite cstr_pad. Qed.

Lemma drop_pad n s k : (length s ≤ k)%nat → drop k (pad_to n s) = replicate (n - k) 0.
Proof.
  intros. unfold pad_to. rewrite drop_app_ge by lia. rewrite drop_replicate. f_equal. lia.
Qed.

Lemma strcpy_pad n old src s :
  cstr src = Ok s → (length old ≤ length s)%nat → (length s < n)%nat →
  strcpy (pad_to n old) src = Ok (pad_to n s).
Proof.
  intros Hs Ho Hl. destruct (strcpy_holds (pad_to n old) src s) as [-> _]; [done|..].
  { rewrite pad_to_length; lia. }
  rewrite drop_pad by lia. by rewrite pad_to_split.
Qed.

Lemma strcpy_zeros n src s :
  cstr src = Ok s → (length s < n)%nat → strcpy (zeros n) src = Ok (pad_to n s).
Proof. intros. rewrite <-pad_to_nil. apply strcpy_pad; simpl; [done|lia..]. Qed.

Lemma strcat_pad n d src s :
  nz d → cstr src = Ok s → (length d + length s < n)%nat →
  strcat (pad_to n d) src = Ok (pad_to n (d ++ s)).
Proof.
  intros Hd Hs Hl. destruct (strcat_holds (pad_to n d) src d s) as (a & Ha & _ & _ & ->).
  - apply cstr_pad; [done|lia].
  - done.
  - rewrite pad_to_length; lia.
  - rewrite Ha, drop_pad by lia. rewrite pad_to_split by len. rewrite <-app_assoc.
    do 3 f_equal. rewrite length_app. done.
Qed.

Lemma strcmp_pad a n b :
  nz a → nz b → (length b < n)%nat →
  ∃ d, strcmp (a ++ [0]) (pad_to n b) = Ok d ∧ (d = 0 ↔ a = b).
Proof. intros. apply strcmp_cstr; [by apply cstr_app_ne|by apply cstr_pad]. Qed.

Lemma memcpy_pad n m old s :
  (length old ≤ length s)%nat → (length s ≤ n)%nat → (length s ≤ m)%nat →
  memcpy (pad_to n old) 0 (pad_to m s) (length s) = Ok (pad_to n s).
Proof.
  intros Ho Hn Hm. rewrite memcpy_ok by (rewrite pad_to_length by lia; lia).
  rewrite take_0, Nat.add_0_l, drop_pad by lia. cbn [app].
  unfold pad_to at 1. by rewrite take_app_length.
Qed.

Lemma memcpy_all n s : length s = n → memcpy (zeros n) 0 s n = Ok s.
Proof.
  intros <-. rewrite memcpy_ok by (unfold zeros; len).
  rewrite take_0, firstn_all, drop_ge by (unfold zeros; len). by rewrite app_nil_r.
Qed.

Lemma memset_zero a n : length a = n → memset a 0 n = Ok (zeros n).
Proof.
  intros <-. unfold memset. rewrite blit_0 by len.
  rewrite drop_ge by len. by rewrite app_nil_r.
Qed.

Lemma str_ok_nz s : str_ok s → nz s.
Proof. intros. eapply Forall_impl; [done|]. simpl. lia. Qed.

Lemma lit_nz_dec s : bool_decide (nz (lit s)) = true → nz (lit s).
Proof. apply bool_decide_eq_true. Qed.

(** Literals contain no NUL. *)
Ltac nz_lit := first [ apply lit_nz_dec; vm_compute; reflexivity
                     | repeat constructor; vm_compute; congruence ].

Create HintDb c_str.
#[export] Hint Resolve holds_app cstr_app cstr_app_ne str_ok_nz : c_str.

(** ** Decimal round trip *)

Definition all_digits (l : list Z) : Prop := Forall (λ c, 48 ≤ c ≤ 57) l.

Lemma dec_value_app d c r acc :
  all_digits d → is_digit c = false →
  dec_value (d ++ c :: r) acc =
  Ok (foldl (λ a x, a * 10 + (x - 48)) acc d).
Proof.
  intros Hd Hc. revert acc. induction Hd as [|x d Hx Hd IH]; intros acc; simpl.
  - by rewrite Hc.
  - unfold is_digit. destruct (Z.leb_spec 48 x), (Z.leb_spec x 57); try lia. simpl. apply IH.
Qed.

Lemma dec_digits_S fuel n acc :
  dec_digits (S fuel) n acc =
  if n <? 10 then (48 + n `mod` 10) :: acc else dec_digits fuel (n / 10) ((48 + n `mod` 10) :: acc).
Proof. done. Qed.

Lemma dec_digits_spec fuel : ∀ n acc,
  0 ≤ n < 10 ^ Z.of_nat fuel → (0 < fuel)%nat →
  ∃ d, dec_digits fuel n acc = d ++ acc ∧ all_digits d ∧ d ≠ [] ∧
       (length d ≤ fuel)%nat ∧
       (∀ k : nat, n < 10 ^ Z.of_nat k → (0 < k)%nat → (length d ≤ k)%nat) ∧
       (∀ k : nat, (0 < k)%nat → 10 ^ (Z.of_nat k - 1) ≤ n → (k ≤ length d)%nat) ∧
       foldl (λ a x, a * 10 + (x - 48)) 0 d = n.
Proof.
  induction fuel as [|fuel IH]; intros n acc Hn Hf; [lia|]. rewrite dec_digits_S.
  pose proof (Z.mod_pos_bound n 10 ltac:(lia)) as Hm.
  destruct (Z.ltb_spec n 10) as [Hs|Hb].
  - exists [48 + n `mod` 10]. rewrite Z.mod_small by lia. split; [done|].
    split; [repeat constructor; lia|]. split; [done|]. simpl. split; [lia|].
    split; [lia|]. split; [|lia]. intros [|[|k]] ??; [lia..|].
    assert (10 ≤ 10 ^ (Z.of_nat (S (S k)) - 1)); [|lia].
    rewrite <-(Z.pow_1_r 10) at 1. apply Z.pow_le_mono_r; lia.
  - assert (fuel ≠ 0)%nat by (intros ->; simpl in Hn; lia).
    assert (10 ^ Z.of_nat (S fuel) = 10 * 10 ^ Z.of_nat fuel) as Hp.
    { rewrite Nat2Z.inj_succ, Z.pow_succ_r; lia. }
    destruct (IH (n / 10) ((48 + n `mod` 10) :: acc)) as (d & Hd & Ha & Hne & Hl & Hub & Hlb & Hv).
    { split; [apply Z.div_pos; lia|]. apply Z.div_lt_upper_bound; lia. }
    { lia. }
    exists (d ++ [48 + n `mod` 10]). rewrite Hd, <-app_assoc. split; [done|].
    split; [apply Forall_app; split; [done|repeat constructor; lia]|].
    split; [by destruct d|]. rewrite length_app. simpl. split; [lia|].
    split; [|split].
    + intros [|[|k]] Hk ?; [lia| |].
      { change (10 ^ Z.of_nat 1) with 10 in Hk. lia. }
      specialize (Hub (S k)). rewrite Nat.add_1_r. apply le_n_S, Hub; [|lia].
      rewrite Nat2Z.inj_succ, Z.pow_succ_r in Hk by lia.
      apply Z.div_lt_upper_bound; lia.
    + intros [|[|k]] ? Hk; [lia..|]. specialize (Hlb (S k) ltac:(lia)).
      rewrite Nat.add_1_r. apply le_n_S, Hlb.
      replace (Z.of_nat (S (S k)) - 1) with (Z.succ (Z.of_nat (S k) - 1)) in Hk by lia.
      rewrite Z.pow_succ_r in Hk by lia. apply Z.div_le_lower_bound; lia.
    + rewrite foldl_app. simpl. rewrite Hv. pose proof (Z.div_mod n 10). lia.
Qed.

Lemma show_nat_spec n :
  0 ≤ n < 10 ^ 20 →
  all_digits (show_nat n) ∧ show_nat n ≠ [] ∧
  foldl (λ a x, a * 10 + (x - 48)) 0 (show_nat n) = n.
Proof.
  intros Hn. destruct (dec_digits_spec 20 n []) as (d & Hd & Ha & Hne & _ & _ & _ & Hv); [done|lia|].
  unfold show_nat. rewrite Hd, app_nil_r. done.
Qed.

Lemma show_nat_length n k :
  0 ≤ n < 10 ^ Z.of_nat k → (0 < k ≤ 20)%nat →
  (1 ≤ length (show_nat n) ≤ k)%nat ∧
  (10 ^ (Z.of_nat k - 1) ≤ n → length (show_nat n) = k).
Proof.
  intros Hn Hk.
  assert (10 ^ Z.of_nat k ≤ 10 ^ 20) by (apply Z.pow_le_mono_r; lia).
  destruct (dec_digits_spec 20 n []) as (d & Hd & Ha & Hne & _ & Hub & Hlb & _); [simpl in *; lia|lia|].
  unfold show_nat. rewrite Hd, app_nil_r. specialize (Hub k ltac:(lia) ltac:(lia)).
  split; [destruct d; [done|simpl in *; lia]|].
  intros Hle. specialize (Hlb k ltac:(lia) Hle). lia.
Qed.

Lemma digits_str_ok d : all_digits d → str_ok d.
Proof. intros. eapply Forall_impl; [done|]. simpl. lia. Qed.

Lemma show_nat_str_ok n : 0 ≤ n < 10 ^ 20 → str_ok (show_nat n).
Proof. intros. apply digits_str_ok, show_nat_spec; done. Qed.

Lemma show_int_str_ok z : - 10 ^ 20 < z < 10 ^ 20 → str_ok (show_int z).
Proof.
  intros Hz. unfold show_int. bcase.
  - constructor; [by vm_compute|]. apply show_nat_str_ok. lia.
  - apply show_nat_str_ok. lia.
Qed.

Lemma digit_not_space c : 48 ≤ c ≤ 57 → is_space c = false.
Proof.
  intros. unfold is_space. destruct (Z.eqb_spec c 32), (Z.leb_spec 9 c), (Z.leb_spec c 13);
    try lia; done.
Qed.

(** [atoi] reads back what [%d] wrote, whatever non-digit follows it. *)
Lemma atoi_show_int z c r :
  - 2 ^ 31 ≤ z < 2 ^ 31 → is_digit c = false → atoi (show_int z ++ c :: r) = Ok z.
Proof.
  intros Hz Hc. unfold atoi, strtol10, show_int.
  destruct (Z.ltb_spec z 0) as [Hneg|Hpos].
  - destruct (show_nat_spec (- z)) as (Hd & Hne & Hv); [lia|].
    change (skip_space ((chr "-" :: show_nat (- z)) ++ c :: r))
      with (Ok (chr "-" :: show_nat (- z) ++ c :: r)).
    simpl mbind. change (chr "-" =? chr "-") with true. cbv iota.
    rewrite dec_value_app by done. rewrite Hv. simpl. f_equal.
    rewrite Z.max_r by lia. rewrite int32_small; lia.
  - destruct (show_nat_spec z) as (Hd & Hne & Hv); [lia|].
    destruct (show_nat z) as [|x d] eqn:E; [done|].
    assert (48 ≤ x ≤ 57) as Hx by (by inversion Hd).
    simpl app. simpl skip_space. rewrite digit_not_space by done. cbn [mbind res_bind].
    destruct (Z.eqb_spec x (chr "-")) as [Hx'|_]; [vm_compute in Hx'; lia|].
    destruct (Z.eqb_spec x (chr "+")) as [Hx'|_]; [vm_compute in Hx'; lia|].
    change (x :: d ++ c :: r) with ((x :: d) ++ c :: r).
    rewrite dec_value_app by done. rewrite Hv. simpl. f_equal.
    rewrite Z.min_r by lia. by rewrite int32_small.
Qed.

Lemma show_int_inj a b :
  - 2 ^ 31 ≤ a < 2 ^ 31 → - 2 ^ 31 ≤ b < 2 ^ 31 → show_int a = show_int b → a = b.
Proof.
  intros Ha Hb E. pose proof (atoi_show_int a 0 [] Ha eq_refl) as H1.
  rewrite E, (atoi_show_int b 0 [] Hb eq_refl) in H1. by injection H1.
Qed.

(** The value of a string of decimal digits. *)
Definition dvalue (l : list Z) : Z := foldl (λ a x, a * 10 + (x - 48)) 0 l.

Lemma foldl_digits acc l :
  foldl (λ a x, a * 10 + (x - 48)) acc l = acc * 10 ^ Z.of_nat (length l) + dvalue l.
Proof.
  unfold dvalue. revert acc. induction l as [|c l IH]; intros acc; cbn [foldl length].
  - change (10 ^ Z.of_nat 0) with 1. lia.
  - rewrite IH, (IH (0 * 10 + (c - 48))), Nat2Z.inj_succ, Z.pow_succ_r by lia. lia.
Qed.

Lemma dvalue_cons c l : dvalue (c :: l) = (c - 48) * 10 ^ Z.of_nat (length l) + dvalue l.
Proof. unfold dvalue at 1. cbn [foldl]. rewrite foldl_digits. lia. Qed.

Lemma dvalue_range l : all_digits l → 0 ≤ dvalue l < 10 ^ Z.of_nat (length l).
Proof.
  induction 1 as [|c l Hc Hl IH]; [done|]. rewrite dvalue_cons. cbn [length].
  rewrite Nat2Z.inj_succ, Z.pow_succ_r by lia. nia.
Qed.

(** A positive number is written without leading zeros. *)
Lemma show_nat_head n :
  0 < n < 10 ^ 20 → ∃ x d, show_nat n = x :: d ∧ 49 ≤ x ≤ 57.
Proof.
  intros Hn. destruct (show_nat_spec n) as (Hd & Hne & Hv); [lia|].
  destruct (show_nat n) as [|x d] eqn:E; [done|]. exists x, d. split; [done|].
  inversion_clear Hd as [|?? Hx Hds]. destruct (decide (x = 48)) as [->|]; [|lia]. exfalso.
  fold (dvalue (48 :: d)) in Hv. rewrite dvalue_cons in Hv. pose proof (dvalue_range d Hds) as Hr.
  assert (length d < 20)%nat as Hl.
  { destruct (dec_digits_spec 20 n []) as (l & El & _ & _ & Hll & _); [simpl; lia|lia|].
    unfold show_nat in E. rewrite El, app_nil_r in E. subst l. simpl in Hll. lia. }
  destruct d as [|y d]; [simpl in *; lia|].
  pose proof (show_nat_length n (length (y :: d)) ltac:(lia) ltac:(simpl in *; lia)) as [[_ Hle] _].
  rewrite E in Hle. simpl in Hle. lia.
Qed.

(** Conversions are unfolded by evaluation only. *)
#[global] Opaque show_nat.
