(* ===== verification/Itoa.v ===== *)
(** * glibc: writing numbers

    [_itoa_word] of [glibc-2.27/stdio-common/_itoa.c], which produces the digits
    of every [%d], [%u], [%x] and [%o] the program formats: it fills a buffer
    from its end downwards, one remainder at a time.  The theorems: it stops, stays inside a
    buffer of 64 bytes for every base, the text it writes is the numeral of the
    value, and in base 10 that is the text the program is verified with. *)

From S2P Require Import Prelude CString.

Definition _itoa_lower_digits : list Z := lit "0123456789abcdefghijklmnopqrstuvwxyz".
Definition _itoa_upper_digits : list Z := lit "0123456789ABCDEFGHIJKLMNOPQRSTUVWXYZ".

(** [do *--buflim = digits[value % base]; while ((value /= base) != 0)]; [lim]
    is where [buflim] points in [buf]. *)
Fixpoint itoa_loop (fuel : nat) (digits : list Z) (base value : Z) (buf : list Z) (lim : nat) : res (nat * list Z) :=
  match fuel, lim with
  | O, _ => Bad Unspecified
  | S _, O => Bad OutOfBounds
  | S fuel', S p =>
      match digits !! Z.to_nat (value `mod` base) with
      | None => Bad OutOfBounds
      | Some c =>
          buf ← blit buf p [c];
          let value := value / base in
          if value =? 0 then Ok (p, buf) else itoa_loop fuel' digits base value buf p
      end
  end.

(** [char *_itoa_word (_ITOA_WORD_TYPE value, char *buflim, unsigned int base,
    int upper_case)]: where the text starts, and the buffer.  A 64-bit value has
    at most 64 digits. *)
Definition _itoa_word (value : Z) (buf : list Z) (buflim : nat) (base : Z) (upper_case : bool) : res (nat * list Z) :=
  itoa_loop 64 (if upper_case then _itoa_upper_digits else _itoa_lower_digits) base value buf buflim.

(** ** The digits of a value *)

(** The digits of [value], least significant first. *)
Fixpoint remainders (fuel : nat) (base value : Z) : list Z :=
  match fuel with
  | O => []
  | S fuel' => value `mod` base :: if value / base =? 0 then [] else remainders fuel' base (value / base)
  end.

Lemma remainders_value fuel base : 2 ≤ base → ∀ value, 0 ≤ value < base ^ Z.of_nat fuel → (0 < fuel)%nat →
  foldr (λ d a, a * base + d) 0 (remainders fuel base value) = value ∧
  Forall (λ d, 0 ≤ d < base) (remainders fuel base value) ∧ (1 ≤ length (remainders fuel base value) ≤ fuel)%nat.
Proof.
  intros Hb. induction fuel as [|fuel IH]; intros value Hv Hf; [lia|]. cbn [remainders foldr].
  pose proof (Z.mod_pos_bound value base ltac:(lia)) as Hm. pose proof (Z.div_mod value base ltac:(lia)) as Hdm.
  rewrite Nat2Z.inj_succ, Z.pow_succ_r in Hv by lia.
  assert (0 ≤ value / base < base ^ Z.of_nat fuel) as Hq by (split; [apply Z.div_pos; lia|apply Z.div_lt_upper_bound; lia]).
  destruct (Z.eqb_spec (value / base) 0) as [E|E].
  - cbn. split_and!; [lia|repeat constructor; lia|lia|lia].
  - destruct fuel as [|fuel]; [change (base ^ Z.of_nat 0) with 1 in Hq; lia|].
    destruct (IH (value / base) Hq ltac:(lia)) as (E1 & E2 & E3).
    remember (remainders (S fuel) base (value / base)) as ds. cbn [foldr length]. rewrite E1.
    split_and!; [lia|by constructor|lia|lia].
Qed.

Lemma foldl_reverse {A B} (f : A → B → A) a l : foldl f a (reverse l) = foldr (λ b a, f a b) a l.
Proof. induction l as [|b l IH]; [done|]. rewrite reverse_cons, foldl_app, IH. done. Qed.

Lemma itoa_loop_spec digits base : 2 ≤ base ≤ 36 → length digits = 36%nat → ∀ (fuel : nat) (value : Z) (buf : list Z) (lim : nat),
  0 ≤ value < base ^ Z.of_nat fuel → (0 < fuel)%nat →
  let ds := remainders fuel base value in
  (length ds ≤ lim ≤ length buf)%nat →
  itoa_loop fuel digits base value buf lim =
  Ok ((lim - length ds)%nat,
      take (lim - length ds) buf ++ ((λ d, nth (Z.to_nat d) digits 0) <$> reverse ds) ++ drop lim buf).
Proof.
  intros Hb Hd. induction fuel as [|fuel IH]; intros value buf lim Hv Hf ds Hl; [lia|]. subst ds.
  destruct (remainders_value (S fuel) base ltac:(lia) value Hv ltac:(lia)) as (_ & _ & Hlen).
  cbn [itoa_loop remainders] in *.
  pose proof (Z.mod_pos_bound value base ltac:(lia)) as Hm.
  rewrite Nat2Z.inj_succ, Z.pow_succ_r in Hv by lia.
  assert (0 ≤ value / base < base ^ Z.of_nat fuel) as Hq by (split; [apply Z.div_pos; lia|apply Z.div_lt_upper_bound; lia]).
  destruct lim as [|p]; [cbn in Hl; lia|].
  destruct (lookup_lt_is_Some_2 digits (Z.to_nat (value `mod` base)) ltac:(lia)) as [c Hc]. rewrite Hc.
  assert (nth (Z.to_nat (value `mod` base)) digits 0 = c) as Hn by (by apply nth_lookup_Some).
  rewrite blit_ok by (cbn; lia). cbn [mbind res_bind length].
  destruct (Z.eqb_spec (value / base) 0) as [E|E].
  - cbn [length reverse]. replace (S p - 1)%nat with p by lia. cbn. rewrite Hn. by rewrite Nat.add_1_r.
  - destruct fuel as [|fuel]; [change (base ^ Z.of_nat 0) with 1 in Hq; lia|].
    remember (remainders (S fuel) base (value / base)) as rest eqn:Er. cbn [length] in Hl.
    rewrite IH; [|done|lia|rewrite <-Er, !length_app, length_take, length_drop; cbn; lia].
    rewrite <-Er. do 2 f_equal. rewrite reverse_cons, fmap_app, <-app_assoc. cbn [fmap list_fmap app]. rewrite Hn.
    rewrite take_app_le by (rewrite length_take; lia). rewrite take_take, Nat.min_l by lia. cbn [length].
    replace (S p - S (length rest))%nat with (p - length rest)%nat by lia. f_equal.
    f_equal. rewrite drop_app_length' by (rewrite length_take; lia). cbn [app]. by rewrite Nat.add_1_r.
Qed.

(** ** Theorems *)

(** [_itoa_word] stops for every 64-bit value and every base from 2 to 36, never
    writes below the start of a buffer of 64 bytes or above [buflim], and what it
    leaves before [buflim] is the numeral: digits below the base whose value is [value]. *)
Theorem itoa_word_numeral value buf lim base upper :
  0 ≤ value < 2 ^ 64 → 2 ≤ base ≤ 36 → (64 ≤ lim ≤ length buf)%nat →
  let digits := if upper : bool then _itoa_upper_digits else _itoa_lower_digits in
  ∃ start ds, _itoa_word value buf lim base upper =
      Ok (start, take start buf ++ ((λ d, nth (Z.to_nat d) digits 0) <$> ds) ++ drop lim buf) ∧
    (start + length ds = lim)%nat ∧ (1 ≤ length ds ≤ 64)%nat ∧ Forall (λ d, 0 ≤ d < base) ds ∧
    foldl (λ a d, a * base + d) 0 ds = value.
Proof.
  intros Hv Hb Hl digits. assert (0 ≤ value < base ^ Z.of_nat 64) as Hv'.
  { split; [lia|]. eapply Z.lt_le_trans; [apply Hv|]. apply (Z.pow_le_mono_l 2 base 64). lia. }
  destruct (remainders_value 64 base ltac:(lia) value Hv' ltac:(lia)) as (E1 & E2 & E3).
  exists (lim - length (remainders 64 base value))%nat, (reverse (remainders 64 base value)).
  unfold _itoa_word. fold digits. rewrite itoa_loop_spec; [|done|by unfold digits; destruct upper|done|lia|lia].
  rewrite length_reverse. split_and!; [done|lia|lia|lia|by apply Forall_reverse|].
  rewrite foldl_reverse. exact E1.
Qed.

(** More fuel than the value has digits changes nothing. *)
Lemma remainders_fuel base fuel extra value : 2 ≤ base → 0 ≤ value < base ^ Z.of_nat fuel → (0 < fuel)%nat →
  remainders (fuel + extra) base value = remainders fuel base value.
Proof.
  intros Hb. revert value. induction fuel as [|f IH]; intros v Hv' Hf; [lia|]. cbn [remainders Nat.add]. f_equal.
  destruct (Z.eqb_spec (v / base) 0); [done|]. rewrite Nat2Z.inj_succ, Z.pow_succ_r in Hv' by lia.
  assert (0 ≤ v / base < base ^ Z.of_nat f) as Hq by (split; [apply Z.div_pos; lia|apply Z.div_lt_upper_bound; lia]).
  apply IH; [done|]. destruct f; [change (base ^ Z.of_nat 0) with 1 in Hq; lia|lia].
Qed.

Lemma lower_digit m : 0 ≤ m < 10 → nth (Z.to_nat m) _itoa_lower_digits 0 = 48 + m.
Proof.
  intros Hm. assert (Forall (λ m, nth (Z.to_nat m) _itoa_lower_digits 0 = 48 + m) (seqZ 0 10)) as HF
    by (vm_compute; repeat constructor).
  apply (proj1 (Forall_forall _ _) HF), elem_of_seqZ. lia.
Qed.

Lemma remainders_digits fuel : ∀ value acc, 0 ≤ value < 10 ^ Z.of_nat fuel → (0 < fuel)%nat →
  ((λ d, nth (Z.to_nat d) _itoa_lower_digits 0) <$> reverse (remainders fuel 10 value)) ++ acc = dec_digits fuel value acc.
Proof.
  induction fuel as [|fuel IH]; intros value acc Hv Hf; [lia|]. rewrite dec_digits_S. cbn [remainders].
  pose proof (Z.mod_pos_bound value 10 ltac:(lia)) as Hm. rewrite Nat2Z.inj_succ, Z.pow_succ_r in Hv by lia.
  assert (0 ≤ value / 10 < 10 ^ Z.of_nat fuel) as Hq by (split; [apply Z.div_pos; lia|apply Z.div_lt_upper_bound; lia]).
  assert (nth (Z.to_nat (value `mod` 10)) _itoa_lower_digits 0 = 48 + value `mod` 10) as Hd by (by apply lower_digit).
  destruct (Z.ltb_spec value 10) as [Hs|Hs].
  - rewrite (Z.div_small value 10) by lia. cbn [Z.eqb]. rewrite reverse_singleton. cbn [fmap list_fmap app]. by rewrite Hd.
  - assert (value / 10 ≠ 0) as Hne by (intros E; pose proof (Z.div_mod value 10 ltac:(lia)); lia).
    destruct (Z.eqb_spec (value / 10) 0); [done|].
    destruct fuel as [|fuel]; [change (10 ^ Z.of_nat 0) with 1 in Hq; lia|].
    rewrite reverse_cons, fmap_app, <-app_assoc. cbn [fmap list_fmap app]. rewrite Hd. by apply IH; [|lia].
Qed.

(** In base 10 the text is the one the program is verified with, and a buffer of
    20 bytes is enough. *)
Theorem itoa_word_decimal value buf lim :
  0 ≤ value < 2 ^ 64 → (20 ≤ lim ≤ length buf)%nat →
  _itoa_word value buf lim 10 false =
  Ok ((lim - length (show_nat value))%nat,
      take (lim - length (show_nat value)) buf ++ show_nat value ++ drop lim buf).
Proof.
  intros Hv Hl. assert (∀ n : nat, 0 ≤ value < 10 ^ Z.of_nat (20 + n)) as Hp.
  { intros n. split; [lia|]. eapply Z.lt_le_trans; [apply Hv|]. etrans; [|apply (Z.pow_le_mono_r 10 20); lia]. by apply Z.leb_le. }
  pose proof (remainders_fuel 10 20 44 value ltac:(lia) (Hp 0%nat) ltac:(lia)) as H64. change (20 + 44)%nat with 64%nat in H64.
  pose proof (remainders_digits 20 value [] (Hp 0%nat) ltac:(lia)) as Hs. rewrite app_nil_r in Hs.
  change (dec_digits 20 value []) with (show_nat value) in Hs.
  assert (length (show_nat value) = length (remainders 20 10 value)) as Hlen by (by rewrite <-Hs, length_fmap, length_reverse).
  destruct (remainders_value 20 10 ltac:(lia) value (Hp 0%nat) ltac:(lia)) as (_ & _ & H20).
  unfold _itoa_word. rewrite itoa_loop_spec; [|lia|done|exact (Hp 44%nat)|lia|rewrite H64; lia].
  by rewrite H64, Hs, Hlen.
Qed.

Lemma itoa_word_decimal_witness :
  _itoa_word 1700000000 (zeros 24) 24 10 false = Ok (14%nat, zeros 14 ++ lit "1700000000").
Proof.
  rewrite (itoa_word_decimal 1700000000 (zeros 24) 24); [vm_compute; reflexivity|lia|cbn; lia].
Defined.

Lemma itoa_word_numeral_witness :
  ∃ start ds, _itoa_word 48879 (zeros 64) 64 16 true = Ok (start, take start (zeros 64) ++
      ((λ d, nth (Z.to_nat d) _itoa_upper_digits 0) <$> ds)) ∧ foldl (λ a d, a * 16 + d) 0 ds = 48879.
Proof.
  destruct (itoa_word_numeral 48879 (zeros 64) 64 16 true) as (st & ds & E & _ & _ & _ & Hv); [lia|lia|cbn; lia|].
  exists st, ds. rewrite E, app_nil_r. split; [reflexivity|exact Hv].
Defined.
