(* ===== verification/WordScan.v ===== *)
(** * glibc: searching memory a word at a time

    The portable string functions of [glibc-2.27/string] that the program's
    files call ([strlen], [strchr]) and the ones those are built from
    ([strchrnul], [strnlen], [memchr], [rawmemchr], [strrchr]).  They read
    memory by aligned 8-byte words and decide with one arithmetic test whether
    a word can hold the byte they look for.

    A pointer is its address together with the bytes mapped from it on.  A
    mapping ends at a word boundary (it ends at a page boundary), so the bytes
    after the terminating NUL up to that boundary can be read; a read past the
    mapping is the fault [OutOfBounds].  The theorems state that each function
    agrees with the byte-by-byte definition of CString.v. *)

From S2P Require Import Prelude CString.

(** ** Words *)

(** The little-endian value of a sequence of bytes. *)
Fixpoint le_word (l : list Z) : Z :=
  match l with
  | [] => 0
  | b :: l' => b + 256 * le_word l'
  end.

(** [~w] on [unsigned long]. *)
Definition lnot64 (w : Z) : Z := uint64 (Z.lnot w).

Definition lomagic : Z :=
  Z.lor (uint64 (Z.shiftl (uint64 (Z.shiftl 16843009 16)) 16)) 16843009.
Definition himagic : Z :=
  Z.lor (uint64 (Z.shiftl (uint64 (Z.shiftl 2155905152 16)) 16)) 2155905152.

(** [magic_bits / 0xff * 0xfe << 1 >> 1 | 1] for [magic_bits = -1]. *)
Definition magic_bits : Z :=
  Z.lor (Z.shiftr (uint64 (Z.shiftl (uint64 (uint64 (-1) / 255 * 254)) 1)) 1) 1.

(** A word each of whose bytes is [c]. *)
Definition charmask (c : Z) : Z :=
  let m := Z.lor c (Z.shiftl c 8) in
  let m := Z.lor m (uint64 (Z.shiftl m 16)) in
  Z.lor m (uint64 (Z.shiftl (uint64 (Z.shiftl m 16)) 16)).

(** The three tests for a zero byte: of [strlen] and [memchr], of [strnlen],
    and of [strchr]. *)
Definition sub_test (w : Z) : bool :=
  negb (Z.land (Z.land (uint64 (w - lomagic)) (lnot64 w)) himagic =? 0).
Definition sub_test_weak (w : Z) : bool :=
  negb (Z.land (uint64 (w - lomagic)) himagic =? 0).
Definition add_test (w : Z) : bool :=
  negb (Z.land (Z.lxor (uint64 (w + magic_bits)) (lnot64 w)) (lnot64 magic_bits) =? 0).

(** ** Unbounded searches *)

Section Scan.
  (** What the loop body does with a byte at an offset (a value to return, or
      go on), and the test that selects the words worth looking at. *)
  Context {R : Type} (byte : Z → Z → option R) (test : Z → bool).

  (** The byte-by-byte search the functions are specified by. *)
Fixpoint byte_scan (off : Z) (l : list Z) : res R :=
    match l with
    | [] => Bad OutOfBounds
    | c :: l' =>
        match byte off c with
        | Some r => Ok r
        | None => byte_scan (off + 1) l'
        end
    end.

  (** "Which of the bytes was the zero?  If none of them were, it was a
      misfire; continue the search." *)
Fixpoint which_byte (off : Z) (l : list Z) : option R :=
    match l with
    | [] => None
    | c :: l' =>
        match byte off c with
        | Some r => Some r
        | None => which_byte (off + 1) l'
        end
    end.

  (** [for (;;) { longword = *longword_ptr++; if (test) ... }] *)
Fixpoint word_loop (off : Z) (l : list Z) : res R :=
    match l with
    | b0 :: b1 :: b2 :: b3 :: b4 :: b5 :: b6 :: b7 :: l' =>
        let cp := [b0; b1; b2; b3; b4; b5; b6; b7] in
        if test (le_word cp) then
          match which_byte off cp with
          | Some r => Ok r
          | None => word_loop (off + 8) l'
          end
        else word_loop (off + 8) l'
    | _ => Bad OutOfBounds
    end.

  (** The first characters, one at a time, until the pointer is aligned. *)
Fixpoint word_scan (char_ptr off : Z) (l : list Z) : res R :=
    if Z.land char_ptr 7 =? 0 then word_loop off l
    else
      match l with
      | [] => Bad OutOfBounds
      | c :: l' =>
          match byte off c with
          | Some r => Ok r
          | None => word_scan (char_ptr + 1) (off + 1) l'
          end
      end.
End Scan.

(** [strlen.c]: the offset of the NUL. *)
Definition STRLEN (str : Z) (m : list Z) : res Z :=
  word_scan (λ off c, if c =? 0 then Some off else None) sub_test str 0 m.

(** [strchr.c]: the offset of the first [c], [None] for NULL. *)
Definition STRCHR (s : Z) (m : list Z) (c_in : Z) : res (option Z) :=
  let c := uint8 c_in in
  word_scan
    (λ off x, if x =? c then Some (Some off) else if x =? 0 then Some None else None)
    (λ w, add_test w || add_test (Z.lxor w (charmask c))) s 0 m.

(** [strchrnul.c]: the offset of the first [c] or of the NUL. *)
Definition STRCHRNUL (s : Z) (m : list Z) (c_in : Z) : res Z :=
  let c := uint8 c_in in
  word_scan (λ off x, if (x =? c) || (x =? 0) then Some off else None)
    (λ w, add_test w || add_test (Z.lxor w (charmask c))) s 0 m.

(** [strrchr.c]: [strchr] again from the character after each one found. *)
Fixpoint strrchr_loop (fuel : nat) (s : Z) (m : list Z) (off : Z) (c : Z)
    (found : option Z) : res (option Z) :=
  match fuel with
  | O => Bad Unspecified
  | S fuel' =>
      p ← STRCHR s m c;
      match p with
      | None => Ok found
      | Some i =>
          strrchr_loop fuel' (s + i + 1) (drop (Z.to_nat (i + 1)) m) (off + i + 1) c
            (Some (off + i))
      end
  end.
Definition STRRCHR (s : Z) (m : list Z) (c_in : Z) : res (option Z) :=
  let c := uint8 c_in in
  if c =? 0 then STRCHR s m 0
  else strrchr_loop (S (length m)) s m 0 c None.

(** ** Bounded searches *)

(** [memchr.c]: the last loop, a byte at a time. *)
Fixpoint memchr_tail (c n off : Z) (l : list Z) : res (option Z) :=
  if 0 <? n then
    match l with
    | [] => Bad OutOfBounds
    | x :: l' => if x =? c then Ok (Some off) else memchr_tail c (n - 1) (off + 1) l'
    end
  else Ok None.

(** The loop over whole words, left at the first word that passes the test. *)
Fixpoint memchr_words (c n off : Z) (l : list Z) : res (option Z) :=
  if 8 <=? n then
    match l with
    | b0 :: b1 :: b2 :: b3 :: b4 :: b5 :: b6 :: b7 :: l' =>
        let longword1 := Z.lxor (le_word [b0; b1; b2; b3; b4; b5; b6; b7]) (charmask c) in
        if sub_test longword1 then memchr_tail c n off l
        else memchr_words c (n - 8) (off + 8) l'
    | _ => Bad OutOfBounds
    end
  else memchr_tail c n off l.

Fixpoint memchr_head (c char_ptr n off : Z) (l : list Z) : res (option Z) :=
  if (0 <? n) && negb (char_ptr `mod` 8 =? 0) then
    match l with
    | [] => Bad OutOfBounds
    | x :: l' =>
        if x =? c then Ok (Some off)
        else memchr_head c (char_ptr + 1) (n - 1) (off + 1) l'
    end
  else memchr_words c n off l.

Definition MEMCHR (s : Z) (m : list Z) (c_in n : Z) : res (option Z) :=
  memchr_head (uint8 c_in) s n 0 m.

(** [rawmemchr.c]: the search of a byte known to be there.  The result of
    [memchr] with the bound [SIZE_MAX] is returned as it is. *)
Definition RAWMEMCHR (s : Z) (m : list Z) (c : Z) : res (option Z) :=
  if negb (c =? 0) then MEMCHR s m c (2 ^ 64 - 1)
  else n ← STRLEN s m; Ok (Some n).

(** [strnlen.c]: the word loop; [char_ptr] is where the last word left it. *)
Fixpoint strnlen_words (str end_ptr char_ptr longword_ptr : Z) (l : list Z) : res Z :=
  let finish p := Ok ((if end_ptr <? p then end_ptr else p) - str) in
  if longword_ptr <? end_ptr then
    match l with
    | b0 :: b1 :: b2 :: b3 :: b4 :: b5 :: b6 :: b7 :: l' =>
        let cp := [b0; b1; b2; b3; b4; b5; b6; b7] in
        if sub_test_weak (le_word cp) then
          match which_byte (λ p c, if c =? 0 then Some p else None) longword_ptr cp with
          | Some p => finish p
          | None => strnlen_words str end_ptr end_ptr (longword_ptr + 8) l'
          end
        else strnlen_words str end_ptr end_ptr (longword_ptr + 8) l'
    | _ => Bad OutOfBounds
    end
  else finish char_ptr.

Fixpoint strnlen_head (str end_ptr char_ptr : Z) (l : list Z) : res Z :=
  if Z.land char_ptr 7 =? 0 then strnlen_words str end_ptr char_ptr char_ptr l
  else
    match l with
    | [] => Bad OutOfBounds
    | c :: l' =>
        if c =? 0 then Ok ((if end_ptr <? char_ptr then end_ptr else char_ptr) - str)
        else strnlen_head str end_ptr (char_ptr + 1) l'
    end.

Definition strnlen (str : Z) (m : list Z) (maxlen : Z) : res Z :=
  if maxlen =? 0 then Ok 0
  else
    let end_ptr := uint64 (str + maxlen) in
    let end_ptr := if end_ptr <? str then 2 ^ 64 - 1 else end_ptr in
    strnlen_head str end_ptr str m.

(** [memrchr.c]: the bytes before a pointer, last one first; [n] of them are left. *)
Fixpoint memrchr_tail (c n : Z) (l : list Z) : res (option Z) :=
  if 0 <? n then
    match l with
    | [] => Bad OutOfBounds
    | x :: l' => if x =? c then Ok (Some (n - 1)) else memrchr_tail c (n - 1) l'
    end
  else Ok None.

Fixpoint memrchr_words (c n : Z) (l : list Z) : res (option Z) :=
  if 8 <=? n then
    match l with
    | b7 :: b6 :: b5 :: b4 :: b3 :: b2 :: b1 :: b0 :: l' =>
        let longword := Z.lxor (le_word [b0; b1; b2; b3; b4; b5; b6; b7]) (charmask c) in
        if add_test longword then
          if b7 =? c then Ok (Some (n - 1))
          else if b6 =? c then Ok (Some (n - 2))
          else if b5 =? c then Ok (Some (n - 3))
          else if b4 =? c then Ok (Some (n - 4))
          else if b3 =? c then Ok (Some (n - 5))
          else if b2 =? c then Ok (Some (n - 6))
          else if b1 =? c then Ok (Some (n - 7))
          else if b0 =? c then Ok (Some (n - 8))
          else memrchr_words c (n - 8) l'
        else memrchr_words c (n - 8) l'
    | _ => Bad OutOfBounds
    end
  else memrchr_tail c n l.

Fixpoint memrchr_head (c char_ptr n : Z) (l : list Z) : res (option Z) :=
  if (0 <? n) && negb (Z.land char_ptr 7 =? 0) then
    match l with
    | [] => Bad OutOfBounds
    | x :: l' =>
        if x =? c then Ok (Some (n - 1)) else memrchr_head c (char_ptr - 1) (n - 1) l'
    end
  else memrchr_words c n l.

Definition MEMRCHR (s : Z) (m : list Z) (c_in n : Z) : res (option Z) :=
  memrchr_head (uint8 c_in) (s + n) n (reverse (take (Z.to_nat n) m)).

(** ** The tests find every zero byte *)

Lemma testbit_uint64 x n : 0 ≤ n < 64 → Z.testbit (uint64 x) n = Z.testbit x n.
Proof. intros. unfold uint64. apply Z.mod_pow2_bits_low. lia. Qed.

Lemma testbit_lnot64 x n : 0 ≤ n < 64 → Z.testbit (lnot64 x) n = negb (Z.testbit x n).
Proof. intros. unfold lnot64. rewrite testbit_uint64 by done. apply Z.lnot_spec. lia. Qed.

(** A word with a set bit is not zero. *)
Lemma testbit_nonzero w n : Z.testbit w n = true → negb (w =? 0) = true.
Proof. destruct (Z.eqb_spec w 0) as [->|]; [by rewrite Z.testbit_0_l|done]. Qed.

(** Bit [8 * k + 7] of the difference is set when byte [k] is the first zero. *)
Lemma sub_bit w n : 0 ≤ n < 64 →
  Z.testbit himagic n = true → ((w - lomagic) / 2 ^ n) `mod` 2 = 1 →
  (w / 2 ^ n) `mod` 2 = 0 → sub_test w = true ∧ sub_test_weak w = true.
Proof.
  intros Hn Hh H1 H0. apply Z.testbit_true in H1; [|lia]. apply Z.testbit_false in H0; [|lia].
  split; apply (testbit_nonzero _ n); rewrite !Z.land_spec, Hh, testbit_uint64, H1 by done; [|done].
  by rewrite testbit_lnot64, H0.
Qed.

(** A hole bit the addition left unchanged. *)
Lemma add_bit w n : 0 ≤ n < 64 →
  Z.testbit magic_bits n = false →
  ((w + magic_bits) / 2 ^ n) `mod` 2 = (w / 2 ^ n) `mod` 2 → add_test w = true.
Proof.
  intros Hn Hm H. apply (testbit_nonzero _ n).
  rewrite Z.land_spec, Z.lxor_spec, !testbit_lnot64, Hm, testbit_uint64 by done.
  assert (Z.testbit (w + magic_bits) n = Z.testbit w n) as ->.
  { apply Z.b2z_inj. by rewrite !Z.testbit_spec' by lia. }
  by destruct (Z.testbit w n).
Qed.

Ltac const_lia :=
  change lomagic with 72340172838076673 in *;
  change magic_bits with 9151031864016699135 in *;
  repeat match goal with
  | |- context [2 ^ Zpos ?n] => let v := eval vm_compute in (2 ^ Zpos n) in change (2 ^ Zpos n) with v
  end; Z.to_euclidean_division_equations; lia.

(** The test of [strnlen] also fires on a word of non-zero bytes one of which is
    at least 129: the bytes are looked at one by one and the search goes on. *)
Example sub_test_weak_misfires :
  sub_test_weak (le_word [129; 1; 1; 1; 1; 1; 1; 1]) = true ∧
  sub_test (le_word [129; 1; 1; 1; 1; 1; 1; 1]) = false.
Proof. vm_compute. done. Qed.

Lemma tests_detect b0 b1 b2 b3 b4 b5 b6 b7 :
  bytes_ok [b0; b1; b2; b3; b4; b5; b6; b7] → 0 ∈ [b0; b1; b2; b3; b4; b5; b6; b7] →
  let w := le_word [b0; b1; b2; b3; b4; b5; b6; b7] in
  (sub_test w = true ∧ sub_test_weak w = true) ∧ add_test w = true.
Proof.
  intros Hb H0 w. unfold bytes_ok, is_byte in Hb. rewrite !Forall_cons in Hb.
  subst w. cbn [le_word]. cbn beta in Hb.
  do 8 try (match goal with H : 0 ∈ ?b :: _ |- _ => destruct (decide (b = 0)) as [->|];
    [clear H|apply elem_of_cons in H as [H|H]; [by subst|]] end); [..|by inversion H0].
  - split; [apply (sub_bit _ 7)|apply (add_bit _ 8)]; try done; const_lia.
  - split; [apply (sub_bit _ 15)|apply (add_bit _ 16)]; try done; const_lia.
  - split; [apply (sub_bit _ 23)|apply (add_bit _ 24)]; try done; const_lia.
  - split; [apply (sub_bit _ 31)|apply (add_bit _ 32)]; try done; const_lia.
  - split; [apply (sub_bit _ 39)|apply (add_bit _ 40)]; try done; const_lia.
  - split; [apply (sub_bit _ 47)|apply (add_bit _ 48)]; try done; const_lia.
  - split; [apply (sub_bit _ 55)|apply (add_bit _ 56)]; try done; const_lia.
  - split; [apply (sub_bit _ 63)|apply (add_bit _ 63)]; try done; const_lia.
Qed.

(** ** Words and bytes *)

Lemma le_word_range l : bytes_ok l → 0 ≤ le_word l < 2 ^ (8 * Z.of_nat (length l)).
Proof.
  induction 1 as [|b l Hb Hl IH]; [done|]. cbn [le_word length]. unfold is_byte in Hb.
  replace (8 * Z.of_nat (S (length l))) with (8 + 8 * Z.of_nat (length l)) by lia.
  rewrite Z.pow_add_r by lia. change (2 ^ 8) with 256. lia.
Qed.

(** A value below [2 ^ n] shares no bit with a value shifted by [n]. *)
Lemma low_shift_land n b x : 0 ≤ n → 0 ≤ b < 2 ^ n → Z.land b (Z.shiftl x n) = 0.
Proof.
  intros Hn0 Hb. apply Z.bits_inj'. intros i Hi. rewrite Z.land_spec, Z.bits_0.
  destruct (Z.ltb_spec i n).
  - rewrite Z.shiftl_spec_low by done. apply andb_false_r.
  - destruct (decide (b = 0)) as [->|]; [by rewrite Z.bits_0|].
    rewrite (Z.bits_above_log2 b i); [done|lia|].
    apply (Z.lt_le_trans _ n); [|done]. apply Z.log2_lt_pow2; lia.
Qed.

Lemma byte_cons_lxor b x : is_byte b → b + 256 * x = Z.lxor b (Z.shiftl x 8).
Proof.
  intros Hb. rewrite <-Z.add_nocarry_lxor by by apply low_shift_land.
  rewrite Z.shiftl_mul_pow2 by lia. lia.
Qed.

Lemma lxor_byte a b : is_byte a → is_byte b → is_byte (Z.lxor a b).
Proof.
  unfold is_byte. intros Ha Hb. split; [apply Z.lxor_nonneg; lia|].
  destruct (decide (Z.lxor a b = 0)) as [->|Hne]; [done|].
  apply (Z.log2_lt_cancel _ (2 ^ 8)).
  eapply Z.le_lt_trans; [apply Z.log2_lxor; lia|].
  assert (∀ x, 0 ≤ x < 256 → Z.log2 x ≤ 7) as Hl.
  { intros x Hx. change 7 with (Z.log2 255). apply Z.log2_le_mono. lia. }
  change (Z.log2 (2 ^ 8)) with 8. pose proof (Hl a Ha). pose proof (Hl b Hb). lia.
Qed.

(** Exclusive or acts on each byte of a word. *)
Lemma lxor_le_word l r : bytes_ok l → bytes_ok r → length l = length r →
  Z.lxor (le_word l) (le_word r) = le_word (zip_with Z.lxor l r).
Proof.
  intros Hl. revert r. induction Hl as [|a l Ha Hl IH]; intros [|b r] Hr Hlen; try done.
  inversion_clear Hr. cbn [le_word zip_with]. rewrite <-IH by (done || by injection Hlen).
  rewrite !byte_cons_lxor by (done || by apply lxor_byte). rewrite Z.shiftl_lxor.
  rewrite !Z.lxor_assoc. f_equal. rewrite <-!Z.lxor_assoc. f_equal. apply Z.lxor_comm.
Qed.

Lemma charmask_word c : is_byte c → charmask c = le_word (replicate 8 c).
Proof.
  intros Hc. unfold is_byte in Hc.
  assert (Forall (λ c, charmask c = le_word (replicate 8 c)) (seqZ 0 256)) as H.
  { apply (bool_decide_unpack _). vm_compute. exact I. }
  eapply Forall_forall in H; [exact H|]. apply elem_of_seqZ. lia.
Qed.

Lemma uint8_id c : is_byte c → uint8 c = c.
Proof. apply uint8_small. Qed.
#[export] Hint Resolve uint8_range lxor_byte : c_arith.

(** Name the eight bytes of a word. *)
Ltac name_bytes w :=
  destruct w as [|?b [|?b [|?b [|?b [|?b [|?b [|?b [|?b [|]]]]]]]]]; try discriminate.

Lemma zero_detects w : bytes_ok w → length w = 8%nat → 0 ∈ w →
  (sub_test (le_word w) = true ∧ sub_test_weak (le_word w) = true) ∧ add_test (le_word w) = true.
Proof. intros Hb Hl H0. name_bytes w. by apply tests_detect. Qed.

(** The mask turns a byte equal to [c] into a zero. *)
Lemma mask_detects c w : bytes_ok w → length w = 8%nat → is_byte c → c ∈ w →
  sub_test (Z.lxor (le_word w) (charmask c)) = true ∧
  add_test (Z.lxor (le_word w) (charmask c)) = true.
Proof.
  intros Hb Hl Hc Hin. rewrite charmask_word, <-Hl by done.
  rewrite lxor_le_word; [|done|by apply Forall_replicate|len].
  rewrite zip_with_replicate_r by done.
  destruct (zero_detects ((λ b, Z.lxor b c) <$> w)) as [[H _] H']; [..|by split].
  - apply Forall_fmap. by eapply Forall_impl; [|intros b Hb'; by apply lxor_byte].
  - len.
  - apply list_elem_of_fmap. exists c. by rewrite Z.lxor_nilpotent.
Qed.

(** ** Scanning by words is scanning by bytes *)

(** Induction over the words of a list. *)
Lemma word_ind (P : list Z → Prop) :
  P [] → (∀ w l, length w = 8%nat → P l → P (w ++ l)) →
  ∀ l, Z.of_nat (length l) `mod` 8 = 0 → P l.
Proof.
  intros H0 Hw l Hl. apply Z.mod_divide in Hl as [n Hn]; [|done].
  assert (∃ k : nat, n = Z.of_nat k) as [k ->] by (exists (Z.to_nat n); lia).
  revert l Hn. induction k as [|k IH]; intros l Hn.
  - destruct l; [done|simpl in *; lia].
  - rewrite <-(take_drop 8 l). apply Hw; [rewrite length_take; lia|].
    apply IH. rewrite length_drop. lia.
Qed.

(** The bytes mapped from an aligned pointer on are whole words. *)
Lemma aligned_words p n : Z.land p 7 = 0 → (p + n) `mod` 8 = 0 → n `mod` 8 = 0.
Proof.
  intros Hp. change 7 with (Z.ones 3) in Hp. rewrite Z.land_ones in Hp by lia.
  change (2 ^ 3) with 8 in Hp.
  Z.to_euclidean_division_equations; lia.
Qed.

Section ScanSpec.
  Context {R : Type} (byte : Z → Z → option R) (test : Z → bool).

  (** The test selects every word with a byte the loop stops at. *)
Definition safe_test : Prop := ∀ off w r,
    bytes_ok w → length w = 8%nat → which_byte byte off w = Some r → test (le_word w) = true.

Lemma byte_scan_app off w l :
    byte_scan byte off (w ++ l) =
    match which_byte byte off w with
    | Some r => Ok r
    | None => byte_scan byte (off + Z.of_nat (length w)) l
    end.
  Proof.
    revert off. induction w as [|c w IH]; intros off; simpl; [f_equal; lia|].
    destruct (byte off c); [done|]. rewrite IH. destruct which_byte; [done|]. f_equal. lia.
  Qed.

Lemma word_loop_bytes off l : safe_test → bytes_ok l →
    Z.of_nat (length l) `mod` 8 = 0 → word_loop byte test off l = byte_scan byte off l.
  Proof.
    intros Hsafe Hb Hl. revert off Hb. pattern l. apply word_ind; [done| |done].
    clear l Hl. intros w l Hw IH off [Hbw Hbl]%Forall_app.
    rewrite byte_scan_app, Hw. specialize (Hsafe off w).
    name_bytes w. cbn [word_loop app].
    destruct test; [|destruct which_byte; [by specialize (Hsafe _ Hbw eq_refl eq_refl)|]]; 
      [destruct which_byte; [done|]|]; by apply IH.
  Qed.

Lemma word_scan_bytes p off l : safe_test → bytes_ok l →
    (p + Z.of_nat (length l)) `mod` 8 = 0 → word_scan byte test p off l = byte_scan byte off l.
  Proof.
    intros Hsafe Hb. revert p off. induction Hb as [|c l Hc Hl IH]; intros p off Hp; cbn [word_scan].
    - by destruct (_ =? _).
    - destruct (Z.eqb_spec (Z.land p 7) 0).
      + apply word_loop_bytes; [done|by constructor|]. by eapply aligned_words.
      + cbn [byte_scan]. destruct byte; [done|]. apply IH. rewrite <-Hp. f_equal. simpl length. lia.
  Qed.
End ScanSpec.

(** The memory from a pointer to the end of its mapping. *)
Definition mapped (p : Z) (m : list Z) : Prop :=
  bytes_ok m ∧ (p + Z.of_nat (length m)) `mod` 8 = 0.

Lemma mapped_drop p m k : (k ≤ length m)%nat → mapped p m → mapped (p + Z.of_nat k) (drop k m).
Proof.
  intros Hk [Hb Hp]. split; [by apply Forall_drop|]. rewrite <-Hp. f_equal. len.
Qed.

(** A search that runs off the mapping faults there. *)
Definition refault {A} (r : res A) : res A :=
  match r with Ok a => Ok a | Bad _ => Bad OutOfBounds end.

Lemma which_byte_elem {R} (byte : Z → Z → option R) (P : Z → Prop) off w r :
  (∀ o c r, byte o c = Some r → P c) → which_byte byte off w = Some r → ∃ c, c ∈ w ∧ P c.
Proof.
  intros HP. revert off. induction w as [|c w IH]; intros off H; simpl in H; [done|].
  destruct (byte off c) eqn:E.
  - exists c. split; [by left|eauto].
  - destruct (IH _ H) as (x & Hx & Hp). exists x. split; [by right|done].
Qed.

Lemma strlen_test_safe :
  safe_test (λ off c, if c =? 0 then Some off else None) sub_test.
Proof.
  intros off w r Hb Hl Hw. apply (which_byte_elem _ (λ c, c = 0)) in Hw as (c & Hc & ->).
  - by destruct (zero_detects w Hb Hl Hc) as [[? _] _].
  - intros o c r' H. destruct (Z.eqb_spec c 0); done.
Qed.

(** A loop that stops at [c] and at NUL only is served by the test of [strchr]. *)
Lemma strchr_test_safe {R} (byte : Z → Z → option R) c :
  is_byte c → (∀ off x r, byte off x = Some r → x = c ∨ x = 0) →
  safe_test byte (λ w, add_test w || add_test (Z.lxor w (charmask c))).
Proof.
  intros Hc Hbyte off w r Hb Hl Hw.
  apply (which_byte_elem _ (λ x, x = c ∨ x = 0)) in Hw as (x & Hx & [->| ->]); [..|done].
  - destruct (mask_detects c w Hb Hl Hc Hx) as [_ ->]. apply orb_true_r.
  - by destruct (zero_detects w Hb Hl Hx) as [_ ->].
Qed.

(** ** [strlen], [strchr], [strchrnul] *)

Lemma STRLEN_bytes p m : mapped p m → STRLEN p m = refault (strlen m).
Proof.
  intros [Hb Hp]. unfold STRLEN. rewrite word_scan_bytes; [|apply strlen_test_safe|done|done].
  unfold strlen. assert (∀ off, byte_scan (λ off c, if c =? 0 then Some off else None) off m =
    refault (s ← cstr m; Ok (off + Z.of_nat (length s)))) as ->; [|done].
  clear. induction m as [|c m IH]; intros off; [done|]. cbn [byte_scan cstr].
  destruct (c =? 0); [simpl; f_equal; lia|]. rewrite IH.
  destruct (cstr m); simpl; [f_equal; lia|done].
Qed.

Lemma STRCHR_bytes p m c : mapped p m →
  STRCHR p m c = refault (i ← strchr m (uint8 c); Ok (option_map Z.of_nat i)).
Proof.
  intros [Hb Hp]. unfold STRCHR. rewrite word_scan_bytes; [|apply strchr_test_safe|done|done].
  - generalize (uint8 c) as x. intros x.
    assert (∀ off, byte_scan (λ off y, if y =? x then Some (Some off) else if y =? 0 then Some None else None) off m =
      refault (i ← strchr m x; Ok (option_map (λ i, off + Z.of_nat i) i))) as ->; [|done].
    clear. induction m as [|y m IH]; intros off; [done|]. cbn [byte_scan strchr].
    destruct (y =? x); [simpl; do 2 f_equal; lia|]. destruct (y =? 0); [done|]. rewrite IH.
    destruct (strchr m x) as [[i|]|]; simpl; [do 2 f_equal; lia|done..].
  - apply uint8_range.
  - intros off x r. bcase; [by left|]. bcase; [by right|done].
Qed.

Lemma STRCHRNUL_bytes p m c s r : mapped p m → m = s ++ r →
  Forall (λ x, x ≠ 0 ∧ x ≠ uint8 c) s → (head r = Some 0 ∨ head r = Some (uint8 c)) →
  STRCHRNUL p m c = Ok (Z.of_nat (length s)).
Proof.
  intros [Hb Hp] -> Hs Hr. unfold STRCHRNUL.
  rewrite word_scan_bytes; [|apply strchr_test_safe|done|done].
  - rewrite byte_scan_app. assert (∀ off, which_byte (λ off x, if (x =? uint8 c) || (x =? 0) then Some off
      else None) off s = None) as ->.
    { clear -Hs. induction Hs as [|x s [H0 Hx] Hs IH]; intros off; [done|]. cbn [which_byte].
      bcase; [done|]. bcase; [done|]. apply IH. }
    destruct r as [|x r]; [naive_solver|]. cbn [byte_scan].
    assert ((x =? uint8 c) || (x =? 0) = true) as ->; [|f_equal; lia].
    rewrite orb_true_iff, !Z.eqb_eq. simpl in Hr. naive_solver.
  - apply uint8_range.
  - intros off x r'. bcase; [by left|]. bcase; [by right|done].
Qed.

(** C23: The word-at-a-time [strlen] returns, for every alignment of the string, the
    number of bytes before its first NUL, and it faults only when the mapping
    holds no NUL: reading whole words never leaves the mapping. *)
Theorem STRLEN_equiv p m : mapped p m → STRLEN p m = refault (strlen m).
Proof. apply STRLEN_bytes. Qed.

Definition sample_text : list Z := lit "SERVER=10.0.0.1" ++ 0 :: lit "after" ++ [255; 128; 7].
Lemma sample_mapped : mapped 1000 sample_text.
Proof. split; [|done]. apply (bool_decide_unpack _). vm_compute. exact I. Qed.

Lemma STRLEN_equiv_witness : mapped 1000 sample_text ∧ STRLEN 1000 sample_text = Ok 15.
Proof. split; [apply sample_mapped|]. rewrite (STRLEN_equiv 1000 sample_text sample_mapped). reflexivity. Defined.

(** The word-at-a-time [strchr] finds, for every alignment and every character
    (NUL included), the first occurrence before the end of the string, or NULL. *)
Theorem STRCHR_equiv p m c : mapped p m →
  STRCHR p m c = refault (i ← strchr m (uint8 c); Ok (option_map Z.of_nat i)).
Proof. apply STRCHR_bytes. Qed.

Lemma STRCHR_equiv_witness :
  STRCHR 1000 sample_text (chr "=") = Ok (Some 6) ∧ STRCHR 1000 sample_text (chr "a") = Ok None.
Proof. split; rewrite (STRCHR_equiv _ _ _ sample_mapped); reflexivity. Defined.

(** ** [memchr] and [rawmemchr] *)

Lemma memchr_tail_app c n off w l :
  c ∉ w → Z.of_nat (length w) ≤ n →
  memchr_tail c n off (w ++ l) =
  memchr_tail c (n - Z.of_nat (length w)) (off + Z.of_nat (length w)) l.
Proof.
  revert n off. induction w as [|x w IH]; intros n off Hc Hn; simpl in *.
  - f_equal; lia.
  - destruct (Z.ltb_spec 0 n); [|lia]. apply not_elem_of_cons in Hc as [Hx Hc].
    destruct (Z.eqb_spec x c); [done|]. rewrite IH by (done || lia). f_equal; lia.
Qed.

Lemma memchr_words_bytes c n off l : is_byte c → bytes_ok l →
  Z.of_nat (length l) `mod` 8 = 0 → memchr_words c n off l = memchr_tail c n off l.
Proof.
  intros Hc Hb Hl. revert n off Hb. pattern l. apply word_ind; [|clear l Hl|done].
  - intros n off _. simpl. repeat bcase; done || lia.
  - intros w l Hw IH n off [Hbw Hbl]%Forall_app.
    pose proof (mask_detects c w Hbw Hw Hc) as Hdet. pose proof (memchr_tail_app c n off w l) as Happ.
    name_bytes w. cbn [memchr_words app] in *. destruct (Z.leb_spec 8 n); [|done].
    destruct (sub_test _) eqn:E; [done|]. rewrite IH by done.
    rewrite Happ; [done|intros Hin; by apply Hdet in Hin as [? _]|done].
Qed.

Lemma memchr_head_bytes c p n off l : is_byte c → bytes_ok l →
  (p + Z.of_nat (length l)) `mod` 8 = 0 → memchr_head c p n off l = memchr_tail c n off l.
Proof.
  intros Hc Hb. revert p n off. induction Hb as [|x l Hx Hl IH]; intros p n off Hp; cbn [memchr_head].
  - destruct (_ && _) eqn:E; [|by apply memchr_words_bytes; [|constructor|]].
    apply andb_true_iff in E as [E _]. simpl. by rewrite E.
  - destruct (_ && _) eqn:E.
    + apply andb_true_iff in E as [E _]. cbn [memchr_tail]. rewrite E. destruct (x =? c); [done|].
      apply IH. rewrite <-Hp. f_equal. simpl length. lia.
    + apply andb_false_iff in E as [E|E]; bsimpl.
      * cbn [memchr_words memchr_tail]. repeat bcase; done || lia.
      * apply memchr_words_bytes; [done|by constructor|].
        Z.to_euclidean_division_equations; lia.
Qed.

Lemma memchr_tail_find c n l off : (Z.of_nat (length l) < n → c ∈ l) →
  memchr_tail c n off l =
  Ok (option_map (λ i, off + Z.of_nat (fst i)) (list_find (λ x, x = c) (take (Z.to_nat n) l))).
Proof.
  revert n off. induction l as [|x l IH]; intros n off Hn; cbn [memchr_tail].
  - rewrite take_nil. destruct (Z.ltb_spec 0 n) as [H|]; [|done]. by apply Hn in H; inversion H.
  - destruct (Z.ltb_spec 0 n); [|by replace (Z.to_nat n) with 0%nat by lia].
    replace (Z.to_nat n) with (S (Z.to_nat (n - 1))) by lia. cbn [take list_find].
    destruct (Z.eqb_spec x c) as [->|Hx].
    + rewrite decide_True by done. simpl. do 2 f_equal. lia.
    + rewrite decide_False by done. rewrite IH.
      * destruct (list_find _ _) as [[i y]|]; simpl; [do 2 f_equal; lia|done].
      * intros Hlt. simpl length in Hn. destruct (proj1 (elem_of_cons l c x)) as [->|]; [apply Hn; lia|done|done].
Qed.

Lemma MEMCHR_find p m c n : mapped p m → (Z.of_nat (length m) < n → uint8 c ∈ m) →
  MEMCHR p m c n =
  Ok (option_map (λ i, Z.of_nat (fst i)) (list_find (λ x, x = uint8 c) (take (Z.to_nat n) m))).
Proof.
  intros [Hb Hp] Hn. unfold MEMCHR. rewrite memchr_head_bytes; [|apply uint8_range|done|done].
  by apply memchr_tail_find.
Qed.

(** [memchr] returns the first of the [n] bytes equal to [c], [NULL] when there is
    none; the bound may exceed the memory when the byte is there, which is how
    [rawmemchr] uses it. *)
Theorem MEMCHR_first p m c n : mapped p m → (Z.of_nat (length m) < n → uint8 c ∈ m) →
  MEMCHR p m c n =
  Ok (option_map (λ i, Z.of_nat (fst i)) (list_find (λ x, x = uint8 c) (take (Z.to_nat n) m))).
Proof. apply MEMCHR_find. Qed.

Lemma MEMCHR_first_witness :
  MEMCHR 1000 sample_text 255 24 = Ok (Some 21) ∧ MEMCHR 1000 sample_text 255 21 = Ok None.
Proof.
  split; rewrite (MEMCHR_first _ _ _ _ sample_mapped); (reflexivity || (vm_compute; discriminate)).
Defined.

(** [rawmemchr] finds a byte that is there. *)
Theorem RAWMEMCHR_first p m c i : mapped p m → is_byte c → list_find (λ x, x = c) m = Some (i, c) →
  Z.of_nat (length m) < 2 ^ 64 → RAWMEMCHR p m c = Ok (Some (Z.of_nat i)).
Proof.
  intros Hm Hc Hf Hl. unfold RAWMEMCHR.
  apply list_find_Some in Hf as (Hi & _ & Hbefore).
  destruct (Z.eqb_spec c 0) as [->|Hc0]; simpl.
  - rewrite STRLEN_bytes by done. unfold strlen. rewrite <-(take_drop_middle m i 0 Hi).
    rewrite cstr_app_ne; [simpl; do 3 f_equal; apply length_take_le; apply lookup_lt_Some in Hi; lia|].
    apply Forall_lookup. intros j x Hj Hx. apply lookup_take_Some in Hj as [Hj Hji].
    by apply (Hbefore j x).
  - rewrite MEMCHR_find; [|done|intros _; rewrite uint8_id by done; by eapply list_elem_of_lookup_2].
    rewrite uint8_id by done.
    assert (take (Z.to_nat (2 ^ 64 - 1)) m = m) as -> by (apply take_ge; lia).
    assert (list_find (λ x, x = c) m = Some (i, c)) as -> by by apply list_find_Some. done.
Qed.

Lemma RAWMEMCHR_first_witness : RAWMEMCHR 1000 sample_text 255 = Ok (Some (Z.of_nat 21)).
Proof. apply (RAWMEMCHR_first 1000 sample_text 255 21 sample_mapped); (reflexivity || by_decide || done). Defined.

(** ** [strnlen] *)

Lemma which_nul_none s p :
  Forall (λ c, c ≠ 0) s → which_byte (λ p c, if c =? 0 then Some p else None) p s = None.
Proof. intros Hs. revert p. induction Hs as [|c s Hc Hs IH]; intros p; [done|]. simpl. by bcase. Qed.

Lemma which_nul s p r :
  Forall (λ c, c ≠ 0) s → 
  which_byte (λ p c, if c =? 0 then Some p else None) p (s ++ 0 :: r) = Some (p + Z.of_nat (length s)).
Proof.
  intros Hs. revert p. induction Hs as [|c s Hc Hs IH]; intros p; simpl; [f_equal; lia|].
  bcase; [done|]. rewrite IH. f_equal. lia.
Qed.

(** The first bytes of a text: [s] has no NUL, and either reaches the bound or is
    followed by one. *)
Definition text_within (s r : list Z) (n : Z) : Prop :=
  Forall (λ c, c ≠ 0) s ∧ (n ≤ Z.of_nat (length s) ∨ head r = Some 0).


Lemma nul_split (w : list Z) : nz w ∨ ∃ a b, w = a ++ 0 :: b ∧ nz a.
Proof.
  induction w as [|c w IH]; [by left|]. destruct (decide (c = 0)) as [->|Hc]; [by right; exists [], w|].
  destruct IH as [IH|(a & b & -> & Ha)]; [left; by constructor|right; exists (c :: a), b].
  by split; [|constructor].
Qed.

Lemma nz_prefix_le s r a t : nz s → s ++ r = a ++ 0 :: t → (length s ≤ length a)%nat.
Proof.
  intros Hs E. destruct (decide (length s ≤ length a)%nat) as [|Hn]; [done|].
  assert (s !! length a = Some 0) as H0.
  { rewrite <-(lookup_app_l s r) by lia. rewrite E, lookup_app_r by lia. by rewrite Nat.sub_diag. }
  rewrite Forall_lookup in Hs. by apply Hs in H0.
Qed.

Lemma strnlen_words_spec str e l : bytes_ok l → Z.of_nat (length l) `mod` 8 = 0 →
  ∀ p q s r, l = s ++ r → text_within s r (e - p) → q = p ∨ q = e →
  strnlen_words str e q p l = Ok (Z.min (p + Z.of_nat (length s)) e - str).
Proof.
  intros Hb Hl. revert Hb. pattern l. apply word_ind; [|clear l Hl|done].
  - intros _ p q s r E0 [_ Hor] Hq. destruct s, r; try done. simpl in Hor. cbn [strnlen_words length].
    destruct Hor as [Hor|]; [|done]. repeat bcase; try lia; f_equal; lia.
  - intros w l Hw IH [Hbw Hbl]%Forall_app p q s r Hl [Hs Hor] Hq. specialize (IH Hbl (p + 8) e).
    pose proof (zero_detects w Hbw Hw) as Hdet.
    destruct (nul_split w) as [Hnz|(a & b & Ew & Ha)].
    + assert (strnlen_words str e e (p + 8) l = Ok (Z.min (p + Z.of_nat (length s)) e - str)) as Hgo.
      { destruct (decide (8 ≤ length s)%nat) as [H8|H8].
        - rewrite <-(take_drop 8 s), <-app_assoc in Hl. apply app_inj_1 in Hl as [_ Hl]; [|rewrite length_take; lia].
          rewrite (IH _ _ Hl); [do 3 f_equal; rewrite length_drop; lia| |by right].
          split; [by apply Forall_drop|]. destruct Hor; [left; rewrite length_drop; lia|by right].
        - destruct Hor as [Hor|Hor].
          + rewrite (IH [] l eq_refl); [f_equal; simpl; lia| |by right]. split; [done|]. simpl; lia.
          + exfalso. destruct r as [|x r]; [done|]. injection Hor as ->.
            pose proof (nz_prefix_le _ _ _ _ Hnz Hl). lia. }
      pose proof (which_nul_none w p Hnz) as Hwh.
      name_bytes w. cbn [strnlen_words app]. destruct (Z.ltb_spec p e).
      * by destruct (sub_test_weak _); [rewrite Hwh|].
      * destruct Hq as [-> | ->]; repeat bcase; try lia; f_equal; lia.
    + assert (length s ≤ length a)%nat as Hle.
      { rewrite Ew, <-app_assoc in Hl. symmetry in Hl. simpl in Hl. by eapply nz_prefix_le. }
      assert (Z.min (p + Z.of_nat (length a)) e = Z.min (p + Z.of_nat (length s)) e) as Emin.
      { destruct Hor as [Hor|Hor]; [lia|]. destruct r as [|x r]; [done|]. injection Hor as ->.
        rewrite Ew, <-app_assoc in Hl. pose proof (nz_prefix_le a _ s _ Ha Hl). lia. }
      assert (0 ∈ w) as H0 by (rewrite Ew; set_solver).
      destruct (Hdet H0) as [[_ Htest] _]. pose proof (which_nul a p b Ha) as Hwh.
      rewrite <-Ew in Hwh. clear Ew H0 Hdet.
      name_bytes w. cbn [strnlen_words app]. destruct (Z.ltb_spec p e).
      * rewrite Htest, Hwh. rewrite <-Emin. bcase; f_equal; lia.
      * destruct Hq as [-> | ->]; repeat bcase; try lia; f_equal; lia.
Qed.

Lemma strnlen_head_spec str e l : bytes_ok l →
  ∀ p s r, (p + Z.of_nat (length l)) `mod` 8 = 0 → l = s ++ r → text_within s r (e - p) →
  strnlen_head str e p l = Ok (Z.min (p + Z.of_nat (length s)) e - str).
Proof.
  induction 1 as [|c l Hc Hl IH]; intros p s r Hp E [Hs Hor]; cbn [strnlen_head].
  - destruct (Z.eqb_spec (Z.land p 7) 0).
    + apply (strnlen_words_spec _ _ []) with (r := r); [constructor|done|done|done|by left].
    + exfalso. apply n. clear n. change 7 with (Z.ones 3). rewrite Z.land_ones by lia. by rewrite Z.add_0_r in Hp.
  - destruct (Z.eqb_spec (Z.land p 7) 0) as [Hal|Hal].
    + apply (strnlen_words_spec _ _ (c :: l)) with (r := r); try done; [by constructor| |by left].
      by eapply aligned_words.
    + destruct s as [|x s]; simpl in E.
      * subst r. cbn [head length] in Hor.

        destruct (Z.eqb_spec c 0) as [->|Hc0].
        -- cbn [length]. destruct Hor; repeat bcase; try lia; f_equal; lia.
        -- destruct Hor as [Hor|]; [|by simplify_eq].
           rewrite (IH (p + 1) [] l); [f_equal; cbn [length]; lia|rewrite <-Hp; f_equal; cbn [length]; lia|done|].
           split; [done|]. cbn [length]. lia.
      * injection E as -> ->. inversion_clear Hs. destruct (Z.eqb_spec x 0); [done|].
        rewrite (IH (p + 1) s r); [f_equal; cbn [length]; lia|rewrite <-Hp; f_equal; cbn [length]; lia|done|].
        split; [done|]. cbn [length] in *. destruct Hor; [left; lia|by right].
Qed.

Lemma strnlen_text p s r n : mapped p (s ++ r) → 0 ≤ p → p + Z.of_nat (length (s ++ r)) < 2 ^ 64 →
  0 ≤ n < 2 ^ 64 → text_within s r n →
  strnlen p (s ++ r) n = Ok (Z.min (Z.of_nat (length s)) n).
Proof.
  intros [Hb Hp] Hp0 Hend Hn [Hs Hor]. unfold strnlen. destruct (Z.eqb_spec n 0) as [->|Hn0].
  { f_equal. lia. }
  assert (length s ≤ length (s ++ r))%nat as Hls by len.
  set (e := if uint64 (p + n) <? p then 2 ^ 64 - 1 else uint64 (p + n)).
  assert (e = p + n ∨ e = 2 ^ 64 - 1 ∧ 2 ^ 64 ≤ p + n) as He.
  { subst e. unfold uint64. destruct (decide (p + n < 2 ^ 64)).
    - rewrite Z.mod_small by lia. bcase; lia.
    - assert ((p + n) `mod` 2 ^ 64 = p + n - 2 ^ 64) as ->; [|bcase; lia].
      symmetry. apply (Z.mod_unique _ _ 1); lia. }
  rewrite (strnlen_head_spec p e (s ++ r) Hb p s r); try done.
  - f_equal. destruct He as [->|[-> Hbig]]; [lia|]. lia.
  - split; [done|]. destruct Hor as [Hor|]; [|by right]. destruct He as [->|[-> Hbig]]; [left; lia|]. lia.
Qed.

(** [strnlen] returns the smaller of the length and the bound, for every alignment,
    also when the bytes after the bound hold no NUL, and when [str + maxlen] wraps. *)
Theorem strnlen_min p s r n : mapped p (s ++ r) → 0 ≤ p → p + Z.of_nat (length (s ++ r)) < 2 ^ 64 →
  0 ≤ n < 2 ^ 64 → text_within s r n →
  strnlen p (s ++ r) n = Ok (Z.min (Z.of_nat (length s)) n).
Proof. apply strnlen_text. Qed.

Lemma strnlen_min_witness : strnlen 1000 sample_text (2 ^ 64 - 1) = Ok 15.
Proof.
  apply (strnlen_min 1000 (lit "SERVER=10.0.0.1") (0 :: lit "after" ++ [255; 128; 7]) (2 ^ 64 - 1)
    sample_mapped); try (vm_compute; split; (discriminate || reflexivity)); try done.
  split; [by_decide|by right].
Defined.

(** ** [strrchr] *)

(** The last occurrence of a character in a string at an offset. *)
Fixpoint last_at (c off : Z) (s : list Z) : option Z :=
  match s with
  | [] => None
  | x :: s' =>
      match last_at c (off + 1) s' with
      | Some i => Some i
      | None => if x =? c then Some off else None
      end
  end.

Lemma last_at_app c off a b : c ∉ a →
  last_at c off (a ++ c :: b) =
  Some (default (off + Z.of_nat (length a)) (last_at c (off + Z.of_nat (length a) + 1) b)).
Proof.
  revert off. induction a as [|x a IH]; intros off Ha; cbn [last_at app length].
  - rewrite Z.add_0_r, Z.eqb_refl. by destruct last_at.
  - apply not_elem_of_cons in Ha as [_ Ha]. rewrite IH by done. do 2 f_equal; [lia|f_equal; lia].
Qed.

Lemma last_at_none c off s : c ∉ s → last_at c off s = None.
Proof.
  revert off. induction s as [|x s IH]; intros off Hs; [done|]. cbn [last_at].
  apply not_elem_of_cons in Hs as [Hx Hs]. rewrite IH by done. by bcase.
Qed.

(** A list splits at the first occurrence of an element. *)
Lemma first_split (c : Z) s : c ∉ s ∨ ∃ a b, s = a ++ c :: b ∧ c ∉ a.
Proof.
  destruct (decide (c ∈ s)) as [H|]; [right|by left]. by apply list_elem_of_split_l in H.
Qed.

Lemma strrchr_loop_spec c fuel : is_byte c → c ≠ 0 → ∀ p s r off found,
  mapped p (s ++ 0 :: r) → nz s → (length s < fuel)%nat →
  strrchr_loop fuel p (s ++ 0 :: r) off c found =
  Ok (match last_at c off s with Some i => Some i | None => found end).
Proof.
  intros Hc Hc0. induction fuel as [|fuel IH]; intros p s r off found Hm Hs Hf; [lia|].
  cbn [strrchr_loop]. rewrite STRCHR_bytes, uint8_id by done.
  assert (∀ a, nz a → c ∉ a → Forall (λ x, x ≠ 0 ∧ x ≠ c) a) as Hboth.
  { intros a Ha Hca. apply Forall_forall. intros x Hx. split; [|by intros ->].
    by apply (proj1 (Forall_forall _ _) Ha). }
  destruct (first_split c s) as [Hn|(a & b & -> & Ha)].
  - rewrite (strchr_none s r c) by auto. simpl. by rewrite last_at_none.
  - apply Forall_app in Hs as [Hna [_ Hnb]%Forall_cons].
    rewrite <-app_assoc, <-app_comm_cons, strchr_found by auto.
    cbn [mbind res_bind refault option_map option_bind].
    rewrite last_at_app by done.
    replace (Z.to_nat (Z.of_nat (length a) + 1)) with (length a + 1)%nat by lia.
    rewrite drop_app_add. cbn [drop]. rewrite drop_0.
    rewrite IH; [by destruct last_at| |done|len].
    apply (mapped_drop p _ (length a + 1)) in Hm as Hd; [|len].
    rewrite <-app_assoc, <-app_comm_cons, drop_app_add in Hd. cbn [drop] in Hd. rewrite drop_0 in Hd.
    by replace (p + Z.of_nat (length a) + 1) with (p + Z.of_nat (length a + 1)) by lia.
Qed.

(** [strrchr], which repeats [strchr] from the character after each one it finds,
    terminates and returns the last occurrence; for NUL it returns the end. *)
Theorem STRRCHR_last p s r c : mapped p (s ++ 0 :: r) → nz s →
  STRRCHR p (s ++ 0 :: r) c =
  Ok (if uint8 c =? 0 then Some (Z.of_nat (length s)) else last_at (uint8 c) 0 s).
Proof.
  intros Hm Hs. unfold STRRCHR. destruct (Z.eqb_spec (uint8 c) 0) as [E|E].
  - rewrite STRCHR_bytes by done. change (uint8 0) with 0. rewrite strchr_found; [done|].
    by eapply Forall_impl; [|simpl].
  - rewrite strrchr_loop_spec; [by destruct last_at|apply uint8_range|done|done|done|len].
Qed.

Lemma STRRCHR_last_witness : STRRCHR 1000 sample_text (chr ".") = Ok (Some 13).
Proof.
  apply (STRRCHR_last 1000 (lit "SERVER=10.0.0.1") (lit "after" ++ [255; 128; 7]) (chr ".") sample_mapped).
  by_decide.
Defined.

(** ** [memrchr] *)

Lemma memrchr_tail_cons c n x l : 0 < n →
  memrchr_tail c n (x :: l) = if x =? c then Ok (Some (n - 1)) else memrchr_tail c (n - 1) l.
Proof. intros. cbn [memrchr_tail]. by destruct (Z.ltb_spec 0 n); [|lia]. Qed.

Lemma memrchr_words_bytes c n l : is_byte c → bytes_ok l → Z.of_nat (length l) = n →
  memrchr_words c n l = memrchr_tail c n l.
Proof.
  intros Hc. revert n. induction l as [l IH] using (induction_ltof1 _ length). unfold ltof in IH.
  intros n Hb Hn.
  destruct (Z.leb_spec 8 n) as [H8|H8].
  2:{ destruct l; cbn [memrchr_words]; destruct (Z.leb_spec 8 n); done || lia. }
  destruct l as [|b7 [|b6 [|b5 [|b4 [|b3 [|b2 [|b1 [|b0 l]]]]]]]]; try (simpl in Hn; lia).
  unfold bytes_ok in Hb. rewrite !Forall_cons in Hb.
  assert (bytes_ok [b0; b1; b2; b3; b4; b5; b6; b7]) as Hw
    by (unfold bytes_ok; rewrite !Forall_cons; intuition).
  pose proof (mask_detects c _ Hw eq_refl Hc) as Hdet.
  assert (memrchr_words c (n - 8) l = memrchr_tail c (n - 8) l) as Hrec.
  { apply IH; [simpl; lia|unfold bytes_ok; intuition|simpl in Hn; lia]. }
  cbn [memrchr_words]. destruct (Z.leb_spec 8 n); [|lia]. rewrite !memrchr_tail_cons by lia.
  rewrite Hrec. replace (n - 1 - 1 - 1 - 1 - 1 - 1 - 1 - 1) with (n - 8) by lia.
  destruct (add_test _).
  - repeat (bcase; [do 2 f_equal; lia|]). done.
  - assert (c ∉ [b0; b1; b2; b3; b4; b5; b6; b7]) as Hn'
      by (intros Hin; by destruct (Hdet Hin) as [_ ?]).
    rewrite !not_elem_of_cons in Hn'. repeat (bcase; [naive_solver|]). done.
Qed.

Lemma memrchr_head_bytes c p n l : is_byte c → bytes_ok l → Z.of_nat (length l) = n →
  memrchr_head c p n l = memrchr_tail c n l.
Proof.
  intros Hc Hb. revert p n. induction Hb as [|x l Hx Hl IH]; intros p n Hn.
  - simpl in Hn. subst n. reflexivity.
  - cbn [memrchr_head]. destruct (_ && _).
    + rewrite memrchr_tail_cons by (simpl in Hn; lia). destruct (x =? c); [done|].
      apply IH. simpl in Hn. lia.
    + apply memrchr_words_bytes; [done|by constructor|done].
Qed.

Lemma last_at_snoc c off s x :
  last_at c off (s ++ [x]) =
  if x =? c then Some (off + Z.of_nat (length s)) else last_at c off s.
Proof.
  revert off. induction s as [|y s IH]; intros off; cbn [last_at app length].
  - by rewrite Z.add_0_r.
  - rewrite IH. destruct (x =? c); [f_equal; lia|done].
Qed.

Lemma memrchr_tail_last c s n : Z.of_nat (length s) = n →
  memrchr_tail c n (reverse s) = Ok (last_at c 0 s).
Proof.
  revert n. induction s as [|x s IH] using rev_ind; intros n Hn; [by subst n|].
  rewrite length_app in Hn. simpl in Hn. rewrite reverse_snoc, memrchr_tail_cons by lia.
  rewrite last_at_snoc. destruct (x =? c); [do 2 f_equal; lia|]. apply IH. lia.
Qed.

(** [memrchr] returns the last of the [n] bytes equal to [c], reading backwards by
    words, for every alignment of the end. *)
Theorem MEMRCHR_last p m c n : bytes_ok m → 0 ≤ n ≤ Z.of_nat (length m) →
  MEMRCHR p m c n = Ok (last_at (uint8 c) 0 (take (Z.to_nat n) m)).
Proof.
  intros Hb Hn. unfold MEMRCHR. assert (Z.of_nat (length (take (Z.to_nat n) m)) = n) as Hl
    by (rewrite length_take; lia).
  rewrite memrchr_head_bytes; [by apply memrchr_tail_last|apply uint8_range| |by rewrite length_reverse].
  apply Forall_reverse. by apply Forall_take.
Qed.

Lemma MEMRCHR_last_witness : MEMRCHR 1003 sample_text (chr "R") 23 = Ok (Some 5).
Proof. apply (MEMRCHR_last 1003 sample_text (chr "R") 23); [by_decide|by_decide]. Defined.
