(* ===== verification/WordCopy.v ===== *)
(** * glibc: copying and filling memory a word at a time

    [memcpy], [memset] and the string functions of [glibc-2.27/string] built on
    them ([strcpy], [stpcpy], [strcat], [strncat], [strncpy]), with the loops of
    [wordcopy.c]: an eightfold unrolled loop entered in its middle when both
    pointers have the same alignment, a fourfold one that merges neighbouring
    words when they have not.  [strcmp] and [strncmp] are here too.

    Source and destination are separate regions of memory, each with the
    address it starts at.  The theorems state that the result is that of the
    byte-wise definitions of CString.v for every alignment. *)

From S2P Require Import Prelude CString WordScan.

(** ** Memory regions *)

Record region := Region { rbase : Z; rbytes : list Z }.

Definition load_bytes (r : region) (a : Z) (n : nat) : res (list Z) :=
  if (rbase r <=? a) && (a + Z.of_nat n <=? rbase r + Z.of_nat (length (rbytes r)))
  then Ok (take n (drop (Z.to_nat (a - rbase r)) (rbytes r)))
  else Bad OutOfBounds.

Definition store_bytes (r : region) (a : Z) (l : list Z) : res region :=
  if rbase r <=? a
  then b ← blit (rbytes r) (Z.to_nat (a - rbase r)) l; Ok (Region (rbase r) b)
  else Bad OutOfBounds.

(** The bytes of a word, least significant first. *)
Fixpoint le_bytes (n : nat) (w : Z) : list Z :=
  match n with
  | O => []
  | S n' => w `mod` 256 :: le_bytes n' (w / 256)
  end.

(** The [i]-th [op_t] from [p], as a value and as the target of an assignment. *)
Definition load_op (r : region) (p i : Z) : res Z :=
  w ← load_bytes r (p + 8 * i) 8; Ok (le_word w).
Definition store_op (r : region) (p i w : Z) : res region :=
  store_bytes r (p + 8 * i) (le_bytes 8 w).

(** The bytes from a pointer on. *)
Definition view (r : region) (a : Z) : list Z := drop (Z.to_nat (a - rbase r)) (rbytes r).

(** ** Copying *)

Definition MERGE (w0 sh_1 w1 sh_2 : Z) : Z :=
  Z.lor (Z.shiftr w0 sh_1) (uint64 (Z.shiftl w1 sh_2)).

(** Where the loads of a copying loop read: in a region of their own, or in
    the region the loop stores to. *)
Definition source : Type := region → region.
Definition separate (src : region) : source := λ _, src.
Definition shared : source := λ dst, dst.
Coercion separate : region >-> source.
Arguments separate _ _ / : assert.
Arguments shared _ / : assert.

(** [BYTE_COPY_FWD (dst_bp, src_bp, nbytes)] *)
Fixpoint BYTE_COPY_FWD (src : source) (dst : region) (dst_bp src_bp : Z) (nbytes : nat) : res region :=
  match nbytes with
  | O => Ok dst
  | S n =>
      x ← load_bytes (src dst) src_bp 1;
      dst ← store_bytes dst dst_bp x;
      BYTE_COPY_FWD src dst (dst_bp + 1) (src_bp + 1) n
  end.

(** The statements from label [do<k>] to the end of the unrolled body: the
    words [8 - k .. 7] alternate between the two registers. *)
Fixpoint do8_from (k : nat) (src : source) (srcp dstp a0 a1 : Z) (dst : region)
    : res (Z * Z * region) :=
  match k with
  | O => Ok (a0, a1, dst)
  | S k' =>
      let i := 8 - Z.of_nat k in
      if Z.even i then
        a0' ← load_op (src dst) srcp i;
        dst ← store_op dst dstp i a1;
        do8_from k' src srcp dstp a0' a1 dst
      else
        a1' ← load_op (src dst) srcp i;
        dst ← store_op dst dstp i a0;
        do8_from k' src srcp dstp a0 a1' dst
  end.

(** [do { do8: ... do1: ... } while (len != 0); do0: ...], entered at [do<k>]. *)
Fixpoint fwd_aligned_loop (fuel k : nat) (src : source) (srcp dstp len a0 a1 : Z)
    (dst : region) : res region :=
  match fuel with
  | O => Bad Unspecified
  | S fuel' =>
      r ← do8_from k src srcp dstp a0 a1 dst;
      let '(a0, a1, dst) := r in
      let srcp := srcp + 8 * 8 in
      let dstp := dstp + 8 * 8 in
      let len := len - 8 in
      if len =? 0 then store_op dst dstp 0 a1
      else fwd_aligned_loop fuel' 8 src srcp dstp len a0 a1 dst
  end.

(** [OP_T_THRES <= 3 * OPSIZ] holds ([16 <= 24]), so the tests on [len == 0]
    are compiled in.  The registers a case does not set are not read. *)
Definition WORDCOPY_FWD_ALIGNED (src : source) (dst : region) (dstp srcp len : Z) : res region :=
  let fuel := S (Z.to_nat len) in
  let enter_a0 k s d l :=
    a0 ← load_op (src dst) srcp 0;
    fwd_aligned_loop fuel k src (srcp - s * 8) (dstp - d * 8) l a0 0 dst in
  let enter_a1 k s d l :=
    a1 ← load_op (src dst) srcp 0;
    fwd_aligned_loop fuel k src (srcp - s * 8) (dstp - d * 8) l 0 a1 dst in
  match len `mod` 8 with
  | 2 => enter_a0 1%nat 6 7 (len + 6)
  | 3 => enter_a1 2%nat 5 6 (len + 5)
  | 4 => enter_a0 3%nat 4 5 (len + 4)
  | 5 => enter_a1 4%nat 3 4 (len + 3)
  | 6 => enter_a0 5%nat 2 3 (len + 2)
  | 7 => enter_a1 6%nat 1 2 (len + 1)
  | 0 => if len =? 0 then Ok dst else enter_a0 7%nat 0 1 len
  | _ =>
      if len - 1 =? 0 then a1 ← load_op (src dst) srcp 0; store_op dst dstp 0 a1
      else enter_a1 8%nat (-1) 0 (len - 1)
  end.

(** The fourfold body from label [do<k>] on, over the registers [a0 .. a3]. *)
Record regs := Regs { ra0 : Z; ra1 : Z; ra2 : Z; ra3 : Z }.

Fixpoint do4_from (k : nat) (src : source) (srcp dstp sh_1 sh_2 : Z) (a : regs) (dst : region)
    : res (regs * region) :=
  match k with
  | O => Ok (a, dst)
  | S k' =>
      let i := 4 - Z.of_nat k in
      w ← load_op (src dst) srcp i;
      let '(a', m) :=
        match i with
        | 0 => (Regs w (ra1 a) (ra2 a) (ra3 a), MERGE (ra2 a) sh_1 (ra3 a) sh_2)
        | 1 => (Regs (ra0 a) w (ra2 a) (ra3 a), MERGE (ra3 a) sh_1 (ra0 a) sh_2)
        | 2 => (Regs (ra0 a) (ra1 a) w (ra3 a), MERGE (ra0 a) sh_1 (ra1 a) sh_2)
        | _ => (Regs (ra0 a) (ra1 a) (ra2 a) w, MERGE (ra1 a) sh_1 (ra2 a) sh_2)
        end in
      dst ← store_op dst dstp i m;
      do4_from k' src srcp dstp sh_1 sh_2 a' dst
  end.

Fixpoint fwd_dest_loop (fuel k : nat) (src : source) (srcp dstp len sh_1 sh_2 : Z) (a : regs)
    (dst : region) : res region :=
  match fuel with
  | O => Bad Unspecified
  | S fuel' =>
      r ← do4_from k src srcp dstp sh_1 sh_2 a dst;
      let '(a, dst) := r in
      let srcp := srcp + 4 * 8 in
      let dstp := dstp + 4 * 8 in
      let len := len - 4 in
      if len =? 0 then store_op dst dstp 0 (MERGE (ra2 a) sh_1 (ra3 a) sh_2)
      else fwd_dest_loop fuel' 4 src srcp dstp len sh_1 sh_2 a dst
  end.

Definition WORDCOPY_FWD_DEST_ALIGNED (src : source) (dst : region) (dstp srcp len : Z) : res region :=
  let sh_1 := 8 * (srcp `mod` 8) in
  let sh_2 := 8 * 8 - sh_1 in
  let srcp := Z.land srcp (-8) in
  let fuel := S (Z.to_nat len) in
  let enter k s d l a := fwd_dest_loop fuel k src (srcp - s * 8) (dstp - d * 8) l sh_1 sh_2 a dst in
  if (len `mod` 4 =? 0) && (len =? 0) then Ok dst
  else
    w0 ← load_op (src dst) srcp 0;
    w1 ← load_op (src dst) srcp 1;
    match len `mod` 4 with
    | 2 => enter 1%nat 1 3 (len + 2) (Regs 0 w0 w1 0)
    | 3 => enter 2%nat 0 2 (len + 1) (Regs w0 w1 0 0)
    | 0 => enter 3%nat (-1) 1 len (Regs w1 0 0 w0)
    | _ =>
        if len - 1 =? 0 then store_op dst dstp 0 (MERGE w0 sh_1 w1 sh_2)
        else enter 4%nat (-2) 0 (len - 1) (Regs 0 0 w0 w1)
    end.

(** [memcpy.c], with [WORD_COPY_FWD] of [memcopy.h] (page copying is not used). *)
Definition memcpy_words (src dst : region) (dstp srcp : Z) (len : nat) : res region :=
  if 16 <=? Z.of_nat len then
    let k := (- dstp) `mod` 8 in
    dst ← BYTE_COPY_FWD src dst dstp srcp (Z.to_nat k);
    let len := Z.of_nat len - k in
    let dstp := dstp + k in
    let srcp := srcp + k in
    dst ← (if srcp `mod` 8 =? 0 then WORDCOPY_FWD_ALIGNED src dst dstp srcp (len / 8)
           else WORDCOPY_FWD_DEST_ALIGNED src dst dstp srcp (len / 8));
    let n := Z.land len (-8) in
    BYTE_COPY_FWD src dst (dstp + n) (srcp + n) (Z.to_nat (len `mod` 8))
  else BYTE_COPY_FWD src dst dstp srcp len.

(** ** Filling *)

(** The byte stores of the first and the last loop of [memset.c]. *)
Fixpoint memset_bytes (n : nat) (dst : region) (dstp c : Z) : res region :=
  match n with
  | O => Ok dst
  | S n' => dst ← store_bytes dst dstp [uint8 c]; memset_bytes n' dst (dstp + 1) c
  end.

(** [while (dstp % OPSIZ != 0)]: at most seven rounds. *)
Fixpoint memset_align (fuel : nat) (dst : region) (dstp c len : Z) : res (region * Z * Z) :=
  match fuel with
  | O => Bad Unspecified
  | S fuel' =>
      if dstp `mod` 8 =? 0 then Ok (dst, dstp, len)
      else dst ← store_bytes dst dstp [uint8 c]; memset_align fuel' dst (dstp + 1) c (len - 1)
  end.

(** The statements [((op_t * ) dstp)[i] = cccc] for [n] successive [i]. *)
Fixpoint store_ops (n : nat) (dst : region) (dstp i cccc : Z) : res region :=
  match n with
  | O => Ok dst
  | S n' => dst ← store_op dst dstp i cccc; store_ops n' dst dstp (i + 1) cccc
  end.

(** [while (xlen > 0)] with [per] word stores in the body. *)
Fixpoint memset_words (xlen per : nat) (dst : region) (dstp cccc : Z) : res (region * Z) :=
  match xlen with
  | O => Ok (dst, dstp)
  | S x =>
      dst ← store_ops per dst dstp 0 cccc;
      memset_words x per dst (dstp + Z.of_nat per * 8) cccc
  end.

Definition memset_fill (dst : region) (dstpp c len : Z) : res region :=
  if 8 <=? len then
    let cccc := charmask (uint8 c) in
    r ← memset_align 8 dst dstpp c len;
    let '(dst, dstp, len) := r in
    r ← memset_words (Z.to_nat (len / (8 * 8))) 8 dst dstp cccc;
    let '(dst, dstp) := r in
    let len := len `mod` (8 * 8) in
    r ← memset_words (Z.to_nat (len / 8)) 1 dst dstp cccc;
    let '(dst, dstp) := r in
    let len := len `mod` 8 in
    memset_bytes (Z.to_nat len) dst dstp c
  else memset_bytes (Z.to_nat len) dst dstpp c.

(** ** String functions *)

Definition STRCPY (src dst : region) (dest srcp : Z) : res region :=
  n ← STRLEN srcp (view src srcp);
  memcpy_words src dst dest srcp (Z.to_nat (n + 1)).

(** [stpcpy] also returns the address of the NUL it stored. *)
Definition STPCPY (src dst : region) (dest srcp : Z) : res (region * Z) :=
  len ← STRLEN srcp (view src srcp);
  dst ← memcpy_words src dst dest srcp (Z.to_nat (len + 1));
  Ok (dst, dest + len).

Definition STRCAT (src dst : region) (dest srcp : Z) : res region :=
  n ← STRLEN dest (view dst dest);
  STRCPY src dst (dest + n) srcp.

Definition STRNCPY (src dst : region) (s1 s2 n : Z) : res region :=
  size ← strnlen s2 (view src s2) n;
  dst ← (if negb (size =? n) then memset_fill dst (s1 + size) 0 (n - size) else Ok dst);
  memcpy_words src dst s1 s2 (Z.to_nat size).

Definition STRNCAT (src dst : region) (s1 s2 n : Z) : res region :=
  k ← STRLEN s1 (view dst s1);
  let s1 := s1 + k in
  ss ← strnlen s2 (view src s2) n;
  dst ← store_bytes dst (s1 + ss) [0];
  memcpy_words src dst s1 s2 (Z.to_nat ss).

(** ** Comparing *)

(** [strcmp.c]: [do { ... } while (c1 == c2)]. *)
Fixpoint STRCMP (s1 s2 : list Z) : res Z :=
  match s1, s2 with
  | c1 :: s1', c2 :: s2' =>
      if c1 =? 0 then Ok (c1 - c2)
      else if c1 =? c2 then STRCMP s1' s2' else Ok (c1 - c2)
  | _, _ => Bad OutOfBounds
  end.

(** One round of the loops of [strncmp.c]: [inl] when the function returns. *)
Definition ncmp_round (s1 s2 : list Z) : res (Z + (Z * Z * list Z * list Z)) :=
  match s1, s2 with
  | c1 :: s1', c2 :: s2' =>
      if (c1 =? 0) || negb (c1 =? c2) then Ok (inl (c1 - c2)) else Ok (inr (c1, c2, s1', s2'))
  | _, _ => Bad OutOfBounds
  end.

(** [k] rounds in a row, from the registers [c1] and [c2]. *)
Fixpoint ncmp_rounds (k : nat) (c1 c2 : Z) (s1 s2 : list Z)
    : res (Z + (Z * Z * list Z * list Z)) :=
  match k with
  | O => Ok (inr (c1, c2, s1, s2))
  | S k' =>
      r ← ncmp_round s1 s2;
      match r with
      | inl d => Ok (inl d)
      | inr (c1, c2, s1, s2) => ncmp_rounds k' c1 c2 s1 s2
      end
  end.

(** [do { four rounds } while (--n4 > 0)] *)
Fixpoint ncmp_fours (n4 : nat) (c1 c2 : Z) (s1 s2 : list Z)
    : res (Z + (Z * Z * list Z * list Z)) :=
  match n4 with
  | O => Ok (inr (c1, c2, s1, s2))
  | S n4' =>
      r ← ncmp_rounds 4 c1 c2 s1 s2;
      match r with
      | inl d => Ok (inl d)
      | inr (c1, c2, s1, s2) => ncmp_fours n4' c1 c2 s1 s2
      end
  end.

Definition STRNCMP (s1 s2 : list Z) (n : Z) : res Z :=
  r ← (if 4 <=? n then ncmp_fours (Z.to_nat (Z.shiftr n 2)) 0 0 s1 s2
       else Ok (inr (0, 0, s1, s2)));
  match r with
  | inl d => Ok d
  | inr (c1, c2, s1, s2) =>
      let n := if 4 <=? n then Z.land n 3 else n in
      r ← ncmp_rounds (Z.to_nat n) c1 c2 s1 s2;
      match r with
      | inl d => Ok d
      | inr (c1, c2, _, _) => Ok (c1 - c2)
      end
  end.

(** ** Loads and stores inside a region *)

(** [n] bytes from [a] on lie in the region. *)
Definition fits (r : region) (a n : Z) : Prop :=
  rbase r ≤ a ∧ 0 ≤ n ∧ a + n ≤ rbase r + Z.of_nat (length (rbytes r)).

Definition get (r : region) (a n : Z) : list Z :=
  take (Z.to_nat n) (drop (Z.to_nat (a - rbase r)) (rbytes r)).

Definition put (r : region) (a : Z) (l : list Z) : region :=
  let off := Z.to_nat (a - rbase r) in
  Region (rbase r) (take off (rbytes r) ++ l ++ drop (off + length l) (rbytes r)).

Lemma get_length r a n : fits r a n → length (get r a n) = Z.to_nat n.
Proof. intros (?&?&?). unfold get. rewrite length_take, length_drop. lia. Qed.

Lemma get_app r a n m : fits r a (n + m) → 0 ≤ n → 0 ≤ m →
  get r a (n + m) = get r a n ++ get r (a + n) m.
Proof.
  intros (?&?&?) ??. unfold get. rewrite Z2Nat.inj_add by done.
  rewrite <-take_take_drop. f_equal. rewrite drop_drop. do 2 f_equal. lia.
Qed.

Lemma get_bytes r a n : bytes_ok (rbytes r) → bytes_ok (get r a n).
Proof. intros. unfold get. by apply Forall_take, Forall_drop. Qed.

Lemma load_bytes_get r a n : fits r a (Z.of_nat n) → load_bytes r a n = Ok (get r a (Z.of_nat n)).
Proof.
  intros (?&?&?). unfold load_bytes, get. rewrite Nat2Z.id.
  destruct (Z.leb_spec (rbase r) a); [|lia]. by destruct (Z.leb_spec (a + Z.of_nat n)
    (rbase r + Z.of_nat (length (rbytes r)))); [|lia].
Qed.

Lemma store_bytes_put r a l : fits r a (Z.of_nat (length l)) → store_bytes r a l = Ok (put r a l).
Proof.
  intros (?&?&?). unfold store_bytes, put. destruct (Z.leb_spec (rbase r) a); [|lia].
  rewrite blit_ok by lia. done.
Qed.

Lemma put_length r a l : fits r a (Z.of_nat (length l)) →
  length (rbytes (put r a l)) = length (rbytes r).
Proof. intros (?&?&?). unfold put. simpl. rewrite !length_app, length_take, length_drop. lia. Qed.

Lemma fits_put r a l b n : fits r a (Z.of_nat (length l)) → fits (put r a l) b n ↔ fits r b n.
Proof. intros Hf. unfold fits. rewrite put_length by done. done. Qed.

Lemma put_nil r a : fits r a 0 → put r a [] = r.
Proof.
  intros (?&?&?). unfold put. simpl. rewrite Nat.add_0_r, take_drop. by destruct r.
Qed.

(** A store right after another is one longer store. *)
Lemma put_put r a b l1 l2 : fits r a (Z.of_nat (length l1 + length l2)) →
  b = a + Z.of_nat (length l1) → put (put r a l1) b l2 = put r a (l1 ++ l2).
Proof.
  intros (?&?&?) ->. unfold put. cbn [rbase rbytes]. f_equal.
  set (off := Z.to_nat (a - rbase r)).
  replace (Z.to_nat (a + Z.of_nat (length l1) - rbase r)) with (off + length l1)%nat by lia.
  assert (length (take off (rbytes r)) = off) as Ho by (rewrite length_take; lia).
  assert (length (take off (rbytes r) ++ l1) = off + length l1)%nat as Hol by (rewrite length_app; lia).
  rewrite (app_assoc (take off (rbytes r)) l1), take_app_length' by done.
  rewrite drop_app_ge, drop_drop, Hol by lia. rewrite <-!app_assoc. do 4 f_equal. rewrite length_app. lia.
Qed.

(** ** Words and their bytes *)

Lemma le_word_app l r : le_word (l ++ r) = le_word l + 2 ^ (8 * Z.of_nat (length l)) * le_word r.
Proof.
  induction l as [|b l IH]; cbn [le_word app length]; [lia|]. rewrite IH.
  replace (8 * Z.of_nat (S (length l))) with (8 + 8 * Z.of_nat (length l)) by lia.
  rewrite Z.pow_add_r by lia. change (2 ^ 8) with 256. lia.
Qed.

Lemma le_bytes_word l : bytes_ok l → le_bytes (length l) (le_word l) = l.
Proof.
  induction 1 as [|b l Hb Hl IH]; [done|]. cbn [le_bytes le_word length]. unfold is_byte in Hb.
  f_equal; [Z.to_euclidean_division_equations; lia|].
  replace ((b + 256 * le_word l) / 256) with (le_word l); [done|].
  Z.to_euclidean_division_equations; lia.
Qed.

Lemma lor_shift n x y : 0 ≤ n → 0 ≤ x < 2 ^ n → Z.lor x (Z.shiftl y n) = x + 2 ^ n * y.
Proof.
  intros Hn Hx. rewrite <-Z.lxor_lor by by apply low_shift_land.
  rewrite <-Z.add_nocarry_lxor by by apply low_shift_land. rewrite Z.shiftl_mul_pow2 by done. lia.
Qed.

(** Merging two words is reading eight bytes across them. *)
Lemma MERGE_bytes (u v : list Z) (k : nat) : bytes_ok u → bytes_ok v → length u = 8%nat →
  length v = 8%nat → (0 < k < 8)%nat →
  MERGE (le_word u) (8 * Z.of_nat k) (le_word v) (64 - 8 * Z.of_nat k) =
  le_word (drop k u ++ take k v).
Proof.
  intros Hu Hv Lu Lv Hk. unfold MERGE, uint64.
  pose proof (le_word_range (take k u) ltac:(by apply Forall_take)) as Ru.
  pose proof (le_word_range (drop k u) ltac:(by apply Forall_drop)) as Ru'.
  pose proof (le_word_range (take k v) ltac:(by apply Forall_take)) as Rv.
  rewrite length_take, Nat.min_l in Ru, Rv by lia. rewrite length_drop, Lu in Ru'.
  rewrite le_word_app, length_drop, Lu.
  replace (8 * Z.of_nat (8 - k)) with (64 - 8 * Z.of_nat k) in * by lia.
  rewrite <-(take_drop k u) at 1. rewrite <-(take_drop k v) at 1. rewrite !le_word_app.
  rewrite !length_take, !Nat.min_l by lia.
  set (n := 8 * Z.of_nat k) in *. assert (0 < n < 64) as Hn by lia.
  rewrite Z.shiftr_div_pow2, Z.mul_comm, Z.div_add, Z.div_small, Z.add_0_l by lia.
  rewrite Z.shiftl_mul_pow2 by lia.
  replace ((le_word (take k v) + 2 ^ n * le_word (drop k v)) * 2 ^ (64 - n)) with
    (le_word (take k v) * 2 ^ (64 - n) + le_word (drop k v) * 2 ^ 64).
  2:{ replace (2 ^ 64) with (2 ^ n * 2 ^ (64 - n)) by (rewrite <-Z.pow_add_r by lia; f_equal; lia). lia. }
  assert (2 ^ n * 2 ^ (64 - n) = 2 ^ 64) as Hpow by (rewrite <-Z.pow_add_r by lia; f_equal; lia).
  assert (0 < 2 ^ (64 - n)) by (apply Z.pow_pos_nonneg; lia).
  rewrite Z.mod_add, Z.mod_small by (try rewrite <-Hpow; nia || lia).
  rewrite <-Z.shiftl_mul_pow2, lor_shift by lia. lia.
Qed.

(** ** The copying loops *)

Lemma store_op_put r p i w : bytes_ok w → length w = 8%nat → fits r (p + 8 * i) 8 →
  store_op r p i (le_word w) = Ok (put r (p + 8 * i) w).
Proof.
  intros Hb Hl Hf. unfold store_op. rewrite <-Hl, le_bytes_word by done.
  apply store_bytes_put. by rewrite Hl.
Qed.

Lemma load_op_get r p i : fits r (p + 8 * i) 8 → load_op r p i = Ok (le_word (get r (p + 8 * i) 8)).
Proof. intros Hf. unfold load_op. by rewrite load_bytes_get. Qed.

Ltac fits_lia := unfold fits in *; cbn [rbase rbytes] in *; lia.

Section Copy.
  Context (src : region) (Hsrc : bytes_ok (rbytes src)).

Lemma BYTE_COPY_FWD_spec n : ∀ dst d s,
    fits src s (Z.of_nat n) → fits dst d (Z.of_nat n) →
    BYTE_COPY_FWD src dst d s n = Ok (put dst d (get src s (Z.of_nat n))).
  Proof.
    induction n as [|n IH]; intros dst d s Hs Hd.
    - simpl. by rewrite put_nil.
    - cbn [BYTE_COPY_FWD separate]. rewrite load_bytes_get by fits_lia. cbn [mbind res_bind].
      assert (length (get src s (Z.of_nat 1)) = 1%nat) as L1 by (rewrite get_length; fits_lia).
      assert (length (get src (s + 1) (Z.of_nat n)) = n) as Ln by (rewrite get_length; fits_lia).
      rewrite store_bytes_put by (rewrite L1; fits_lia). cbn [mbind res_bind].
      rewrite IH; [|fits_lia|rewrite fits_put; rewrite ?L1; fits_lia]. f_equal.
      rewrite put_put; [|rewrite L1, Ln; fits_lia|rewrite L1; lia]. f_equal.
      rewrite (Nat2Z.inj_succ n), <-Z.add_1_l. by rewrite get_app by fits_lia.
  Qed.

  (** The register the statement at [do<k>] stores. *)
Definition pending8 (i a0 a1 : Z) : Z := if Z.even i then a1 else a0.

Lemma do8_from_spec k : ∀ srcp dstp a0 a1 dst, (k ≤ 8)%nat →
    let i := 8 - Z.of_nat k in
    fits src (srcp + 8 * (i - 1)) (8 * Z.of_nat k + 8) → fits dst (dstp + 8 * i) (8 * Z.of_nat k) →
    pending8 i a0 a1 = le_word (get src (srcp + 8 * (i - 1)) 8) →
    ∃ a0', do8_from k src srcp dstp a0 a1 dst =
      Ok (a0', le_word (get src (srcp + 8 * 7) 8),
          put dst (dstp + 8 * i) (get src (srcp + 8 * (i - 1)) (8 * Z.of_nat k))).
  Proof.
    induction k as [|k IH]; intros srcp dstp a0 a1 dst Hk i Hs Hd Hp; subst i.
    - simpl in *. exists a0. change (8 - 0) with 8 in *. unfold pending8 in Hp. simpl in Hp.
      rewrite Hp, put_nil by done. done.
    - set (i := 8 - Z.of_nat (S k)) in *.
      assert (8 - Z.of_nat k = i + 1) as Ei by lia.
      assert (length (get src (srcp + 8 * (i - 1)) 8) = 8%nat) as L8 by (rewrite get_length; fits_lia).
      assert (length (get src (srcp + 8 * i) (8 * Z.of_nat k)) = Z.to_nat (8 * Z.of_nat k)) as Lk
        by (rewrite get_length; fits_lia).
      set (w := get src (srcp + 8 * (i - 1)) 8) in *.
      assert (∀ a0 a1, pending8 (i + 1) a0 a1 = le_word (get src (srcp + 8 * i) 8) →
        ∃ a0', do8_from k src srcp dstp a0 a1 (put dst (dstp + 8 * i) w) =
          Ok (a0', le_word (get src (srcp + 8 * 7) 8),
            put dst (dstp + 8 * i) (get src (srcp + 8 * (i - 1)) (8 * Z.of_nat (S k))))) as Hgo.
      { intros b0 b1 Hb. specialize (IH srcp dstp b0 b1 (put dst (dstp + 8 * i) w)). cbv zeta in IH. rewrite Ei in IH.
        replace (i + 1 - 1) with i in IH by lia.
        destruct IH as [a0' ->]; [lia|fits_lia|rewrite fits_put; rewrite ?L8; fits_lia|done|].
        exists a0'. do 2 f_equal.
        rewrite put_put; [|rewrite L8, Lk; fits_lia|rewrite L8; lia]. f_equal.
        replace (8 * Z.of_nat (S k)) with (8 + 8 * Z.of_nat k) by lia.
        rewrite get_app by fits_lia. do 2 f_equal. lia. }
      cbn [do8_from separate]. fold i. rewrite load_op_get by fits_lia. unfold pending8 in Hp.
      unfold pending8 in Hgo. rewrite Z.add_1_r, Z.even_succ, <-Z.negb_even in Hgo.
      destruct (Z.even i); cbn [mbind res_bind]; rewrite Hp, store_op_put;
        try done; try fits_lia; try (by apply get_bytes); cbn [mbind res_bind]; by apply Hgo.
  Qed.

Lemma fwd_aligned_loop_spec m : ∀ fuel k srcp dstp a0 a1 dst, (k ≤ 8)%nat → (m < fuel)%nat →
    let i := 8 - Z.of_nat k in
    let n := 8 * (Z.of_nat k + 8 * Z.of_nat m + 1) in
    fits src (srcp + 8 * (i - 1)) n → fits dst (dstp + 8 * i) n →
    pending8 i a0 a1 = le_word (get src (srcp + 8 * (i - 1)) 8) →
    fwd_aligned_loop fuel k src srcp dstp (8 * (Z.of_nat m + 1)) a0 a1 dst =
    Ok (put dst (dstp + 8 * i) (get src (srcp + 8 * (i - 1)) n)).
  Proof.
    induction m as [|m IH]; intros fuel k srcp dstp a0 a1 dst Hk Hf i n Hs Hd Hp; subst n;
      destruct fuel as [|fuel]; try lia; cbn [fwd_aligned_loop];
      destruct (do8_from_spec k srcp dstp a0 a1 dst) as [a0' ->]; try done; try fits_lia;
      cbn [mbind res_bind]; fold i;
      assert (length (get src (srcp + 8 * (i - 1)) (8 * Z.of_nat k)) = Z.to_nat (8 * Z.of_nat k)) as Lk
        by (rewrite get_length; fits_lia).
    - assert (length (get src (srcp + 8 * 7) 8) = 8%nat) as L8 by (rewrite get_length; fits_lia).
      rewrite (proj2 (Z.eqb_eq (8 * (Z.of_nat 0 + 1) - 8) 0)) by lia.
      rewrite store_op_put; [|by apply get_bytes|done|rewrite fits_put; rewrite ?Lk; fits_lia].
      rewrite put_put; [|rewrite Lk, L8; fits_lia|rewrite Lk; lia]. do 2 f_equal.
      replace (8 * (Z.of_nat k + 8 * Z.of_nat 0 + 1)) with (8 * Z.of_nat k + 8) by lia.
      rewrite get_app by fits_lia. do 2 f_equal. lia.
    - rewrite (proj2 (Z.eqb_neq (8 * (Z.of_nat (S m) + 1) - 8) 0)) by lia.
      replace (8 * (Z.of_nat (S m) + 1) - 8) with (8 * (Z.of_nat m + 1)) by lia.
      assert (length (get src (srcp + 8 * 8 + -8) (8 * (8 + 8 * Z.of_nat m + 1))) =
        Z.to_nat (8 * (8 + 8 * Z.of_nat m + 1))) as Lr by (rewrite get_length; fits_lia).
      rewrite IH; [|lia|lia|fits_lia|rewrite fits_put; rewrite ?Lk; fits_lia|].
      + replace (8 * (8 - Z.of_nat 8 - 1)) with (-8) by lia. change (8 - Z.of_nat 8) with 0.
        change (Z.of_nat 8) with 8.
        rewrite put_put; [|rewrite Lk, Lr; fits_lia|rewrite Lk; lia]. do 2 f_equal.
        replace (8 * (Z.of_nat k + 8 * Z.of_nat (S m) + 1)) with
          (8 * Z.of_nat k + 8 * (8 + 8 * Z.of_nat m + 1)) by lia.
        rewrite get_app by fits_lia. do 2 f_equal. lia.
      + unfold pending8. change (Z.even (8 - Z.of_nat 8)) with true. cbn [negb]. do 2 f_equal. lia.
  Qed.

Lemma fwd_aligned_enter k srcp dstp len srcp' dstp' l a0 a1 dst (m : nat) :
    (k ≤ 8)%nat → len = Z.of_nat k + 8 * Z.of_nat m + 1 → l = 8 * (Z.of_nat m + 1) →
    srcp' = srcp - 8 * (8 - Z.of_nat k - 1) → dstp' = dstp - 8 * (8 - Z.of_nat k) →
    fits src srcp (8 * len) → fits dst dstp (8 * len) →
    pending8 (8 - Z.of_nat k) a0 a1 = le_word (get src srcp 8) →
    fwd_aligned_loop (S (Z.to_nat len)) k src srcp' dstp' l a0 a1 dst =
    Ok (put dst dstp (get src srcp (8 * len))).
  Proof.
    intros Hk Hlen -> -> -> Hs Hd Hp.
    pose proof (fwd_aligned_loop_spec m (S (Z.to_nat len)) k (srcp - 8 * (8 - Z.of_nat k - 1))
      (dstp - 8 * (8 - Z.of_nat k)) a0 a1 dst) as H. cbv zeta in H.
    replace (srcp - 8 * (8 - Z.of_nat k - 1) + 8 * (8 - Z.of_nat k - 1)) with srcp in H by lia.
    replace (dstp - 8 * (8 - Z.of_nat k) + 8 * (8 - Z.of_nat k)) with dstp in H by lia.
    rewrite <-Hlen in H. apply H; try done; lia.
  Qed.

Lemma mod8_cases z : z `mod` 8 = 0 ∨ z `mod` 8 = 1 ∨ z `mod` 8 = 2 ∨ z `mod` 8 = 3 ∨
    z `mod` 8 = 4 ∨ z `mod` 8 = 5 ∨ z `mod` 8 = 6 ∨ z `mod` 8 = 7.
  Proof. pose proof (Z.mod_pos_bound z 8). lia. Qed.

Lemma WORDCOPY_FWD_ALIGNED_spec dst dstp srcp len : 0 ≤ len →
    fits src srcp (8 * len) → fits dst dstp (8 * len) →
    WORDCOPY_FWD_ALIGNED src dst dstp srcp len = Ok (put dst dstp (get src srcp (8 * len))).
  Proof.
    intros Hlen Hs Hd. unfold WORDCOPY_FWD_ALIGNED. cbn [separate].
    destruct (decide (len = 0)) as [->|Hne].
    { change (8 * 0) with 0 in *. change (get src srcp 0) with (@nil Z). by rewrite put_nil. }
    pose proof (Z.div_mod len 8 ltac:(done)) as Hdm.
    assert (0 ≤ len / 8) by (apply Z.div_pos; lia).
    assert (load_op src srcp 0 = Ok (le_word (get src srcp 8))) as Hl.
    { rewrite load_op_get by fits_lia. by rewrite Z.mul_0_r, Z.add_0_r. }
    destruct (mod8_cases len) as [E|[E|[E|[E|[E|[E|[E|E]]]]]]]; rewrite E in *; cbn [mbind res_bind];
      rewrite ?Hl; cbn [mbind res_bind].
    - destruct (Z.eqb_spec len 0); [done|].
      apply (fwd_aligned_enter _ srcp dstp) with (m := Z.to_nat (len / 8 - 1)); done || lia.
    - destruct (Z.eqb_spec (len - 1) 0).
      + replace len with 1 in * by lia. change (8 * 1) with 8 in *.
        rewrite store_op_put; [by rewrite Z.mul_0_r, Z.add_0_r|by apply get_bytes| |fits_lia].
        rewrite get_length; fits_lia.
      + apply (fwd_aligned_enter _ srcp dstp) with (m := Z.to_nat (len / 8 - 1)); done || lia.
    - apply (fwd_aligned_enter _ srcp dstp) with (m := Z.to_nat (len / 8)); done || lia.
    - apply (fwd_aligned_enter _ srcp dstp) with (m := Z.to_nat (len / 8)); done || lia.
    - apply (fwd_aligned_enter _ srcp dstp) with (m := Z.to_nat (len / 8)); done || lia.
    - apply (fwd_aligned_enter _ srcp dstp) with (m := Z.to_nat (len / 8)); done || lia.
    - apply (fwd_aligned_enter _ srcp dstp) with (m := Z.to_nat (len / 8)); done || lia.
    - apply (fwd_aligned_enter _ srcp dstp) with (m := Z.to_nat (len / 8)); done || lia.
  Qed.

  (** *** The merging loop *)

  (** The two words whose merge the statement at [do<k>] stores. *)
Definition pending4 (i : Z) (a : regs) : Z * Z :=
    match i with
    | 0 => (ra2 a, ra3 a)
    | 1 => (ra3 a, ra0 a)
    | 2 => (ra0 a, ra1 a)
    | 3 => (ra1 a, ra2 a)
    | _ => (ra2 a, ra3 a)
    end.

  Context (sh : nat) (Hsh : (0 < sh < 8)%nat).
  Abbreviation sh1 := (8 * Z.of_nat sh).
  Abbreviation sh2 := (64 - 8 * Z.of_nat sh).
  Abbreviation word p := (le_word (get src p 8)).

Lemma MERGE_get p : fits src p 16 →
    MERGE (word p) sh1 (word (p + 8)) sh2 = le_word (get src (p + Z.of_nat sh) 8).
  Proof.
    intros Hf. rewrite MERGE_bytes; [|by apply get_bytes|by apply get_bytes|..|done];
      [|rewrite get_length; fits_lia..]. f_equal. unfold get.
    destruct Hf as (?&?&?).
    rewrite skipn_firstn_comm, take_take, drop_drop.
    replace (Z.to_nat (p + 8 - rbase src)) with (Z.to_nat (p - rbase src) + sh + (8 - sh))%nat by lia.
    replace (Z.to_nat (p + Z.of_nat sh - rbase src)) with (Z.to_nat (p - rbase src) + sh)%nat by lia.
    replace (Z.to_nat 8 - sh)%nat with (8 - sh)%nat by lia.
    replace (sh `min` Z.to_nat 8)%nat with sh by lia.
    replace (Z.to_nat 8) with ((8 - sh) + sh)%nat by lia. by rewrite <-take_take_drop, !drop_drop.
  Qed.

Lemma do4_step i a w :
    0 ≤ i < 4 →
    let '(a', m) :=
      match i with
      | 0 => (Regs w (ra1 a) (ra2 a) (ra3 a), MERGE (ra2 a) sh1 (ra3 a) sh2)
      | 1 => (Regs (ra0 a) w (ra2 a) (ra3 a), MERGE (ra3 a) sh1 (ra0 a) sh2)
      | 2 => (Regs (ra0 a) (ra1 a) w (ra3 a), MERGE (ra0 a) sh1 (ra1 a) sh2)
      | _ => (Regs (ra0 a) (ra1 a) (ra2 a) w, MERGE (ra1 a) sh1 (ra2 a) sh2)
      end in
    m = MERGE (pending4 i a).1 sh1 (pending4 i a).2 sh2 ∧
    pending4 (i + 1) a' = ((pending4 i a).2, w).
  Proof.
    intros Hi. assert (i = 0 ∨ i = 1 ∨ i = 2 ∨ i = 3) as [->|[->|[->| ->]]] by lia; done.
  Qed.

Lemma do4_from_spec k : ∀ srcp dstp a dst, (k ≤ 4)%nat →
    let i := 4 - Z.of_nat k in
    fits src (srcp + 8 * (i - 2)) (8 * Z.of_nat k + 16) → fits dst (dstp + 8 * i) (8 * Z.of_nat k) →
    pending4 i a = (word (srcp + 8 * (i - 2)), word (srcp + 8 * (i - 1))) →
    ∃ a', do4_from k src srcp dstp sh1 sh2 a dst =
      Ok (a', put dst (dstp + 8 * i) (get src (srcp + 8 * (i - 2) + Z.of_nat sh) (8 * Z.of_nat k))) ∧
      pending4 4 a' = (word (srcp + 8 * 2), word (srcp + 8 * 3)).
  Proof.
    induction k as [|k IH]; intros srcp dstp a dst Hk i Hs Hd Hp; subst i.
    - exists a. change (4 - Z.of_nat 0) with 4 in *. split; [|done].
      cbn [do4_from]. change (8 * Z.of_nat 0) with 0 in *.
      change (get src _ 0) with (@nil Z). by rewrite put_nil.
    - set (i := 4 - Z.of_nat (S k)) in *.
      assert (4 - Z.of_nat k = i + 1) as Ei by lia.
      set (w := get src (srcp + 8 * (i - 2) + Z.of_nat sh) 8).
      assert (length w = 8%nat) as L8 by (subst w; rewrite get_length; fits_lia).
      assert (length (get src (srcp + 8 * (i - 1) + Z.of_nat sh) (8 * Z.of_nat k)) =
        Z.to_nat (8 * Z.of_nat k)) as Lk by (rewrite get_length; fits_lia).
      cbn [do4_from separate]. fold i. rewrite load_op_get by fits_lia. cbn [mbind res_bind].
      pose proof (do4_step i a (word (srcp + 8 * i)) ltac:(lia)) as Hstep.
      destruct (match i with 0 => _ | _ => _ end) as [a' m]. destruct Hstep as [-> Hp'].
      rewrite Hp in Hp'. rewrite Hp. cbn [fst snd] in *.
      replace (srcp + 8 * (i - 1)) with (srcp + 8 * (i - 2) + 8) in * by lia.
      rewrite MERGE_get by fits_lia. fold w.
      rewrite store_op_put; [|by apply get_bytes|done|fits_lia]. cbn [mbind res_bind].
      specialize (IH srcp dstp a' (put dst (dstp + 8 * i) w)). cbv zeta in IH. rewrite Ei in IH.
      replace (i + 1 - 2) with (i - 1) in IH by lia. replace (i + 1 - 1) with i in IH by lia.
      replace (srcp + 8 * (i - 1)) with (srcp + 8 * (i - 2) + 8) in IH by lia.
      destruct IH as (a2 & -> & Hp2); [lia|fits_lia|rewrite fits_put; rewrite ?L8; fits_lia|done|].
      exists a2. split; [|done]. do 2 f_equal.
      rewrite put_put; [|rewrite L8, Lk; fits_lia|rewrite L8; lia]. f_equal.
      replace (8 * Z.of_nat (S k)) with (8 + 8 * Z.of_nat k) by lia.
      rewrite get_app by fits_lia. do 2 f_equal. lia.
  Qed.

Lemma fwd_dest_loop_spec m : ∀ fuel k srcp dstp a dst, (k ≤ 4)%nat → (m < fuel)%nat →
    let i := 4 - Z.of_nat k in
    let n := 8 * (Z.of_nat k + 4 * Z.of_nat m + 1) in
    fits src (srcp + 8 * (i - 2)) (n + 8) → fits dst (dstp + 8 * i) n →
    pending4 i a = (word (srcp + 8 * (i - 2)), word (srcp + 8 * (i - 1))) →
    fwd_dest_loop fuel k src srcp dstp (4 * (Z.of_nat m + 1)) sh1 sh2 a dst =
    Ok (put dst (dstp + 8 * i) (get src (srcp + 8 * (i - 2) + Z.of_nat sh) n)).
  Proof.
    induction m as [|m IH]; intros fuel k srcp dstp a dst Hk Hf i n Hs Hd Hp; subst n;
      destruct fuel as [|fuel]; try lia; cbn [fwd_dest_loop];
      destruct (do4_from_spec k srcp dstp a dst) as (a' & -> & Hp'); try done; try fits_lia;
      cbn [mbind res_bind]; fold i;
      assert (length (get src (srcp + 8 * (i - 2) + Z.of_nat sh) (8 * Z.of_nat k)) =
        Z.to_nat (8 * Z.of_nat k)) as Lk by (rewrite get_length; fits_lia).
    - rewrite (proj2 (Z.eqb_eq (4 * (Z.of_nat 0 + 1) - 4) 0)) by lia.
      assert (length (get src (srcp + 8 * 2 + Z.of_nat sh) 8) = 8%nat) as L8 by (rewrite get_length; fits_lia).
      cbn in Hp'. injection Hp' as -> ->.
      replace (srcp + 8 * 3) with (srcp + 8 * 2 + 8) by lia. rewrite MERGE_get by fits_lia.
      rewrite store_op_put; [|by apply get_bytes|done|rewrite fits_put; rewrite ?Lk; fits_lia].
      rewrite put_put; [|rewrite Lk, L8; fits_lia|rewrite Lk; lia]. do 2 f_equal.
      replace (8 * (Z.of_nat k + 4 * Z.of_nat 0 + 1)) with (8 * Z.of_nat k + 8) by lia.
      rewrite get_app by fits_lia. do 2 f_equal. lia.
    - rewrite (proj2 (Z.eqb_neq (4 * (Z.of_nat (S m) + 1) - 4) 0)) by lia.
      replace (4 * (Z.of_nat (S m) + 1) - 4) with (4 * (Z.of_nat m + 1)) by lia.
      specialize (IH fuel 4%nat (srcp + 4 * 8) (dstp + 4 * 8) a').
      cbv zeta in IH. change (4 - Z.of_nat 4) with 0 in IH. change (Z.of_nat 4) with 4 in IH.
      replace (srcp + 4 * 8 + 8 * (0 - 2)) with (srcp + 8 * 2) in IH by lia.
      replace (srcp + 4 * 8 + 8 * (0 - 1)) with (srcp + 8 * 3) in IH by lia.
      assert (length (get src (srcp + 8 * 2 + Z.of_nat sh) (8 * (4 + 4 * Z.of_nat m + 1))) =
        Z.to_nat (8 * (4 + 4 * Z.of_nat m + 1))) as Lr by (rewrite get_length; fits_lia).
      rewrite IH; [|lia|lia|fits_lia|rewrite fits_put; rewrite ?Lk; fits_lia|done].
      rewrite put_put; [|rewrite Lk, Lr; fits_lia|rewrite Lk; lia]. do 2 f_equal.
      replace (8 * (Z.of_nat k + 4 * Z.of_nat (S m) + 1)) with
        (8 * Z.of_nat k + 8 * (4 + 4 * Z.of_nat m + 1)) by lia.
      rewrite get_app by fits_lia. do 2 f_equal. lia.
  Qed.

Lemma fwd_dest_enter k p dstp len srcp' dstp' l a dst (m : nat) :
    (k ≤ 4)%nat → len = Z.of_nat k + 4 * Z.of_nat m + 1 → l = 4 * (Z.of_nat m + 1) →
    srcp' = p - 8 * (4 - Z.of_nat k - 2) → dstp' = dstp - 8 * (4 - Z.of_nat k) →
    fits src p (8 * len + 8) → fits dst dstp (8 * len) →
    pending4 (4 - Z.of_nat k) a = (word p, word (p + 8)) →
    fwd_dest_loop (S (Z.to_nat len)) k src srcp' dstp' l sh1 sh2 a dst =
    Ok (put dst dstp (get src (p + Z.of_nat sh) (8 * len))).
  Proof.
    intros Hk Hlen -> -> -> Hs Hd Hp.
    pose proof (fwd_dest_loop_spec m (S (Z.to_nat len)) k (p - 8 * (4 - Z.of_nat k - 2))
      (dstp - 8 * (4 - Z.of_nat k)) a dst) as H. cbv zeta in H.
    replace (p - 8 * (4 - Z.of_nat k - 2) + 8 * (4 - Z.of_nat k - 2)) with p in H by lia.
    replace (p - 8 * (4 - Z.of_nat k - 2) + 8 * (4 - Z.of_nat k - 1)) with (p + 8) in H by lia.
    replace (dstp - 8 * (4 - Z.of_nat k) + 8 * (4 - Z.of_nat k)) with dstp in H by lia.
    rewrite <-Hlen in H. apply H; try done; lia.
  Qed.
End Copy.

(** A mapping: whole words from a word boundary on. *)
Definition mapping (r : region) : Prop :=
  bytes_ok (rbytes r) ∧ rbase r `mod` 8 = 0 ∧ Z.of_nat (length (rbytes r)) `mod` 8 = 0.

Lemma land_m8 z : Z.land z (-8) = z - z `mod` 8.
Proof.
  change (-8) with (Z.lnot (Z.ones 3)). rewrite <-Z.ldiff_land, Z.ldiff_ones_r by lia.
  rewrite Z.shiftl_mul_pow2, Z.shiftr_div_pow2 by lia. change (2 ^ 3) with 8.
  Z.to_euclidean_division_equations; lia.
Qed.

Lemma WORDCOPY_FWD_DEST_ALIGNED_spec src dst dstp srcp len : mapping src → 0 ≤ len →
  srcp `mod` 8 ≠ 0 → fits src srcp (8 * len) → fits dst dstp (8 * len) →
  WORDCOPY_FWD_DEST_ALIGNED src dst dstp srcp len = Ok (put dst dstp (get src srcp (8 * len))).
Proof.
  intros (Hb & Hb8 & Hl8) Hlen Hal Hs Hd. unfold WORDCOPY_FWD_DEST_ALIGNED. cbn [separate]. rewrite land_m8.
  destruct (decide (len = 0)) as [->|Hne].
  { change (8 * 0) with 0 in *. change (get src srcp 0) with (@nil Z). by rewrite put_nil. }
  rewrite (proj2 (Z.eqb_neq len 0)), andb_false_r by done.
  pose proof (Z.mod_pos_bound srcp 8 ltac:(done)) as Hmod.
  set (p := srcp - srcp `mod` 8) in *.
  assert (p `mod` 8 = 0) as Hp8 by (subst p; Z.to_euclidean_division_equations; lia).
  assert (fits src p (8 * len + 8)) as Hf.
  { unfold fits in *. assert (p < srcp) by lia. assert (p + 8 > srcp) by lia. clearbody p.
    split; [Z.to_euclidean_division_equations; lia|].
    split; [lia|Z.to_euclidean_division_equations; lia]. }
  set (sh := Z.to_nat (srcp `mod` 8)).
  assert (0 < sh < 8)%nat as Hsh by lia. assert (srcp = p + Z.of_nat sh) as Es by (subst p; lia).
  replace (srcp `mod` 8) with (Z.of_nat sh) by lia.
  clearbody p sh. rewrite Es. clear Es Hmod Hal.
  change (8 * 8 - 8 * Z.of_nat sh) with (64 - 8 * Z.of_nat sh).
  rewrite !load_op_get by fits_lia. cbn [mbind res_bind].
  rewrite Z.mul_0_r, Z.add_0_r, Z.mul_1_r.
  pose proof (Z.div_mod len 4 ltac:(done)) as Hdm. pose proof (Z.mod_pos_bound len 4 ltac:(done)).
  assert (0 ≤ len / 4) by (apply Z.div_pos; lia).
  assert (len `mod` 4 = 0 ∨ len `mod` 4 = 1 ∨ len `mod` 4 = 2 ∨ len `mod` 4 = 3) as Hc by lia.
  destruct Hc as [E|[E|[E|E]]]; rewrite E in *.
  - apply (fwd_dest_enter src Hb sh Hsh _ p dstp) with (m := Z.to_nat (len / 4 - 1)); done || lia.
  - destruct (Z.eqb_spec (len - 1) 0).
    + replace len with 1 in * by lia. change (8 * 1) with 8 in *.
      rewrite MERGE_get by (done || fits_lia).
      rewrite store_op_put; [by rewrite Z.mul_0_r, Z.add_0_r|by apply get_bytes| |fits_lia].
      rewrite get_length; fits_lia.
    + apply (fwd_dest_enter src Hb sh Hsh _ p dstp) with (m := Z.to_nat (len / 4 - 1)); done || lia.
  - apply (fwd_dest_enter src Hb sh Hsh _ p dstp) with (m := Z.to_nat (len / 4)); done || lia.
  - apply (fwd_dest_enter src Hb sh Hsh _ p dstp) with (m := Z.to_nat (len / 4)); done || lia.
Qed.

Lemma memcpy_words_put src dst dstp srcp len : mapping src →
  fits src srcp (Z.of_nat len) → fits dst dstp (Z.of_nat len) →
  memcpy_words src dst dstp srcp len = Ok (put dst dstp (get src srcp (Z.of_nat len))).
Proof.
  intros Hm Hs Hd. pose proof Hm as (Hb & _ & _). unfold memcpy_words.
  destruct (Z.leb_spec 16 (Z.of_nat len)); [|by apply BYTE_COPY_FWD_spec].
  pose proof (Z.mod_pos_bound (- dstp) 8 ltac:(done)) as Hk. set (k := (- dstp) `mod` 8) in *.
  rewrite BYTE_COPY_FWD_spec by (done || fits_lia). cbn [mbind res_bind]. rewrite Z2Nat.id by lia.
  set (rest := Z.of_nat len - k). pose proof (Z.div_mod rest 8 ltac:(done)) as Hdm.
  pose proof (Z.mod_pos_bound rest 8 ltac:(done)). assert (0 ≤ rest / 8) by (apply Z.div_pos; lia).
  assert (length (get src srcp k) = Z.to_nat k) as Lk by (rewrite get_length; fits_lia).
  assert (length (get src (srcp + k) (8 * (rest / 8))) = Z.to_nat (8 * (rest / 8))) as Lw
    by (rewrite get_length; fits_lia).
  assert (fits src (srcp + k) (8 * (rest / 8))) as Hsw by fits_lia.
  assert (fits (put dst dstp (get src srcp k)) (dstp + k) (8 * (rest / 8))) as Hdw
    by (rewrite fits_put; rewrite ?Lk; fits_lia).
  assert ((if (srcp + k) `mod` 8 =? 0
     then WORDCOPY_FWD_ALIGNED src (put dst dstp (get src srcp k)) (dstp + k) (srcp + k) (rest / 8)
     else WORDCOPY_FWD_DEST_ALIGNED src (put dst dstp (get src srcp k)) (dstp + k) (srcp + k) (rest / 8)) =
    Ok (put dst dstp (get src srcp (k + 8 * (rest / 8))))) as ->.
  { transitivity (Ok (put (put dst dstp (get src srcp k)) (dstp + k) (get src (srcp + k) (8 * (rest / 8))))).
    - destruct (Z.eqb_spec ((srcp + k) `mod` 8) 0);
        [by apply WORDCOPY_FWD_ALIGNED_spec|by apply WORDCOPY_FWD_DEST_ALIGNED_spec].
    - rewrite put_put; [|rewrite Lk, Lw; fits_lia|rewrite Lk; lia]. by rewrite get_app by fits_lia. }
  cbn [mbind res_bind]. rewrite land_m8. replace (rest - rest `mod` 8) with (8 * (rest / 8)) by lia.
  assert (length (get src srcp (k + 8 * (rest / 8))) = Z.to_nat (k + 8 * (rest / 8))) as Lkw
    by (rewrite get_length; fits_lia).
  assert (length (get src (srcp + (k + 8 * (rest / 8))) (rest `mod` 8)) = Z.to_nat (rest `mod` 8)) as Lt
    by (rewrite get_length; fits_lia).
  rewrite BYTE_COPY_FWD_spec; [|fits_lia|rewrite fits_put; rewrite ?Lkw; fits_lia].
  rewrite Z2Nat.id, <-!Z.add_assoc by lia.
  rewrite put_put; [|rewrite Lkw, Lt; fits_lia|rewrite Lkw; lia]. do 2 f_equal.
  rewrite <-get_app by fits_lia. f_equal. lia.
Qed.

(** ** [memset] *)

Lemma put_replicate dst d e k m x : fits dst d (Z.of_nat (k + m)) → e = d + Z.of_nat k →
  put (put dst d (replicate k x)) e (replicate m x) = put dst d (replicate (k + m) x).
Proof.
  intros Hf ->. rewrite put_put; rewrite ?length_replicate; [|done|done]. by rewrite replicate_add.
Qed.

Lemma fits_replicate dst d k x e n :
  fits dst d (Z.of_nat k) → fits (put dst d (replicate k x)) e n ↔ fits dst e n.
Proof. intros. apply fits_put. by rewrite length_replicate. Qed.

Lemma memset_bytes_put n : ∀ dst d c, fits dst d (Z.of_nat n) →
  memset_bytes n dst d c = Ok (put dst d (replicate n (uint8 c))).
Proof.
  induction n as [|n IH]; intros dst d c Hf; [by simpl; rewrite put_nil|].
  cbn [memset_bytes]. change [uint8 c] with (replicate 1 (uint8 c)).
  rewrite store_bytes_put by (rewrite length_replicate; fits_lia). cbn [mbind res_bind].
  rewrite IH by (rewrite fits_replicate; fits_lia). by rewrite put_replicate by fits_lia.
Qed.

Lemma memset_align_put fuel : ∀ dst d c n, (- d) `mod` 8 < Z.of_nat fuel → fits dst d ((- d) `mod` 8) →
  memset_align fuel dst d c n =
  Ok (put dst d (replicate (Z.to_nat ((- d) `mod` 8)) (uint8 c)), d + (- d) `mod` 8, n - (- d) `mod` 8).
Proof.
  induction fuel as [|fuel IH]; intros dst d c n Hf Hd.
  { pose proof (Z.mod_pos_bound (- d) 8). lia. }
  cbn [memset_align]. destruct (Z.eqb_spec (d `mod` 8) 0) as [E|E].
  - assert ((- d) `mod` 8 = 0) as -> by (Z.to_euclidean_division_equations; lia).
    simpl. rewrite put_nil by fits_lia. do 2 f_equal; [f_equal|]; lia.
  - assert ((- d) `mod` 8 = (- (d + 1)) `mod` 8 + 1) as Ed
      by (Z.to_euclidean_division_equations; lia).
    pose proof (Z.mod_pos_bound (- (d + 1)) 8 ltac:(done)). rewrite Ed in *.
    set (k := (- (d + 1)) `mod` 8) in *. change [uint8 c] with (replicate 1 (uint8 c)).
    rewrite store_bytes_put by (rewrite length_replicate; fits_lia). cbn [mbind res_bind].
    rewrite IH; [|lia|rewrite fits_replicate; fits_lia]. fold k.
    rewrite put_replicate by fits_lia. do 2 f_equal; [f_equal|]; [f_equal; f_equal; lia|lia..].
Qed.

Lemma store_op_charmask dst d i x : is_byte x → fits dst (d + 8 * i) 8 →
  store_op dst d i (charmask x) = Ok (put dst (d + 8 * i) (replicate 8 x)).
Proof.
  intros Hx Hf. rewrite charmask_word by done. apply store_op_put; [|done..].
  by apply Forall_replicate.
Qed.

Lemma store_ops_put n : ∀ dst d i x, is_byte x → fits dst (d + 8 * i) (8 * Z.of_nat n) →
  store_ops n dst d i (charmask x) = Ok (put dst (d + 8 * i) (replicate (8 * n) x)).
Proof.
  induction n as [|n IH]; intros dst d i x Hx Hf; [by simpl; rewrite put_nil|].
  cbn [store_ops]. rewrite store_op_charmask by (done || fits_lia). cbn [mbind res_bind].
  rewrite IH; [|done|rewrite fits_replicate; fits_lia].
  rewrite put_replicate by fits_lia. do 3 f_equal. lia.
Qed.

Lemma memset_words_put xlen per : ∀ dst d x, is_byte x →
  fits dst d (8 * Z.of_nat per * Z.of_nat xlen) →
  memset_words xlen per dst d (charmask x) =
  Ok (put dst d (replicate (8 * per * xlen) x), d + 8 * Z.of_nat per * Z.of_nat xlen).
Proof.
  induction xlen as [|xlen IH]; intros dst d x Hx Hf.
  - rewrite Nat.mul_0_r, Z.mul_0_r in *. simpl. rewrite put_nil by done. by rewrite Z.add_0_r.
  - cbn [memset_words]. rewrite store_ops_put by (done || (unfold fits in *; nia)).
    rewrite Z.mul_0_r, Z.add_0_r. cbn [mbind res_bind].
    rewrite IH; [|done|rewrite fits_replicate; unfold fits in *; nia].
    rewrite put_replicate by (unfold fits in *; nia).
    do 2 f_equal; [do 2 f_equal; nia|nia].
Qed.

Lemma memset_fill_put dst d c n : fits dst d n →
  memset_fill dst d c n = Ok (put dst d (replicate (Z.to_nat n) (uint8 c))).
Proof.
  intros Hf. unfold memset_fill. destruct (Z.leb_spec 8 n) as [H8|H8]; [|apply memset_bytes_put; fits_lia].
  pose proof (Z.mod_pos_bound (- d) 8 ltac:(done)) as Hk.
  rewrite memset_align_put by fits_lia. cbn [mbind res_bind]. set (k := (- d) `mod` 8) in *. clearbody k.
  set (m := n - k). pose proof (Z.mod_pos_bound m (8 * 8) ltac:(done)) as Hm.
  pose proof (Z.div_mod m (8 * 8) ltac:(done)) as Em. assert (0 ≤ m / (8 * 8)) by (apply Z.div_pos; lia).
  set (q := m / (8 * 8)) in *. set (m' := m `mod` (8 * 8)) in *. clearbody q m'.
  pose proof (Z.mod_pos_bound m' 8 ltac:(done)) as Hm'.
  pose proof (Z.div_mod m' 8 ltac:(done)) as Em'. assert (0 ≤ m' / 8) by (apply Z.div_pos; lia).
  set (q' := m' / 8) in *. set (t := m' `mod` 8) in *. clearbody q' t. subst m'.
  rewrite memset_words_put; [|apply uint8_range|rewrite fits_replicate; fits_lia].
  cbn [mbind res_bind]. rewrite put_replicate by fits_lia.
  rewrite memset_words_put; [|apply uint8_range|rewrite fits_replicate; fits_lia].
  cbn [mbind res_bind]. rewrite put_replicate by fits_lia.
  rewrite memset_bytes_put by (rewrite fits_replicate; fits_lia).
  rewrite put_replicate by fits_lia. do 3 f_equal. lia.
Qed.

(** ** The string functions *)

Lemma put_blit dst d l : fits dst d (Z.of_nat (length l)) →
  (b ← blit (rbytes dst) (Z.to_nat (d - rbase dst)) l; Ok (Region (rbase dst) b)) = Ok (put dst d l).
Proof. intros (?&?&?). rewrite blit_ok by lia. done. Qed.

Lemma view_mapped r p : mapping r → rbase r ≤ p → p ≤ rbase r + Z.of_nat (length (rbytes r)) →
  mapped p (view r p).
Proof.
  intros (Hb & H8 & Hl) H1 H2. split; [by apply Forall_drop|]. unfold view. rewrite length_drop.
  Z.to_euclidean_division_equations; lia.
Qed.

(** A prefix of the view is in the region, and is what [get] reads. *)
Lemma view_get r p s t : rbase r ≤ p → p ≤ rbase r + Z.of_nat (length (rbytes r)) → view r p = s ++ t →
  fits r p (Z.of_nat (length s)) ∧ get r p (Z.of_nat (length s)) = s.
Proof.
  intros H1 H2 Hv. pose proof (f_equal length Hv) as Hl. unfold view in Hl, Hv.
  rewrite length_drop, length_app in Hl. split; [unfold fits; lia|].
  unfold get. by rewrite Hv, Nat2Z.id, take_app_length.
Qed.

(** The part of the view a pointer into the region sees. *)
Definition inside (r : region) (p : Z) : Prop :=
  rbase r ≤ p ≤ rbase r + Z.of_nat (length (rbytes r)).

Lemma STRLEN_view r p s : mapping r → inside r p → cstr (view r p) = Ok s →
  STRLEN p (view r p) = Ok (Z.of_nat (length s)).
Proof.
  intros Hm [H1 H2] Hs. rewrite STRLEN_bytes by by apply view_mapped. unfold strlen. by rewrite Hs.
Qed.

Lemma STRCPY_put src dst dest srcp s : mapping src → inside src srcp → cstr (view src srcp) = Ok s →
  fits dst dest (Z.of_nat (length s) + 1) → STRCPY src dst dest srcp = Ok (put dst dest (s ++ [0])).
Proof.
  intros Hm Hin Hs Hf. unfold STRCPY. rewrite (STRLEN_view _ _ s) by done. cbn [mbind res_bind].
  apply cstr_split in Hs as (r & Hv & Hnz). rewrite app_snoc in Hv. destruct Hin as [H1 H2].
  destruct (view_get _ _ _ _ H1 H2 Hv) as [Hfs Hg].
  assert (Z.of_nat (length (s ++ [0])) = Z.of_nat (length s) + 1) as Hl by len.
  replace (Z.to_nat (Z.of_nat (length s) + 1)) with (length (s ++ [0])) by lia.
  rewrite memcpy_words_put, Hg; [done|done|done|by rewrite Hl].
Qed.

Lemma put_before dst d e l1 l2 : fits dst d (Z.of_nat (length l1 + length l2)) →
  e = d + Z.of_nat (length l1) → put (put dst e l2) d l1 = put dst d (l1 ++ l2).
Proof.
  intros (?&?&?) ->. unfold put. cbn [rbase rbytes]. f_equal.
  set (off := Z.to_nat (d - rbase dst)).
  replace (Z.to_nat (d + Z.of_nat (length l1) - rbase dst)) with (off + length l1)%nat by lia.
  rewrite take_app_le by (rewrite length_take; lia). rewrite take_take, Nat.min_l by lia.
  rewrite drop_app_length' by (rewrite length_take; lia). rewrite <-!app_assoc. do 4 f_equal.
  rewrite length_app. lia.
Qed.

(** What [strnlen] answers for the bytes [strncpy] takes. *)
Lemma strn_text n : ∀ v l, strn n v = Ok l → ∃ s r, v = s ++ r ∧ text_within s r (Z.of_nat n) ∧
  (length s ≤ n)%nat ∧ l = s ++ replicate (n - length s) 0.
Proof.
  induction n as [|n IH]; intros v l H.
  - simpl in H. injection H as <-. exists [], v. repeat split; [constructor|by left|done].
  - destruct v as [|c v]; [done|]. cbn [strn] in H. destruct (Z.eqb_spec c 0) as [->|Hc].
    + injection H as <-. exists [], (0 :: v). repeat split; [constructor|by right|simpl; lia].
    + apply res_bind_Ok in H as (l' & Hl' & [= <-]).
      destruct (IH _ _ Hl') as (s & r & -> & [Hs Hor] & Hle & ->).
      exists (c :: s), r. repeat split; [by constructor| |simpl; lia].
      destruct Hor; [left; simpl; lia|by right].
Qed.

Lemma STRNCPY_put src dst s1 s2 n l : mapping src → inside src s2 → 0 ≤ rbase src →
  rbase src + Z.of_nat (length (rbytes src)) < 2 ^ 64 → Z.of_nat n < 2 ^ 64 →
  strn n (view src s2) = Ok l → fits dst s1 (Z.of_nat n) →
  STRNCPY src dst s1 s2 (Z.of_nat n) = Ok (put dst s1 l).
Proof.
  intros Hm [H1 H2] H0 Hend Hn Hl Hf. destruct (strn_text _ _ _ Hl) as (s & r & Hv & Ht & Hle & ->).
  destruct (view_get _ _ _ _ H1 H2 Hv) as [Hfs Hg]. unfold STRNCPY.
  pose proof (f_equal length Hv) as Hlen. unfold view in Hlen. rewrite length_drop in Hlen.
  rewrite Hv at 1. rewrite strnlen_text; [|by rewrite <-Hv; apply view_mapped|lia|lia|lia|done].
  rewrite Z.min_l by lia. cbn [mbind res_bind]. destruct (Z.eqb_spec (Z.of_nat (length s)) (Z.of_nat n)) as [E|E].
  - replace (n - length s)%nat with 0%nat by lia. rewrite app_nil_r. cbn [negb mbind res_bind].
    rewrite Nat2Z.id, memcpy_words_put, Hg by (done || fits_lia). done.
  - cbn [negb]. rewrite memset_fill_put by fits_lia. cbn [mbind res_bind].
    rewrite Nat2Z.id, memcpy_words_put, Hg; [|done|done|rewrite fits_replicate; fits_lia].
    replace (Z.to_nat (Z.of_nat n - Z.of_nat (length s))) with (n - length s)%nat by lia.
    change (uint8 0) with 0. rewrite put_before; [done|rewrite length_replicate; fits_lia|done].
Qed.

(** ** The equivalences *)

(** C24: [memcpy] stores, for every alignment of the two pointers and every length, exactly
    the source bytes: byte copying up to alignment, the eightfold loop entered
    in its middle or the merging loop, and the tail together are the byte-wise
    [memcpy]. *)
Theorem memcpy_equiv src dst dstp srcp n : mapping src →
  fits src srcp (Z.of_nat n) → fits dst dstp (Z.of_nat n) →
  memcpy_words src dst dstp srcp n =
  (b ← memcpy (rbytes dst) (Z.to_nat (dstp - rbase dst)) (view src srcp) n; Ok (Region (rbase dst) b)).
Proof.
  intros Hm Hs Hd. rewrite memcpy_words_put by done. unfold memcpy.
  pose proof (get_length _ _ _ Hs) as Hl. rewrite Nat2Z.id in Hl.
  rewrite decide_True by (unfold view; rewrite length_drop; unfold fits in Hs; lia).
  replace (take n (view src srcp)) with (get src srcp (Z.of_nat n)) by (unfold get; by rewrite Nat2Z.id).
  rewrite put_blit; [done|]. by rewrite Hl.
Qed.

Definition sample_src : region := Region 4096 (lit "0123456789abcdefghijklmnopqrstuvwxyz....").
Definition sample_dst : region := Region 8195 (zeros 50).
Lemma sample_src_mapping : mapping sample_src.
Proof. split; [apply lit_bytes|done]. Qed.

Lemma memcpy_equiv_witness :
  memcpy_words sample_src sample_dst 8200 4098 33 =
  Ok (Region 8195 (zeros 5 ++ lit "23456789abcdefghijklmnopqrstuvwxy" ++ zeros 12)).
Proof.
  rewrite (memcpy_equiv sample_src sample_dst 8200 4098 33 sample_src_mapping);
    [reflexivity|by_decide|by_decide].
Defined.

(** [memset] stores [len] copies of the low byte of [c] from the pointer on, for every
    alignment and length, and nothing else. *)
Theorem memset_equiv dst d c n : fits dst d (Z.of_nat n) →
  memset_fill dst d c (Z.of_nat n) =
  (b ← blit (rbytes dst) (Z.to_nat (d - rbase dst)) (replicate n (uint8 c)); Ok (Region (rbase dst) b)).
Proof.
  intros Hf. rewrite memset_fill_put, Nat2Z.id by done. rewrite put_blit; [done|].
  by rewrite length_replicate.
Qed.

Lemma memset_equiv_witness :
  memset_fill sample_src 4101 (-1) 30 =
  Ok (Region 4096 (lit "01234" ++ replicate 30 255 ++ lit "z....")).
Proof. etransitivity; [apply (memset_equiv sample_src 4101 (-1) 30); by_decide|reflexivity]. Defined.

(** [strcpy], as [memcpy] of [strlen + 1] bytes, is the byte-wise copy of the string and
    its NUL. *)
Theorem STRCPY_equiv src dst dest srcp s : mapping src → inside src srcp →
  cstr (view src srcp) = Ok s → fits dst dest (Z.of_nat (length s) + 1) →
  STRCPY src dst dest srcp =
  (b ← strcpy_at (rbytes dst) (Z.to_nat (dest - rbase dst)) (view src srcp); Ok (Region (rbase dst) b)).
Proof.
  intros Hm Hin Hs Hf. rewrite (STRCPY_put _ _ _ _ s) by done. unfold strcpy_at. rewrite Hs.
  cbn [mbind res_bind]. rewrite put_blit; [done|]. rewrite length_app. simpl. fits_lia.
Qed.

Definition sample_str : region := Region 4096 (lit "dup" ++ 0 :: lit "/home/log/" ++ [0; 1]).
Lemma sample_str_mapping : mapping sample_str.
Proof. split; [by_decide|done]. Qed.

Lemma STRCPY_equiv_witness :
  STRCPY sample_str sample_dst 8199 4100 =
  Ok (Region 8195 (zeros 4 ++ lit "/home/log/" ++ zeros 36)).
Proof.
  rewrite (STRCPY_equiv sample_str sample_dst 8199 4100 (lit "/home/log/") sample_str_mapping);
    (reflexivity || by_decide).
Defined.

(** [strcat] appends at the NUL of the destination. *)
Theorem STRCAT_equiv src dst srcp d s : mapping src → mapping dst → inside src srcp →
  cstr (view src srcp) = Ok s → cstr (rbytes dst) = Ok d →
  (length d + length s < length (rbytes dst))%nat →
  STRCAT src dst (rbase dst) srcp =
  (b ← strcat (rbytes dst) (view src srcp); Ok (Region (rbase dst) b)).
Proof.
  intros Hms Hmd Hin Hs Hd Hl. unfold STRCAT.
  assert (view dst (rbase dst) = rbytes dst) as Hv by (unfold view; by rewrite Z.sub_diag).
  rewrite (STRLEN_view _ _ d); [|done|unfold inside; lia|by rewrite Hv]. cbn [mbind res_bind].
  rewrite (STRCPY_put _ _ _ _ s) by (done || fits_lia). unfold strcat, strcpy_at. rewrite Hd, Hs.
  cbn [mbind res_bind].
  replace (length d) with (Z.to_nat (rbase dst + Z.of_nat (length d) - rbase dst)) at 2 by lia.
  rewrite put_blit; [done|]. rewrite length_app. simpl. fits_lia.
Qed.

Lemma STRCAT_equiv_witness :
  STRCAT sample_str (Region 64 (lit "x=" ++ zeros 14)) 64 4100 =
  Ok (Region 64 (lit "x=/home/log/" ++ zeros 4)).
Proof.
  etransitivity; [apply (STRCAT_equiv sample_str (Region 64 (lit "x=" ++ zeros 14)) 4100 (lit "x=")
    (lit "/home/log/") sample_str_mapping); (reflexivity || by_decide)|reflexivity].
Defined.

(** [strncpy], as [memset] of the tail before [memcpy] of the head, stores exactly [n]
    bytes: the string cut at [n], zero filled. *)
Theorem STRNCPY_equiv src dst s2 n l : mapping src → inside src s2 → 0 ≤ rbase src →
  rbase src + Z.of_nat (length (rbytes src)) < 2 ^ 64 → Z.of_nat n < 2 ^ 64 →
  strn n (view src s2) = Ok l → (n ≤ length (rbytes dst))%nat →
  STRNCPY src dst (rbase dst) s2 (Z.of_nat n) =
  (b ← strncpy (rbytes dst) (view src s2) n; Ok (Region (rbase dst) b)).
Proof.
  intros Hm Hin H0 Hend Hn Hl Hf. rewrite (STRNCPY_put _ _ _ _ _ l) by (done || fits_lia).
  unfold strncpy. rewrite Hl. cbn [mbind res_bind]. apply strn_length in Hl.
  replace 0%nat with (Z.to_nat (rbase dst - rbase dst)) by lia.
  rewrite put_blit; [done|]. rewrite Hl. fits_lia.
Qed.

Lemma STRNCPY_equiv_witness :
  STRNCPY sample_str sample_dst 8195 4100 14 =
  Ok (Region 8195 (lit "/home/log/" ++ zeros 40)).
Proof.
  etransitivity; [apply (STRNCPY_equiv sample_str sample_dst 4100 14 (lit "/home/log/" ++ zeros 4)
    sample_str_mapping); (reflexivity || by_decide)|reflexivity].
Defined.

(** [strncat] appends at most [n] bytes of the source and always a NUL. *)
Theorem STRNCAT_spec src dst s2 n d s r : mapping src → mapping dst → inside src s2 → 0 ≤ rbase src →
  rbase src + Z.of_nat (length (rbytes src)) < 2 ^ 64 → Z.of_nat n < 2 ^ 64 →
  view src s2 = s ++ r → text_within s r (Z.of_nat n) → (length s ≤ n)%nat →
  cstr (rbytes dst) = Ok d → (length d + length s < length (rbytes dst))%nat →
  STRNCAT src dst (rbase dst) s2 (Z.of_nat n) =
  (b ← blit (rbytes dst) (length d) (s ++ [0]); Ok (Region (rbase dst) b)).
Proof.
  intros Hms Hmd [H1 H2] H0 Hend Hn Hv Ht Hle Hd Hl. unfold STRNCAT.
  assert (view dst (rbase dst) = rbytes dst) as Hvd by (unfold view; by rewrite Z.sub_diag).
  rewrite (STRLEN_view _ _ d); [|done|unfold inside; lia|by rewrite Hvd]. cbn [mbind res_bind].
  destruct (view_get _ _ _ _ H1 H2 Hv) as [Hfs Hg].
  pose proof (f_equal length Hv) as Hlen. unfold view in Hlen. rewrite length_drop in Hlen.
  rewrite Hv at 1. rewrite strnlen_text; [|by rewrite <-Hv; apply view_mapped|lia|lia|lia|done].
  rewrite Z.min_l by lia. cbn [mbind res_bind].
  rewrite store_bytes_put by (simpl; fits_lia). cbn [mbind res_bind].
  rewrite Nat2Z.id, memcpy_words_put, Hg; [|done|done|rewrite fits_put; simpl; fits_lia].
  rewrite put_before by (simpl; fits_lia || done).
  replace (length d) with (Z.to_nat (rbase dst + Z.of_nat (length d) - rbase dst)) at 2 by lia.
  rewrite put_blit; [done|]. rewrite length_app. simpl. fits_lia.
Qed.

Lemma STRNCAT_spec_witness :
  STRNCAT sample_str (Region 64 (lit "x=" ++ zeros 14)) 64 4100 5 =
  Ok (Region 64 (lit "x=/home" ++ zeros 9)).
Proof.
  etransitivity; [apply (STRNCAT_spec sample_str (Region 64 (lit "x=" ++ zeros 14)) 4100 5 (lit "x=")
    (lit "/home") (lit "/log/" ++ [0; 1]) sample_str_mapping);
    first [reflexivity | by_decide | split; [by_decide|by left]]|reflexivity].
Defined.

(** [stpcpy] copies the string and returns the address of the NUL in the copy. *)
Theorem STPCPY_end src dst dest srcp s : mapping src → inside src srcp →
  cstr (view src srcp) = Ok s → fits dst dest (Z.of_nat (length s) + 1) →
  ∃ dst', STPCPY src dst dest srcp = Ok (dst', dest + Z.of_nat (length s)) ∧
    dst' = put dst dest (s ++ [0]) ∧ cstr (view dst' dest) = Ok s.
Proof.
  intros Hm Hin Hs Hf. pose proof (STRCPY_put src dst dest srcp s Hm Hin Hs Hf) as Hc.
  unfold STRCPY in Hc. unfold STPCPY. rewrite (STRLEN_view _ _ s) in * by done. cbn [mbind res_bind] in *.
  rewrite Hc. eexists. split; [done|]. split; [done|]. destruct Hf as (?&?&?).
  unfold view, put. cbn [rbase rbytes]. rewrite drop_app_length' by (rewrite length_take; lia).
  rewrite <-app_assoc. apply cstr_app_ne. by apply cstr_split in Hs as (? & _ & ?).
Qed.

Lemma STPCPY_end_witness : ∃ dst',
  STPCPY sample_str sample_dst 8199 4100 = Ok (dst', 8199 + 10) ∧
  dst' = put sample_dst 8199 (lit "/home/log/" ++ [0]) ∧ cstr (view dst' 8199) = Ok (lit "/home/log/").
Proof.
  apply (STPCPY_end sample_str sample_dst 8199 4100 (lit "/home/log/") sample_str_mapping);
    (reflexivity || by_decide).
Defined.

(** ** [strcmp] and [strncmp] *)

(** The loop of [strcmp] compares as the definition of CString.v does. *)
Theorem STRCMP_equiv a b : STRCMP a b = refault (strcmp a b).
Proof.
  revert b. induction a as [|x a IH]; intros [|y b]; try done. cbn [STRCMP strcmp].
  destruct (Z.eqb_spec x 0) as [->|Hx].
  - by destruct (Z.eqb_spec 0 y) as [<-|].
  - destruct (Z.eqb_spec x y); cbn [negb]; [apply IH|done].
Qed.

(** Comparison of at most [n] bytes, one at a time. *)
Fixpoint ncmp (n : nat) (a b : list Z) : res Z :=
  match n with
  | O => Ok 0
  | S n' =>
      match a, b with
      | x :: a', y :: b' =>
          if (x =? 0) || negb (x =? y) then Ok (x - y) else ncmp n' a' b'
      | _, _ => Bad OutOfBounds
      end
  end.

(** Rounds in a row: either the comparison is decided, or it goes on behind
    two equal characters. *)
Lemma ncmp_rounds_spec k : ∀ m c a b,
  match ncmp_rounds k c c a b with
  | Ok (inl d) => ncmp (k + m) a b = Ok d
  | Ok (inr (c1, c2, a', b')) => c1 = c2 ∧ ncmp (k + m) a b = ncmp m a' b'
  | Bad f => ncmp (k + m) a b = Bad f
  end.
Proof.
  induction k as [|k IH]; intros m c a b; [done|]. cbn [ncmp_rounds ncmp Nat.add].
  destruct a as [|x a], b as [|y b]; try done. cbn [ncmp_round].
  destruct (Z.eqb_spec x 0); [done|]. destruct (Z.eqb_spec x y) as [<-|]; [|done].
  cbn [orb negb mbind res_bind]. apply IH.
Qed.

Lemma ncmp_fours_spec k : ∀ m c a b,
  match ncmp_fours k c c a b with
  | Ok (inl d) => ncmp (4 * k + m) a b = Ok d
  | Ok (inr (c1, c2, a', b')) => c1 = c2 ∧ ncmp (4 * k + m) a b = ncmp m a' b'
  | Bad f => ncmp (4 * k + m) a b = Bad f
  end.
Proof.
  induction k as [|k IH]; intros m c a b; [done|]. cbn [ncmp_fours].
  replace (4 * S k + m)%nat with (4 + (4 * k + m))%nat by lia.
  pose proof (ncmp_rounds_spec 4 (4 * k + m) c a b) as H.
  destruct (ncmp_rounds 4 c c a b) as [[d|[[[c1 c2] a'] b']]|f]; cbn [mbind res_bind]; [done| |done].
  destruct H as [<- ->]. apply IH.
Qed.

Lemma STRNCMP_ncmp a b n : 0 ≤ n → STRNCMP a b n = ncmp (Z.to_nat n) a b.
Proof.
  intros Hn. assert (∀ k c a b, (r ← ncmp_rounds k c c a b;
     match r with inl d => Ok d | inr (c1, c2, _, _) => Ok (c1 - c2) end) = ncmp k a b) as Hr.
  { clear. intros k c a b. pose proof (ncmp_rounds_spec k 0 c a b) as H. rewrite Nat.add_0_r in H.
    destruct (ncmp_rounds k c c a b) as [[d|[[[c1 c2] a'] b']]|f]; cbn [mbind res_bind]; [done| |done].
    destruct H as [-> ->]. simpl. f_equal. lia. }
  unfold STRNCMP. destruct (Z.leb_spec 4 n) as [H4|H4].
  - pose proof (ncmp_fours_spec (Z.to_nat (Z.shiftr n 2)) (Z.to_nat (Z.land n 3)) 0 a b) as H.
    assert (4 * Z.to_nat (Z.shiftr n 2) + Z.to_nat (Z.land n 3) = Z.to_nat n)%nat as E.
    { change 3 with (Z.ones 2). rewrite Z.land_ones, Z.shiftr_div_pow2 by lia. change (2 ^ 2) with 4.
      Z.to_euclidean_division_equations; lia. }
    rewrite E in H.
    destruct (ncmp_fours _ 0 0 a b) as [[d|[[[c1 c2] a'] b']]|f]; cbn [mbind res_bind]; [done| |done].
    destruct H as [<- ->]. apply Hr.
  - cbn [mbind res_bind]. apply Hr.
Qed.

(** The fourfold unrolled [strncmp] compares at most [n] bytes, stopping at the first
    difference or at the end of the strings. *)
Theorem STRNCMP_equiv a b n : 0 ≤ n → STRNCMP a b n = ncmp (Z.to_nat n) a b.
Proof. apply STRNCMP_ncmp. Qed.

Lemma STRNCMP_equiv_witness : STRNCMP (lit "recv_a.dat") (lit "recv_b.dat") 5 = Ok 0.
Proof. rewrite (STRNCMP_equiv (lit "recv_a.dat") (lit "recv_b.dat") 5); [reflexivity|discriminate]. Defined.
