(* ===== verification/MemMove.v ===== *)
(** * glibc: memmove

    [memmove] of [glibc-2.27/string/memmove.c] with the backward loops of
    [wordcopy.c] and [memcopy.h].  Source and destination are parts of one
    region and may overlap: every load sees the stores made before it.  The
    forward loops are those of [WordCopy], here with loads and stores on the
    shared region; the backward loops are defined here.

    The proof has three steps.  The loops store the right bytes when their
    loads read a region that does not change ([WordCopy] and the backward
    specifications below).  On the shared region every load lies outside the
    interval stored so far, so the loops behave as if it did not change
    ([outside] is the invariant).  Composing the byte, word and byte phases
    gives the theorem: the destination receives the old bytes of the source. *)

From S2P Require Import Prelude CString WordScan WordCopy.

(** ** Definitions *)

(** [BYTE_COPY_BWD (dst_ep, src_ep, nbytes)] *)
Fixpoint BYTE_COPY_BWD (src : source) (dst : region) (dst_ep src_ep : Z) (nbytes : nat) : res region :=
  match nbytes with
  | O => Ok dst
  | S n =>
      let src_ep := src_ep - 1 in
      x ← load_bytes (src dst) src_ep 1;
      let dst_ep := dst_ep - 1 in
      dst ← store_bytes dst dst_ep x;
      BYTE_COPY_BWD src dst dst_ep src_ep n
  end.

(** The statements from label [do<k>] to the end of the unrolled body: the
    words [k - 1 .. 0] alternate between the two registers. *)
Fixpoint do8_back (k : nat) (src : source) (srcp dstp a0 a1 : Z) (dst : region) : res (Z * Z * region) :=
  match k with
  | O => Ok (a0, a1, dst)
  | S k' =>
      let i := Z.of_nat k' in
      if Z.even i then
        a1' ← load_op (src dst) srcp i;
        dst ← store_op dst dstp i a0;
        do8_back k' src srcp dstp a0 a1' dst
      else
        a0' ← load_op (src dst) srcp i;
        dst ← store_op dst dstp i a1;
        do8_back k' src srcp dstp a0' a1 dst
  end.

(** [do { do8: ... do1: ... } while (len != 0); do0: ...], entered at [do<k>]. *)
Fixpoint bwd_aligned_loop (fuel k : nat) (src : source) (srcp dstp len a0 a1 : Z) (dst : region) : res region :=
  match fuel with
  | O => Bad Unspecified
  | S fuel' =>
      r ← do8_back k src srcp dstp a0 a1 dst;
      let '(a0, a1, dst) := r in
      let srcp := srcp - 8 * 8 in
      let dstp := dstp - 8 * 8 in
      let len := len - 8 in
      if len =? 0 then store_op dst dstp 7 a1
      else bwd_aligned_loop fuel' 8 src srcp dstp len a0 a1 dst
  end.

Definition WORDCOPY_BWD_ALIGNED (src : source) (dst : region) (dstp srcp len : Z) : res region :=
  let fuel := S (Z.to_nat len) in
  let enter_a0 k s d l :=
    let srcp := srcp - s * 8 in
    let dstp := dstp - d * 8 in
    a0 ← load_op (src dst) srcp (s - 1);
    bwd_aligned_loop fuel k src srcp dstp l a0 0 dst in
  let enter_a1 k s d l :=
    let srcp := srcp - s * 8 in
    let dstp := dstp - d * 8 in
    a1 ← load_op (src dst) srcp (s - 1);
    bwd_aligned_loop fuel k src srcp dstp l 0 a1 dst in
  match len `mod` 8 with
  | 2 => enter_a0 1%nat 2 1 (len + 6)
  | 3 => enter_a1 2%nat 3 2 (len + 5)
  | 4 => enter_a0 3%nat 4 3 (len + 4)
  | 5 => enter_a1 4%nat 5 4 (len + 3)
  | 6 => enter_a0 5%nat 6 5 (len + 2)
  | 7 => enter_a1 6%nat 7 6 (len + 1)
  | 0 => if len =? 0 then Ok dst else enter_a0 7%nat 8 7 len
  | _ =>
      if len - 1 =? 0 then
        a1 ← load_op (src dst) (srcp - 9 * 8) 8;
        store_op dst (dstp - 8 * 8) 7 a1
      else enter_a1 8%nat 9 8 (len - 1)
  end.

(** The fourfold body from label [do<k>] on. *)
Fixpoint do4_back (k : nat) (src : source) (srcp dstp sh_1 sh_2 : Z) (a : regs) (dst : region) : res (regs * region) :=
  match k with
  | O => Ok (a, dst)
  | S k' =>
      let i := Z.of_nat k' in
      w ← load_op (src dst) srcp i;
      let '(a', m) :=
        match i with
        | 3 => (Regs (ra0 a) (ra1 a) (ra2 a) w, MERGE (ra0 a) sh_1 (ra1 a) sh_2)
        | 2 => (Regs (ra0 a) (ra1 a) w (ra3 a), MERGE (ra3 a) sh_1 (ra0 a) sh_2)
        | 1 => (Regs (ra0 a) w (ra2 a) (ra3 a), MERGE (ra2 a) sh_1 (ra3 a) sh_2)
        | _ => (Regs w (ra1 a) (ra2 a) (ra3 a), MERGE (ra1 a) sh_1 (ra2 a) sh_2)
        end in
      dst ← store_op dst dstp i m;
      do4_back k' src srcp dstp sh_1 sh_2 a' dst
  end.

Fixpoint bwd_dest_loop (fuel k : nat) (src : source) (srcp dstp len sh_1 sh_2 : Z) (a : regs) (dst : region)
    : res region :=
  match fuel with
  | O => Bad Unspecified
  | S fuel' =>
      r ← do4_back k src srcp dstp sh_1 sh_2 a dst;
      let '(a, dst) := r in
      let srcp := srcp - 4 * 8 in
      let dstp := dstp - 4 * 8 in
      let len := len - 4 in
      if len =? 0 then store_op dst dstp 3 (MERGE (ra0 a) sh_1 (ra1 a) sh_2)
      else bwd_dest_loop fuel' 4 src srcp dstp len sh_1 sh_2 a dst
  end.

(** [upper] and [lower] are the two words each case loads, in this order. *)
Definition WORDCOPY_BWD_DEST_ALIGNED (src : source) (dst : region) (dstp srcp len : Z) : res region :=
  let sh_1 := 8 * (srcp `mod` 8) in
  let sh_2 := 8 * 8 - sh_1 in
  let srcp := Z.land srcp (-8) in
  let srcp := srcp + 8 in
  let fuel := S (Z.to_nat len) in
  let enter k s d l (registers : Z → Z → regs) :=
    let srcp := srcp - s * 8 in
    let dstp := dstp - d * 8 in
    upper ← load_op (src dst) srcp (s - 1);
    lower ← load_op (src dst) srcp (s - 2);
    bwd_dest_loop fuel k src srcp dstp l sh_1 sh_2 (registers upper lower) dst in
  match len `mod` 4 with
  | 2 => enter 1%nat 3 1 (len + 2) (λ a2 a1, Regs 0 a1 a2 0)
  | 3 => enter 2%nat 4 2 (len + 1) (λ a3 a2, Regs 0 0 a2 a3)
  | 0 => if len =? 0 then Ok dst else enter 3%nat 5 3 len (λ a0 a3, Regs a0 0 0 a3)
  | _ =>
      if len - 1 =? 0 then
        a1 ← load_op (src dst) (srcp - 6 * 8) 5;
        a0 ← load_op (src dst) (srcp - 6 * 8) 4;
        store_op dst (dstp - 4 * 8) 3 (MERGE a0 sh_1 a1 sh_2)
      else enter 4%nat 6 4 (len - 1) (λ a1 a0, Regs a0 a1 0 0)
  end.

(** [memmove.c], with [WORD_COPY_FWD] and [WORD_COPY_BWD] of [memcopy.h]: copies
    within the region [r] ([MEMCPY_OK_FOR_FWD_MEMMOVE] is 0, pages are not
    copied virtually); the test is an unsigned comparison. *)
Definition MEMMOVE (r : region) (dest src : Z) (len : nat) : res region :=
  let dstp := dest in
  let srcp := src in
  if Z.of_nat len <=? uint64 (dstp - srcp) then
    if 16 <=? Z.of_nat len then
      let k := (- dstp) `mod` 8 in
      let len := Z.of_nat len - k in
      r ← BYTE_COPY_FWD shared r dstp srcp (Z.to_nat k);
      let dstp := dstp + k in
      let srcp := srcp + k in
      r ← (if srcp `mod` 8 =? 0 then WORDCOPY_FWD_ALIGNED shared r dstp srcp (len / 8)
           else WORDCOPY_FWD_DEST_ALIGNED shared r dstp srcp (len / 8));
      let srcp := srcp + Z.land len (-8) in
      let dstp := dstp + Z.land len (-8) in
      BYTE_COPY_FWD shared r dstp srcp (Z.to_nat (len `mod` 8))
    else BYTE_COPY_FWD shared r dstp srcp len
  else
    let srcp := srcp + Z.of_nat len in
    let dstp := dstp + Z.of_nat len in
    if 16 <=? Z.of_nat len then
      let k := dstp `mod` 8 in
      let len := Z.of_nat len - k in
      r ← BYTE_COPY_BWD shared r dstp srcp (Z.to_nat k);
      let dstp := dstp - k in
      let srcp := srcp - k in
      r ← (if srcp `mod` 8 =? 0 then WORDCOPY_BWD_ALIGNED shared r dstp srcp (len / 8)
           else WORDCOPY_BWD_DEST_ALIGNED shared r dstp srcp (len / 8));
      let srcp := srcp - Z.land len (-8) in
      let dstp := dstp - Z.land len (-8) in
      BYTE_COPY_BWD shared r dstp srcp (Z.to_nat (len `mod` 8))
    else BYTE_COPY_BWD shared r dstp srcp len.

(** ** The backward loops on a source that does not change *)

Section Backward.
  Context (src : region) (Hsrc : bytes_ok (rbytes src)).

Lemma BYTE_COPY_BWD_spec n : ∀ dst d s,
    fits src (s - Z.of_nat n) (Z.of_nat n) → fits dst (d - Z.of_nat n) (Z.of_nat n) →
    BYTE_COPY_BWD src dst d s n = Ok (put dst (d - Z.of_nat n) (get src (s - Z.of_nat n) (Z.of_nat n))).
  Proof.
    induction n as [|n IH]; intros dst d s Hs Hd.
    - cbn [BYTE_COPY_BWD]. rewrite put_nil by (by rewrite Z.sub_0_r in *). done.
    - cbn [BYTE_COPY_BWD separate]. rewrite load_bytes_get by fits_lia. cbn [mbind res_bind].
      assert (length (get src (s - 1) (Z.of_nat 1)) = 1%nat) as L1 by (rewrite get_length; fits_lia).
      assert (length (get src (s - 1 - Z.of_nat n) (Z.of_nat n)) = n) as Ln by (rewrite get_length; fits_lia).
      rewrite store_bytes_put by (rewrite L1; fits_lia). cbn [mbind res_bind].
      rewrite IH; [|fits_lia|rewrite fits_put; rewrite ?L1; fits_lia]. f_equal.
      rewrite put_before; [|rewrite L1, Ln; fits_lia|rewrite Ln; lia].
      replace (d - 1 - Z.of_nat n) with (d - Z.of_nat (S n)) by lia. f_equal.
      replace (Z.of_nat (S n)) with (Z.of_nat n + Z.of_nat 1) by lia. rewrite get_app by fits_lia. do 2 f_equal; lia.
  Qed.

  (** The register the statement with index [i] stores. *)
Definition pending8b (i a0 a1 : Z) : Z := if Z.even i then a0 else a1.

Lemma do8_back_spec k : ∀ srcp dstp a0 a1 dst,
    fits src srcp (8 * Z.of_nat k + 8) → fits dst dstp (8 * Z.of_nat k) →
    pending8b (Z.of_nat k - 1) a0 a1 = le_word (get src (srcp + 8 * Z.of_nat k) 8) →
    ∃ a0', do8_back k src srcp dstp a0 a1 dst =
      Ok (a0', le_word (get src srcp 8), put dst dstp (get src (srcp + 8) (8 * Z.of_nat k))).
  Proof.
    induction k as [|k IH]; intros srcp dstp a0 a1 dst Hs Hd Hp.
    - exists a0. cbn [do8_back]. unfold pending8b in Hp. change (Z.even (Z.of_nat 0 - 1)) with false in Hp.
      rewrite Hp, Z.add_0_r, put_nil by done. done.
    - set (i := Z.of_nat k) in *. assert (Z.of_nat (S k) = i + 1) as Ei by lia. rewrite Ei in *.
      set (w := get src (srcp + 8 * (i + 1)) 8) in *.
      assert (length w = 8%nat) as L8 by (subst w; rewrite get_length; fits_lia).
      assert (length (get src (srcp + 8) (8 * i)) = Z.to_nat (8 * i)) as Lk by (rewrite get_length; fits_lia).
      assert (∀ a0 a1, pending8b (i - 1) a0 a1 = le_word (get src (srcp + 8 * i) 8) →
        ∃ a0', do8_back k src srcp dstp a0 a1 (put dst (dstp + 8 * i) w) =
          Ok (a0', le_word (get src srcp 8), put dst dstp (get src (srcp + 8) (8 * (i + 1))))) as Hgo.
      { intros b0 b1 Hb. destruct (IH srcp dstp b0 b1 (put dst (dstp + 8 * i) w)) as [a0' ->];
          [fits_lia|rewrite fits_put; rewrite ?L8; fits_lia|done|].
        exists a0'. do 2 f_equal. rewrite put_before; [|rewrite L8, Lk; fits_lia|rewrite Lk; lia]. f_equal.
        replace (8 * (i + 1)) with (8 * i + 8) by lia. rewrite get_app by fits_lia.
        subst w. do 2 f_equal. lia. }
      cbn [do8_back separate]. fold i. rewrite load_op_get by fits_lia.
      unfold pending8b in Hp, Hgo. replace (i + 1 - 1) with i in Hp by lia.
      rewrite Z.sub_1_r, Z.even_pred, <-Z.negb_even in Hgo.
      destruct (Z.even i); cbn [mbind res_bind]; rewrite Hp, store_op_put;
        try done; try fits_lia; try (by apply get_bytes); cbn [mbind res_bind]; by apply Hgo.
  Qed.

Lemma bwd_aligned_loop_spec m : ∀ fuel k srcp dstp a0 a1 dst, (m < fuel)%nat →
    let n := 8 * (Z.of_nat k + 8 * Z.of_nat m + 1) in
    fits src (srcp - 64 * Z.of_nat m) n → fits dst (dstp - 64 * Z.of_nat m - 8) n →
    pending8b (Z.of_nat k - 1) a0 a1 = le_word (get src (srcp + 8 * Z.of_nat k) 8) →
    bwd_aligned_loop fuel k src srcp dstp (8 * (Z.of_nat m + 1)) a0 a1 dst =
    Ok (put dst (dstp - 64 * Z.of_nat m - 8) (get src (srcp - 64 * Z.of_nat m) n)).
  Proof.
    induction m as [|m IH]; intros fuel k srcp dstp a0 a1 dst Hf n Hs Hd Hp; subst n;
      destruct fuel as [|fuel]; try lia; cbn [bwd_aligned_loop];
      destruct (do8_back_spec k srcp dstp a0 a1 dst) as [a0' ->]; try done; try fits_lia;
      cbn [mbind res_bind];
      assert (length (get src (srcp + 8) (8 * Z.of_nat k)) = Z.to_nat (8 * Z.of_nat k)) as Lk
        by (rewrite get_length; fits_lia).
    - assert (length (get src srcp 8) = 8%nat) as L8 by (rewrite get_length; fits_lia).
      rewrite (proj2 (Z.eqb_eq (8 * (Z.of_nat 0 + 1) - 8) 0)) by lia.
      rewrite store_op_put; [|by apply get_bytes|done|rewrite fits_put; rewrite ?Lk; fits_lia].
      replace (dstp - 8 * 8 + 8 * 7) with (dstp - 64 * Z.of_nat 0 - 8) by lia.
      rewrite put_before; [|rewrite Lk, L8; fits_lia|rewrite L8; lia]. do 2 f_equal.
      replace (8 * (Z.of_nat k + 8 * Z.of_nat 0 + 1)) with (8 + 8 * Z.of_nat k) by lia.
      replace (srcp - 64 * Z.of_nat 0) with srcp in * by lia. by rewrite get_app by fits_lia.
    - rewrite (proj2 (Z.eqb_neq (8 * (Z.of_nat (S m) + 1) - 8) 0)) by lia.
      replace (8 * (Z.of_nat (S m) + 1) - 8) with (8 * (Z.of_nat m + 1)) by lia.
      specialize (IH fuel 8%nat (srcp - 8 * 8) (dstp - 8 * 8) a0' (le_word (get src srcp 8))).
      cbv zeta in IH. change (Z.of_nat 8) with 8 in IH.
      replace (srcp - 8 * 8 - 64 * Z.of_nat m) with (srcp - 64 * Z.of_nat (S m)) in IH by lia.
      replace (dstp - 8 * 8 - 64 * Z.of_nat m) with (dstp - 64 * Z.of_nat (S m)) in IH by lia.
      set (low := 8 * (8 + 8 * Z.of_nat m + 1)) in *.
      assert (length (get src (srcp - 64 * Z.of_nat (S m)) low) = Z.to_nat low) as Lr by (rewrite get_length; fits_lia).
      rewrite IH; [|lia|fits_lia|rewrite fits_put; rewrite ?Lk; fits_lia|].
      + rewrite put_before; [|rewrite Lk, Lr; fits_lia|rewrite Lr; lia]. do 2 f_equal.
        replace (8 * (Z.of_nat k + 8 * Z.of_nat (S m) + 1)) with (low + 8 * Z.of_nat k) by lia.
        rewrite get_app by fits_lia. do 2 f_equal. lia.
      + unfold pending8b. change (Z.even (8 - 1)) with false. cbv iota. do 2 f_equal. lia.
  Qed.

Lemma bwd_aligned_enter k srcp dstp len srcp' dstp' l a0 a1 dst (m : nat) :
    len = Z.of_nat k + 8 * Z.of_nat m + 1 → l = 8 * (Z.of_nat m + 1) →
    srcp' = srcp - 8 * (Z.of_nat k + 1) → dstp' = dstp - 8 * Z.of_nat k →
    fits src (srcp - 8 * len) (8 * len) → fits dst (dstp - 8 * len) (8 * len) →
    pending8b (Z.of_nat k - 1) a0 a1 = le_word (get src (srcp - 8) 8) →
    bwd_aligned_loop (S (Z.to_nat len)) k src srcp' dstp' l a0 a1 dst =
    Ok (put dst (dstp - 8 * len) (get src (srcp - 8 * len) (8 * len))).
  Proof.
    intros Hlen -> -> -> Hs Hd Hp.
    pose proof (bwd_aligned_loop_spec m (S (Z.to_nat len)) k (srcp - 8 * (Z.of_nat k + 1))
      (dstp - 8 * Z.of_nat k) a0 a1 dst) as H. cbv zeta in H.
    replace (srcp - 8 * (Z.of_nat k + 1) - 64 * Z.of_nat m) with (srcp - 8 * len) in H by lia.
    replace (dstp - 8 * Z.of_nat k - 64 * Z.of_nat m - 8) with (dstp - 8 * len) in H by lia.
    replace (srcp - 8 * (Z.of_nat k + 1) + 8 * Z.of_nat k) with (srcp - 8) in H by lia.
    rewrite <-Hlen in H. apply H; try done; lia.
  Qed.

Lemma WORDCOPY_BWD_ALIGNED_spec dst dstp srcp len : 0 ≤ len →
    fits src (srcp - 8 * len) (8 * len) → fits dst (dstp - 8 * len) (8 * len) →
    WORDCOPY_BWD_ALIGNED src dst dstp srcp len =
    Ok (put dst (dstp - 8 * len) (get src (srcp - 8 * len) (8 * len))).
  Proof.
    intros Hlen Hs Hd. unfold WORDCOPY_BWD_ALIGNED. cbn [separate].
    destruct (decide (len = 0)) as [->|Hne].
    { change (8 * 0) with 0 in *. change (get src (srcp - 0) 0) with (@nil Z). by rewrite put_nil. }
    pose proof (Z.div_mod len 8 ltac:(done)) as Hdm.
    assert (0 ≤ len / 8) by (apply Z.div_pos; lia).
    assert (∀ s, load_op src (srcp - s * 8) (s - 1) = Ok (le_word (get src (srcp - 8) 8))) as Hl.
    { intros s. unfold load_op. replace (srcp - s * 8 + 8 * (s - 1)) with (srcp - 8) by lia.
      rewrite load_bytes_get by fits_lia. done. }
    destruct (mod8_cases len) as [E|[E|[E|[E|[E|[E|[E|E]]]]]]]; rewrite E in *; cbn [mbind res_bind];
      rewrite ?Hl; cbn [mbind res_bind].
    - destruct (Z.eqb_spec len 0); [done|].
      apply (bwd_aligned_enter _ srcp dstp) with (m := Z.to_nat (len / 8 - 1)); done || lia.
    - destruct (Z.eqb_spec (len - 1) 0).
      + replace len with 1 in * by lia. change (8 * 1) with 8 in *.
        rewrite store_op_put; [|by apply get_bytes|rewrite get_length; fits_lia|fits_lia].
        do 2 f_equal. lia.
      + apply (bwd_aligned_enter _ srcp dstp) with (m := Z.to_nat (len / 8 - 1)); done || lia.
    - apply (bwd_aligned_enter _ srcp dstp) with (m := Z.to_nat (len / 8)); done || lia.
    - apply (bwd_aligned_enter _ srcp dstp) with (m := Z.to_nat (len / 8)); done || lia.
    - apply (bwd_aligned_enter _ srcp dstp) with (m := Z.to_nat (len / 8)); done || lia.
    - apply (bwd_aligned_enter _ srcp dstp) with (m := Z.to_nat (len / 8)); done || lia.
    - apply (bwd_aligned_enter _ srcp dstp) with (m := Z.to_nat (len / 8)); done || lia.
    - apply (bwd_aligned_enter _ srcp dstp) with (m := Z.to_nat (len / 8)); done || lia.
  Qed.

  (** *** The merging loop *)

  (** The two words whose merge the statement with index [i] stores. *)
Definition pending4b (i : Z) (a : regs) : Z * Z :=
    match i with
    | 2 => (ra3 a, ra0 a)
    | 1 => (ra2 a, ra3 a)
    | 0 => (ra1 a, ra2 a)
    | _ => (ra0 a, ra1 a)
    end.

  Context (sh : nat) (Hsh : (0 < sh < 8)%nat).
  Abbreviation sh1 := (8 * Z.of_nat sh).
  Abbreviation sh2 := (64 - 8 * Z.of_nat sh).
  Abbreviation word p := (le_word (get src p 8)).

Lemma do4_back_step i a w :
    0 ≤ i < 4 →
    let '(a', m) :=
      match i with
      | 3 => (Regs (ra0 a) (ra1 a) (ra2 a) w, MERGE (ra0 a) sh1 (ra1 a) sh2)
      | 2 => (Regs (ra0 a) (ra1 a) w (ra3 a), MERGE (ra3 a) sh1 (ra0 a) sh2)
      | 1 => (Regs (ra0 a) w (ra2 a) (ra3 a), MERGE (ra2 a) sh1 (ra3 a) sh2)
      | _ => (Regs w (ra1 a) (ra2 a) (ra3 a), MERGE (ra1 a) sh1 (ra2 a) sh2)
      end in
    m = MERGE (pending4b i a).1 sh1 (pending4b i a).2 sh2 ∧
    pending4b (i - 1) a' = (w, (pending4b i a).1).
  Proof.
    intros Hi. assert (i = 0 ∨ i = 1 ∨ i = 2 ∨ i = 3) as [->|[->|[->| ->]]] by lia; done.
  Qed.

Lemma do4_back_spec k : ∀ srcp dstp a dst, (k ≤ 4)%nat →
    fits src srcp (8 * Z.of_nat k + 16) → fits dst dstp (8 * Z.of_nat k) →
    pending4b (Z.of_nat k - 1) a = (word (srcp + 8 * Z.of_nat k), word (srcp + 8 * Z.of_nat k + 8)) →
    ∃ a', do4_back k src srcp dstp sh1 sh2 a dst =
      Ok (a', put dst dstp (get src (srcp + 8 + Z.of_nat sh) (8 * Z.of_nat k))) ∧
      pending4b (-1) a' = (word srcp, word (srcp + 8)).
  Proof.
    induction k as [|k IH]; intros srcp dstp a dst Hk Hs Hd Hp.
    - exists a. change (8 * Z.of_nat 0) with 0 in *. rewrite Z.add_0_r in Hp. split; [|done].
      cbn [do4_back]. change (get src _ 0) with (@nil Z). by rewrite put_nil.
    - set (i := Z.of_nat k) in *. assert (Z.of_nat (S k) = i + 1) as Ei by lia. rewrite Ei in *.
      set (w := get src (srcp + 8 * (i + 1) + Z.of_nat sh) 8).
      assert (length w = 8%nat) as L8 by (subst w; rewrite get_length; fits_lia).
      assert (length (get src (srcp + 8 + Z.of_nat sh) (8 * i)) = Z.to_nat (8 * i)) as Lk by (rewrite get_length; fits_lia).
      cbn [do4_back separate]. fold i. rewrite load_op_get by fits_lia. cbn [mbind res_bind].
      pose proof (do4_back_step i a (word (srcp + 8 * i)) ltac:(lia)) as Hstep.
      destruct (match i with 3 => _ | _ => _ end) as [a' m]. destruct Hstep as [-> Hp'].
      replace (i + 1 - 1) with i in Hp by lia. rewrite Hp in Hp'. rewrite Hp. cbn [fst snd] in *.
      rewrite MERGE_get by (done || fits_lia). fold w.
      rewrite store_op_put; [|by apply get_bytes|done|fits_lia]. cbn [mbind res_bind].
      destruct (IH srcp dstp a' (put dst (dstp + 8 * i) w)) as (a2 & -> & Hp2);
        [lia|fits_lia|rewrite fits_put; rewrite ?L8; fits_lia|rewrite Hp'; do 3 f_equal; lia|].
      exists a2. split; [|done]. do 2 f_equal.
      rewrite put_before; [|rewrite L8, Lk; fits_lia|rewrite Lk; lia]. f_equal.
      replace (8 * (i + 1)) with (8 * i + 8) by lia. rewrite get_app by fits_lia. subst w. do 2 f_equal. lia.
  Qed.

Lemma bwd_dest_loop_spec m : ∀ fuel k srcp dstp a dst, (k ≤ 4)%nat → (m < fuel)%nat →
    let n := 8 * (Z.of_nat k + 4 * Z.of_nat m + 1) in
    fits src (srcp - 32 * Z.of_nat m) (n + 8) → fits dst (dstp - 32 * Z.of_nat m - 8) n →
    pending4b (Z.of_nat k - 1) a = (word (srcp + 8 * Z.of_nat k), word (srcp + 8 * Z.of_nat k + 8)) →
    bwd_dest_loop fuel k src srcp dstp (4 * (Z.of_nat m + 1)) sh1 sh2 a dst =
    Ok (put dst (dstp - 32 * Z.of_nat m - 8) (get src (srcp - 32 * Z.of_nat m + Z.of_nat sh) n)).
  Proof.
    induction m as [|m IH]; intros fuel k srcp dstp a dst Hk Hf n Hs Hd Hp; subst n;
      destruct fuel as [|fuel]; try lia; cbn [bwd_dest_loop];
      destruct (do4_back_spec k srcp dstp a dst) as (a' & -> & Hp'); try done; try fits_lia;
      cbn [mbind res_bind];
      assert (length (get src (srcp + 8 + Z.of_nat sh) (8 * Z.of_nat k)) = Z.to_nat (8 * Z.of_nat k)) as Lk
        by (rewrite get_length; fits_lia).
    - rewrite (proj2 (Z.eqb_eq (4 * (Z.of_nat 0 + 1) - 4) 0)) by lia.
      replace (srcp - 32 * Z.of_nat 0) with srcp in * by lia.
      assert (length (get src (srcp + Z.of_nat sh) 8) = 8%nat) as L8 by (rewrite get_length; fits_lia).
      cbn in Hp'. injection Hp' as -> ->. rewrite MERGE_get by (done || fits_lia).
      rewrite store_op_put; [|by apply get_bytes|done|rewrite fits_put; rewrite ?Lk; fits_lia].
      replace (dstp - 4 * 8 + 8 * 3) with (dstp - 32 * Z.of_nat 0 - 8) by lia.
      rewrite put_before; [|rewrite Lk, L8; fits_lia|rewrite L8; lia]. do 2 f_equal.
      replace (8 * (Z.of_nat k + 4 * Z.of_nat 0 + 1)) with (8 + 8 * Z.of_nat k) by lia.
      rewrite get_app by fits_lia. do 2 f_equal. lia.
    - rewrite (proj2 (Z.eqb_neq (4 * (Z.of_nat (S m) + 1) - 4) 0)) by lia.
      replace (4 * (Z.of_nat (S m) + 1) - 4) with (4 * (Z.of_nat m + 1)) by lia.
      specialize (IH fuel 4%nat (srcp - 4 * 8) (dstp - 4 * 8) a').
      cbv zeta in IH. change (Z.of_nat 4) with 4 in IH.
      replace (srcp - 4 * 8 - 32 * Z.of_nat m) with (srcp - 32 * Z.of_nat (S m)) in IH by lia.
      replace (dstp - 4 * 8 - 32 * Z.of_nat m) with (dstp - 32 * Z.of_nat (S m)) in IH by lia.
      replace (srcp - 4 * 8 + 8 * 4) with srcp in IH by lia.
      set (low := 8 * (4 + 4 * Z.of_nat m + 1)) in *.
      assert (length (get src (srcp - 32 * Z.of_nat (S m) + Z.of_nat sh) low) = Z.to_nat low) as Lr
        by (rewrite get_length; fits_lia).
      rewrite IH; [|lia|lia|fits_lia|rewrite fits_put; rewrite ?Lk; fits_lia|exact Hp'].
      rewrite put_before; [|rewrite Lk, Lr; fits_lia|rewrite Lr; lia]. do 2 f_equal.
      replace (8 * (Z.of_nat k + 4 * Z.of_nat (S m) + 1)) with (low + 8 * Z.of_nat k) by lia.
      rewrite get_app by fits_lia. do 2 f_equal. lia.
  Qed.

Lemma bwd_dest_enter k p dstp len srcp' dstp' l a dst (m : nat) :
    (k ≤ 4)%nat → len = Z.of_nat k + 4 * Z.of_nat m + 1 → l = 4 * (Z.of_nat m + 1) →
    srcp' = p - 8 * (Z.of_nat k + 1) → dstp' = dstp - 8 * Z.of_nat k →
    fits src (p - 8 * len) (8 * len + 8) → fits dst (dstp - 8 * len) (8 * len) →
    pending4b (Z.of_nat k - 1) a = (word (p - 8), word p) →
    bwd_dest_loop (S (Z.to_nat len)) k src srcp' dstp' l sh1 sh2 a dst =
    Ok (put dst (dstp - 8 * len) (get src (p - 8 * len + Z.of_nat sh) (8 * len))).
  Proof.
    intros Hk Hlen -> -> -> Hs Hd Hp.
    pose proof (bwd_dest_loop_spec m (S (Z.to_nat len)) k (p - 8 * (Z.of_nat k + 1)) (dstp - 8 * Z.of_nat k) a dst) as H.
    cbv zeta in H.
    replace (p - 8 * (Z.of_nat k + 1) + 8 * Z.of_nat k) with (p - 8) in H by lia.
    replace (p - 8 + 8) with p in H by lia.
    replace (p - 8 * (Z.of_nat k + 1) - 32 * Z.of_nat m) with (p - 8 * len) in H by lia.
    replace (dstp - 8 * Z.of_nat k - 32 * Z.of_nat m - 8) with (dstp - 8 * len) in H by lia.
    rewrite <-Hlen in H. apply H; try done; lia.
  Qed.
End Backward.

Lemma WORDCOPY_BWD_DEST_ALIGNED_spec src dst dstp srcp len : mapping src → 0 ≤ len →
  srcp `mod` 8 ≠ 0 → fits src (srcp - 8 * len) (8 * len) → fits dst (dstp - 8 * len) (8 * len) →
  WORDCOPY_BWD_DEST_ALIGNED src dst dstp srcp len =
  Ok (put dst (dstp - 8 * len) (get src (srcp - 8 * len) (8 * len))).
Proof.
  intros (Hb & Hb8 & Hl8) Hlen Hal Hs Hd. unfold WORDCOPY_BWD_DEST_ALIGNED. cbn [separate]. rewrite land_m8.
  destruct (decide (len = 0)) as [->|Hne].
  { change (8 * 0) with 0 in *. change (get src (srcp - 0) 0) with (@nil Z). by rewrite put_nil. }
  pose proof (Z.mod_pos_bound srcp 8 ltac:(done)) as Hmod.
  set (p := srcp - srcp `mod` 8) in *.
  assert (p `mod` 8 = 0) as Hp8 by (subst p; Z.to_euclidean_division_equations; lia).
  assert (fits src (p - 8 * len) (8 * len + 8)) as Hf.
  { unfold fits in *. assert (p < srcp) by lia. assert (p + 8 > srcp) by lia. clearbody p.
    split; [Z.to_euclidean_division_equations; lia|].
    split; [lia|Z.to_euclidean_division_equations; lia]. }
  set (sh := Z.to_nat (srcp `mod` 8)).
  assert (0 < sh < 8)%nat as Hsh by lia. assert (srcp = p + Z.of_nat sh) as Es by (subst p; lia).
  replace (srcp `mod` 8) with (Z.of_nat sh) by lia.
  clearbody p sh. rewrite Es. clear Es Hmod Hal.
  change (8 * 8 - 8 * Z.of_nat sh) with (64 - 8 * Z.of_nat sh).
  assert (∀ s, load_op src (p + 8 - s * 8) (s - 1) = Ok (le_word (get src p 8))) as Hu.
  { intros s. unfold load_op. replace (p + 8 - s * 8 + 8 * (s - 1)) with p by lia. by rewrite load_bytes_get by fits_lia. }
  assert (∀ s, load_op src (p + 8 - s * 8) (s - 2) = Ok (le_word (get src (p - 8) 8))) as Hw.
  { intros s. unfold load_op. replace (p + 8 - s * 8 + 8 * (s - 2)) with (p - 8) by lia.
    by rewrite load_bytes_get by fits_lia. }
  replace (p + Z.of_nat sh - 8 * len) with (p - 8 * len + Z.of_nat sh) by lia.
  pose proof (Z.div_mod len 4 ltac:(done)) as Hdm. pose proof (Z.mod_pos_bound len 4 ltac:(done)).
  assert (0 ≤ len / 4) by (apply Z.div_pos; lia).
  assert (len `mod` 4 = 0 ∨ len `mod` 4 = 1 ∨ len `mod` 4 = 2 ∨ len `mod` 4 = 3) as Hc by lia.
  destruct Hc as [E|[E|[E|E]]]; rewrite E in *; cbv iota beta zeta.
  - destruct (Z.eqb_spec len 0); [done|]. rewrite Hu, Hw. cbn [mbind res_bind].
    apply (bwd_dest_enter src Hb sh Hsh _ p dstp) with (m := Z.to_nat (len / 4 - 1)); done || lia.
  - destruct (Z.eqb_spec (len - 1) 0).
    + specialize (Hu 6). specialize (Hw 6). change (6 - 1) with 5 in Hu. change (6 - 2) with 4 in Hw.
      rewrite Hu, Hw. cbn [mbind res_bind]. replace len with 1 in * by lia. change (8 * 1) with 8 in *.
      replace (get src p 8) with (get src (p - 8 + 8) 8) by (f_equal; lia).
      rewrite MERGE_get by (done || fits_lia).
      rewrite store_op_put; [|by apply get_bytes|rewrite get_length; fits_lia|fits_lia]. do 2 f_equal. lia.
    + rewrite Hu, Hw. cbn [mbind res_bind].
      apply (bwd_dest_enter src Hb sh Hsh _ p dstp) with (m := Z.to_nat (len / 4 - 1)); done || lia.
  - rewrite Hu, Hw. cbn [mbind res_bind].
    apply (bwd_dest_enter src Hb sh Hsh _ p dstp) with (m := Z.to_nat (len / 4)); done || lia.
  - rewrite Hu, Hw. cbn [mbind res_bind].
    apply (bwd_dest_enter src Hb sh Hsh _ p dstp) with (m := Z.to_nat (len / 4)); done || lia.
Qed.

(** ** The loops on a shared region *)

(** [r] differs from [r1] at most at the addresses from [lo] up to [hi]. *)
Definition outside (r1 r : region) (lo hi : Z) : Prop :=
  ∀ a n, a + Z.of_nat n ≤ lo ∨ hi ≤ a → load_bytes r a n = load_bytes r1 a n.

Lemma outside_refl r lo hi : outside r r lo hi.
Proof. done. Qed.

Lemma get_put_outside r a l b n : fits r a (Z.of_nat (length l)) → fits r b n →
  b + n ≤ a ∨ a + Z.of_nat (length l) ≤ b → get (put r a l) b n = get r b n.
Proof.
  intros (?&?&?) (?&?&?) Hd. unfold get, put. cbn [rbase rbytes].
  set (off := Z.to_nat (a - rbase r)).
  assert (length (take off (rbytes r)) = off) as Lo by (rewrite length_take; lia).
  destruct Hd as [Hd|Hd].
  - rewrite drop_app_le, take_app_le by (rewrite ?length_drop, ?Lo; lia).
    rewrite skipn_firstn_comm, take_take. f_equal. lia.
  - rewrite app_assoc, drop_app_ge by (rewrite length_app, Lo; lia).
    rewrite length_app, Lo, drop_drop. do 2 f_equal. lia.
Qed.

Lemma load_put_outside r a l b n : fits r a (Z.of_nat (length l)) →
  b + Z.of_nat n ≤ a ∨ a + Z.of_nat (length l) ≤ b → load_bytes (put r a l) b n = load_bytes r b n.
Proof.
  intros Hf Hd. destruct (decide (fits r b (Z.of_nat n))) as [Hb|Hb].
  - rewrite !load_bytes_get by (try rewrite fits_put; done). by rewrite get_put_outside.
  - unfold load_bytes. rewrite put_length by done. cbn [put rbase].
    destruct (Z.leb_spec (rbase r) b), (Z.leb_spec (b + Z.of_nat n) (rbase r + Z.of_nat (length (rbytes r)))); try done.
    destruct Hb. unfold fits. lia.
Qed.

Lemma store_bytes_inv r a l r' : store_bytes r a l = Ok r' → fits r a (Z.of_nat (length l)) ∧ r' = put r a l.
Proof.
  unfold store_bytes. destruct (Z.leb_spec (rbase r) a); [|done].
  destruct (decide (Z.to_nat (a - rbase r) + length l ≤ length (rbytes r))%nat) as [Hl|Hl].
  - rewrite blit_ok by done. cbn [mbind res_bind]. intros [= <-]. split; [unfold fits; lia|done].
  - unfold blit. intros E. exfalso. revert E. repeat case_match; try done; lia.
Qed.

Lemma outside_store r1 r r' lo hi lo' hi' a l :
  outside r1 r lo hi → store_bytes r a l = Ok r' →
  lo' ≤ lo → lo' ≤ a → hi ≤ hi' → a + Z.of_nat (length l) ≤ hi' → outside r1 r' lo' hi'.
Proof.
  intros Ho Hs Hlo Hla Hhi Hah b n Hb. apply store_bytes_inv in Hs as [Hf ->].
  rewrite load_put_outside by (done || lia). apply Ho. lia.
Qed.

Lemma le_bytes_len n w : length (le_bytes n w) = n.
Proof. revert w. induction n as [|n IH]; intros w; cbn [le_bytes length]; [done|]. by rewrite IH. Qed.

Lemma load_bytes_length r a n l : load_bytes r a n = Ok l → length l = n.
Proof.
  unfold load_bytes. destruct (Z.leb_spec (rbase r) a), (Z.leb_spec (a + Z.of_nat n) (rbase r + Z.of_nat (length (rbytes r))));
    cbn [andb]; try done.
  intros [= <-]. rewrite length_take, length_drop. lia.
Qed.

(** A word stored at the upper, or at the lower, end of the interval. *)
Lemma outside_store_op r1 r r' lo hi p i w :
  outside r1 r lo hi → store_op r p i w = Ok r' → lo ≤ p + 8 * i → hi = p + 8 * i → outside r1 r' lo (hi + 8).
Proof.
  intros Ho Hs Hlo ->. eapply outside_store; [exact Ho|exact Hs|..]; rewrite ?le_bytes_len; lia.
Qed.
Lemma outside_store_below r1 r r' lo hi p i w :
  outside r1 r lo hi → store_op r p i w = Ok r' → lo ≤ hi → lo = p + 8 * i + 8 → outside r1 r' (lo - 8) hi.
Proof.
  intros Ho Hs Hlo ->. eapply outside_store; [exact Ho|exact Hs|..]; rewrite ?le_bytes_len; lia.
Qed.

Lemma load_op_outside r1 r lo hi p i : outside r1 r lo hi → p + 8 * i + 8 ≤ lo ∨ hi ≤ p + 8 * i →
  load_op r p i = load_op r1 p i.
Proof. intros Ho Hd. unfold load_op. rewrite (Ho (p + 8 * i) 8%nat); [done|lia]. Qed.

Lemma BYTE_COPY_FWD_shared r1 D n : ∀ r d s, outside r1 r D d → D ≤ d → d ≤ s ∨ s + Z.of_nat n ≤ D →
  BYTE_COPY_FWD shared r d s n = BYTE_COPY_FWD r1 r d s n.
Proof.
  induction n as [|n IH]; intros r d s Ho HD Hc; [done|]. cbn [BYTE_COPY_FWD separate shared].
  rewrite (Ho s 1%nat) by lia. destruct (load_bytes r1 s 1) as [x|e] eqn:Ex; [|done]. cbn [mbind res_bind].
  destruct (store_bytes r d x) as [r'|e] eqn:Er; [|done]. cbn [mbind res_bind].
  pose proof (load_bytes_length _ _ _ _ Ex) as Lx.
  apply IH; [|lia|lia]. eapply outside_store; [exact Ho|exact Er|..]; rewrite ?Lx; lia.
Qed.

Lemma BYTE_COPY_BWD_shared r1 E n : ∀ r d s, outside r1 r d E → d ≤ E → s ≤ d →
  BYTE_COPY_BWD shared r d s n = BYTE_COPY_BWD r1 r d s n.
Proof.
  induction n as [|n IH]; intros r d s Ho HE Hc; [done|]. cbn [BYTE_COPY_BWD separate shared].
  rewrite (Ho (s - 1) 1%nat) by lia. destruct (load_bytes r1 (s - 1) 1) as [x|e] eqn:Ex; [|done]. cbn [mbind res_bind].
  destruct (store_bytes r (d - 1) x) as [r'|e] eqn:Er; [|done]. cbn [mbind res_bind].
  pose proof (load_bytes_length _ _ _ _ Ex) as Lx.
  apply IH; [|lia|lia]. eapply outside_store; [exact Ho|exact Er|..]; rewrite ?Lx; lia.
Qed.

(** In the unrolled bodies: the loads are those of the unchanged region, and
    the interval grows by the words stored. *)
Lemma do8_from_shared r1 D srcp dstp k : (k ≤ 8)%nat → dstp ≤ srcp ∨ srcp + 64 ≤ D → ∀ a0 a1 r,
  D ≤ dstp + 8 * (8 - Z.of_nat k) → outside r1 r D (dstp + 8 * (8 - Z.of_nat k)) →
  do8_from k shared srcp dstp a0 a1 r = do8_from k r1 srcp dstp a0 a1 r ∧
  ∀ b0 b1 r', do8_from k r1 srcp dstp a0 a1 r = Ok (b0, b1, r') → outside r1 r' D (dstp + 64).
Proof.
  intros Hk Hc. induction k as [|k IH]; intros a0 a1 r HD Ho.
  { split; [done|]. intros b0 b1 r' [= _ _ <-]. by replace (dstp + 64) with (dstp + 8 * (8 - Z.of_nat 0)) by lia. }
  specialize (IH ltac:(lia)). set (i := 8 - Z.of_nat (S k)) in *.
  assert (8 - Z.of_nat k = i + 1) as Ei by lia. rewrite Ei in IH.
  cbn [do8_from separate shared]. fold i. rewrite (load_op_outside _ _ _ _ srcp i Ho) by lia.
  destruct (load_op r1 srcp i) as [w|e]; [|by destruct (Z.even i)].
  destruct (Z.even i); cbn [mbind res_bind];
    (destruct (store_op r dstp i _) as [r'|e] eqn:Es; [|done]); cbn [mbind res_bind];
    (apply IH; [lia|]); replace (dstp + 8 * (i + 1)) with (dstp + 8 * i + 8) by lia;
    (eapply outside_store_op; [exact Ho|exact Es|lia|done]).
Qed.

Lemma do4_from_shared r1 D srcp dstp sh_1 sh_2 k : (k ≤ 4)%nat → dstp ≤ srcp ∨ srcp + 32 ≤ D → ∀ a r,
  D ≤ dstp + 8 * (4 - Z.of_nat k) → outside r1 r D (dstp + 8 * (4 - Z.of_nat k)) →
  do4_from k shared srcp dstp sh_1 sh_2 a r = do4_from k r1 srcp dstp sh_1 sh_2 a r ∧
  ∀ a' r', do4_from k r1 srcp dstp sh_1 sh_2 a r = Ok (a', r') → outside r1 r' D (dstp + 32).
Proof.
  intros Hk Hc. induction k as [|k IH]; intros a r HD Ho.
  { split; [done|]. intros a' r' [= _ <-]. by replace (dstp + 32) with (dstp + 8 * (4 - Z.of_nat 0)) by lia. }
  specialize (IH ltac:(lia)). set (i := 4 - Z.of_nat (S k)) in *.
  assert (4 - Z.of_nat k = i + 1) as Ei by lia. rewrite Ei in IH.
  cbn [do4_from separate shared]. fold i. rewrite (load_op_outside _ _ _ _ srcp i Ho) by lia.
  destruct (load_op r1 srcp i) as [w|e]; [|done]. cbn [mbind res_bind].
  destruct (match i with 0 => _ | _ => _ end) as [a' m].
  destruct (store_op r dstp i m) as [r'|e] eqn:Es; [|done]. cbn [mbind res_bind].
  apply IH; [lia|]. replace (dstp + 8 * (i + 1)) with (dstp + 8 * i + 8) by lia.
  eapply outside_store_op; [exact Ho|exact Es|lia|done].
Qed.

Lemma do8_back_shared r1 E srcp dstp k : srcp ≤ dstp → ∀ a0 a1 r,
  dstp + 8 * Z.of_nat k ≤ E → outside r1 r (dstp + 8 * Z.of_nat k) E →
  do8_back k shared srcp dstp a0 a1 r = do8_back k r1 srcp dstp a0 a1 r ∧
  ∀ b0 b1 r', do8_back k r1 srcp dstp a0 a1 r = Ok (b0, b1, r') → outside r1 r' dstp E.
Proof.
  intros Hc. induction k as [|k IH]; intros a0 a1 r HE Ho.
  { split; [done|]. intros b0 b1 r' [= _ _ <-]. by replace (dstp + 8 * Z.of_nat 0) with dstp in Ho by lia. }
  set (i := Z.of_nat k) in *. assert (Z.of_nat (S k) = i + 1) as Ei by lia. rewrite Ei in *.
  cbn [do8_back separate shared]. fold i. rewrite (load_op_outside _ _ _ _ srcp i Ho) by lia.
  destruct (load_op r1 srcp i) as [w|e]; [|by destruct (Z.even i)].
  destruct (Z.even i); cbn [mbind res_bind];
    (destruct (store_op r dstp i _) as [r'|e] eqn:Es; [|done]); cbn [mbind res_bind];
    (apply IH; [lia|]); replace (dstp + 8 * i) with (dstp + 8 * (i + 1) - 8) by lia;
    (eapply outside_store_below; [exact Ho|exact Es|lia|lia]).
Qed.

Lemma do4_back_shared r1 E srcp dstp sh_1 sh_2 k : srcp ≤ dstp → ∀ a r,
  dstp + 8 * Z.of_nat k ≤ E → outside r1 r (dstp + 8 * Z.of_nat k) E →
  do4_back k shared srcp dstp sh_1 sh_2 a r = do4_back k r1 srcp dstp sh_1 sh_2 a r ∧
  ∀ a' r', do4_back k r1 srcp dstp sh_1 sh_2 a r = Ok (a', r') → outside r1 r' dstp E.
Proof.
  intros Hc. induction k as [|k IH]; intros a r HE Ho.
  { split; [done|]. intros a' r' [= _ <-]. by replace (dstp + 8 * Z.of_nat 0) with dstp in Ho by lia. }
  set (i := Z.of_nat k) in *. assert (Z.of_nat (S k) = i + 1) as Ei by lia. rewrite Ei in *.
  cbn [do4_back separate shared]. fold i. rewrite (load_op_outside _ _ _ _ srcp i Ho) by lia.
  destruct (load_op r1 srcp i) as [w|e]; [|done]. cbn [mbind res_bind].
  destruct (match i with 3 => _ | _ => _ end) as [a' m].
  destruct (store_op r dstp i m) as [r'|e] eqn:Es; [|done]. cbn [mbind res_bind].
  apply IH; [lia|]. replace (dstp + 8 * i) with (dstp + 8 * (i + 1) - 8) by lia.
  eapply outside_store_below; [exact Ho|exact Es|lia|lia].
Qed.

(** The loops around them.  A forward loop of [m + 1] rounds reads below
    [srcp + 64 * (m + 1)], or [srcp + 32 * (m + 1)]. *)
Lemma fwd_aligned_loop_shared r1 D fuel : ∀ m k srcp dstp a0 a1 r, (k ≤ 8)%nat →
  dstp ≤ srcp ∨ srcp + 64 * (Z.of_nat m + 1) ≤ D →
  D ≤ dstp + 8 * (8 - Z.of_nat k) → outside r1 r D (dstp + 8 * (8 - Z.of_nat k)) →
  fwd_aligned_loop fuel k shared srcp dstp (8 * (Z.of_nat m + 1)) a0 a1 r =
  fwd_aligned_loop fuel k r1 srcp dstp (8 * (Z.of_nat m + 1)) a0 a1 r.
Proof.
  induction fuel as [|fuel IH]; intros m k srcp dstp a0 a1 r Hk Hc HD Ho; [done|]. cbn [fwd_aligned_loop].
  destruct (do8_from_shared r1 D srcp dstp k Hk ltac:(lia) a0 a1 r HD Ho) as [-> Hout].
  destruct (do8_from k r1 srcp dstp a0 a1 r) as [[[b0 b1] r']|e]; [|done]. cbn [mbind res_bind].
  specialize (Hout b0 b1 r' eq_refl). destruct (Z.eqb_spec (8 * (Z.of_nat m + 1) - 8) 0); [done|].
  destruct m as [|m]; [lia|]. replace (8 * (Z.of_nat (S m) + 1) - 8) with (8 * (Z.of_nat m + 1)) by lia.
  apply IH; [lia|lia|lia|]. by replace (dstp + 8 * 8 + 8 * (8 - Z.of_nat 8)) with (dstp + 64) by lia.
Qed.

Lemma fwd_dest_loop_shared r1 D sh_1 sh_2 fuel : ∀ m k srcp dstp a r, (k ≤ 4)%nat →
  dstp ≤ srcp ∨ srcp + 32 * (Z.of_nat m + 1) ≤ D →
  D ≤ dstp + 8 * (4 - Z.of_nat k) → outside r1 r D (dstp + 8 * (4 - Z.of_nat k)) →
  fwd_dest_loop fuel k shared srcp dstp (4 * (Z.of_nat m + 1)) sh_1 sh_2 a r =
  fwd_dest_loop fuel k r1 srcp dstp (4 * (Z.of_nat m + 1)) sh_1 sh_2 a r.
Proof.
  induction fuel as [|fuel IH]; intros m k srcp dstp a r Hk Hc HD Ho; [done|]. cbn [fwd_dest_loop].
  destruct (do4_from_shared r1 D srcp dstp sh_1 sh_2 k Hk ltac:(lia) a r HD Ho) as [-> Hout].
  destruct (do4_from k r1 srcp dstp sh_1 sh_2 a r) as [[a' r']|e]; [|done]. cbn [mbind res_bind].
  specialize (Hout a' r' eq_refl). destruct (Z.eqb_spec (4 * (Z.of_nat m + 1) - 4) 0); [done|].
  destruct m as [|m]; [lia|]. replace (4 * (Z.of_nat (S m) + 1) - 4) with (4 * (Z.of_nat m + 1)) by lia.
  apply IH; [lia|lia|lia|]. by replace (dstp + 4 * 8 + 8 * (4 - Z.of_nat 4)) with (dstp + 32) by lia.
Qed.

Lemma bwd_aligned_loop_shared r1 E fuel : ∀ k srcp dstp len a0 a1 r, srcp ≤ dstp →
  dstp + 8 * Z.of_nat k ≤ E → outside r1 r (dstp + 8 * Z.of_nat k) E →
  bwd_aligned_loop fuel k shared srcp dstp len a0 a1 r = bwd_aligned_loop fuel k r1 srcp dstp len a0 a1 r.
Proof.
  induction fuel as [|fuel IH]; intros k srcp dstp len a0 a1 r Hc HE Ho; [done|]. cbn [bwd_aligned_loop].
  destruct (do8_back_shared r1 E srcp dstp k Hc a0 a1 r HE Ho) as [-> Hout].
  destruct (do8_back k r1 srcp dstp a0 a1 r) as [[[b0 b1] r']|e]; [|done]. cbn [mbind res_bind].
  specialize (Hout b0 b1 r' eq_refl). destruct (Z.eqb_spec (len - 8) 0); [done|].
  apply IH; [lia|lia|]. by replace (dstp - 8 * 8 + 8 * Z.of_nat 8) with dstp by lia.
Qed.

Lemma bwd_dest_loop_shared r1 E sh_1 sh_2 fuel : ∀ k srcp dstp len a r, srcp ≤ dstp →
  dstp + 8 * Z.of_nat k ≤ E → outside r1 r (dstp + 8 * Z.of_nat k) E →
  bwd_dest_loop fuel k shared srcp dstp len sh_1 sh_2 a r = bwd_dest_loop fuel k r1 srcp dstp len sh_1 sh_2 a r.
Proof.
  induction fuel as [|fuel IH]; intros k srcp dstp len a r Hc HE Ho; [done|]. cbn [bwd_dest_loop].
  destruct (do4_back_shared r1 E srcp dstp sh_1 sh_2 k Hc a r HE Ho) as [-> Hout].
  destruct (do4_back k r1 srcp dstp sh_1 sh_2 a r) as [[a' r']|e]; [|done]. cbn [mbind res_bind].
  specialize (Hout a' r' eq_refl). destruct (Z.eqb_spec (len - 4) 0); [done|].
  apply IH; [lia|lia|]. by replace (dstp - 4 * 8 + 8 * Z.of_nat 4) with dstp by lia.
Qed.

(** The four word copies: on a shared region they do what they do with the
    region as it was at the start for their source. *)
Lemma WORDCOPY_FWD_ALIGNED_shared r dstp srcp len : 0 ≤ len → dstp ≤ srcp ∨ srcp + 8 * len ≤ dstp →
  WORDCOPY_FWD_ALIGNED shared r dstp srcp len = WORDCOPY_FWD_ALIGNED r r dstp srcp len.
Proof.
  intros Hlen Hc. unfold WORDCOPY_FWD_ALIGNED. cbn [separate shared].
  pose proof (Z.div_mod len 8 ltac:(done)) as Hdm. assert (0 ≤ len / 8) by (apply Z.div_pos; lia).
  assert (∀ (m : nat) k s d l a0 a1, (k ≤ 8)%nat → len = Z.of_nat k + 8 * Z.of_nat m + 1 → l = 8 * (Z.of_nat m + 1) →
    s = 7 - Z.of_nat k → d = 8 - Z.of_nat k →
    fwd_aligned_loop (S (Z.to_nat len)) k shared (srcp - s * 8) (dstp - d * 8) l a0 a1 r =
    fwd_aligned_loop (S (Z.to_nat len)) k r (srcp - s * 8) (dstp - d * 8) l a0 a1 r) as Henter.
  { intros m k s d l a0 a1 Hk El -> -> ->. apply (fwd_aligned_loop_shared r dstp); [done|lia|lia|apply outside_refl]. }
  destruct (mod8_cases len) as [E|[E|[E|[E|[E|[E|[E|E]]]]]]]; rewrite E in *;
    (destruct (load_op r srcp 0) as [w|e]; cbn [mbind res_bind]; [|done]);
    try (apply (Henter (Z.to_nat (len / 8))); lia).
  - destruct (Z.eqb_spec len 0); [done|]. apply (Henter (Z.to_nat (len / 8 - 1))); lia.
  - destruct (Z.eqb_spec (len - 1) 0); [done|]. apply (Henter (Z.to_nat (len / 8 - 1))); lia.
Qed.

Lemma WORDCOPY_FWD_DEST_ALIGNED_shared r dstp srcp len : 0 ≤ len →
  dstp ≤ srcp - srcp `mod` 8 ∨ srcp - srcp `mod` 8 + 8 * len + 8 ≤ dstp →
  WORDCOPY_FWD_DEST_ALIGNED shared r dstp srcp len = WORDCOPY_FWD_DEST_ALIGNED r r dstp srcp len.
Proof.
  intros Hlen Hc. unfold WORDCOPY_FWD_DEST_ALIGNED. cbn [separate shared]. rewrite land_m8.
  destruct (decide (len = 0)) as [->|Hne]; [done|]. rewrite (proj2 (Z.eqb_neq len 0)), andb_false_r by done.
  set (p := srcp - srcp `mod` 8) in *. set (sh_1 := 8 * _).
  pose proof (Z.div_mod len 4 ltac:(done)) as Hdm. assert (0 ≤ len / 4) by (apply Z.div_pos; lia).
  destruct (load_op r p 0) as [w0|e]; cbn [mbind res_bind]; [|done].
  destruct (load_op r p 1) as [w1|e]; cbn [mbind res_bind]; [|done].
  assert (∀ (m : nat) k s d l a, (k ≤ 4)%nat → len = Z.of_nat k + 4 * Z.of_nat m + 1 → l = 4 * (Z.of_nat m + 1) →
    s = 2 - Z.of_nat k → d = 4 - Z.of_nat k →
    fwd_dest_loop (S (Z.to_nat len)) k shared (p - s * 8) (dstp - d * 8) l sh_1 (8 * 8 - sh_1) a r =
    fwd_dest_loop (S (Z.to_nat len)) k r (p - s * 8) (dstp - d * 8) l sh_1 (8 * 8 - sh_1) a r) as Henter.
  { intros m k s d l a Hk El -> -> ->. apply (fwd_dest_loop_shared r dstp); [done|lia|lia|apply outside_refl]. }
  pose proof (Z.mod_pos_bound len 4 ltac:(done)).
  assert (len `mod` 4 = 0 ∨ len `mod` 4 = 1 ∨ len `mod` 4 = 2 ∨ len `mod` 4 = 3) as [E|[E|[E|E]]] by lia; rewrite E in *.
  - apply (Henter (Z.to_nat (len / 4 - 1))); lia.
  - destruct (Z.eqb_spec (len - 1) 0); [done|]. apply (Henter (Z.to_nat (len / 4 - 1))); lia.
  - apply (Henter (Z.to_nat (len / 4))); lia.
  - apply (Henter (Z.to_nat (len / 4))); lia.
Qed.

Lemma WORDCOPY_BWD_ALIGNED_shared r dstp srcp len : srcp ≤ dstp →
  WORDCOPY_BWD_ALIGNED shared r dstp srcp len = WORDCOPY_BWD_ALIGNED r r dstp srcp len.
Proof.
  intros Hc. unfold WORDCOPY_BWD_ALIGNED. cbn [separate shared].
  assert (∀ k s d l a0 a1, s = Z.of_nat k + 1 → d = Z.of_nat k →
    bwd_aligned_loop (S (Z.to_nat len)) k shared (srcp - s * 8) (dstp - d * 8) l a0 a1 r =
    bwd_aligned_loop (S (Z.to_nat len)) k r (srcp - s * 8) (dstp - d * 8) l a0 a1 r) as Henter.
  { intros k s d l a0 a1 -> ->. apply (bwd_aligned_loop_shared r dstp); [lia|lia|apply outside_refl]. }
  destruct (mod8_cases len) as [E|[E|[E|[E|[E|[E|[E|E]]]]]]]; rewrite E;
    [destruct (Z.eqb_spec len 0); [done|]|destruct (Z.eqb_spec (len - 1) 0); [done|]|..];
    (match goal with |- context [load_op ?x ?p ?i] => destruct (load_op x p i) as [w|e]; [|done] end);
    cbn [mbind res_bind]; by apply Henter.
Qed.

Lemma WORDCOPY_BWD_DEST_ALIGNED_shared r dstp srcp len : srcp ≤ dstp + 8 →
  WORDCOPY_BWD_DEST_ALIGNED shared r dstp srcp len = WORDCOPY_BWD_DEST_ALIGNED r r dstp srcp len.
Proof.
  intros Hc. unfold WORDCOPY_BWD_DEST_ALIGNED. cbn [separate shared]. rewrite land_m8.
  pose proof (Z.mod_pos_bound srcp 8 ltac:(done)). set (p := srcp - srcp `mod` 8) in *. set (sh_1 := 8 * _).
  assert (∀ k s d l a, s = Z.of_nat k + 2 → d = Z.of_nat k →
    bwd_dest_loop (S (Z.to_nat len)) k shared (p + 8 - s * 8) (dstp - d * 8) l sh_1 (8 * 8 - sh_1) a r =
    bwd_dest_loop (S (Z.to_nat len)) k r (p + 8 - s * 8) (dstp - d * 8) l sh_1 (8 * 8 - sh_1) a r) as Henter.
  { intros k s d l a -> ->. apply (bwd_dest_loop_shared r dstp); [lia|lia|apply outside_refl]. }
  pose proof (Z.mod_pos_bound len 4 ltac:(done)).
  assert (len `mod` 4 = 0 ∨ len `mod` 4 = 1 ∨ len `mod` 4 = 2 ∨ len `mod` 4 = 3) as [E|[E|[E|E]]] by lia; rewrite E;
    cbv iota beta zeta;
    [destruct (Z.eqb_spec len 0); [done|]|destruct (Z.eqb_spec (len - 1) 0); [done|]|..];
    (match goal with |- context [load_op ?x ?q ?i] => destruct (load_op x q i) as [w|e]; [|done] end);
    cbn [mbind res_bind];
    (match goal with |- context [load_op ?x ?q ?i] => destruct (load_op x q i) as [w'|e]; [|done] end);
    cbn [mbind res_bind]; by apply Henter.
Qed.

(** ** The phases together *)

(** The region after the [n] bytes from [s] on were copied to [d]. *)
Definition moved (r : region) (d s n : Z) : region := put r d (get r s n).

Lemma moved_fits r d s n a m : fits r d n → fits r s n → fits (moved r d s n) a m ↔ fits r a m.
Proof. intros Hd Hs. unfold moved. rewrite fits_put; [done|]. rewrite get_length by done. fits_lia. Qed.

Lemma moved_mapping r d s n : mapping r → fits r d n → fits r s n → mapping (moved r d s n).
Proof.
  intros (Hb & H1 & H2) Hd Hs. unfold mapping, moved. rewrite put_length by (rewrite get_length by done; fits_lia).
  split; [|done]. cbn [put rbytes]. repeat apply Forall_app_2; [by apply Forall_take|by apply get_bytes|by apply Forall_drop].
Qed.

Lemma moved_forward r d s k n : 0 ≤ k → 0 ≤ n → fits r d (k + n) → fits r s (k + n) → d ≤ s ∨ s + k + n ≤ d →
  moved (moved r d s k) (d + k) (s + k) n = moved r d s (k + n).
Proof.
  intros Hk Hn Hd Hs Hc. unfold moved at 1.
  assert (length (get r s k) = Z.to_nat k) as Lk by (rewrite get_length; fits_lia).
  assert (length (get r (s + k) n) = Z.to_nat n) as Ln by (rewrite get_length; fits_lia).
  assert (get (moved r d s k) (s + k) n = get r (s + k) n) as ->.
  { unfold moved. apply get_put_outside; rewrite ?Lk; fits_lia. }
  unfold moved. rewrite put_put; [|rewrite Lk, Ln; fits_lia|rewrite Lk; lia]. by rewrite get_app by fits_lia.
Qed.

Lemma moved_backward r d s k n : 0 ≤ k → 0 ≤ n → fits r d (n + k) → fits r s (n + k) → s ≤ d →
  moved (moved r (d + n) (s + n) k) d s n = moved r d s (n + k).
Proof.
  intros Hk Hn Hd Hs Hc. unfold moved at 1.
  assert (length (get r (s + n) k) = Z.to_nat k) as Lk by (rewrite get_length; fits_lia).
  assert (length (get r s n) = Z.to_nat n) as Ln by (rewrite get_length; fits_lia).
  assert (get (moved r (d + n) (s + n) k) s n = get r s n) as ->.
  { unfold moved. apply get_put_outside; rewrite ?Lk; fits_lia. }
  unfold moved. rewrite put_before; [|rewrite Lk, Ln; fits_lia|rewrite Ln; lia]. by rewrite get_app by fits_lia.
Qed.

(** Each phase of [MEMMOVE] moves its bytes. *)
Lemma bytes_forward r d s n : fits r d (Z.of_nat n) → fits r s (Z.of_nat n) → d ≤ s ∨ s + Z.of_nat n ≤ d →
  BYTE_COPY_FWD shared r d s n = Ok (moved r d s (Z.of_nat n)).
Proof.
  intros Hd Hs Hc. rewrite (BYTE_COPY_FWD_shared r d); [|apply outside_refl|lia|done].
  by rewrite BYTE_COPY_FWD_spec.
Qed.

Lemma bytes_backward r d s n : fits r (d - Z.of_nat n) (Z.of_nat n) → fits r (s - Z.of_nat n) (Z.of_nat n) → s ≤ d →
  BYTE_COPY_BWD shared r d s n = Ok (moved r (d - Z.of_nat n) (s - Z.of_nat n) (Z.of_nat n)).
Proof.
  intros Hd Hs Hc. rewrite (BYTE_COPY_BWD_shared r d); [|apply outside_refl|lia|done].
  by rewrite BYTE_COPY_BWD_spec.
Qed.

Lemma words_forward r d s len : mapping r → 0 ≤ len → d `mod` 8 = 0 → fits r d (8 * len) → fits r s (8 * len) →
  d ≤ s ∨ s + 8 * len ≤ d →
  (if s `mod` 8 =? 0 then WORDCOPY_FWD_ALIGNED shared r d s len else WORDCOPY_FWD_DEST_ALIGNED shared r d s len) =
  Ok (moved r d s (8 * len)).
Proof.
  intros Hm Hlen Hal Hd Hs Hc. destruct (Z.eqb_spec (s `mod` 8) 0) as [E|E].
  - rewrite WORDCOPY_FWD_ALIGNED_shared by done. apply WORDCOPY_FWD_ALIGNED_spec; [apply Hm|done..].
  - rewrite WORDCOPY_FWD_DEST_ALIGNED_shared; [by apply WORDCOPY_FWD_DEST_ALIGNED_spec|done|].
    destruct Hc as [Hc|Hc]; [left|right]; Z.to_euclidean_division_equations; lia.
Qed.

Lemma words_backward r d s len : mapping r → 0 ≤ len →
  fits r (d - 8 * len) (8 * len) → fits r (s - 8 * len) (8 * len) → s ≤ d →
  (if s `mod` 8 =? 0 then WORDCOPY_BWD_ALIGNED shared r d s len else WORDCOPY_BWD_DEST_ALIGNED shared r d s len) =
  Ok (moved r (d - 8 * len) (s - 8 * len) (8 * len)).
Proof.
  intros Hm Hlen Hd Hs Hc. destruct (Z.eqb_spec (s `mod` 8) 0) as [E|E].
  - rewrite WORDCOPY_BWD_ALIGNED_shared by done. apply WORDCOPY_BWD_ALIGNED_spec; [apply Hm|done..].
  - rewrite WORDCOPY_BWD_DEST_ALIGNED_shared by lia. by apply WORDCOPY_BWD_DEST_ALIGNED_spec.
Qed.

(** An address range a pointer can have. *)
Definition addressable (r : region) : Prop := 0 ≤ rbase r ∧ rbase r + Z.of_nat (length (rbytes r)) ≤ 2 ^ 64.

(** The unsigned test tells whether copying forward is safe. *)
Lemma direction r d s len : addressable r → fits r d len → fits r s len →
  (len ≤ uint64 (d - s) → d ≤ s ∨ s + len ≤ d) ∧ (uint64 (d - s) < len → s ≤ d).
Proof.
  intros [??] (?&?&?) (?&?&?). unfold uint64.
  destruct (decide (len = 0)) as [->|]; [pose proof (Z.mod_pos_bound (d - s) (2 ^ 64)); lia|].
  destruct (decide (s ≤ d)) as [Hle|Hgt].
  - rewrite Z.mod_small by lia. lia.
  - replace (d - s) with (d - s + 2 ^ 64 + -1 * 2 ^ 64) by lia.
    rewrite Z_mod_plus_full, Z.mod_small by lia. lia.
Qed.

Lemma MEMMOVE_forward r d s len : mapping r → fits r d (Z.of_nat len) → fits r s (Z.of_nat len) →
  16 ≤ Z.of_nat len → d ≤ s ∨ s + Z.of_nat len ≤ d →
  (let k := (- d) `mod` 8 in let rest := Z.of_nat len - k in
   r ← BYTE_COPY_FWD shared r d s (Z.to_nat k);
   r ← (if (s + k) `mod` 8 =? 0 then WORDCOPY_FWD_ALIGNED shared r (d + k) (s + k) (rest / 8)
        else WORDCOPY_FWD_DEST_ALIGNED shared r (d + k) (s + k) (rest / 8));
   BYTE_COPY_FWD shared r (d + k + Z.land rest (-8)) (s + k + Z.land rest (-8)) (Z.to_nat (rest `mod` 8))) =
  Ok (moved r d s (Z.of_nat len)).
Proof.
  intros Hm Hd Hs H16 Hc. cbv zeta. rewrite land_m8.
  pose proof (Z.mod_pos_bound (- d) 8 ltac:(done)) as Hk. assert ((d + (- d) `mod` 8) `mod` 8 = 0) as Hal
    by (Z.to_euclidean_division_equations; lia).
  set (k := (- d) `mod` 8) in *. clearbody k.
  set (rest := Z.of_nat len - k) in *. assert (Z.of_nat len = k + rest) as El by lia. clearbody rest.
  pose proof (Z.div_mod rest 8 ltac:(done)) as Hdm. pose proof (Z.mod_pos_bound rest 8 ltac:(done)) as Ht.
  assert (0 ≤ rest / 8) as Hq by (apply Z.div_pos; lia). set (q := rest / 8) in *. set (t := rest `mod` 8) in *.
  clearbody q t. subst rest. rewrite El in *.
  rewrite bytes_forward by (rewrite ?Z2Nat.id by lia; fits_lia). rewrite Z2Nat.id by lia. cbn [mbind res_bind].
  assert (mapping (moved r d s k)) as Hm1 by (apply moved_mapping; [done|fits_lia..]).
  rewrite words_forward; [|done|lia|done|apply moved_fits; fits_lia..|lia]. cbn [mbind res_bind].
  rewrite moved_forward by (lia || fits_lia).
  replace (8 * q + t - t) with (8 * q) by lia. rewrite <-!Z.add_assoc.
  rewrite bytes_forward; [|rewrite ?Z2Nat.id by lia; (apply moved_fits; fits_lia) || lia..].
  rewrite Z2Nat.id by lia. rewrite moved_forward by (lia || fits_lia). do 2 f_equal. lia.
Qed.

Lemma MEMMOVE_backward r d s len : mapping r → fits r d (Z.of_nat len) → fits r s (Z.of_nat len) →
  16 ≤ Z.of_nat len → s ≤ d →
  (let s := s + Z.of_nat len in let d := d + Z.of_nat len in
   let k := d `mod` 8 in let rest := Z.of_nat len - k in
   r ← BYTE_COPY_BWD shared r d s (Z.to_nat k);
   r ← (if (s - k) `mod` 8 =? 0 then WORDCOPY_BWD_ALIGNED shared r (d - k) (s - k) (rest / 8)
        else WORDCOPY_BWD_DEST_ALIGNED shared r (d - k) (s - k) (rest / 8));
   BYTE_COPY_BWD shared r (d - k - Z.land rest (-8)) (s - k - Z.land rest (-8)) (Z.to_nat (rest `mod` 8))) =
  Ok (moved r d s (Z.of_nat len)).
Proof.
  intros Hm Hd Hs H16 Hc. cbv zeta. rewrite land_m8.
  pose proof (Z.mod_pos_bound (d + Z.of_nat len) 8 ltac:(done)) as Hk.
  set (k := (d + Z.of_nat len) `mod` 8) in *. clearbody k.
  set (rest := Z.of_nat len - k) in *. assert (Z.of_nat len = rest + k) as El by lia. clearbody rest.
  pose proof (Z.div_mod rest 8 ltac:(done)) as Hdm. pose proof (Z.mod_pos_bound rest 8 ltac:(done)) as Ht.
  assert (0 ≤ rest / 8) as Hq by (apply Z.div_pos; lia). set (q := rest / 8) in *. set (t := rest `mod` 8) in *.
  clearbody q t. assert (rest = t + 8 * q) as Er by lia. clear Hdm. subst rest. rewrite El in *.
  rewrite bytes_backward by (rewrite ?Z2Nat.id by lia; fits_lia). rewrite Z2Nat.id by lia. cbn [mbind res_bind].
  replace (d + (t + 8 * q + k) - k) with (d + (t + 8 * q)) by lia.
  replace (s + (t + 8 * q + k) - k) with (s + (t + 8 * q)) by lia.
  assert (mapping (moved r (d + (t + 8 * q)) (s + (t + 8 * q)) k)) as Hm1 by (apply moved_mapping; [done|fits_lia..]).
  rewrite words_backward; [|done|lia|apply moved_fits; fits_lia..|lia]. cbn [mbind res_bind].
  replace (t + 8 * q - t) with (8 * q) by lia.
  replace (d + (t + 8 * q) - 8 * q) with (d + t) by lia. replace (s + (t + 8 * q) - 8 * q) with (s + t) by lia.
  assert (moved (moved r (d + (t + 8 * q)) (s + (t + 8 * q)) k) (d + t) (s + t) (8 * q) =
    moved r (d + t) (s + t) (8 * q + k)) as ->.
  { rewrite !(Z.add_assoc _ t). apply moved_backward; lia || fits_lia. }
  rewrite bytes_backward; [|rewrite ?Z2Nat.id by lia; (apply moved_fits; fits_lia) || lia..].
  rewrite Z2Nat.id by lia. rewrite !Z.add_simpl_r. rewrite moved_backward by (lia || fits_lia). do 2 f_equal. lia.
Qed.

Lemma MEMMOVE_moved r d s len : mapping r → addressable r → fits r d (Z.of_nat len) → fits r s (Z.of_nat len) →
  MEMMOVE r d s len = Ok (moved r d s (Z.of_nat len)).
Proof.
  intros Hm Ha Hd Hs. unfold MEMMOVE. destruct (direction r d s _ Ha Hd Hs) as [Hf Hb].
  destruct (Z.leb_spec (Z.of_nat len) (uint64 (d - s))) as [H|H]; destruct (Z.leb_spec 16 (Z.of_nat len)).
  - by apply MEMMOVE_forward; auto.
  - by apply bytes_forward; auto.
  - by apply MEMMOVE_backward; auto.
  - specialize (Hb H). rewrite bytes_backward; rewrite ?Z.add_simpl_r; done || lia.
Qed.

Lemma get_put_same r a l : fits r a (Z.of_nat (length l)) → get (put r a l) a (Z.of_nat (length l)) = l.
Proof.
  intros (?&?&?). unfold get, put. cbn [rbase rbytes]. rewrite Nat2Z.id.
  rewrite drop_app_length' by (rewrite length_take; lia). by apply take_app_length'.
Qed.

(** ** Theorem *)

(** C25: [memmove] returns for every alignment, length and overlap of source and
    destination: afterwards the destination holds the bytes the source held
    before the call, and no other byte of the region has changed. *)
Theorem memmove_equiv r dest src len :
  mapping r → addressable r → fits r dest (Z.of_nat len) → fits r src (Z.of_nat len) →
  ∃ r', MEMMOVE r dest src len = Ok r' ∧ rbase r' = rbase r ∧ length (rbytes r') = length (rbytes r) ∧
    get r' dest (Z.of_nat len) = get r src (Z.of_nat len) ∧
    ∀ a n, fits r a n → a + n ≤ dest ∨ dest + Z.of_nat len ≤ a → get r' a n = get r a n.
Proof.
  intros Hm Ha Hd Hs. exists (moved r dest src (Z.of_nat len)). split; [by apply MEMMOVE_moved|].
  assert (Z.of_nat (length (get r src (Z.of_nat len))) = Z.of_nat len) as Hl by (rewrite get_length by done; lia).
  unfold moved. split; [done|]. split; [apply put_length; by rewrite Hl|]. split.
  - rewrite <-Hl at 2. apply get_put_same. by rewrite Hl.
  - intros a n Hf Ho. by apply get_put_outside; rewrite ?Hl.
Qed.

(** Forty bytes moved up by three within one page, onto themselves. *)
Definition page : region := Region 4096 (Z.of_nat <$> seq 0 64).

Lemma memmove_equiv_witness :
  ∃ r', MEMMOVE page 4104 4101 40 = Ok r' ∧ get r' 4104 40 = Z.of_nat <$> seq 5 40 ∧ get r' 4100 4 = [4; 5; 6; 7].
Proof.
  destruct (memmove_equiv page 4104 4101 40) as (r' & Hr & _ & _ & Hg & Ho).
  - split; [|split; reflexivity]. repeat constructor; vm_compute; discriminate.
  - vm_compute. split; discriminate.
  - vm_compute. split_and!; discriminate.
  - vm_compute. split_and!; discriminate.
  - exists r'. split; [exact Hr|]. split; [etransitivity; [exact Hg|vm_compute; reflexivity]|].
    etransitivity; [apply Ho; [vm_compute; split_and!; discriminate|left; vm_compute; discriminate]|vm_compute; reflexivity].
Defined.
