(* ===== verification/Machine.v ===== *)
(** * The machine the program runs on

    The process state of the server ([World]): its file system view, its
    working directory, [errno], the global variables of its compilation units
    (log.c, util.c, recordData.c), and the record of what it did to the
    outside (sends, connections, output).  What the operating system decides
    (the clock, the results of socket calls, refused file operations, [fork])
    is the parameter [Env], indexed by the number of system calls made so far.

    The C library calls the program's own files make on files and time are
    modelled here: [fopen], [fgets], [fseek], [fread], [fwrite], [access],
    [mkdir], [creat], [remove], [getcwd], [time], [strftime]. *)

From S2P Require Import Prelude CString.

(** ** Structures of the source that are global state *)

(** log.h [LOGLEVEL] *)
Definition NONE : Z := 0.
Definition INFO : Z := 1.
Definition DEBUG : Z := 2.
Definition WARN : Z := 3.
Definition ERROR : Z := 4.
Definition ALL : Z := 255.

Definition MAXFILEPATH : nat := 512.
Definition MAXLOGTIME : nat := 20.

(** Paths resolved from the root: the list of their components. *)
Abbreviation path := (list (list Z)).

(** log.h [LOG]; an open stream is the path it appends to. *)
Record LOG := mkLOG {
  logtime : list Z;
  log_filepath : list Z;
  logfile : option path;
}.

(** log.h [LOGSET] *)
Record LOGSET := mkLOGSET {
  filepath : list Z;
  maxfilelen : Z;
  loglevel : Z;
}.

(** util.h [DISTRIBUTE_TCP_INFO] *)
Definition INFO_LENGTH : nat := 128.
Record DISTRIBUTE_TCP_INFO := mkTCP {
  address : list Z;
  acceptedAddress : list Z;
  port : Z;
  acceptfd : Z;
  clientNum : Z;
  flag : Z;
}.

(** ConfigFile.h *)
Definition EXIT_FAIL_CODE : Z := -1.
Definition EXIT_SUCCESS_CODE : Z := 0.
Definition BUFFERSIZE : nat := 1024.
Definition CONFIGFILE : list Z := lit "/engine.conf".

(** ** What the process does to the outside *)
Inductive event :=
| EvPrint (s : list Z)
| EvSocket (fd : Z)
| EvBind (fd s_addr sin_port res : Z)
| EvListen (fd backlog res : Z)
| EvConnect (fd s_addr sin_port res : Z)
| EvSend (fd : Z) (data : list Z) (res : Z)
| EvClose (fd : Z)
| EvSleep (usec : Z).

(** ** The process state *)
Record World := mkWorld {
  w_files : gmap path (list Z);           (* regular files and their contents *)
  w_dirs : gset path;                     (* directories *)
  w_cwd : list Z;                         (* the working directory, absolute *)
  w_nsys : nat;                           (* system calls made so far *)
  w_errno : Z;                            (* errno *)
  w_logsetting : LOGSET;                  (* log.c: LOGSET logsetting *)
  w_loging : LOG;                         (* log.c: LOG loging *)
  w_log_mutex : bool;                     (* log.c: log_mutex is held *)
  w_uuid : Z;                             (* util.c: unsigned int uuid *)
  w_tcp : list DISTRIBUTE_TCP_INFO;       (* util.c: *distributeTcpInfo *)
  w_events : list event;                  (* what the process did to the outside, oldest first *)
}.

Definition set_files (v : gmap path (list Z)) (w : World) : World :=
  mkWorld v (w_dirs w) (w_cwd w) (w_nsys w) (w_errno w) (w_logsetting w) (w_loging w) (w_log_mutex w) (w_uuid w) (w_tcp w) (w_events w).
Definition set_dirs (v : gset path) (w : World) : World :=
  mkWorld (w_files w) v (w_cwd w) (w_nsys w) (w_errno w) (w_logsetting w) (w_loging w) (w_log_mutex w) (w_uuid w) (w_tcp w) (w_events w).
Definition set_cwd (v : list Z) (w : World) : World :=
  mkWorld (w_files w) (w_dirs w) v (w_nsys w) (w_errno w) (w_logsetting w) (w_loging w) (w_log_mutex w) (w_uuid w) (w_tcp w) (w_events w).
Definition set_nsys (v : nat) (w : World) : World :=
  mkWorld (w_files w) (w_dirs w) (w_cwd w) v (w_errno w) (w_logsetting w) (w_loging w) (w_log_mutex w) (w_uuid w) (w_tcp w) (w_events w).
Definition set_errno (v : Z) (w : World) : World :=
  mkWorld (w_files w) (w_dirs w) (w_cwd w) (w_nsys w) v (w_logsetting w) (w_loging w) (w_log_mutex w) (w_uuid w) (w_tcp w) (w_events w).
Definition set_logsetting (v : LOGSET) (w : World) : World :=
  mkWorld (w_files w) (w_dirs w) (w_cwd w) (w_nsys w) (w_errno w) v (w_loging w) (w_log_mutex w) (w_uuid w) (w_tcp w) (w_events w).
Definition set_loging (v : LOG) (w : World) : World :=
  mkWorld (w_files w) (w_dirs w) (w_cwd w) (w_nsys w) (w_errno w) (w_logsetting w) v (w_log_mutex w) (w_uuid w) (w_tcp w) (w_events w).
Definition set_log_mutex (v : bool) (w : World) : World :=
  mkWorld (w_files w) (w_dirs w) (w_cwd w) (w_nsys w) (w_errno w) (w_logsetting w) (w_loging w) v (w_uuid w) (w_tcp w) (w_events w).
Definition set_uuid (v : Z) (w : World) : World :=
  mkWorld (w_files w) (w_dirs w) (w_cwd w) (w_nsys w) (w_errno w) (w_logsetting w) (w_loging w) (w_log_mutex w) v (w_tcp w) (w_events w).
Definition set_tcp (v : list DISTRIBUTE_TCP_INFO) (w : World) : World :=
  mkWorld (w_files w) (w_dirs w) (w_cwd w) (w_nsys w) (w_errno w) (w_logsetting w) (w_loging w) (w_log_mutex w) (w_uuid w) v (w_events w).
Definition set_events (v : list event) (w : World) : World :=
  mkWorld (w_files w) (w_dirs w) (w_cwd w) (w_nsys w) (w_errno w) (w_logsetting w) (w_loging w) (w_log_mutex w) (w_uuid w) (w_tcp w) v.

(** Code of the program runs in this monad. *)
Abbreviation IO := (M World).

(** ** The operating system *)

(** The broken-down time of [localtime]. *)
Record tm := mkTm {
  tm_sec : Z; tm_min : Z; tm_hour : Z;
  tm_mday : Z; tm_mon : Z; tm_year : Z;
}.

(** An accepted connection: descriptor, peer address and peer port. *)
Record conn := mkConn {
  c_fd : Z;
  c_addr : Z * Z * Z * Z;
  c_port : Z;
}.

(** What [qsort] asks the system about memory: [sysconf] and [malloc]. *)
Record memory := Memory { phys_pages : Z; pagesize : Z; malloc_ok : Z → bool }.

(** The answers of the operating system; the argument [n : nat] is the number
    of system calls made before this one. *)
Class Env := {
  env_clock : nat → Z;                  (* time (NULL) *)
  env_localtime : Z → tm;
  env_home : option (list Z);           (* getenv ("HOME") *)
  env_strerror : Z → list Z;
  env_io_fail : nat → option Z;         (* a file operation or allocation is refused with this errno *)
  env_dirorder : path → list path → list path;  (* the order in which a directory lists its entries *)
  env_socket : nat → Z;
  env_setsockopt : nat → Z;
  env_bind : nat → Z;
  env_listen : nat → Z;
  env_accept : nat → conn;
  env_connect : nat → Z;
  env_send : nat → list Z → Z * Z;      (* result and errno *)
  env_recv : nat → Z + list Z;          (* errno, or the bytes that arrived *)
  env_fork : nat → Z;
  env_pthread_create : nat → Z;
  env_memory : nat → memory;
}.

(** errno values *)
Definition ENOENT : Z := 2.
Definition ENOMEM : Z := 12.
Definition EINTR : Z := 4.
Definition EAGAIN : Z := 11.
Definition EWOULDBLOCK : Z := 11.
Definition EEXIST : Z := 17.
Definition ENOTEMPTY : Z := 39.

(** ** Paths *)

Fixpoint split_on (c : Z) (s : list Z) : list (list Z) :=
  match s with
  | [] => [[]]
  | x :: s' =>
      if x =? c then [] :: split_on c s'
      else match split_on c s' with
           | [] => [[x]]
           | p :: ps => (x :: p) :: ps
           end
  end.

Definition path_step (acc : path) (p : list Z) : path :=
  if beq p [] || beq p (lit ".") then acc
  else if beq p (lit "..") then removelast acc
  else acc ++ [p].

(** The file a path names, seen from the working directory [cwd]. *)
Definition resolve (cwd s : list Z) : path :=
  let base := match s with
              | c :: _ => if c =? chr "/" then [] else foldl path_step [] (split_on (chr "/") cwd)
              | [] => foldl path_step [] (split_on (chr "/") cwd)
              end in
  foldl path_step base (split_on (chr "/") s).

Definition path_of (w : World) (s : list Z) : path := resolve (w_cwd w) s.

Definition path_exists (w : World) (p : path) : bool :=
  bool_decide (p ∈ w_dirs w) || bool_decide (is_Some (w_files w !! p)).

(** A directory entry may be created at [p]. *)
Definition can_create (w : World) (p : path) : bool :=
  bool_decide (p ≠ []) && bool_decide (removelast p ∈ w_dirs w) &&
  negb (bool_decide (p ∈ w_dirs w)).

Definition has_children (w : World) (p : path) : bool :=
  existsb (λ q, negb (bool_decide (q = p)) && bool_decide (removelast q = p))
    (elements (w_dirs w) ++ elements (dom (w_files w))).

Lemma split_on_app c a b : split_on c (a ++ c :: b) = split_on c a ++ split_on c b.
Proof.
  induction a as [|x a IH]; simpl; [by rewrite Z.eqb_refl|].
  destruct (x =? c); simpl; [by rewrite IH|].
  rewrite IH. destruct (split_on c a) eqn:E; [|done].
  exfalso. destruct a as [|y a]; simpl in E; [done|].
  destruct (y =? c); [done|]. by destruct (split_on c a).
Qed.

Lemma split_on_none c s : c ∉ s → split_on c s = [s].
Proof.
  induction s as [|x s IH]; intros Hc; simpl; [done|].
  apply not_elem_of_cons in Hc as [Hx Hc].
  destruct (Z.eqb_spec x c); [congruence|]. by rewrite IH.
Qed.

(** A name that is a real component: no slash, not empty, not a dot name. *)
Definition plain_name (s : list Z) : Prop :=
  (chr "/" ∉ s) ∧ s ≠ [] ∧ s ≠ lit "." ∧ s ≠ lit "..".

(** A path ending in a plain name resolves to a file of that name. *)
Lemma resolve_last cwd a name :
  plain_name name → ∃ d, resolve cwd (a ++ chr "/" :: name) = d ++ [name].
Proof.
  intros (Hs & He & H1 & H2). unfold resolve. rewrite split_on_app, (split_on_none _ name) by done.
  rewrite foldl_app. simpl. unfold path_step at 1.
  apply beq_false in He, H1, H2. rewrite He, H1, H2. simpl. eauto.
Qed.

(** ** System calls *)

Section Sys.
Context `{Env}.

Definition tick : IO nat := λ w, Ret (w_nsys w) (set_nsys (S (w_nsys w)) w).
Definition set_err (e : Z) : IO unit := modify (set_errno e).
Definition emit (e : event) : IO unit := λ w, Ret tt (set_events (w_events w ++ [e]) w).

Definition time : IO Z := n ← tick; mret (env_clock n).
Definition getcwd : IO (list Z) := gets w_cwd.
Definition printf (s : list Z) : IO unit := emit (EvPrint s).
Definition strerror_errno : IO (list Z) := e ← gets w_errno; mret (env_strerror e).

(** [access (s, F_OK)] *)
Definition access (s : list Z) : IO Z :=
  ok ← gets (λ w, path_exists w (path_of w s));
  if (ok : bool) then mret 0 else set_err ENOENT ;; mret (-1).

Definition mkdir (s : list Z) : IO Z :=
  n ← tick;
  p ← gets (λ w, path_of w s);
  ex ← gets (λ w, path_exists w p);
  ok ← gets (λ w, can_create w p);
  match env_io_fail n with
  | Some e => set_err e ;; mret (-1)
  | None =>
      if (ex : bool) then set_err EEXIST ;; mret (-1)
      else if (ok : bool) then modify (λ w, set_dirs ({[p]} ∪ w_dirs w) w) ;; mret 0
      else set_err ENOENT ;; mret (-1)
  end.

(** Open for writing: [trunc] empties the file, otherwise it is created only
    when missing.  [None] is a failed open. *)
Definition open_write (trunc : bool) (s : list Z) : IO (option path) :=
  n ← tick;
  p ← gets (λ w, path_of w s);
  ok ← gets (λ w, can_create w p);
  match env_io_fail n with
  | Some e => set_err e ;; mret None
  | None =>
      if (ok : bool) then
        modify (λ w,
          let old := default [] (w_files w !! p) in
          set_files (<[p := if trunc then [] else old]> (w_files w)) w) ;;
        mret (Some p)
      else set_err ENOENT ;; mret None
  end.

(** The open succeeds; otherwise it fails with this errno. *)
Definition open_ok (w : World) (s : list Z) : bool :=
  match env_io_fail (w_nsys w) with
  | Some _ => false
  | None => can_create w (path_of w s)
  end.
Definition open_errno (w : World) : Z := default ENOENT (env_io_fail (w_nsys w)).

Lemma open_write_eq trunc s w :
  open_write trunc s w =
  if open_ok w s then
    Ret (Some (path_of w s))
      (set_files (<[path_of w s := if trunc then [] else default [] (w_files w !! path_of w s)]>
                    (w_files w)) (set_nsys (S (w_nsys w)) w))
  else Ret None (set_errno (open_errno w) (set_nsys (S (w_nsys w)) w)).
Proof.
  unfold open_ok, open_errno, open_write, tick, gets, mbind, M_bind.
  change (can_create (set_nsys (S (w_nsys w)) w) (path_of (set_nsys (S (w_nsys w)) w) s))
    with (can_create w (path_of w s)).
  destruct (env_io_fail (w_nsys w)) as [e|]; [done|].
  by destruct (can_create w (path_of w s)).
Qed.

(** Whether [mkdir] succeeds, and its errno otherwise. *)
Definition mkdir_ok (w : World) (s : list Z) : bool :=
  match env_io_fail (w_nsys w) with
  | Some _ => false
  | None => negb (path_exists w (path_of w s)) && can_create w (path_of w s)
  end.
Definition mkdir_errno (w : World) (s : list Z) : Z :=
  default (if path_exists w (path_of w s) then EEXIST else ENOENT) (env_io_fail (w_nsys w)).

Lemma mkdir_eq s w :
  mkdir s w =
  if mkdir_ok w s
  then Ret 0 (set_dirs ({[path_of w s]} ∪ w_dirs w) (set_nsys (S (w_nsys w)) w))
  else Ret (-1) (set_errno (mkdir_errno w s) (set_nsys (S (w_nsys w)) w)).
Proof.
  unfold mkdir_ok, mkdir_errno, mkdir, tick, gets, mbind, M_bind.
  change (path_of (set_nsys (S (w_nsys w)) w) s) with (path_of w s).
  change (path_exists (set_nsys (S (w_nsys w)) w)) with (path_exists w).
  change (can_create (set_nsys (S (w_nsys w)) w)) with (can_create w).
  destruct (env_io_fail (w_nsys w)) as [e|]; [done|].
  destruct (path_exists w (path_of w s)); [done|].
  by destruct (can_create w (path_of w s)).
Qed.

Lemma access_eq s w :
  access s w = if path_exists w (path_of w s) then Ret 0 w else Ret (-1) (set_errno ENOENT w).
Proof. unfold access, gets, mbind, M_bind. by destruct (path_exists w (path_of w s)). Qed.

(** Append to an open file.  The write is taken to succeed: neither util.c nor log.c
    looks at the result, and what a failing write leaves is the subject of
    [StdioWrite]. *)
Definition append_file (p : path) (d : list Z) (w : World) : World :=
  set_files (<[p := default [] (w_files w !! p) ++ d]> (w_files w)) w.
Definition fwrite (p : path) (data : list Z) : IO unit := modify (append_file p data).

(** [creat]: a descriptor, or -1. *)
Definition creat (s : list Z) : IO Z :=
  r ← open_write true s;
  match r with Some _ => mret 3 | None => mret (-1) end.

Definition remove (s : list Z) : IO Z :=
  n ← tick;
  p ← gets (λ w, path_of w s);
  w ← gets id;
  match env_io_fail n with
  | Some e => set_err e ;; mret (-1)
  | None =>
      if bool_decide (is_Some (w_files w !! p)) then
        modify (λ w, set_files (delete p (w_files w)) w) ;; mret 0
      else if bool_decide (p ∈ w_dirs w) then
        if has_children w p then set_err ENOTEMPTY ;; mret (-1)
        else modify (λ w, set_dirs (w_dirs w ∖ {[p]}) w) ;; mret 0
      else set_err ENOENT ;; mret (-1)
  end.

(** ** Input streams *)

Record FILE := mkFILE { f_data : list Z; f_pos : nat }.

(** [fopen (s, "r")]: a stream over the file's contents, NULL if there is none.  A
    file that exists is taken to be readable: permissions and limits on open
    files are not part of [World]. *)
Definition fopen_read (s : list Z) : IO (option FILE) :=
  c ← gets (λ w, w_files w !! path_of w s);
  match c with
  | Some d => mret (Some (mkFILE d 0))
  | None => set_err ENOENT ;; mret None
  end.

(** At most [n] bytes, up to and including the first newline. *)
Fixpoint line_of (n : nat) (l : list Z) : list Z :=
  match n, l with
  | O, _ | _, [] => []
  | S n', c :: l' => if c =? 10 then [c] else c :: line_of n' l'
  end.

(** [fgets (buf, n, f)]: the new contents of [buf], or NULL at end of file. *)
Definition fgets (buf : list Z) (n : nat) (f : FILE) : res (option (list Z) * FILE) :=
  let l := line_of (n - 1) (drop (f_pos f) (f_data f)) in
  match l with
  | [] => Ok (None, f)
  | _ =>
      buf' ← blit buf 0 (l ++ [0]);
      Ok (Some buf', mkFILE (f_data f) (f_pos f + length l))
  end.

(** ** Sockets and processes *)

Definition socket : IO Z :=
  n ← tick; emit (EvSocket (env_socket n)) ;; mret (env_socket n).
Definition setsockopt (fd : Z) : IO Z := n ← tick; mret (env_setsockopt n).
Definition bind_ (fd s_addr sin_port : Z) : IO Z :=
  n ← tick; emit (EvBind fd s_addr sin_port (env_bind n)) ;; mret (env_bind n).
Definition listen (fd backlog : Z) : IO Z :=
  n ← tick; emit (EvListen fd backlog (env_listen n)) ;; mret (env_listen n).
Definition accept (fd : Z) : IO conn := n ← tick; mret (env_accept n).
Definition connect (fd s_addr sin_port : Z) : IO Z :=
  n ← tick; emit (EvConnect fd s_addr sin_port (env_connect n)) ;; mret (env_connect n).
Definition close (fd : Z) : IO unit := emit (EvClose fd).
Definition usleep (usec : Z) : IO unit := emit (EvSleep usec).
Definition fork : IO Z := n ← tick; mret (env_fork n).

(** [send (fd, data, length, 0)]: the number of bytes taken, or -1. *)
Definition send (fd : Z) (data : list Z) : IO Z :=
  n ← tick;
  let r := env_send n data in
  emit (EvSend fd data r.1) ;;
  (if r.1 =? -1 then set_err r.2 else mret tt) ;;
  mret r.1.

(** [recv (fd, buf, max, 0)]: -1, or the bytes stored in [buf], at most [max]. *)
Definition recv (fd max : Z) : IO (Z * list Z) :=
  n ← tick;
  match env_recv n with
  | inl e => set_err e ;; mret (-1, [])
  | inr data =>
      let data := if decide (Z.of_nat (length data) ≤ max) then data else take (Z.to_nat max) data in
      mret (Z.of_nat (length data), data)
  end.

(** [distributeTcpInfo[i]] *)
Definition tcp_at (i : Z) : IO DISTRIBUTE_TCP_INFO :=
  t ← gets w_tcp;
  match t !! Z.to_nat i with
  | Some x => if 0 <=? i then mret x else lift (Bad OutOfBounds)
  | None => lift (Bad OutOfBounds)
  end.
Definition tcp_set (i : Z) (x : DISTRIBUTE_TCP_INFO) : IO unit :=
  modify (λ w, set_tcp (<[Z.to_nat i := x]> (w_tcp w)) w).

(** [fseek (f, 0, SEEK_SET)] *)
Definition rewind (f : FILE) : FILE := mkFILE (f_data f) 0.

Lemma bind_time {B} (f : Z → IO B) w :
  (time ≫= f) w = f (env_clock (w_nsys w)) (set_nsys (S (w_nsys w)) w).
Proof. done. Qed.

Lemma bind_set_err {B} e (f : unit → IO B) w : (set_err e ≫= f) w = f tt (set_errno e w).
Proof. done. Qed.
Lemma bind_printf {B} s (f : unit → IO B) w :
  (printf s ≫= f) w = f tt (set_events (w_events w ++ [EvPrint s]) w).
Proof. done. Qed.

(** ** Calendar output *)

(** The [strftime] conversions the program uses. *)
Definition strftime_conv (c : Z) (t : tm) : list Z :=
  if c =? chr "Y" then show_int (tm_year t + 1900)
  else if c =? chr "m" then show_pad 2 (tm_mon t + 1)
  else if c =? chr "d" then show_pad 2 (tm_mday t)
  else [chr "%"; c].
Fixpoint strftime_body (fmt : list Z) (t : tm) : list Z :=
  match fmt with
  | [] => []
  | c :: fmt' =>
      if c =? chr "%" then
        match fmt' with
        | [] => [c]
        | f :: fmt'' => strftime_conv f t ++ strftime_body fmt'' t
        end
      else c :: strftime_body fmt' t
  end.

(** [strftime (dst, max, fmt, t)]: contents are indeterminate when the result
    does not fit. *)
Definition strftime (dst : list Z) (max : nat) (fmt : list Z) (t : tm) : res (list Z) :=
  let s := strftime_body fmt t in
  if decide (length s < max)%nat then blit dst 0 (s ++ [0]) else Bad Unspecified.

End Sys.

#[export] Hint Rewrite @bind_time @bind_set_err @bind_printf : io.

(** ** The calendar's promise to its users *)

(** Field ranges of a broken-down time with a four-digit year. *)
Definition tm_ok (t : tm) : Prop :=
  0 ≤ tm_sec t ≤ 60 ∧ 0 ≤ tm_min t ≤ 59 ∧ 0 ≤ tm_hour t ≤ 23 ∧
  1 ≤ tm_mday t ≤ 31 ∧ 0 ≤ tm_mon t ≤ 11 ∧ -900 ≤ tm_year t ≤ 8099.

(** Every local time the process observes is in range. *)
Class Calendar `{Env} : Prop := cal_ok : ∀ n, tm_ok (env_localtime (env_clock n)).

Lemma show_pad2 z : 0 ≤ z ≤ 99 → length (show_pad 2 z) = 2%nat ∧ all_digits (show_pad 2 z).
Proof.
  intros Hz. unfold show_pad. rewrite Z.abs_eq by lia.
  destruct (Z.ltb_spec z 0); [lia|].
  pose proof (show_nat_length z 2 ltac:(simpl; lia) ltac:(lia)) as [[??] _].
  destruct (show_nat_spec z) as (Hd & _ & _); [lia|].
  split; [len|]. apply Forall_app; split; [|done]. apply Forall_replicate. by vm_compute.
Qed.

Lemma show_year y : 1000 ≤ y ≤ 9999 → length (show_int y) = 4%nat ∧ all_digits (show_int y).
Proof.
  intros Hy. unfold show_int. destruct (Z.ltb_spec y 0); [lia|].
  pose proof (show_nat_length y 4 ltac:(simpl; lia) ltac:(lia)) as [_ Hl].
  destruct (show_nat_spec y) as (Hd & _ & _); [lia|]. split; [apply Hl; simpl; lia|done].
Qed.

Definition day_text (t : tm) : list Z :=
  show_int (tm_year t + 1900) ++ lit "-" ++ show_pad 2 (tm_mon t + 1) ++ lit "-" ++
  show_pad 2 (tm_mday t).
Definition daydir_text (t : tm) : list Z :=
  show_int (tm_year t + 1900) ++ show_pad 2 (tm_mon t + 1) ++ show_pad 2 (tm_mday t).

Lemma strftime_day t : strftime_body (lit "%Y-%m-%d") t = day_text t.
Proof.
  unfold day_text. rewrite <-(app_nil_r (show_pad 2 (tm_mday t))). reflexivity.
Qed.
Lemma strftime_daydir t : strftime_body (lit "%Y%m%d") t = daydir_text t.
Proof.
  unfold daydir_text. rewrite <-(app_nil_r (show_pad 2 (tm_mday t))). reflexivity.
Qed.

Lemma day_text_ok t : tm_ok t → length (day_text t) = 10%nat ∧ str_ok (day_text t).
Proof.
  intros (_ & _ & _ & ? & ? & ?). unfold day_text.
  destruct (show_year (tm_year t + 1900)) as [L1 D1]; [lia|].
  destruct (show_pad2 (tm_mon t + 1)) as [L2 D2]; [lia|].
  destruct (show_pad2 (tm_mday t)) as [L3 D3]; [lia|].
  apply digits_str_ok in D1, D2, D3. split.
  - rewrite !length_app, L1, L2, L3. done.
  - repeat (apply Forall_app; split; [done || (repeat constructor; by vm_compute)|]). done.
Qed.

Lemma daydir_text_ok t :
  tm_ok t → length (daydir_text t) = 8%nat ∧ all_digits (daydir_text t).
Proof.
  intros (_ & _ & _ & ? & ? & ?). unfold daydir_text.
  destruct (show_year (tm_year t + 1900)) as [L1 D1]; [lia|].
  destruct (show_pad2 (tm_mon t + 1)) as [L2 D2]; [lia|].
  destruct (show_pad2 (tm_mday t)) as [L3 D3]; [lia|]. split.
  - rewrite !length_app, L1, L2, L3. done.
  - by repeat (apply Forall_app; split).
Qed.

(** [strftime] into a zeroed array with the limit 11. *)
Lemma strftime_zeros n fmt t :
  (length (strftime_body fmt t) < 11)%nat → (11 ≤ n)%nat →
  strftime (zeros n) 11 fmt t =
  Ok (strftime_body fmt t ++ replicate (n - length (strftime_body fmt t)) 0).
Proof.
  intros Hl Hn. unfold strftime. rewrite decide_True by done.
  rewrite blit_0 by (unfold zeros; len). unfold zeros. rewrite drop_replicate, length_app.
  rewrite <-app_assoc. cbn [length app]. do 2 f_equal.
  by replace (n - length (strftime_body fmt t))%nat
    with (S (n - (length (strftime_body fmt t) + 1)))%nat by lia.
Qed.

(** ** A concrete machine *)

(** A cooperative operating system: the clock advances one second per system
    call, every call succeeds, sends take all bytes. *)
Definition sample_env : Env := {|
  env_clock n := 1667750400 + Z.of_nat n;
  env_localtime _ := mkTm 0 30 10 6 10 122;
  env_home := Some (lit "/root");
  env_strerror _ := lit "error";
  env_io_fail _ := None;
  env_dirorder _ l := l;
  env_socket n := 5 + Z.of_nat n;
  env_setsockopt _ := 0;
  env_bind _ := 0;
  env_listen _ := 0;
  env_accept n := mkConn (100 + Z.of_nat n) (192, 168, 30, 153) 40000;
  env_connect _ := 0;
  env_send _ d := (Z.of_nat (length d), 0);
  env_recv _ := inr [];
  env_fork _ := 1;
  env_pthread_create _ := 0;
  env_memory _ := Memory 262144 4096 (λ _, true);
|}.

Definition zero_LOGSET : LOGSET := mkLOGSET (zeros MAXFILEPATH) 0 0.
Definition zero_LOG : LOG := mkLOG (zeros MAXLOGTIME) (zeros MAXFILEPATH) None.

#[export] Instance sample_calendar : @Calendar sample_env.
Proof. intros n. unfold tm_ok. cbn. lia. Qed.

(** A fresh process: zeroed globals, working directory [/srv], these files. *)
Definition boot (files : gmap path (list Z)) (dirs : gset path) : World :=
  mkWorld files dirs (lit "/srv") 0 0 zero_LOGSET zero_LOG false 0 [] [].
