(* ===== verification/OffTime.v ===== *)
(** * glibc: the calendar

    [__offtime] of [glibc-2.27/time/offtime.c], the conversion of seconds to
    a broken-down time under [localtime], and [ydhms_diff] of
    [time/mktime.c], the conversion back under [mktime].

    The theorems: the search for the year ends after a few rounds for every
    64-bit time, every field is in its range, the fields name the instant they
    came from, [ydhms_diff] inverts the conversion, and a year that does not
    fit an [int] is reported.  [time_t] arithmetic is on [Z]: no intermediate
    value leaves 64 bits for a 64-bit time and an offset of at most a day. *)

From S2P Require Import Prelude Machine.

(** ** Calendar arithmetic *)

Definition SECS_PER_HOUR : Z := 60 * 60.
Definition SECS_PER_DAY : Z := SECS_PER_HOUR * 24.

(** [__isleap (year)]; [Z.quot] and [Z.rem] are C's [/] and [%]. *)
Definition isleap (y : Z) : bool :=
  (Z.rem y 4 =? 0) && (negb (Z.rem y 100 =? 0) || (Z.rem y 400 =? 0)).

Definition DIV (a b : Z) : Z := Z.quot a b - (if Z.rem a b <? 0 then 1 else 0).
Definition LEAPS_THRU_END_OF (y : Z) : Z := DIV y 4 - DIV y 100 + DIV y 400.

Definition mon_yday (leap : bool) : list Z :=
  if leap then [0; 31; 60; 91; 121; 152; 182; 213; 244; 274; 305; 335; 366]
  else [0; 31; 59; 90; 120; 151; 181; 212; 243; 273; 304; 334; 365].

(** ** [__offtime] *)

(** [struct tm] with the two fields the program does not read. *)
Record full_tm := FullTm { ft_tm : tm; ft_wday : Z; ft_yday : Z }.

Fixpoint rem_up (fuel : nat) (rem days : Z) : res (Z * Z) :=
  match fuel with
  | O => Bad Unspecified
  | S fuel' => if rem <? 0 then rem_up fuel' (rem + SECS_PER_DAY) (days - 1) else Ok (rem, days)
  end.
Fixpoint rem_down (fuel : nat) (rem days : Z) : res (Z * Z) :=
  match fuel with
  | O => Bad Unspecified
  | S fuel' =>
      if SECS_PER_DAY <=? rem then rem_down fuel' (rem - SECS_PER_DAY) (days + 1)
      else Ok (rem, days)
  end.

(** "Guess a corrected year, assuming 365 days per year." *)
Fixpoint year_loop (fuel : nat) (days y : Z) : res (Z * Z) :=
  match fuel with
  | O => Bad Unspecified
  | S fuel' =>
      if (days <? 0) || ((if isleap y then 366 else 365) <=? days) then
        let yg := y + Z.quot days 365 - (if Z.rem days 365 <? 0 then 1 else 0) in
        year_loop fuel'
          (days - ((yg - y) * 365 + LEAPS_THRU_END_OF (yg - 1) - LEAPS_THRU_END_OF (y - 1))) yg
      else Ok (days, y)
  end.

(** [for (y = 11; days < (long int) ip[y]; --y) continue;] *)
Fixpoint month_loop (y : nat) (days : Z) (ip : list Z) : res nat :=
  match ip !! y with
  | None => Bad OutOfBounds
  | Some first =>
      if days <? first then
        match y with O => Bad OutOfBounds | S y' => month_loop y' days ip end
      else Ok y
  end.

Inductive time_error := EOVERFLOW.

Definition offtime (t offset : Z) : res (time_error + full_tm) :=
  let days := Z.quot t SECS_PER_DAY in
  let rem := Z.rem t SECS_PER_DAY in
  let rem := rem + offset in
  let fuel := S (S (Z.to_nat (Z.abs rem / SECS_PER_DAY))) in
  r ← rem_up fuel rem days;
  let '(rem, days) := r in
  r ← rem_down fuel rem days;
  let '(rem, days) := r in
  let tm_hour := Z.quot rem SECS_PER_HOUR in
  let rem := Z.rem rem SECS_PER_HOUR in
  let tm_min := Z.quot rem 60 in
  let tm_sec := Z.rem rem 60 in
  let tm_wday := Z.rem (4 + days) 7 in
  let tm_wday := if tm_wday <? 0 then tm_wday + 7 else tm_wday in
  r ← year_loop 7 days 1970;
  let '(days, y) := r in
  let tm_year := int32 (y - 1900) in
  if negb (tm_year =? y - 1900) then Ok (inl EOVERFLOW)
  else
    let tm_yday := days in
    m ← month_loop 11 days (mon_yday (isleap y));
    first ← (match mon_yday (isleap y) !! m with Some f => Ok f | None => Bad OutOfBounds end);
    Ok (inr (FullTm (mkTm tm_sec tm_min tm_hour (days - first + 1) (Z.of_nat m) tm_year)
               tm_wday tm_yday)).

(** ** [ydhms_diff] of [mktime.c] *)

Definition SHR (a b : Z) : Z := Z.shiftr a b.
Definition TM_YEAR_BASE : Z := 1900.

(** [leapyear]: leap years by the number of years since 1900. *)
Definition leapyear (year : Z) : bool :=
  (Z.land year 3 =? 0) &&
  (negb (Z.rem year 100 =? 0) ||
   (Z.land (Z.quot year 100) 3 =? Z.land (- Z.quot TM_YEAR_BASE 100) 3)).

Definition ydhms_diff (year1 yday1 hour1 min1 sec1 year0 yday0 hour0 min0 sec0 : Z) : Z :=
  let nil4 y := if Z.land y 3 =? 0 then 1 else 0 in
  let a4 := SHR year1 2 + SHR TM_YEAR_BASE 2 - nil4 year1 in
  let b4 := SHR year0 2 + SHR TM_YEAR_BASE 2 - nil4 year0 in
  let a100 := Z.quot a4 25 - (if Z.rem a4 25 <? 0 then 1 else 0) in
  let b100 := Z.quot b4 25 - (if Z.rem b4 25 <? 0 then 1 else 0) in
  let a400 := SHR a100 2 in
  let b400 := SHR b100 2 in
  let intervening_leap_days := (a4 - b4) - (a100 - b100) + (a400 - b400) in
  let years := year1 - year0 in
  let days := 365 * years + yday1 - yday0 + intervening_leap_days in
  let hours := 24 * days + hour1 - hour0 in
  let minutes := 60 * hours + min1 - min0 in
  60 * minutes + sec1 - sec0.

(** ** Leap years *)

Lemma DIV_div a b : 0 < b → DIV a b = a / b.
Proof.
  intros Hb. unfold DIV. pose proof (Z.quot_rem a b ltac:(lia)) as E.
  apply (Z.div_unique_pos a b _ (if Z.rem a b <? 0 then Z.rem a b + b else Z.rem a b)).
  - pose proof (Z.rem_bound_abs a b ltac:(lia)). destruct (Z.ltb_spec (Z.rem a b) 0); lia.
  - destruct (Z.rem a b <? 0); lia.
Qed.

Lemma rem_zero a b : 0 < b → (Z.rem a b =? 0) = (a `mod` b =? 0).
Proof.
  intros Hb. apply eq_true_iff_eq. rewrite !Z.eqb_eq.
  rewrite Z.rem_divide, Z.mod_divide by lia. done.
Qed.

Lemma isleap_mod y : isleap y = (y `mod` 4 =? 0) && (negb (y `mod` 100 =? 0) || (y `mod` 400 =? 0)).
Proof. unfold isleap. by rewrite !rem_zero by lia. Qed.

(** Leap days up to the end of a year, by floor division. *)
Definition leaps (y : Z) : Z := y / 4 - y / 100 + y / 400.

Lemma LEAPS_leaps y : LEAPS_THRU_END_OF y = leaps y.
Proof. unfold LEAPS_THRU_END_OF. by rewrite !DIV_div by lia. Qed.

Ltac divmod := Z.to_euclidean_division_equations; lia.

Lemma div_nested y : y / 100 = y / 4 / 25 ∧ y / 400 = y / 4 / 25 / 4.
Proof. rewrite !Z.div_div by lia. done. Qed.

Lemma leaps_step y : leaps y = leaps (y - 1) + (if isleap y then 1 else 0).
Proof.
  rewrite isleap_mod. unfold leaps.
  destruct (Z.eqb_spec (y `mod` 4) 0), (Z.eqb_spec (y `mod` 100) 0), (Z.eqb_spec (y `mod` 400) 0);
    cbn [negb andb orb]; divmod.
Qed.

(** In [n] years there are at most [n / 4 + 1] leap days. *)
Lemma leaps_bound y n : 0 ≤ n → 0 ≤ leaps (y + n) - leaps y ≤ n / 4 + 1.
Proof.
  intros Hn. unfold leaps. destruct (div_nested y) as [-> ->]. destruct (div_nested (y + n)) as [-> ->].
  assert (0 ≤ (y + n) / 4 - y / 4 ≤ n / 4 + 1) as Ha by divmod.
  set (a := y / 4) in *. set (b := (y + n) / 4) in *. clearbody a b.
  assert (0 ≤ b / 25 - a / 25 ≤ b - a) as Hc by divmod.
  set (c := a / 25) in *. set (d := b / 25) in *. clearbody c d.
  assert (0 ≤ d / 4 - c / 4 ≤ d - c) by divmod. lia.
Qed.

(** ** The year *)

(** Days from the epoch to the first of January. *)
Definition year_start (y : Z) : Z := 365 * (y - 1970) + leaps (y - 1) - leaps 1969.
Definition year_length (y : Z) : Z := if isleap y then 366 else 365.

Lemma year_start_succ y : year_start (y + 1) = year_start y + year_length y.
Proof.
  unfold year_start, year_length. rewrite Z.add_simpl_r, (leaps_step y). destruct (isleap y); lia.
Qed.

Lemma quot_floor d : Z.quot d 365 - (if Z.rem d 365 <? 0 then 1 else 0) = d / 365.
Proof. by apply DIV_div. Qed.

Lemma year_loop_unfold fuel days y :
  year_loop (S fuel) days y =
  if (days <? 0) || (year_length y <=? days)
  then year_loop fuel (days - (year_start (y + days / 365) - year_start y)) (y + days / 365)
  else Ok (days, y).
Proof.
  cbn [year_loop]. fold (year_length y). destruct (_ || _); [|done].
  assert (y + Z.quot days 365 - (if Z.rem days 365 <? 0 then 1 else 0) = y + days / 365) as ->
    by (rewrite <-quot_floor; lia).
  rewrite !LEAPS_leaps. f_equal. unfold year_start. lia.
Qed.

Lemma year_loop_done fuel days y : 0 ≤ days < year_length y → year_loop (S fuel) days y = Ok (days, y).
Proof.
  intros H. rewrite year_loop_unfold. destruct (Z.ltb_spec days 0); [lia|].
  by destruct (Z.leb_spec (year_length y) days); [lia|].
Qed.

Lemma year_shift y k : year_start (y + k) - year_start y = 365 * k + (leaps (y - 1 + k) - leaps (y - 1)).
Proof. unfold year_start. replace (y + k - 1) with (y - 1 + k) by lia. lia. Qed.

(** Two rounds settle a day at most a year off. *)
Lemma year_loop_near fuel days y : -1 ≤ days / 365 ≤ 1 →
  ∃ d y', year_loop (S (S fuel)) days y = Ok (d, y') ∧
    year_start y' + d = year_start y + days ∧ 0 ≤ d < year_length y'.
Proof.
  intros Hk. rewrite year_loop_unfold.
  destruct (decide (0 ≤ days < year_length y)) as [Hin|Hout].
  { exists days, y. destruct (Z.ltb_spec days 0); [lia|].
    destruct (Z.leb_spec (year_length y) days); [lia|done]. }
  assert ((days <? 0) || (year_length y <=? days) = true) as ->
    by (rewrite orb_true_iff, Z.ltb_lt, Z.leb_le; lia).
  pose proof (year_start_succ y) as Hs. pose proof (year_start_succ (y - 1)) as Hp.
  rewrite Z.sub_add in Hp. pose proof (Z.div_mod days 365 ltac:(done)) as Hdm.
  pose proof (Z.mod_pos_bound days 365 ltac:(done)) as Hm.
  assert (∀ x, 365 ≤ year_length x ≤ 366) as Hlen by (intros x; unfold year_length; destruct (isleap x); lia).
  pose proof (Hlen y). pose proof (Hlen (y - 1)). pose proof (Hlen (y + 1)).
  assert (days / 365 = -1 ∨ days / 365 = 0 ∨ days / 365 = 1) as [E|[E|E]] by lia; rewrite E in *.
  - replace (y + -1) with (y - 1) by lia. rewrite year_loop_done by lia.
    eexists _, _. split; [done|]. split; lia.
  - exfalso. lia.
  - rewrite year_loop_done by lia. eexists _, _. split; [done|]. split; lia.
Qed.

(** A round shrinks the distance in years about fifteen-hundredfold. *)
Lemma year_guess_shrinks days y : 2 ≤ Z.abs (days / 365) →
  Z.abs ((days - (year_start (y + days / 365) - year_start y)) / 365) ≤ 1 + Z.abs (days / 365) / 1000.
Proof.
  intros Hk. rewrite year_shift. pose proof (Z.div_mod days 365 ltac:(done)) as Hdm.
  pose proof (Z.mod_pos_bound days 365 ltac:(done)) as Hm. set (k := days / 365) in *.
  replace (days - (365 * k + (leaps (y - 1 + k) - leaps (y - 1)))) with
    (days `mod` 365 - (leaps (y - 1 + k) - leaps (y - 1))) by lia.
  set (r := days `mod` 365) in *. clearbody k r.
  destruct (Z.le_gt_cases 0 k).
  - pose proof (leaps_bound (y - 1) k ltac:(lia)) as Hl.
    set (x := leaps (y - 1 + k) - leaps (y - 1)) in *. clearbody x. rewrite (Z.abs_eq k) by lia. divmod.
  - pose proof (leaps_bound (y - 1 + k) (- k) ltac:(lia)) as Hl.
    replace (y - 1 + k + - k) with (y - 1) in Hl by lia.
    set (x := leaps (y - 1 + k) - leaps (y - 1)) in *.
    assert (0 ≤ - x ≤ - k / 4 + 1) as Hx by lia. clearbody x. rewrite (Z.abs_neq k) by lia. divmod.
Qed.

Lemma year_loop_ends f : ∀ days y, Z.abs (days / 365) ≤ 500 ^ Z.of_nat f →
  ∃ d y', year_loop (S (S f)) days y = Ok (d, y') ∧
    year_start y' + d = year_start y + days ∧ 0 ≤ d < year_length y'.
Proof.
  induction f as [|f IH]; intros days y Hk; [apply year_loop_near; simpl in Hk; lia|].
  destruct (decide (Z.abs (days / 365) ≤ 1)) as [|Hbig]; [apply year_loop_near; lia|].
  rewrite year_loop_unfold.
  destruct (decide (0 ≤ days < year_length y)) as [Hin|Hout].
  { exfalso. unfold year_length in Hin. assert (days / 365 ≤ 1) by (destruct (isleap y); divmod).
    assert (0 ≤ days / 365) by (apply Z.div_pos; lia). lia. }
  assert ((days <? 0) || (year_length y <=? days) = true) as ->
    by (rewrite orb_true_iff, Z.ltb_lt, Z.leb_le; lia).
  pose proof (year_guess_shrinks days y ltac:(lia)) as Hs.
  destruct (IH (days - (year_start (y + days / 365) - year_start y)) (y + days / 365)) as (d & y' & E & Hd & Hr).
  { rewrite Nat2Z.inj_succ, Z.pow_succ_r in Hk by lia.
    assert (0 < 500 ^ Z.of_nat f) by (apply Z.pow_pos_nonneg; lia).
    set (b := 500 ^ Z.of_nat f) in *. set (k := Z.abs (days / 365)) in *. clearbody k.
    etransitivity; [exact Hs|]. clear Hs. destruct f; [change b with 1 in *; divmod|].
    assert (500 ≤ b) by (subst b; rewrite Nat2Z.inj_succ, Z.pow_succ_r by lia;
      pose proof (Z.pow_pos_nonneg 500 (Z.of_nat f)); lia).
    clearbody b. divmod. }
  exists d, y'. split; [done|]. split; [lia|done].
Qed.

(** ** The fields *)

Lemma rem_up_spec fuel : ∀ rem days, - rem / SECS_PER_DAY < Z.of_nat fuel - 1 → (0 < fuel)%nat →
  ∃ r d, rem_up fuel rem days = Ok (r, d) ∧ r + SECS_PER_DAY * d = rem + SECS_PER_DAY * days ∧
    0 ≤ r ∧ (r < SECS_PER_DAY ∨ r = rem).
Proof.
  change SECS_PER_DAY with 86400. induction fuel as [|fuel IH]; intros rem days Hf H0; [lia|].
  cbn [rem_up]. change SECS_PER_DAY with 86400. destruct (Z.ltb_spec rem 0).
  - destruct (IH (rem + 86400) (days - 1)) as (r & d & -> & E & Hr & Hor); [divmod|divmod|].
    exists r, d. repeat split; lia.
  - exists rem, days. repeat split; lia.
Qed.

Lemma rem_down_spec fuel : ∀ rem days, 0 ≤ rem → rem / SECS_PER_DAY < Z.of_nat fuel →
  ∃ r d, rem_down fuel rem days = Ok (r, d) ∧ r + SECS_PER_DAY * d = rem + SECS_PER_DAY * days ∧
    0 ≤ r < SECS_PER_DAY.
Proof.
  change SECS_PER_DAY with 86400. induction fuel as [|fuel IH]; intros rem days H0 Hf; [divmod|].
  cbn [rem_down]. change SECS_PER_DAY with 86400. destruct (Z.leb_spec 86400 rem).
  - destruct (IH (rem - 86400) (days + 1)) as (r & d & -> & E & Hr); [lia|divmod|].
    exists r, d. repeat split; lia.
  - exists rem, days. repeat split; lia.
Qed.

(** The month of a day of the year, and the day of the month. *)
Definition month_found (leap : bool) (days : Z) : bool :=
  match month_loop 11 days (mon_yday leap) with
  | Ok m =>
      match mon_yday leap !! m, mon_yday leap !! S m with
      | Some a, Some b => (Z.of_nat m <=? 11) && (a <=? days) && (days <? b) && (b <=? a + 31)
      | _, _ => false
      end
  | Bad _ => false
  end.

Lemma month_found_all (leap : bool) days : 0 ≤ days < (if leap then 366 else 365) →
  month_found leap days = true.
Proof.
  intros Hd. assert (Forall (λ d, month_found leap d = true) (seqZ 0 (if leap then 366 else 365))) as H.
  { apply (bool_decide_unpack _). destruct leap; vm_compute; exact I. }
  eapply Forall_forall in H; [exact H|]. apply elem_of_seqZ. lia.
Qed.

(** The fields name the day [y], [days] and the second [rem] of it. *)
Record names (f : full_tm) (y days rem wdays : Z) : Prop := {
  nm_year : tm_year (ft_tm f) = y - 1900;
  nm_yday : ft_yday f = days;
  nm_month : 0 ≤ tm_mon (ft_tm f) ≤ 11;
  nm_mday : mon_yday (isleap y) !! Z.to_nat (tm_mon (ft_tm f)) = Some (days - (tm_mday (ft_tm f) - 1));
  nm_mrange : 1 ≤ tm_mday (ft_tm f) ≤ 31;
  nm_mlen : ∃ next, mon_yday (isleap y) !! S (Z.to_nat (tm_mon (ft_tm f))) = Some next ∧ days < next;
  nm_time : 3600 * tm_hour (ft_tm f) + 60 * tm_min (ft_tm f) + tm_sec (ft_tm f) = rem;
  nm_hour : 0 ≤ tm_hour (ft_tm f) ≤ 23;
  nm_min : 0 ≤ tm_min (ft_tm f) ≤ 59;
  nm_sec : 0 ≤ tm_sec (ft_tm f) ≤ 59;
  nm_wday : ft_wday f = (4 + wdays) `mod` 7
}.

Lemma offtime_spec t off : - 2 ^ 63 ≤ t < 2 ^ 63 → - SECS_PER_DAY ≤ off ≤ SECS_PER_DAY →
  ∃ y days rem, 0 ≤ days < year_length y ∧ 0 ≤ rem < SECS_PER_DAY ∧
    SECS_PER_DAY * (year_start y + days) + rem = t + off ∧
    if bool_decide (int32 (y - 1900) = y - 1900)
    then ∃ f, offtime t off = Ok (inr f) ∧ names f y days rem (year_start y + days)
    else offtime t off = Ok (inl EOVERFLOW).
Proof.
  intros Ht Hoff. unfold offtime. change SECS_PER_DAY with 86400 in *. change SECS_PER_HOUR with 3600.
  pose proof (Z.quot_rem t 86400 ltac:(done)) as Eq. pose proof (Z.rem_bound_abs t 86400 ltac:(done)) as Hrb.
  set (q := Z.quot t 86400) in *. set (r0 := Z.rem t 86400 + off) in *.
  assert (- 2 ^ 63 / 86400 - 1 ≤ q ≤ 2 ^ 63 / 86400) as Hq by (subst q; divmod).
  set (fuel := S (S (Z.to_nat (Z.abs r0 / 86400)))).
  assert (Z.of_nat fuel = Z.abs r0 / 86400 + 2) as Ef by (subst fuel; divmod).
  destruct (rem_up_spec fuel r0 q) as (r1 & d1 & -> & E1 & H1 & Hor);
    [change SECS_PER_DAY with 86400; divmod|lia|].
  change SECS_PER_DAY with 86400 in *. cbn [mbind res_bind].
  destruct (rem_down_spec fuel r1 d1 H1) as (rem & wd & -> & E2 & H2);
    [change SECS_PER_DAY with 86400; clear - Ef Hor H1; divmod|].
  change SECS_PER_DAY with 86400 in *. cbn [mbind res_bind]. clear Ef fuel.
  assert (Z.abs (wd / 365) ≤ 500 ^ Z.of_nat 5) as Hw.
  { change (500 ^ Z.of_nat 5) with 31250000000000. clear - E1 E2 H1 H2 Hor Hq Hrb Hoff. divmod. }
  destruct (year_loop_ends 5 wd 1970 Hw) as (days & y & -> & Ey & Hd). cbn [mbind res_bind].
  assert (year_start 1970 = 0) as E0 by done. rewrite E0, Z.add_0_l in Ey.
  exists y, days, rem. split; [done|]. split; [done|]. split; [lia|].
  case_bool_decide as Hy; [|by rewrite (proj2 (Z.eqb_neq _ _) Hy)].
  rewrite (proj2 (Z.eqb_eq _ _) Hy). cbn [negb].
  pose proof (month_found_all (isleap y) days Hd) as Hm. unfold month_found in Hm.
  destruct (month_loop 11 days (mon_yday (isleap y))) as [m|]; [|done]. cbn [mbind res_bind].
  destruct (mon_yday (isleap y) !! m) as [a|] eqn:Ea; [|done].
  destruct (mon_yday (isleap y) !! S m) as [b|] eqn:Eb; [|done]. bsimpl. cbn [mbind res_bind].
  eexists. split; [done|].
  constructor; cbn [ft_tm ft_wday ft_yday tm_sec tm_min tm_hour tm_mday tm_mon tm_year]; rewrite ?Nat2Z.id;
    try done; try lia; try (clear - H2; divmod).
  - rewrite Ea. f_equal. lia.
  - by exists b.
  - rewrite Ey. destruct (Z.ltb_spec (Z.rem (4 + wd) 7) 0) as [Hn|Hn]; clear - Hn; divmod.
Qed.

(** C27: [__offtime] is total on 64-bit times: it ends, the fields are in range and name
    exactly the instant [t + offset] (day of the year, month and day of month,
    time of day, day of the week), and [EOVERFLOW] is returned exactly when
    the year does not fit an [int]. *)
Theorem offtime_names t off : - 2 ^ 63 ≤ t < 2 ^ 63 → - SECS_PER_DAY ≤ off ≤ SECS_PER_DAY →
  ∃ y days rem, 0 ≤ days < year_length y ∧ 0 ≤ rem < SECS_PER_DAY ∧
    SECS_PER_DAY * (year_start y + days) + rem = t + off ∧
    if bool_decide (int32 (y - 1900) = y - 1900)
    then ∃ f, offtime t off = Ok (inr f) ∧ names f y days rem (year_start y + days)
    else offtime t off = Ok (inl EOVERFLOW).
Proof. apply offtime_spec. Qed.

Lemma offtime_names_witness : ∃ y days rem, 0 ≤ days < year_length y ∧ 0 ≤ rem < SECS_PER_DAY ∧
  SECS_PER_DAY * (year_start y + days) + rem = 951782399 + 28800 ∧
  if bool_decide (int32 (y - 1900) = y - 1900)
  then ∃ f, offtime 951782399 28800 = Ok (inr f) ∧ names f y days rem (year_start y + days)
  else offtime 951782399 28800 = Ok (inl EOVERFLOW).
Proof. apply (offtime_names 951782399 28800); by_decide. Defined.

(** The last second before the leap day of 2000 in UTC, eight hours east of it. *)
Example offtime_leap_day :
  offtime 951782399 28800 = Ok (inr (FullTm (mkTm 59 59 7 29 1 100) 2 59)).
Proof. vm_compute. reflexivity. Qed.

(** ** The way back *)

Lemma land3 y : Z.land y 3 = y `mod` 4.
Proof. change 3 with (Z.ones 2). rewrite Z.land_ones by lia. done. Qed.

(** The leap year test of [mktime.c], on years since 1900 and without adding, agrees
    with the one of [offtime.c]. *)
Theorem leapyear_isleap year : leapyear year = isleap (year + TM_YEAR_BASE).
Proof.
  rewrite isleap_mod. unfold leapyear. rewrite !land3, rem_zero by lia.
  unfold TM_YEAR_BASE.
  change (- Z.quot 1900 100) with (-19). change (-19 `mod` 4) with 1.
  assert ((year + 1900) `mod` 4 = year `mod` 4) as -> by divmod.
  assert ((year + 1900) `mod` 100 = year `mod` 100) as -> by divmod.
  destruct (Z.eqb_spec (year `mod` 4) 0); cbn [andb]; [|done].
  destruct (Z.eqb_spec (year `mod` 100) 0) as [E|E]; cbn [negb orb]; [|done].
  assert (Z.quot year 100 = year / 100) as -> by (clear - E; divmod).
  apply eq_true_iff_eq. rewrite !Z.eqb_eq. clear - E. split; intros; divmod.
Qed.

(** The leap days [ydhms_diff] counts. *)
Lemma leap_parts y : let a4 := SHR y 2 + SHR TM_YEAR_BASE 2 - (if Z.land y 3 =? 0 then 1 else 0) in
  let a100 := Z.quot a4 25 - (if Z.rem a4 25 <? 0 then 1 else 0) in
  a4 - a100 + SHR a100 2 = leaps (y + 1900 - 1).
Proof.
  cbv zeta. unfold leaps. destruct (div_nested (y + 1900 - 1)) as [-> ->].
  assert (SHR y 2 + SHR TM_YEAR_BASE 2 - (if Z.land y 3 =? 0 then 1 else 0) = (y + 1900 - 1) / 4) as ->.
  { rewrite land3. unfold SHR. rewrite !Z.shiftr_div_pow2 by lia. change (2 ^ 2) with 4.
    change (TM_YEAR_BASE / 4) with 475. destruct (Z.eqb_spec (y `mod` 4) 0) as [E|E]; divmod. }
  fold (DIV ((y + 1900 - 1) / 4) 25). rewrite DIV_div by lia. unfold SHR. rewrite Z.shiftr_div_pow2 by lia. done.
Qed.

Lemma ydhms_diff_seconds y d h m s y0 d0 h0 m0 s0 :
  ydhms_diff (y - 1900) d h m s (y0 - 1900) d0 h0 m0 s0 =
  SECS_PER_DAY * (year_start y + d - (year_start y0 + d0)) +
  3600 * (h - h0) + 60 * (m - m0) + (s - s0).
Proof.
  unfold ydhms_diff. pose proof (leap_parts (y - 1900)) as E1. pose proof (leap_parts (y0 - 1900)) as E2.
  cbv zeta in *. rewrite Z.sub_add in E1, E2. unfold year_start. change SECS_PER_DAY with 86400. lia.
Qed.

(** [ydhms_diff], the core of [mktime], takes the fields [__offtime] computes for [t]
    back to [t], counted from the epoch's own fields. *)
Theorem offtime_ydhms_roundtrip t off f : - 2 ^ 63 ≤ t < 2 ^ 63 → - SECS_PER_DAY ≤ off ≤ SECS_PER_DAY →
  offtime t off = Ok (inr f) →
  ydhms_diff (tm_year (ft_tm f)) (ft_yday f) (tm_hour (ft_tm f)) (tm_min (ft_tm f)) (tm_sec (ft_tm f))
    70 0 0 0 0 = t + off.
Proof.
  intros Ht Hoff Hf. destruct (offtime_spec t off Ht Hoff) as (y & days & rem & Hd & Hr & E & H).
  case_bool_decide; [|congruence]. destruct H as (f' & Hf' & Hn).
  assert (f' = f) as -> by congruence. rewrite (nm_year _ _ _ _ _ Hn), (nm_yday _ _ _ _ _ Hn).
  change 70 with (1970 - 1900). rewrite ydhms_diff_seconds. change (year_start 1970) with 0.
  pose proof (nm_time _ _ _ _ _ Hn). lia.
Qed.

Lemma offtime_ydhms_roundtrip_witness :
  ydhms_diff 100 59 7 59 59 70 0 0 0 0 = 951782399 + 28800.
Proof.
  apply (offtime_ydhms_roundtrip 951782399 28800 (FullTm (mkTm 59 59 7 29 1 100) 2 59));
    [by_decide|by_decide|vm_compute; reflexivity].
Defined.

(** ** What the program relies on *)

Lemma year_start_mono y n : 0 ≤ n → year_start y ≤ year_start (y + n) - 365 * n.
Proof. intros Hn. pose proof (year_shift y n). pose proof (leaps_bound (y - 1) n Hn). lia. Qed.

(** A process whose local time is [__offtime] in a fixed zone, and whose clock
    shows a year of four digits, has the calendar the other files assume. *)
Theorem offtime_calendar `{E : Env} off : - SECS_PER_DAY ≤ off ≤ SECS_PER_DAY →
  (∀ n, SECS_PER_DAY * year_start 1000 ≤ env_clock n + off < SECS_PER_DAY * year_start 10000) →
  (∀ t f, offtime t off = Ok (inr f) → env_localtime t = ft_tm f) → Calendar.
Proof.
  intros Hoff Hclock Hlocal n. specialize (Hclock n).
  change (SECS_PER_DAY * year_start 1000) with (-30610224000) in Hclock.
  change (SECS_PER_DAY * year_start 10000) with 253402300800 in Hclock.
  change SECS_PER_DAY with 86400 in Hoff.
  destruct (offtime_spec (env_clock n) off) as (y & days & rem & Hd & Hr & Ey & H);
    [lia|change SECS_PER_DAY with 86400; lia|].
  change SECS_PER_DAY with 86400 in *.
  assert (year_length y ≤ 366) as Hl by (unfold year_length; destruct (isleap y); lia).
  assert (1000 ≤ y ≤ 9999) as Hy.
  { change (-30610224000) with (86400 * year_start 1000) in Hclock.
    change 253402300800 with (86400 * year_start 10000) in Hclock. split.
    - destruct (decide (1000 ≤ y)) as [|Hn]; [done|].
      pose proof (year_start_succ y). pose proof (year_start_mono (y + 1) (1000 - (y + 1)) ltac:(lia)) as Hm.
      replace (y + 1 + (1000 - (y + 1))) with 1000 in Hm by lia. lia.
    - destruct (decide (y ≤ 9999)) as [|Hn]; [done|].
      pose proof (year_start_mono 10000 (y - 10000) ltac:(lia)) as Hm.
      replace (10000 + (y - 10000)) with y in Hm by lia. lia. }
  rewrite bool_decide_true in H by (apply int32_small; lia). destruct H as (f & Hf & Hn).
  rewrite (Hlocal _ _ Hf). destruct Hn. unfold tm_ok. lia.
Qed.
