(* ===== verification/Strftime.v ===== *)
(** * glibc: formatting a date

    [__strftime_internal] of [glibc-2.27/time/strftime_l.c] for narrow characters in
    the C locale (whose names and formats are those of locale/C-time.c), with its
    flags, widths, modifiers and sub-formats.  The program names its log files
    and day directories with it.  A buffer is the list of its bytes; [None] stands for
    a null pointer, with which the function calls itself to learn a length.

    The theorems: for every format and every time there is one text, and the
    function either stores this text and a NUL and returns its length, or returns 0
    because it does not fit, in neither case touching a byte beyond the given
    size; and for the two formats of the program this is what [Machine] says. *)

From S2P Require Import Prelude CString Itoa Machine OffTime.

(** ** Data *)

(** [struct tm]: the fields [__offtime] sets and those of the time zone. *)
Record ltm := Ltm {
  l_full : full_tm;
  tm_isdst : Z;
  tm_gmtoff : Z;
  tm_zone : option (list Z);
}.

(** The C locale. *)
Definition ABDAY : list (list Z) := [lit "Sun"; lit "Mon"; lit "Tue"; lit "Wed"; lit "Thu"; lit "Fri"; lit "Sat"].
Definition DAY : list (list Z) :=
  [lit "Sunday"; lit "Monday"; lit "Tuesday"; lit "Wednesday"; lit "Thursday"; lit "Friday"; lit "Saturday"].
Definition ABMON : list (list Z) :=
  [lit "Jan"; lit "Feb"; lit "Mar"; lit "Apr"; lit "May"; lit "Jun"; lit "Jul"; lit "Aug"; lit "Sep"; lit "Oct"; lit "Nov"; lit "Dec"].
Definition MON : list (list Z) :=
  [lit "January"; lit "February"; lit "March"; lit "April"; lit "May"; lit "June"; lit "July"; lit "August";
   lit "September"; lit "October"; lit "November"; lit "December"].
Definition D_T_FMT : list Z := lit "%a %b %e %H:%M:%S %Y".
Definition D_FMT : list Z := lit "%m/%d/%y".
Definition T_FMT : list Z := lit "%H:%M:%S".
Definition T_FMT_AMPM : list Z := lit "%I:%M:%S %p".

(** [a_wkday], [f_wkday], [a_month], [f_month]: a name, or a question mark. *)
Definition name_of (names : list (list Z)) (k : Z) : list Z :=
  if k <? 0 then lit "?" else default (lit "?") (names !! Z.to_nat k).
Definition ampm (hour : Z) : list Z := if 11 <? hour then lit "PM" else lit "AM".

Definition TOUPPER (c : Z) : Z := if (97 <=? c) && (c <=? 122) then c - 32 else c.
Definition TOLOWER (c : Z) : Z := if (65 <=? c) && (c <=? 90) then c + 32 else c.
Definition ISDIGIT (c : Z) : bool := (48 <=? c) && (c <=? 57).
Definition INT_MAX : Z := 2147483647.

(** ** Output *)

(** What has been written: the buffer, [p] as an offset in it, and [i]. *)
Record out := Out { s_buf : option (list Z); s_p : nat; s_i : Z }.

(** Code that can also [return 0], leaving the buffer as it is then. *)
Definition F (A : Type) : Type := res (A + option (list Z)).
#[global] Instance F_ret : MRet F := λ A a, Ok (inl a).
#[global] Instance F_bind : MBind F := λ A B f m,
  match m with Ok (inl a) => f a | Ok (inr s) => Ok (inr s) | Bad x => Bad x end.
Definition return0 {A} (b : out) : F A := Ok (inr (s_buf b)).
Definition liftF {A} (r : res A) : F A := match r with Ok a => Ok (inl a) | Bad x => Bad x end.

(** [if (p) \{ store; p += n; \}] *)
Definition put (bytes : list Z) (b : out) : F out :=
  match s_buf b with
  | None => mret b
  | Some l => l ← liftF (blit l (s_p b) bytes); mret (Out (Some l) (s_p b + length bytes) (s_i b))
  end.
Definition set_i (i : Z) (b : out) : out := Out (s_buf b) (s_p b) i.

(** [add (n, f)]: padded to the field width; [f] stores at [p] and advances it. *)
Definition add (maxsize width pad n : Z) (f : out → F out) (b : out) : F out :=
  let _n := int32 n in
  let _delta := int32 (width - _n) in
  let _incr := int32 (_n + (if 0 <? _delta then _delta else 0)) in
  if uint64 (maxsize - s_i b) <=? uint64 _incr then return0 b
  else
    b' ← (if 0 <? _delta then put (replicate (Z.to_nat _delta) (if pad =? chr "0" then chr "0" else chr " ")) b
          else mret b);
    b' ← f b';
    mret (set_i (uint64 (s_i b' + _incr)) b').

(** [cpy (n, s)] *)
Definition cpy (maxsize width pad : Z) (to_lowcase to_uppcase : bool) (s : list Z) (b : out) : F out :=
  add maxsize width pad (Z.of_nat (length s))
    (put (if to_lowcase then TOLOWER <$> s else if to_uppcase then TOUPPER <$> s else s)) b.

(** ** Numbers *)

(** [sizeof (buf)]: 1 plus the bound of the decimal length of a [time_t]. *)
Definition BUF_SIZE : nat := 22.

(** [do *--bufp = u % 10 + '0'; while ((u /= 10) != 0)] *)
Fixpoint number_loop (fuel : nat) (u : Z) (buf : list Z) (bufp : nat) : res (nat * list Z) :=
  match fuel, bufp with
  | O, _ => Bad Unspecified
  | S _, O => Bad OutOfBounds
  | S fuel', S q =>
      buf ← blit buf q [u `mod` 10 + chr "0"];
      let u := u / 10 in
      if u =? 0 then Ok (q, buf) else number_loop fuel' u buf q
  end.

(** The loop of [%s], which divides a signed [time_t] towards zero. *)
Fixpoint seconds_loop (fuel : nat) (negative : bool) (t : Z) (buf : list Z) (bufp : nat) : res (nat * list Z) :=
  match fuel, bufp with
  | O, _ => Bad Unspecified
  | S _, O => Bad OutOfBounds
  | S fuel', S q =>
      let d := Z.rem t 10 in
      let d := if negative then - d else d in
      buf ← blit buf q [d + chr "0"];
      let t := Z.quot t 10 in
      if t =? 0 then Ok (q, buf) else seconds_loop fuel' negative t buf q
  end.

(** The label [do_number_sign_and_padding]. *)
Definition do_number_sign_and_padding (maxsize width pad digits : Z) (to_lowcase to_uppcase negative : bool)
    (bufp : nat) (buf : list Z) (b : out) : F out :=
  r ← liftF (if negative then
               match bufp with O => Bad OutOfBounds | S q => buf ← blit buf q [chr "-"]; Ok (q, buf) end
             else Ok (bufp, buf));
  let '(bufp, buf) := r in
  let finish width bufp b := cpy maxsize width pad to_lowcase to_uppcase (drop bufp buf) b in
  let padding := digits - Z.of_nat (BUF_SIZE - bufp) in
  if negb (pad =? chr "-") && (0 <? padding) then
    if pad =? chr "_" then
      if uint64 (maxsize - s_i b) <=? uint64 padding then return0 b
      else
        b ← put (replicate (Z.to_nat padding) (chr " ")) b;
        let b := set_i (uint64 (s_i b + padding)) b in
        finish (if padding <? width then width - padding else 0) bufp b
    else
      if uint64 (maxsize - s_i b) <=? uint64 digits then return0 b
      else
        r ← (if negative then b ← put [chr "-"] b; mret (S bufp, set_i (uint64 (s_i b + 1)) b) else mret (bufp, b));
        let '(bufp, b) := r : nat * out in
        b ← put (replicate (Z.to_nat padding) (chr "0")) b;
        let b := set_i (uint64 (s_i b + padding)) b in
        finish 0 bufp b
  else finish width bufp b.

(** The label [do_number]; the C locale has no alternative digits. *)
Definition do_number (maxsize width pad digits number_value : Z) (to_lowcase to_uppcase : bool) (b : out) : F out :=
  let negative := number_value <? 0 in
  let u := uint32 number_value in
  let u := if negative then uint32 (- u) else u in
  r ← liftF (number_loop 10 u (zeros BUF_SIZE) BUF_SIZE);
  do_number_sign_and_padding maxsize width pad digits to_lowcase to_uppcase negative r.1 r.2 b.

(** ** Conversions *)

(** What a conversion character asks for: the labels and macros the cases of
    the switch go to. *)
Inductive action :=
| AddChar (c : Z)
| Copy (s : list Z) (to_lowcase to_uppcase : bool)
| Subformat (subfmt : list Z)
| Number (d v : Z)
| NumberSpacepad (d v : Z)
| Seconds
| Offset
| Nothing
| BadFormat.

Definition ISO_WEEK_START_WDAY : Z := 1.
Definition ISO_WEEK1_WDAY : Z := 4.
Definition YDAY_MINIMUM : Z := -366.

Definition iso_week_days (yday wday : Z) : Z :=
  let big_enough_multiple_of_7 := (Z.quot (- YDAY_MINIMUM) 7 + 2) * 7 in
  yday - Z.rem (yday - wday + ISO_WEEK1_WDAY + big_enough_multiple_of_7) 7 + ISO_WEEK1_WDAY - ISO_WEEK_START_WDAY.

(** The year and the days of the ISO week (lines 1217 to 1237). *)
Definition iso_year_days (t : ltm) : Z * Z :=
  let ft := l_full t in
  let year := tm_year (ft_tm ft) + 1900 in
  let days := iso_week_days (ft_yday ft) (ft_wday ft) in
  let length_of y := 365 + (if isleap y then 1 else 0) in
  if days <? 0 then
    let year := year - 1 in
    (year, iso_week_days (ft_yday ft + length_of year) (ft_wday ft))
  else
    let d := iso_week_days (ft_yday ft - length_of year) (ft_wday ft) in
    if 0 <=? d then (year + 1, d) else (year, days).

Definition hour12 (t : ltm) : Z :=
  let h := tm_hour (ft_tm (l_full t)) in
  if 12 <? h then h - 12 else if h =? 0 then 12 else h.

Section Strftime.
  (** [mktime], and the names of the time zones. *)
  Context (mktime : ltm → Z) (tzname : Z → list Z).

Definition zone_text (t : ltm) : list Z :=
  let unset := match tm_zone t with None | Some [] => true | Some _ => false end in
  if unset && (0 <=? tm_isdst t) then (if tm_isdst t <=? 1 then tzname (tm_isdst t) else lit "?")
  else default [] (tm_zone t).

(** [switch (format_char)]; there are no eras in the C locale. *)
Definition conversion (c modifier : Z) (change_case to_uppcase : bool) (t : ltm) : action :=
  let ft := l_full t in
  let tm := ft_tm ft in
  let E := modifier =? chr "E" in
  let O := modifier =? chr "O" in
  let none := modifier =? 0 in
  let upper := to_uppcase || change_case in
  if (c =? chr "%") then if none then AddChar c else BadFormat
  else if (c =? chr "a") then if none then Copy (name_of ABDAY (ft_wday ft)) false upper else BadFormat
  else if (c =? chr "A") then if none then Copy (name_of DAY (ft_wday ft)) false upper else BadFormat
  else if (c =? chr "b") || (c =? chr "h") then if E then BadFormat else Copy (name_of ABMON (tm_mon tm)) false upper
  else if (c =? chr "B") then if E then BadFormat else Copy (name_of MON (tm_mon tm)) false upper
  else if (c =? chr "c") then if O then BadFormat else Subformat D_T_FMT
  else if (c =? chr "C") then
    let year := tm_year tm + 1900 in
    Number 1 (Z.quot year 100 - (if Z.rem year 100 <? 0 then 1 else 0))
  else if (c =? chr "x") then if O then BadFormat else Subformat D_FMT
  else if (c =? chr "D") then if none then Subformat (lit "%m/%d/%y") else BadFormat
  else if (c =? chr "d") then if E then BadFormat else Number 2 (tm_mday tm)
  else if (c =? chr "e") then if E then BadFormat else NumberSpacepad 2 (tm_mday tm)
  else if (c =? chr "F") then if none then Subformat (lit "%Y-%m-%d") else BadFormat
  else if (c =? chr "H") then if E then BadFormat else Number 2 (tm_hour tm)
  else if (c =? chr "I") then if E then BadFormat else Number 2 (hour12 t)
  else if (c =? chr "k") then if E then BadFormat else NumberSpacepad 2 (tm_hour tm)
  else if (c =? chr "l") then if E then BadFormat else NumberSpacepad 2 (hour12 t)
  else if (c =? chr "j") then if E then BadFormat else Number 3 (1 + ft_yday ft)
  else if (c =? chr "M") then if E then BadFormat else Number 2 (tm_min tm)
  else if (c =? chr "m") then if E then BadFormat else Number 2 (tm_mon tm + 1)
  else if (c =? chr "n") then AddChar 10
  else if (c =? chr "P") then Copy (ampm (tm_hour tm)) true (if change_case then false else to_uppcase)
  else if (c =? chr "p") then
    if change_case then Copy (ampm (tm_hour tm)) true false else Copy (ampm (tm_hour tm)) false to_uppcase
  else if (c =? chr "R") then Subformat (lit "%H:%M")
  else if (c =? chr "r") then Subformat T_FMT_AMPM
  else if (c =? chr "S") then if E then BadFormat else Number 2 (tm_sec tm)
  else if (c =? chr "s") then Seconds
  else if (c =? chr "X") then if O then BadFormat else Subformat T_FMT
  else if (c =? chr "T") then Subformat (lit "%H:%M:%S")
  else if (c =? chr "t") then AddChar 9
  else if (c =? chr "u") then Number 1 (Z.rem (ft_wday ft - 1 + 7) 7 + 1)
  else if (c =? chr "U") then if E then BadFormat else Number 2 (Z.quot (ft_yday ft - ft_wday ft + 7) 7)
  else if (c =? chr "V") || (c =? chr "g") || (c =? chr "G") then
    if E then BadFormat
    else
      let '(year, days) := iso_year_days t in
      if (c =? chr "g") then Number 2 (Z.rem (Z.rem year 100 + 100) 100)
      else if (c =? chr "G") then Number 1 year
      else Number 2 (Z.quot days 7 + 1)
  else if (c =? chr "W") then if E then BadFormat else Number 2 (Z.quot (ft_yday ft - Z.rem (ft_wday ft - 1 + 7) 7 + 7) 7)
  else if (c =? chr "w") then if E then BadFormat else Number 1 (ft_wday ft)
  else if (c =? chr "Y") then if O then BadFormat else Number 1 (tm_year tm + 1900)
  else if (c =? chr "y") then Number 2 (Z.rem (Z.rem (tm_year tm) 100 + 100) 100)
  else if (c =? chr "Z") then
    if change_case then Copy (zone_text t) true false else Copy (zone_text t) false to_uppcase
  else if (c =? chr "z") then if tm_isdst t <? 0 then Nothing else Offset
  else BadFormat.

(** [for (flen = 1; f[1 - flen] != '%'; flen++)]: from the last percent sign up to
    [f]. *)
Fixpoint percent_before (fmt : list Z) (f : nat) : res nat :=
  if decide (fmt !! f = Some (chr "%")) then Ok f
  else match f with O => Bad OutOfBounds | S f' => percent_before fmt f' end.

(** A call of the function itself with a sub-format. *)
Definition call : Type := option (list Z) → nat → Z → list Z → res (Z * option (list Z)).

(** The label [subformat]. *)
Definition do_subformat (sub : call) (maxsize width pad : Z) (to_uppcase : bool) (subfmt : list Z) (b : out) : F out :=
  let old_start := s_p b in
  r ← liftF (sub None 0%nat (2 ^ 64 - 1) (subfmt ++ [0]));
  b' ← add maxsize width pad r.1 (λ b',
         match s_buf b' with
         | None => mret b'
         | Some _ =>
             q ← liftF (sub (s_buf b') (s_p b') (uint64 (maxsize - s_i b')) (subfmt ++ [0]));
             mret (Out q.2 (s_p b' + Z.to_nat (int32 r.1)) (s_i b'))
         end) b;
  if to_uppcase then
    match s_buf b' with
    | None => mret b'
    | Some l =>
        l ← liftF (blit l old_start (TOUPPER <$> take (s_p b' - old_start) (drop old_start l)));
        mret (Out (Some l) (s_p b') (s_i b'))
    end
  else mret b'.

(** What the switch goes to. *)
Definition perform (sub : call) (maxsize : Z) (fmt : list Z) (f : nat) (t : ltm) (width pad : Z) (to_uppcase : bool)
    (a : action) (b : out) : F out :=
  let digits d := if width <? d then d else width in
  match a with
  | AddChar c => add maxsize width pad 1 (put [c]) b
  | Copy s low up => cpy maxsize width pad low up s b
  | Subformat subfmt => do_subformat sub maxsize width pad to_uppcase subfmt b
  | Number d v => do_number maxsize width pad (digits d) (int32 v) false to_uppcase b
  | NumberSpacepad d v =>
      let pad := if negb (pad =? chr "0") && negb (pad =? chr "-") then chr "_" else pad in
      do_number maxsize width pad (digits d) (int32 v) false to_uppcase b
  | Seconds =>
      let s := mktime t in
      r ← liftF (seconds_loop 19 (s <? 0) s (zeros BUF_SIZE) BUF_SIZE);
      do_number_sign_and_padding maxsize width pad 1 false to_uppcase (s <? 0) r.1 r.2 b
  | Offset =>
      let diff := int32 (tm_gmtoff t) in
      b ← add maxsize width pad 1 (put [if diff <? 0 then chr "-" else chr "+"]) b;
      let diff := if diff <? 0 then int32 (- diff) else diff in
      let diff := Z.quot diff 60 in
      do_number maxsize width pad (digits 4) (int32 (Z.quot diff 60 * 100 + Z.rem diff 60)) false to_uppcase b
  | Nothing => mret b
  | BadFormat =>
      k ← liftF (percent_before fmt f);
      cpy maxsize width pad false to_uppcase (take (S f - k) (drop k fmt)) b
  end.

(** ** The format *)

Definition char_at (fmt : list Z) (f : nat) : res Z := match fmt !! f with Some c => Ok c | None => Bad OutOfBounds end.

(** The flags after a percent sign: [switch ( *++f)]. *)
Fixpoint flags_loop (fuel : nat) (fmt : list Z) (f : nat) (pad : Z) (to_uppcase change_case : bool)
    : res (nat * Z * bool * bool) :=
  match fuel with
  | O => Bad Unspecified
  | S fuel' =>
      let f := S f in
      c ← char_at fmt f;
      if (c =? chr "_") || (c =? chr "-") || (c =? chr "0") then flags_loop fuel' fmt f c to_uppcase change_case
      else if c =? chr "^" then flags_loop fuel' fmt f pad true change_case
      else if c =? chr "#" then flags_loop fuel' fmt f pad to_uppcase true
      else Ok (f, pad, to_uppcase, change_case)
  end.

(** The field width, which stays below [INT_MAX]. *)
Fixpoint width_loop (fuel : nat) (fmt : list Z) (f : nat) (width : Z) : res (nat * Z) :=
  match fuel with
  | O => Bad Unspecified
  | S fuel' =>
      c ← char_at fmt f;
      if ISDIGIT c then
        let width :=
          if (INT_MAX / 10 <? width) || ((width =? INT_MAX / 10) && (INT_MAX `mod` 10 <? c - 48)) then INT_MAX
          else width * 10 + (c - 48) in
        width_loop fuel' fmt (S f) width
      else Ok (f, width)
  end.

(** [for (f = format; *f != '\0'; ++f)] *)
Fixpoint format_loop (sub : call) (fuel : nat) (maxsize : Z) (fmt : list Z) (t : ltm) (f : nat) (b : out) : F out :=
  match fuel with
  | O => Bad Unspecified
  | S fuel' =>
      c ← liftF (char_at fmt f);
      if c =? 0 then mret b
      else if negb (c =? chr "%") then
        b ← add maxsize (-1) 0 1 (put [c]) b; format_loop sub fuel' maxsize fmt t (S f) b
      else
        r ← liftF (flags_loop (length fmt) fmt f 0 false false);
        let '(f, pad, to_uppcase, change_case) := r : nat * Z * bool * bool in
        c ← liftF (char_at fmt f);
        r ← liftF (if ISDIGIT c then width_loop (length fmt) fmt f 0 else Ok (f, -1));
        let '(f, width) := r : nat * Z in
        c ← liftF (char_at fmt f);
        let '(f, modifier) := if (c =? chr "E") || (c =? chr "O") then (S f, c) else (f, 0) in
        c ← liftF (char_at fmt f);
        let f := if c =? 0 then Nat.pred f else f in
        b ← perform sub maxsize fmt f t width pad to_uppcase (conversion c modifier change_case to_uppcase t) b;
        format_loop sub fuel' maxsize fmt t (S f) b
  end.

(** [__strftime_internal (s, maxsize, format, tp, ..)], [s] pointing to [p] in
    [buf]; [depth] bounds the nesting of sub-formats. *)
Fixpoint strftime_internal (depth : nat) (t : ltm) (buf : option (list Z)) (p : nat) (maxsize : Z) (fmt : list Z)
    : res (Z * option (list Z)) :=
  match depth with
  | O => Bad Unspecified
  | S depth' =>
      r ← format_loop (strftime_internal depth' t) (length fmt) maxsize fmt t 0 (Out buf p 0);
      match r with
      | inr s => Ok (0, s)
      | inl b =>
          match s_buf b with
          | Some l =>
              if negb (maxsize =? 0) then l ← blit l (s_p b) [0]; Ok (s_i b, Some l) else Ok (s_i b, Some l)
          | None => Ok (s_i b, None)
          end
      end
  end.

(** [strftime (s, maxsize, format, tp)]; formats of the locale do not nest. *)
Definition strftime_l (s : list Z) (maxsize : Z) (format : list Z) (t : ltm) : res (Z * list Z) :=
  r ← strftime_internal 2 t (Some s) 0 maxsize (format ++ [0]);
  Ok (r.1, default s r.2).
End Strftime.

(** ** Emitting a text *)

(** [b'] is [b] with [txt] added; the byte after it may have been changed. *)
Definition grown (b b' : out) (txt : list Z) : Prop :=
  s_i b' = s_i b + Z.of_nat (length txt) ∧
  match s_buf b with
  | None => s_buf b' = None
  | Some l => s_p b' = (s_p b + length txt)%nat ∧
      ∃ c, s_buf b' = Some (take (s_p b) l ++ txt ++ c :: drop (S (s_p b + length txt)) l)
  end.

Definition room (b : out) (n : nat) : Prop :=
  match s_buf b with None => True | Some l => (s_p b + n < length l)%nat end.

(** The window of [maxsize] bytes from [base] on that the caller gave. *)
Record out_at (maxsize : Z) (base : nat) (b : out) : Prop := {
  oa_i : 0 ≤ s_i b < maxsize;
  oa_p : match s_buf b with None => True
         | Some l => s_p b = (base + Z.to_nat (s_i b))%nat ∧ (base + Z.to_nat maxsize ≤ length l)%nat end;
}.

(** Nothing outside the window has changed. *)
Definition confined (maxsize : Z) (base : nat) (b : out) (s : option (list Z)) : Prop :=
  match s_buf b, s with
  | None, None => True
  | Some l, Some l' => length l' = length l ∧ take base l' = take base l ∧
      drop (base + Z.to_nat maxsize) l' = drop (base + Z.to_nat maxsize) l
  | _, _ => False
  end.

(** [m] adds [txt], or returns 0 when it does not fit. *)
Record emits (maxsize : Z) (m : out → F out) (txt : list Z) : Prop := {
  em_fits : ∀ b, 0 ≤ s_i b → s_i b + Z.of_nat (length txt) < maxsize → room b (length txt) →
    ∃ b', m b = Ok (inl b') ∧ grown b b' txt;
  em_full : ∀ base b, out_at maxsize base b → maxsize ≤ s_i b + Z.of_nat (length txt) →
    ∃ s, m b = Ok (inr s) ∧ confined maxsize base b s;
}.

Lemma out_at_room maxsize base b n : out_at maxsize base b → s_i b + Z.of_nat n < maxsize → room b n.
Proof. intros [Hi Hp] Hn. unfold room. destruct (s_buf b); [|done]. lia. Qed.

Lemma grown_length b b' txt l l' : grown b b' txt → room b (length txt) → s_buf b = Some l → s_buf b' = Some l' →
  length l' = length l.
Proof.
  unfold grown, room. intros [_ H] Hr E E'. rewrite E in *. destruct H as (_ & c & H). rewrite H in E'. injection E' as <-.
  rewrite !length_app, length_take. cbn [length]. rewrite length_drop. lia.
Qed.

Lemma grown_out_at maxsize base b b' txt : out_at maxsize base b → s_i b + Z.of_nat (length txt) < maxsize →
  grown b b' txt → out_at maxsize base b'.
Proof.
  intros Ho Hf Hg. pose proof (out_at_room _ _ _ _ Ho Hf) as Hr. destruct Ho as [Hi Hp], Hg as [Ei Hb].
  split; [lia|]. unfold room in Hr. destruct (s_buf b) as [l|] eqn:Eb; [|by rewrite Hb].
  destruct Hb as (Ep & c & Eb'). rewrite Eb'. split; [lia|].
  rewrite !length_app, length_take. cbn [length]. rewrite length_drop. lia.
Qed.

Lemma grown_trans b b1 b2 t1 t2 : room b (length t1) → grown b b1 t1 → grown b1 b2 t2 → grown b b2 (t1 ++ t2).
Proof.
  unfold room. intros Hr [I1 H1] [I2 H2]. split; [rewrite length_app; lia|].
  destruct (s_buf b) as [l|]; [|by rewrite H1 in H2]. destruct H1 as (P1 & c1 & B1). rewrite B1 in H2.
  destruct H2 as (P2 & c2 & B2). rewrite length_app. split; [lia|]. exists c2. rewrite B2, P1. f_equal.
  set (X := take (s_p b) l ++ t1). assert (length X = s_p b + length t1)%nat as Hl by (unfold X; rewrite length_app, length_take; lia).
  rewrite (app_assoc (take (s_p b) l) t1 (c1 :: _)), (app_assoc (take (s_p b) l) (t1 ++ t2)), (app_assoc _ t1 t2). fold X.
  rewrite take_app_length', <-app_assoc by done. do 3 f_equal.
  replace (S (s_p b + length t1 + length t2)) with (length X + S (length t2))%nat by lia.
  rewrite drop_app_add. cbn [drop]. rewrite drop_drop. f_equal. lia.
Qed.

Lemma grown_confined maxsize base b b' txt s : out_at maxsize base b → s_i b + Z.of_nat (length txt) < maxsize →
  grown b b' txt → confined maxsize base b' s → confined maxsize base b s.
Proof.
  intros Ho Hf Hg Hc. pose proof (out_at_room _ _ _ _ Ho Hf) as Hr. destruct Ho as [Hi Hp]. pose proof Hg as [Ei Hb].
  unfold confined, room in *. destruct (s_buf b) as [l|] eqn:Eb; [|by rewrite Hb in Hc].
  destruct Hb as (Ep & c & Eb'). destruct Hp as [Hp1 Hp2]. rewrite Eb' in Hc. destruct s as [s|]; [|done].
  destruct Hc as (L & T & D). split_and!.
  - rewrite L, !length_app, length_take. cbn [length]. rewrite length_drop. lia.
  - rewrite T, take_app_le, take_take by (rewrite length_take; lia). f_equal. lia.
  - rewrite D, app_assoc. change (c :: drop ?n ?x) with ([c] ++ drop n x). rewrite app_assoc.
    assert (length ((take (s_p b) l ++ txt) ++ [c]) = S (s_p b + length txt))%nat as Hl
      by (rewrite !length_app, length_take; cbn; lia).
    replace (base + Z.to_nat maxsize)%nat with (S (s_p b + length txt) + (base + Z.to_nat maxsize - S (s_p b + length txt)))%nat
      by lia.
    rewrite <-Hl at 1. rewrite drop_app_add, drop_drop. f_equal. 
Qed.

Lemma emits_bind maxsize m k t1 t2 : emits maxsize m t1 → emits maxsize k t2 → emits maxsize (λ b, m b ≫= k) (t1 ++ t2).
Proof.
  intros [F1 U1] [F2 U2]. split.
  - intros b Hi Hf Hr. rewrite length_app in *.
    destruct (F1 b) as (b1 & E1 & G1); [done|lia|unfold room in *; destruct (s_buf b); [lia|done]|].
    destruct (F2 b1) as (b2 & E2 & G2).
    + destruct G1. lia.
    + destruct G1. lia.
    + pose proof G1 as [_ Hb]. unfold room in *. destruct (s_buf b) as [l|] eqn:Eb; [|by rewrite Hb].
      destruct Hb as (Ep & c & Eb'). rewrite Eb'. rewrite Ep, !length_app, length_take. cbn [length]. rewrite length_drop. lia.
    + exists b2. split; [unfold mbind, F_bind; by rewrite E1|]. eapply grown_trans; [|done|done].
      unfold room in *. destruct (s_buf b); [lia|done].
  - intros base b Ho Hf. rewrite length_app in Hf.
    destruct (decide (s_i b + Z.of_nat (length t1) < maxsize)) as [H1|H1].
    + destruct (F1 b) as (b1 & E1 & G1); [apply Ho|done|by eapply out_at_room|].
      destruct (U2 base b1) as (s & E2 & C2); [by eapply grown_out_at|destruct G1; lia|].
      exists s. split; [unfold mbind, F_bind; by rewrite E1|by eapply grown_confined].
    + destruct (U1 base b Ho) as (s & E & C); [lia|]. exists s. split; [unfold mbind, F_bind; by rewrite E|done].
Qed.

Lemma emits_nil maxsize : emits maxsize mret [].
Proof.
  split.
  - intros b Hi _ Hr. exists b. split; [done|]. split; [cbn; lia|]. unfold room in Hr. cbn [length] in *.
    destruct (s_buf b) as [l|]; [|done]. rewrite Nat.add_0_r in *. split; [done|].
    destruct (lookup_lt_is_Some_2 l (s_p b) Hr) as [c Hc]. exists c. f_equal. cbn [app]. by rewrite take_drop_middle.
  - intros base b [Hi _] Hf. cbn in Hf. lia.
Qed.

(** ** The macros *)

Definition pad_text (width pad : Z) (txt : list Z) : list Z :=
  replicate (Z.to_nat (width - Z.of_nat (length txt))) (if pad =? chr "0" then chr "0" else chr " ") ++ txt.

(** [f] stores [txt] at [p]. *)
Definition stores (maxsize : Z) (f : out → F out) (txt : list Z) : Prop := ∀ b,
  0 ≤ s_i b → s_i b + Z.of_nat (length txt) < maxsize →
  match s_buf b with
  | None => f b = mret b
  | Some l => (s_p b + length txt < length l)%nat → ∃ c,
      f b = Ok (inl (Out (Some (take (s_p b) l ++ txt ++ c :: drop (S (s_p b + length txt)) l)) (s_p b + length txt) (s_i b)))
  end.

Lemma put_stores maxsize txt : stores maxsize (put txt) txt.
Proof.
  intros b Hi Hf. unfold put. destruct (s_buf b) as [l|]; [|done]. intros Hl.
  destruct (lookup_lt_is_Some_2 l (s_p b + length txt) Hl) as [c Hc]. exists c.
  rewrite blit_ok by lia. cbn. do 6 f_equal. by rewrite drop_S with (x := c) by done.
Qed.

(** Storing twice is storing both. *)
Lemma stores_twice maxsize t1 t2 f b : stores maxsize f t2 → 0 ≤ s_i b →
  s_i b + Z.of_nat (length (t1 ++ t2)) < maxsize → room b (length (t1 ++ t2)) →
  ∃ b', (put t1 b ≫= f) = Ok (inl b') ∧ grown b (set_i (s_i b + Z.of_nat (length (t1 ++ t2))) b') (t1 ++ t2) ∧ s_i b' = s_i b.
Proof.
  intros Hf Hi Hm Hr. rewrite length_app in *. unfold room in Hr.
  pose proof (put_stores maxsize t1 b Hi ltac:(lia)) as H1. destruct (s_buf b) as [l|] eqn:Eb.
  - destruct H1 as [c1 ->]; [lia|]. unfold mbind, F_bind. set (b1 := Out _ _ _).
    pose proof (Hf b1 Hi ltac:(cbn; lia)) as H2. cbn [s_buf b1] in H2. destruct H2 as [c2 ->].
    { cbn [s_p b1]. rewrite !length_app, length_take. cbn [length]. rewrite length_drop. lia. }
    eexists. split; [done|]. split; [|done].
    apply (grown_trans b (set_i (s_i b + Z.of_nat (length t1)) b1) _ t1 t2).
    + unfold room. rewrite Eb. lia.
    + split; [done|]. rewrite Eb. split; [done|]. by exists c1.
    + split; [cbn; lia|]. cbn. split; [done|]. by exists c2.
  - rewrite H1. unfold mbind, F_bind, mret, F_ret. pose proof (Hf b Hi ltac:(lia)) as H2. rewrite Eb in H2. rewrite H2.
    exists b. split; [done|]. split; [|done]. split; [cbn; rewrite length_app; lia|]. by rewrite Eb.
Qed.

Lemma stores_grown maxsize f txt b : stores maxsize f txt → 0 ≤ s_i b → s_i b + Z.of_nat (length txt) < maxsize →
  room b (length txt) → ∃ b', f b = Ok (inl b') ∧ grown b (set_i (s_i b + Z.of_nat (length txt)) b') txt ∧ s_i b' = s_i b.
Proof.
  intros Hf Hi Hm Hr. pose proof (Hf b Hi Hm) as H. unfold room in Hr. destruct (s_buf b) as [l|] eqn:Eb.
  - destruct (H Hr) as [c ->]. eexists. split; [done|]. split; [|done]. split; [done|]. rewrite Eb. split; [done|]. by exists c.
  - exists b. split; [done|]. split; [|done]. split; [done|]. by rewrite Eb.
Qed.

Lemma confined_refl maxsize base b : confined maxsize base b (s_buf b).
Proof. unfold confined. by destruct (s_buf b). Qed.

Lemma add_emits maxsize width pad f txt : 0 < maxsize < 2 ^ 64 → -1 ≤ width ≤ INT_MAX → Z.of_nat (length txt) ≤ INT_MAX →
  stores maxsize f txt → emits maxsize (add maxsize width pad (Z.of_nat (length txt)) f) (pad_text width pad txt).
Proof.
  unfold INT_MAX. intros Hmax Hw Hn Hf. set (n := Z.of_nat (length txt)) in *.
  assert (Z.of_nat (length (pad_text width pad txt)) = n + Z.max 0 (width - n)) as Hlen.
  { unfold pad_text. rewrite length_app, length_replicate. lia. }
  unfold add. rewrite (int32_small n), (int32_small (width - n)) by lia.
  assert ((if 0 <? width - n then width - n else 0) = Z.max 0 (width - n)) as -> by (destruct (Z.ltb_spec 0 (width - n)); lia).
  rewrite int32_small by lia. rewrite (uint64_small (n + _)) by lia. split.
  - intros b Hi Hm Hr. rewrite uint64_small by lia. destruct (Z.leb_spec (maxsize - s_i b) (n + Z.max 0 (width - n))); [lia|].
    assert (∃ b', (b' ← (if 0 <? width - n then put (replicate (Z.to_nat (width - n)) (if pad =? chr "0" then chr "0" else chr " ")) b
        else mret b); f b') = Ok (inl b') ∧
      grown b (set_i (s_i b + Z.of_nat (length (pad_text width pad txt))) b') (pad_text width pad txt) ∧ s_i b' = s_i b) as (b' & E & Hg & Ei).
    { destruct (Z.ltb_spec 0 (width - n)); [by eapply stores_twice|].
      unfold pad_text in *. replace (Z.to_nat (width - Z.of_nat (length txt))) with 0%nat in * by lia. cbn [replicate app] in *.
      by eapply stores_grown. }
    exists (set_i (s_i b + Z.of_nat (length (pad_text width pad txt))) b'). split; [|done].
    unfold mbind, F_bind in *. destruct (if 0 <? width - n then _ else _) as [[b1|?]|?]; [|done..].
    rewrite E. unfold mret, F_ret. do 3 f_equal. rewrite Ei, Hlen. apply uint64_small. lia.
  - intros base b [Hi _] Hm. rewrite uint64_small by lia.
    destruct (Z.leb_spec (maxsize - s_i b) (n + Z.max 0 (width - n))); [|lia].
    exists (s_buf b). split; [done|apply confined_refl].
Qed.

Definition case_text (low up : bool) (s : list Z) : list Z :=
  if low then TOLOWER <$> s else if up then TOUPPER <$> s else s.

Lemma case_text_length low up s : length (case_text low up s) = length s.
Proof. unfold case_text. destruct low; [apply length_fmap|]. destruct up; [apply length_fmap|done]. Qed.

Lemma cpy_emits maxsize width pad low up s : 0 < maxsize < 2 ^ 64 → -1 ≤ width ≤ INT_MAX → Z.of_nat (length s) ≤ INT_MAX →
  emits maxsize (cpy maxsize width pad low up s) (pad_text width pad (case_text low up s)).
Proof.
  intros Hm Hw Hn. unfold cpy. rewrite <-(case_text_length low up s) in *. apply add_emits; [done..|apply put_stores].
Qed.

(** Text put without a test, as for the padding of numbers. *)
Lemma put_emits maxsize txt k rest : 0 < maxsize < 2 ^ 64 → emits maxsize k rest →
  (∀ b, 0 ≤ s_i b → s_i b + Z.of_nat (length txt) < maxsize → room b (length txt) → ∃ b',
    (b ← put txt b; k (set_i (uint64 (s_i b + Z.of_nat (length txt))) b)) = k b' ∧ grown b b' txt).
Proof.
  intros Hmax Hk b Hi Hm Hr. destruct (stores_grown maxsize (put txt) txt b) as (b' & E & Hg & Ei); [apply put_stores|done..|].
  exists (set_i (s_i b + Z.of_nat (length txt)) b'). split; [|done]. unfold mbind, F_bind. rewrite E, Ei, uint64_small by lia. done.
Qed.

(** ** The text of a number *)

Definition number_text (width pad digits : Z) (low up negative : bool) (ds : list Z) : list Z :=
  let sign := if negative then [chr "-"] else [] in
  let s := sign ++ ds in
  let padding := digits - Z.of_nat (length s) in
  if negb (pad =? chr "-") && (0 <? padding) then
    if pad =? chr "_" then
      replicate (Z.to_nat padding) (chr " ") ++
      pad_text (if padding <? width then width - padding else 0) pad (case_text low up s)
    else sign ++ replicate (Z.to_nat padding) (chr "0") ++ pad_text 0 pad (case_text low up ds)
  else pad_text width pad (case_text low up s).

Lemma pad_text_0 pad txt : pad_text 0 pad txt = txt.
Proof. unfold pad_text. by replace (Z.to_nat (0 - Z.of_nat (length txt))) with 0%nat by lia. Qed.

(** One step of unchecked output in a place where the whole text fits. *)
Lemma put_step maxsize txt rest k : 0 < maxsize < 2 ^ 64 →
  (∀ b, 0 ≤ s_i b → s_i b + Z.of_nat (length rest) < maxsize → room b (length rest) → ∃ b', k b = Ok (inl b') ∧ grown b b' rest) →
  ∀ b, 0 ≤ s_i b → s_i b + Z.of_nat (length (txt ++ rest)) < maxsize → room b (length (txt ++ rest)) →
  ∃ b', (b ← put txt b; k (set_i (uint64 (s_i b + Z.of_nat (length txt))) b)) = Ok (inl b') ∧ grown b b' (txt ++ rest).
Proof.
  intros Hmax Hk b Hi Hm Hr. rewrite length_app in *.
  assert (room b (length txt)) as Hr1 by (unfold room in *; destruct (s_buf b); [lia|done]).
  destruct (stores_grown maxsize (put txt) txt b) as (b1 & E & Hg & Ei); [apply put_stores|done|lia|done|].
  set (b1' := set_i (s_i b + Z.of_nat (length txt)) b1) in *.
  destruct (Hk b1') as (b' & E' & Hg').
  - cbn. lia.
  - cbn. lia.
  - destruct Hg as [_ Hb]. unfold room in *. destruct (s_buf b) as [l|]; [|by rewrite Hb].
    destruct Hb as (Ep & c & Eb'). rewrite Eb', Ep, !length_app, length_take. cbn [length]. rewrite length_drop. lia.
  - exists b'. split; [|by eapply grown_trans]. unfold mbind, F_bind. rewrite E, Ei, uint64_small by lia. exact E'.
Qed.

(** Unchecked padding after a test of its own length, then checked output. *)
Lemma padded_emits maxsize txt rest k : 0 < maxsize < 2 ^ 64 → Z.of_nat (length txt) < 2 ^ 64 → emits maxsize k rest →
  emits maxsize (λ b, if uint64 (maxsize - s_i b) <=? uint64 (Z.of_nat (length txt)) then return0 b
                      else b ← put txt b; k (set_i (uint64 (s_i b + Z.of_nat (length txt))) b)) (txt ++ rest).
Proof.
  intros Hmax Htxt Hk. rewrite (uint64_small (Z.of_nat (length txt))) by lia. split.
  - intros b Hi Hf Hr. rewrite uint64_small by (rewrite length_app in Hf; lia).
    destruct (Z.leb_spec (maxsize - s_i b) (Z.of_nat (length txt))); [rewrite length_app in Hf; lia|].
    by apply (put_step maxsize txt rest _ Hmax (em_fits _ _ _ Hk)).
  - intros base b Ho Hf. pose proof Ho as [Hi _]. rewrite length_app in Hf. rewrite uint64_small by lia.
    destruct (Z.leb_spec (maxsize - s_i b) (Z.of_nat (length txt))); [exists (s_buf b); split; [done|apply confined_refl]|].
    destruct (stores_grown maxsize (put txt) txt b) as (b1 & E & Hg & Ei); [apply put_stores|lia|lia|eapply out_at_room; [done|lia]|].
    set (b1' := set_i (s_i b + Z.of_nat (length txt)) b1) in *.
    destruct (em_full _ _ _ Hk base b1') as (r & Er & Hc); [eapply grown_out_at; [done| |done]; lia|cbn; lia|].
    exists r. split; [|eapply grown_confined; [done| |done|done]; lia].
    unfold mbind, F_bind. by rewrite E, Ei, uint64_small by lia.
Qed.

(** Output after a test of the whole length. *)
Lemma tested_emits maxsize total k txt : 0 < maxsize < 2 ^ 64 → Z.of_nat (length txt) = total → total < 2 ^ 64 →
  (∀ b, 0 ≤ s_i b → s_i b + Z.of_nat (length txt) < maxsize → room b (length txt) → ∃ b', k b = Ok (inl b') ∧ grown b b' txt) →
  emits maxsize (λ b, if uint64 (maxsize - s_i b) <=? uint64 total then return0 b else k b) txt.
Proof.
  intros Hmax Ht Hs Hk. rewrite (uint64_small total) by lia. split.
  - intros b Hi Hf Hr. rewrite uint64_small by lia. destruct (Z.leb_spec (maxsize - s_i b) total); [lia|by apply Hk].
  - intros base b [Hi _] Hf. rewrite uint64_small by lia. destruct (Z.leb_spec (maxsize - s_i b) total); [|lia].
    exists (s_buf b). split; [done|apply confined_refl].
Qed.

(** The sign is stored before the digits. *)
Lemma sign_stored (negative : bool) bufp buf ds : length buf = BUF_SIZE → drop bufp buf = ds → (1 ≤ bufp ≤ BUF_SIZE)%nat →
  let sign := if negative then [chr "-"] else [] in
  ∃ q buf', (if negative then match bufp with O => Bad OutOfBounds | S q => buf ← blit buf q [chr "-"]; Ok (q, buf) end
    else Ok (bufp, buf)) = Ok (q, buf') ∧ drop q buf' = sign ++ ds ∧ (BUF_SIZE - q = length (sign ++ ds))%nat ∧
    (length (sign ++ ds) ≤ BUF_SIZE)%nat.
Proof.
  intros Hb Hds Hp sign. assert (length ds = BUF_SIZE - bufp)%nat as Hd by (rewrite <-Hds, length_drop; lia).
  destruct negative; [|exists bufp, buf; unfold sign; cbn [app]; split_and!; try done; lia].
  destruct bufp as [|q]; [lia|]. exists q. rewrite blit_ok by (cbn; lia). eexists. split; [done|].
  unfold sign. cbn [length app]. split_and!; [|lia|lia].
  rewrite drop_app_length' by (rewrite length_take; lia). cbn [app]. f_equal. by rewrite Nat.add_1_r.
Qed.

Lemma do_number_sign_and_padding_emits maxsize width pad digits low up negative bufp buf ds :
  0 < maxsize < 2 ^ 64 → -1 ≤ width ≤ INT_MAX → 1 ≤ digits ≤ INT_MAX →
  length buf = BUF_SIZE → drop bufp buf = ds → (1 ≤ bufp ≤ BUF_SIZE)%nat →
  emits maxsize (do_number_sign_and_padding maxsize width pad digits low up negative bufp buf)
    (number_text width pad digits low up negative ds).
Proof.
  intros Hmax Hw Hd Hb Hds Hp. unfold do_number_sign_and_padding, number_text.
  destruct (sign_stored negative bufp buf ds Hb Hds Hp) as (q & buf' & -> & Hq & Hn & Hl).
  cbn [liftF mbind F_bind]. rewrite Hn, Hq. set (sign := if negative then [chr "-"] else []) in *. set (s := sign ++ ds) in *.
  set (n := Z.of_nat (length s)). assert (n ≤ 22) as Hn22 by (unfold n, BUF_SIZE in *; lia). unfold INT_MAX in *.
  destruct (negb (pad =? chr "-") && (0 <? digits - n)) eqn:Epad; [|apply cpy_emits; unfold INT_MAX; lia].
  apply andb_true_iff in Epad as [_ Epos%Z.ltb_lt]. destruct (pad =? chr "_").
  - set (w' := if _ <? _ then _ else _). assert (-1 ≤ w' ≤ 2147483647) as Hw' by (unfold w'; destruct (Z.ltb_spec (digits - n) width); lia).
    pose proof (padded_emits maxsize (replicate (Z.to_nat (digits - n)) (chr " ")) (pad_text w' pad (case_text low up s)) (cpy maxsize w' pad low up s) Hmax) as Hpad.
    rewrite length_replicate, Z2Nat.id in Hpad by lia. apply Hpad; [lia|apply cpy_emits; unfold INT_MAX; lia].
  - set (ze := replicate (Z.to_nat (digits - n)) (chr "0")).
    assert (Z.of_nat (length ze) = digits - n) as Hze by (unfold ze; rewrite length_replicate; lia).
    pose proof (cpy_emits maxsize 0 pad low up ds Hmax ltac:(unfold INT_MAX; lia)) as Hk.
    rewrite pad_text_0 in *. set (rest := case_text low up ds) in *.
    assert (length s = length sign + length rest)%nat as Hs by (unfold s, rest; by rewrite length_app, case_text_length).
    specialize (Hk ltac:(unfold INT_MAX; rewrite <-(case_text_length low up ds); fold rest; lia)).
    apply tested_emits; [done|rewrite !length_app; lia|lia|].
    assert (∀ q', drop q' buf' = ds → ∀ b, 0 ≤ s_i b → s_i b + Z.of_nat (length (ze ++ rest)) < maxsize → room b (length (ze ++ rest)) →
      ∃ b', (b ← put ze b; cpy maxsize 0 pad low up (drop q' buf') (set_i (uint64 (s_i b + (digits - n))) b)) = Ok (inl b') ∧
        grown b b' (ze ++ rest)) as Hz.
    { intros q' -> b0. rewrite <-Hze. by apply (put_step maxsize ze rest _ Hmax (em_fits _ _ _ Hk)). }
    destruct negative; [|by apply Hz]. intros b Hi Hf Hr.
    destruct (put_step maxsize sign (ze ++ rest) (λ b, b ← put ze b; cpy maxsize 0 pad low up (drop (S q) buf') (set_i (uint64 (s_i b + (digits - n))) b))
      Hmax) with (b := b) as (b' & E & Hg); [apply Hz; by rewrite <-Nat.add_1_r, <-drop_drop, Hq|done..|].
    exists b'. split; [|done]. rewrite <-E. unfold mbind, F_bind. unfold sign. by destruct (put _ b) as [[?|?]|?].
Qed.

(** ** Digits *)

Lemma digit_lookup m : 0 ≤ m < 10 → _itoa_lower_digits !! Z.to_nat m = Some (m + chr "0").
Proof.
  intros Hm. assert (Forall (λ m, _itoa_lower_digits !! Z.to_nat m = Some (m + chr "0")) (seqZ 0 10)) as HF
    by (vm_compute; repeat constructor).
  apply (proj1 (Forall_forall _ _) HF), elem_of_seqZ. lia.
Qed.

(** The loop is the one of [_itoa_word] in base 10. *)
Lemma number_loop_itoa fuel u buf bufp : number_loop fuel u buf bufp = itoa_loop fuel _itoa_lower_digits 10 u buf bufp.
Proof.
  revert u buf bufp. induction fuel as [|fuel IH]; intros u buf [|q]; cbn [number_loop itoa_loop]; [done..|].
  rewrite (digit_lookup (u `mod` 10)) by (apply Z.mod_pos_bound; lia).
  destruct (blit buf q _); cbn; [|done]. destruct (_ =? 0); [done|apply IH].
Qed.

Lemma number_loop_spec fuel u : 0 ≤ u < 10 ^ Z.of_nat fuel → (0 < fuel ≤ 20)%nat →
  ∃ bufp buf, number_loop fuel u (zeros BUF_SIZE) BUF_SIZE = Ok (bufp, buf) ∧ length buf = BUF_SIZE ∧
    drop bufp buf = show_nat u ∧ (BUF_SIZE - fuel ≤ bufp ≤ BUF_SIZE)%nat.
Proof.
  intros Hu Hf. rewrite number_loop_itoa. destruct (remainders_value fuel 10 ltac:(lia) u Hu ltac:(lia)) as (_ & _ & Hl).
  pose proof (remainders_digits fuel u [] Hu ltac:(lia)) as Hd. rewrite app_nil_r in Hd.
  pose proof (remainders_fuel 10 fuel (20 - fuel) u ltac:(lia) Hu ltac:(lia)) as H20. replace (fuel + (20 - fuel))%nat with 20%nat in H20 by lia.
  assert (dec_digits fuel u [] = show_nat u) as Es.
  { rewrite <-Hd, <-H20. rewrite <-(app_nil_r (_ <$> _)). apply (remainders_digits 20 u []); [|lia].
    split; [lia|]. eapply Z.lt_le_trans; [apply Hu|]. apply Z.pow_le_mono_r; lia. }
  rewrite itoa_loop_spec; [|lia|done|done|lia|unfold BUF_SIZE in *; cbn; lia].
  eexists _, _. split; [done|]. rewrite Hd, Es. set (ds := remainders fuel 10 u) in *.
  assert (length (show_nat u) = length ds) as El by (by rewrite <-Es, <-Hd, length_fmap, length_reverse).
  assert (length (take (BUF_SIZE - length ds) (zeros BUF_SIZE)) = BUF_SIZE - length ds)%nat as Ht
    by (rewrite length_take; unfold zeros; rewrite length_replicate; lia).
  rewrite drop_ge, app_nil_r by (unfold zeros; rewrite length_replicate; lia).
  split_and!; [rewrite length_app, Ht, El; unfold BUF_SIZE; lia|by rewrite drop_app_length'|unfold BUF_SIZE; lia|lia].
Qed.

(** Dividing a negative number towards zero gives the digits of its absolute value. *)
Lemma seconds_loop_abs fuel t buf bufp : seconds_loop fuel (t <? 0) t buf bufp = number_loop fuel (Z.abs t) buf bufp.
Proof.
  assert (∀ neg t buf bufp, (if neg : bool then t ≤ 0 else 0 ≤ t) →
    seconds_loop fuel neg t buf bufp = number_loop fuel (Z.abs t) buf bufp) as Hgen.
  { clear. induction fuel as [|fuel IH]; intros neg t buf [|q] Ht; cbn [seconds_loop number_loop]; [done..|].
    assert ((if neg then - Z.rem t 10 else Z.rem t 10) = Z.abs t `mod` 10 ∧ Z.abs (Z.quot t 10) = Z.abs t / 10 ∧
      (if neg then Z.quot t 10 ≤ 0 else 0 ≤ Z.quot t 10)) as (-> & Eq & Hs).
    { destruct neg; [|rewrite Z.abs_eq by done; rewrite Z.rem_mod_nonneg, Z.quot_div_nonneg by lia; pose proof (Z.div_pos t 10); lia].
      assert (∃ u, t = - u ∧ 0 ≤ u) as (u & -> & Hu) by (exists (- t); lia).
      rewrite Z.rem_opp_l, Z.quot_opp_l by lia. rewrite !Z.abs_opp, !Z.abs_eq by (done || (apply Z.quot_pos; lia)).
      rewrite Z.rem_mod_nonneg, Z.quot_div_nonneg by lia. pose proof (Z.div_pos u 10). lia. }
    destruct (blit buf q _) as [buf'|]; cbn; [|done]. rewrite <-Eq.
    assert ((Z.quot t 10 =? 0) = (Z.abs (Z.quot t 10) =? 0)) as <-.
    { destruct (Z.eqb_spec (Z.quot t 10) 0), (Z.eqb_spec (Z.abs (Z.quot t 10)) 0); lia. }
    destruct (_ =? 0); [done|by apply IH]. }
  apply Hgen. destruct (Z.ltb_spec t 0); lia.
Qed.

Lemma do_number_emits maxsize width pad digits v low up :
  0 < maxsize < 2 ^ 64 → -1 ≤ width ≤ INT_MAX → 1 ≤ digits ≤ INT_MAX → - 2 ^ 31 ≤ v < 2 ^ 31 →
  emits maxsize (do_number maxsize width pad digits v low up) (number_text width pad digits low up (v <? 0) (show_nat (Z.abs v))).
Proof.
  intros Hmax Hw Hd Hv. unfold do_number.
  assert ((if v <? 0 then uint32 (- uint32 v) else uint32 v) = Z.abs v) as ->.
  { unfold uint32. destruct (Z.ltb_spec v 0); Z.to_euclidean_division_equations; lia. }
  destruct (number_loop_spec 10 (Z.abs v)) as (bufp & buf & -> & Hl & Hds & Hp); [lia|lia|].
  cbn [liftF mbind F_bind fst snd]. apply do_number_sign_and_padding_emits; try done. unfold BUF_SIZE in *. lia.
Qed.

Lemma number_text_length width pad digits low up negative ds : -1 ≤ width → 1 ≤ digits ≤ Z.max width 4 → (length ds ≤ 20)%nat →
  Z.of_nat (length (number_text width pad digits low up negative ds)) ≤ Z.max width 0 + 25.
Proof.
  intros Hw Hd Hl. unfold number_text, pad_text.
  assert (length (if negative then [chr "-"] else []) ≤ 1)%nat as Hs by (by destruct negative; cbn; lia).
  repeat case_match; rewrite ?length_app, ?length_replicate, ?case_text_length, ?length_app in *; cbn [length] in *; lia.
Qed.

(** ** Sub-formats *)

(** The formats the C locale and the conversions name. *)
Definition sub_formats : list (list Z) :=
  [D_T_FMT; D_FMT; T_FMT; T_FMT_AMPM; lit "%Y-%m-%d"; lit "%H:%M"].

(** A call with [fmt] stores [txt]. *)
Record sub_ok (sub : call) (fmt txt : list Z) : Prop := {
  sk_short : Z.of_nat (length txt) ≤ INT_MAX;
  sk_count : sub None 0%nat (2 ^ 64 - 1) (fmt ++ [0]) = Ok (Z.of_nat (length txt), None);
  sk_store : ∀ l p max, Z.of_nat (length txt) < max < 2 ^ 64 → (p + length txt < length l)%nat →
    sub (Some l) p max (fmt ++ [0]) =
    Ok (Z.of_nat (length txt), Some (take p l ++ txt ++ 0 :: drop (S (p + length txt)) l));
}.

Lemma upper_grown b b' txt : grown b b' txt → room b (length txt) →
  ∃ b'', match s_buf b' with
         | None => mret b'
         | Some l =>
             l ← liftF (blit l (s_p b) (TOUPPER <$> take (s_p b' - s_p b) (drop (s_p b) l)));
             mret (Out (Some l) (s_p b') (s_i b'))
         end = Ok (inl b'') ∧ grown b b'' (TOUPPER <$> txt).
Proof.
  intros [Ei Hb] Hr. unfold room in Hr. destruct (s_buf b) as [l|] eqn:Eb.
  - destruct Hb as (Ep & c & ->). rewrite Ep. replace (s_p b + length txt - s_p b)%nat with (length txt) by lia.
    assert (length (take (s_p b) l) = s_p b) as Ht by (rewrite length_take; lia).
    rewrite drop_app_length', take_app_length by done.
    rewrite blit_ok by (rewrite !length_app, length_fmap, Ht; cbn; lia). cbn [liftF mbind F_bind].
    eexists. split; [done|]. split; [cbn; rewrite length_fmap; lia|]. rewrite Eb. cbn [s_p s_buf]. rewrite length_fmap.
    split; [done|]. exists c. f_equal. rewrite take_app_length' by done. do 2 f_equal.
    rewrite <-Ht at 1. rewrite app_assoc, <-length_app, drop_app_length. done.
  - rewrite Hb. exists b'. split; [done|]. split; [rewrite length_fmap; done|]. by rewrite Eb.
Qed.

Lemma do_subformat_emits sub maxsize width pad up fmt txt : 0 < maxsize < 2 ^ 64 → -1 ≤ width ≤ INT_MAX →
  sub_ok sub fmt txt →
  emits maxsize (do_subformat sub maxsize width pad up fmt) (case_text false up (pad_text width pad txt)).
Proof.
  intros Hmax Hw [Hs Hc Hst]. unfold do_subformat. rewrite Hc. cbn [liftF mbind F_bind fst].
  match goal with |- context [add _ _ _ _ ?f] => set (g := f) end.
  assert (stores maxsize g txt) as Hg.
  { intros b Hi Hm. unfold g. destruct (s_buf b) as [l|]; [|done]. intros Hl. unfold INT_MAX in *.
    rewrite (uint64_small (maxsize - s_i b)), (int32_small (Z.of_nat _)) by lia.
    rewrite Hst by (lia || done). cbn. rewrite Nat2Z.id. by exists 0. }
  pose proof (add_emits maxsize width pad g txt Hmax Hw Hs Hg) as [Hfit Hfull].
  destruct up; cbn [case_text].
  - split.
    + intros b Hi Hf Hr. rewrite length_fmap in *. destruct (Hfit b Hi Hf Hr) as (b' & E & Hgr).
      unfold mbind at 1, F_bind at 1. rewrite E. by apply upper_grown.
    + intros base b Ho Hf. rewrite length_fmap in Hf. destruct (Hfull base b Ho Hf) as (r & E & Hcf).
      exists r. split; [unfold mbind at 1, F_bind at 1; by rewrite E|done].
  - split.
    + intros b Hi Hf Hr. destruct (Hfit b Hi Hf Hr) as (b' & E & Hgr). exists b'. split; [|done].
      unfold mbind, F_bind. by rewrite E.
    + intros base b Ho Hf. destruct (Hfull base b Ho Hf) as (r & E & Hcf). exists r. split; [|done].
      unfold mbind, F_bind. by rewrite E.
Qed.

(** ** Conversions *)

Section Conversions.
  Context (mktime : ltm → Z) (tzname : Z → list Z) (t : ltm).

(** What is asked of the parameters: a [time_t], and names of zones of a
    reasonable length. *)
Definition ZONE_MAX : nat := 255.
  Context (Hmk : - 2 ^ 63 ≤ mktime t < 2 ^ 63) (Hzone : (length (zone_text tzname t) ≤ ZONE_MAX)%nat).

Definition action_ok (a : action) : Prop :=
  match a with
  | Copy s _ _ => (length s ≤ ZONE_MAX)%nat
  | Number d _ | NumberSpacepad d _ => 1 ≤ d ≤ 3
  | Subformat s => s ∈ sub_formats
  | _ => True
  end.

Lemma name_of_short names k : Forall (λ s, (length s ≤ 9)%nat) names → (length (name_of names k) ≤ ZONE_MAX)%nat.
Proof.
  intros Hn. unfold name_of, ZONE_MAX. destruct (k <? 0); [cbn; lia|].
  destruct (names !! Z.to_nat k) as [s|] eqn:E; cbn; [|lia]. eapply Forall_lookup_1 in Hn; [|exact E]. cbn in Hn. lia.
Qed.

Lemma names_short : Forall (Forall (λ s : list Z, (length s ≤ 9)%nat)) [ABDAY; DAY; ABMON; MON].
Proof. repeat constructor; cbn; lia. Qed.

(** The characters with a sub-format. *)
Definition sub_chars : list Z := lit "cxDFRrXT".

(** An action that fits the character [c]. *)
Definition suits (c : Z) (a : action) : Prop := action_ok a ∧ (c ∉ sub_chars → ∀ s, a ≠ Subformat s).

Lemma suits_if c (b : bool) x y : (b = true → suits c x) → suits c y → suits c (if b then x else y).
Proof. destruct b; auto. Qed.
Lemma suits_leaf c a : action_ok a → (∀ s, a ≠ Subformat s) → suits c a.
Proof. by split. Qed.
Lemma suits_sub c x s : (c =? chr x) = true → s ∈ sub_formats → chr x ∈ sub_chars → suits c (Subformat s).
Proof. intros ->%Z.eqb_eq Hs Hx. by split. Qed.

Lemma conversion_suits c modifier change up : suits c (conversion tzname c modifier change up t).
Proof.
  pose proof names_short as Hn. rewrite !Forall_cons in Hn. destruct Hn as (N1 & N2 & N3 & N4 & _).
  assert (∀ k, (length (ampm k) ≤ ZONE_MAX)%nat) as Ham by (intros k; unfold ampm, ZONE_MAX; destruct (_ <? _); cbn; lia).
  unfold conversion. destruct (iso_year_days t) as [year days].
  repeat (apply suits_if; [intros ?; repeat (apply suits_if; [intros ?|])|]);
    first [ apply suits_leaf; [cbn [action_ok]; first [done|lia|by apply name_of_short|apply Ham|idtac]|discriminate]
          | eapply suits_sub; [eassumption|apply (bool_decide_unpack _); vm_compute; exact I|apply (bool_decide_unpack _); vm_compute; exact I]].
Qed.

Lemma percent_before_ok fmt f0 f : fmt !! f0 = Some (chr "%") → (f0 ≤ f)%nat →
  ∃ k, percent_before fmt f = Ok k ∧ (f0 ≤ k ≤ f)%nat.
Proof.
  intros H0 Hf. induction f as [|f IH].
  - assert (f0 = 0%nat) as -> by lia. exists 0%nat. cbn [percent_before]. by rewrite decide_True.
  - cbn [percent_before]. destruct (decide _) as [E|E]; [by exists (S f); split; [|lia]|].
    destruct IH as (k & Hk & Hle); [|exists k; split; [done|lia]].
    destruct (decide (f0 = S f)) as [->|]; [done|lia].
Qed.

Lemma pad_text_length width pad txt : Z.of_nat (length (pad_text width pad txt)) = Z.max width (Z.of_nat (length txt)).
Proof. unfold pad_text. rewrite length_app, length_replicate. lia. Qed.

Lemma show_nat_small n : 0 ≤ n ≤ 2 ^ 63 → (length (show_nat n) ≤ 20)%nat.
Proof. intros Hn. assert (0 ≤ n < 10 ^ Z.of_nat 20) as H by (change (10 ^ Z.of_nat 20) with 100000000000000000000; lia).
  pose proof (show_nat_length n 20 H ltac:(lia)). lia. Qed.

(** How long a conversion with a field width can be. *)
Definition conversion_max (width : Z) (fmt : list Z) : Z :=
  2 * Z.max width 0 + 60 + Z.of_nat (length fmt) + Z.of_nat ZONE_MAX.

(** [m] adds one and the same text whatever the size of the buffer. *)
Definition produces (m : Z → out → F out) (txt : list Z) : Prop := ∀ maxsize, 0 < maxsize < 2 ^ 64 → emits maxsize (m maxsize) txt.

Lemma perform_produces sub fmt f0 f width pad up a :
  -1 ≤ width ≤ INT_MAX → action_ok a → fmt !! f0 = Some (chr "%") → (f0 ≤ f)%nat → Z.of_nat (length fmt) < INT_MAX →
  (∀ s, a = Subformat s → ∃ txt, sub_ok sub s txt) →
  ∃ txt, produces (λ maxsize, perform mktime sub maxsize fmt f t width pad up a) txt ∧
    ((∀ s, a ≠ Subformat s) → Z.of_nat (length txt) ≤ conversion_max width fmt).
Proof.
  unfold conversion_max. intros Hw Ha H0 Hf Hl Hsub.
  assert (∀ d, 1 ≤ d ≤ 4 → 1 ≤ (if width <? d then d else width) ≤ INT_MAX ∧ (if width <? d then d else width) ≤ Z.max width 4) as Hdig.
  { intros d Hd. unfold INT_MAX in *. destruct (Z.ltb_spec width d); lia. }
  assert (∀ p d v, 1 ≤ d ≤ 4 → - 2 ^ 31 ≤ v < 2 ^ 31 → ∃ txt,
    produces (λ maxsize, do_number maxsize width p (if width <? d then d else width) v false up) txt ∧
    Z.of_nat (length txt) ≤ Z.max width 0 + 25) as Hnum.
  { intros p d v Hd Hv. eexists. split; [intros maxsize Hmax; apply do_number_emits; [done|done|by apply Hdig|done]|].
    apply number_text_length; [lia|destruct (Hdig d Hd); lia|apply show_nat_small; lia]. }
  unfold INT_MAX, ZONE_MAX in *. destruct a as [c|s low cup|s|d v|d v| | | |]; cbn [perform action_ok] in *; unfold ZONE_MAX in *.
  - eexists. split; [intros maxsize Hmax; apply (add_emits maxsize width pad (put [c]) [c]); [done..|by apply put_stores]|].
    intros _. rewrite pad_text_length. cbn. lia.
  - eexists. split; [intros maxsize Hmax; apply cpy_emits; [done|done|unfold INT_MAX; lia]|].
    intros _. rewrite pad_text_length, case_text_length. lia.
  - destruct (Hsub s eq_refl) as [txt Ht]. eexists. split; [intros maxsize Hmax; by apply do_subformat_emits|].
    intros Hn. by destruct (Hn s).
  - destruct (Hnum pad d (int32 v)) as (txt & Ht & Hlen); [lia|apply int32_range|]. exists txt. split; [done|lia].
  - destruct (Hnum (if negb (pad =? chr "0") && negb (pad =? chr "-") then chr "_" else pad) d (int32 v)) as (txt & Ht & Hlen);
      [lia|apply int32_range|]. exists txt. split; [done|lia].
  - cbv beta iota zeta delta [perform]. rewrite seconds_loop_abs. destruct (number_loop_spec 19 (Z.abs (mktime t))) as (bufp & buf & -> & Hb & Hds & Hp);
      [split; [lia|]; change (10 ^ Z.of_nat 19) with 10000000000000000000; lia|lia|].
    cbn [liftF mbind F_bind fst snd]. eexists. split.
    + intros maxsize Hmax. apply do_number_sign_and_padding_emits; try done; unfold INT_MAX, BUF_SIZE in *; lia.
    + intros _. etrans; [apply number_text_length; [lia|lia|]|lia]. apply show_nat_small. lia.
  - cbv beta iota zeta delta [perform]. set (sg := if int32 (tm_gmtoff t) <? 0 then chr "-" else chr "+").
    set (diff := if int32 (tm_gmtoff t) <? 0 then int32 (- int32 (tm_gmtoff t)) else int32 (tm_gmtoff t)).
    destruct (Hnum pad 4 (int32 (Z.quot (Z.quot diff 60) 60 * 100 + Z.rem (Z.quot diff 60) 60))) as (txt & Ht & Hlen);
      [lia|apply int32_range|].
    exists (pad_text width pad [sg] ++ txt). split.
    + intros maxsize Hmax. apply (emits_bind maxsize (add maxsize width pad 1 (put [sg])) _ _ txt); [|by apply Ht].
      apply (add_emits maxsize width pad (put [sg]) [sg]); [done..|by apply put_stores].
    + intros _. rewrite length_app, Nat2Z.inj_add, pad_text_length. cbn [length]. lia.
  - exists []. split; [intros maxsize Hmax; apply emits_nil|cbn; lia].
  - cbv beta iota zeta delta [perform]. destruct (percent_before_ok fmt f0 f H0 Hf) as (k & -> & Hk). cbn [liftF mbind F_bind].
    assert (length (take (S f - k) (drop k fmt)) ≤ length fmt)%nat as Hlen by (rewrite length_take, length_drop; lia).
    eexists. split; [intros maxsize Hmax; apply cpy_emits; [done|done|unfold INT_MAX; lia]|].
    intros _. rewrite pad_text_length, case_text_length. lia.
Qed.

(** ** The format *)

Section Format.
  Context (s : list Z) (Hs : Forall (λ c, c ≠ 0) s) (Hlong : Z.of_nat (length s) < 2 ^ 30).
Let fmt : list Z := s ++ [0].

Lemma char_at_ok f : (f ≤ length s)%nat → ∃ c, char_at fmt f = Ok c ∧ fmt !! f = Some c ∧ (c = 0 ↔ f = length s).
Proof.
  intros Hf. destruct (lookup_lt_is_Some_2 fmt f) as [c Hc]; [unfold fmt; rewrite length_app; cbn; lia|].
  exists c. unfold char_at. rewrite Hc. split_and!; [done|done|]. unfold fmt in Hc.
  destruct (decide (f = length s)) as [->|Hne].
  - rewrite lookup_app_r, Nat.sub_diag in Hc by lia. injection Hc as <-. done.
  - rewrite lookup_app_l in Hc by lia. eapply Forall_lookup_1 in Hs; [|exact Hc]. done.
Qed.

Lemma flags_loop_ok fuel f pad up ch : (f < length s)%nat → (length s < f + fuel)%nat →
  ∃ f' pad' up' ch', flags_loop fuel fmt f pad up ch = Ok (f', pad', up', ch') ∧ (f < f' ≤ length s)%nat.
Proof.
  revert f pad up ch. induction fuel as [|fuel IH]; intros f pad up ch Hf Hl; [lia|]. cbn [flags_loop].
  destruct (char_at_ok (S f)) as (c & -> & Hc & H0); [lia|]. cbn [mbind res_bind].
  assert (c ≠ 0 → (S f < length s)%nat) as Hlt by (intros Hn; destruct (decide (S f = length s)) as [E|]; [by apply H0 in E|lia]).
  assert (∀ pad up ch, (S f < length s)%nat → ∃ f' pad' up' ch',
    flags_loop fuel fmt (S f) pad up ch = Ok (f', pad', up', ch') ∧ (f < f' ≤ length s)%nat) as Hrec.
  { intros p u h Hx. destruct (IH (S f) p u h) as (f' & ? & ? & ? & E & ?); [lia|lia|]. eexists _, _, _, _. split; [exact E|lia]. }
  destruct (_ || _ || _) eqn:E1.
  { apply Hrec, Hlt. intros E. rewrite E in E1. discriminate E1. }
  destruct (Z.eqb_spec c (chr "^")) as [->|_]; [apply Hrec, Hlt; done|].
  destruct (Z.eqb_spec c (chr "#")) as [->|_]; [apply Hrec, Hlt; done|].
  eexists _, _, _, _. split; [done|lia].
Qed.

Lemma width_loop_ok fuel f w : (f ≤ length s)%nat → (length s < f + fuel)%nat → 0 ≤ w ≤ INT_MAX →
  ∃ f' w', width_loop fuel fmt f w = Ok (f', w') ∧ (f ≤ f' ≤ length s)%nat ∧ 0 ≤ w' ≤ INT_MAX.
Proof.
  revert f w. induction fuel as [|fuel IH]; intros f w Hf Hl Hw; [lia|]. cbn [width_loop].
  destruct (char_at_ok f Hf) as (c & -> & Hc & H0). cbn [mbind res_bind].
  destruct (ISDIGIT c) eqn:Ed; [|exists f, w; split_and!; done || lia].
  unfold ISDIGIT in Ed. apply andb_true_iff in Ed as [D1%Z.leb_le D2%Z.leb_le].
  assert (f ≠ length s) by (intros E; apply H0 in E; lia).
  match goal with |- context [width_loop fuel fmt (S f) ?x] => set (w' := x) end.
  assert (0 ≤ w' ≤ INT_MAX) as Hw'.
  { unfold w', INT_MAX in *. change (2147483647 / 10) with 214748364. change (2147483647 `mod` 10) with 7.
    destruct (Z.ltb_spec 214748364 w); [cbn; lia|]. cbn [orb]. destruct (Z.eqb_spec w 214748364); cbn [andb]; [|lia].
    destruct (Z.ltb_spec 7 (c - 48)); lia. }
  destruct (IH (S f) w') as (f' & w'' & E & Hf' & Hw''); [lia|lia|done|]. exists f', w''. split; [done|]. split; [lia|done].
Qed.

(** No sub-formats, no field widths. *)
Definition plain (s : list Z) : Prop := Forall (λ c, c ∉ sub_chars ∧ ISDIGIT c = false) s.

Lemma plain_char f c : plain s → fmt !! f = Some c → c ∉ sub_chars ∧ ISDIGIT c = false.
Proof.
  intros Hp Hc. unfold fmt in Hc. apply lookup_app_Some in Hc as [Hc|[_ Hc]]; [by eapply Forall_lookup_1 in Hp; [|exact Hc]|].
  apply list_lookup_singleton_Some in Hc as [_ <-]. split; [apply (bool_decide_unpack _); vm_compute; exact I|done].
Qed.

(** What comes after a percent sign at [f0]: where it ends, and the text. *)
Lemma conversion_at sub f0 : (f0 < length s)%nat → fmt !! f0 = Some (chr "%") →
  (plain s ∨ ∀ x, x ∈ sub_formats → ∃ txt, sub_ok sub x txt) →
  ∃ f txt, (f0 ≤ f < length s)%nat ∧ (plain s → Z.of_nat (length txt) ≤ conversion_max 0 fmt) ∧
    ∀ k rest, produces (λ maxsize, k maxsize (S f)) rest →
      produces (λ maxsize b,
        r ← liftF (flags_loop (length fmt) fmt f0 0 false false);
        let '(f, pad, to_uppcase, change_case) := r : nat * Z * bool * bool in
        c ← liftF (char_at fmt f);
        r ← liftF (if ISDIGIT c then width_loop (length fmt) fmt f 0 else Ok (f, -1));
        let '(f, width) := r : nat * Z in
        c ← liftF (char_at fmt f);
        let '(f, modifier) := if (c =? chr "E") || (c =? chr "O") then (S f, c) else (f, 0) in
        c ← liftF (char_at fmt f);
        let f := if c =? 0 then Nat.pred f else f in
        b ← perform mktime sub maxsize fmt f t width pad to_uppcase (conversion tzname c modifier change_case to_uppcase t) b;
        k maxsize (S f) b) (txt ++ rest).
Proof.
  intros Hf0 Hpct Hsub. assert (length fmt = S (length s)) as Hlen by (unfold fmt; rewrite length_app; cbn; lia).
  destruct (flags_loop_ok (length fmt) f0 0 false false) as (f1 & pad & up & ch & -> & Hf1); [done|lia|].
  cbn [liftF mbind F_bind]. destruct (char_at_ok f1) as (c1 & -> & Hc1 & _); [lia|]. cbn [liftF mbind F_bind].
  assert (∃ f2 width, (if ISDIGIT c1 then width_loop (length fmt) fmt f1 0 else Ok (f1, -1)) = Ok (f2, width) ∧
    (f1 ≤ f2 ≤ length s)%nat ∧ -1 ≤ width ≤ INT_MAX ∧ (plain s → width = -1)) as (f2 & width & -> & Hf2 & Hw & Hwp).
  { destruct (ISDIGIT c1) eqn:Ed.
    - destruct (width_loop_ok (length fmt) f1 0) as (f2 & w & E & Hf2 & Hw); [lia|lia|done|].
      exists f2, w. split_and!; [done|lia|lia|lia|lia|]. intros Hp. destruct (plain_char _ _ Hp Hc1). congruence.
    - exists f1, (-1). split_and!; done || lia. }
  cbn [liftF mbind F_bind]. destruct (char_at_ok f2) as (c2 & -> & Hc2 & H02); [lia|]. cbn [liftF mbind F_bind].
  assert (∃ f3 modifier, (if (c2 =? chr "E") || (c2 =? chr "O") then (S f2, c2) else (f2, 0)) = (f3, modifier) ∧
    (f2 ≤ f3 ≤ length s)%nat) as (f3 & modifier & -> & Hf3).
  { destruct (_ || _) eqn:Em; [|exists f2, 0; split; [done|lia]]. exists (S f2), c2. split; [done|].
    assert (f2 ≠ length s); [|lia]. intros E. apply H02 in E as ->. discriminate Em. }
  destruct (char_at_ok f3) as (c3 & -> & Hc3 & H03); [lia|]. cbn [liftF mbind F_bind].
  set (f := if c3 =? 0 then Nat.pred f3 else f3).
  assert (f0 ≤ f < length s)%nat as Hf.
  { unfold f. destruct (Z.eqb_spec c3 0) as [E|E]; [apply H03 in E; lia|]. assert (f3 ≠ length s) by (by intros E'; apply E, H03). lia. }
  destruct (conversion_suits c3 modifier ch up) as [Hok Hleaf].
  destruct (perform_produces sub fmt f0 f width pad up (conversion tzname c3 modifier ch up t)) as (txt & Htxt & Hmax);
    [done|done|done|lia|unfold INT_MAX; rewrite Hlen; lia| |].
  { intros x E. destruct Hsub as [Hp|Hsub]; [by destruct (Hleaf (proj1 (plain_char _ _ Hp Hc3)) x)|]. apply Hsub.
    rewrite E in Hok. exact Hok. }
  exists f, txt. split; [done|]. split.
  - intros Hp. specialize (Hmax (Hleaf (proj1 (plain_char _ _ Hp Hc3)))). rewrite (Hwp Hp) in Hmax. exact Hmax.
  - intros k rest Hk maxsize Hm. apply (emits_bind maxsize _ (k maxsize (S f)) txt rest); [by apply Htxt|by apply Hk].
Qed.

Lemma format_loop_produces sub fuel f : (f ≤ length s)%nat → (length fmt ≤ f + fuel)%nat →
  (plain s ∨ ∀ x, x ∈ sub_formats → ∃ txt, sub_ok sub x txt) →
  ∃ txt, produces (λ maxsize, format_loop mktime tzname sub fuel maxsize fmt t f) txt ∧
    (plain s → Z.of_nat (length txt) ≤ Z.of_nat (length fmt - f) * conversion_max 0 fmt).
Proof.
  intros Hf Hfuel Hsub. revert f Hf Hfuel. assert (length fmt = S (length s)) as Hlen by (unfold fmt; rewrite length_app; cbn; lia).
  assert (1 ≤ conversion_max 0 fmt) as Hpos by (unfold conversion_max; lia).
  induction fuel as [|fuel IH]; intros f Hf Hfuel; [lia|].
  destruct (char_at_ok f Hf) as (c & Ec & Hc & H0). unfold produces. cbn [format_loop]. rewrite Ec. cbn [liftF mbind F_bind].
  destruct (Z.eqb_spec c 0) as [E0|E0]; [exists []; split; [intros maxsize Hm; apply emits_nil|cbn; lia]|].
  assert (f < length s)%nat as Hlt by (destruct (decide (f = length s)) as [E|]; [by apply H0 in E|lia]).
  destruct (Z.eqb_spec c (chr "%")) as [->|Ep]; cbn [negb].
  - destruct (conversion_at sub f Hlt Hc Hsub) as (f' & txt & Hf' & Hmax & Hconv).
    destruct (IH (S f')) as (rest & Hrest & Hmax'); [lia|lia|]. exists (txt ++ rest). split.
    + intros maxsize Hm. by apply (Hconv (λ maxsize f, format_loop mktime tzname sub fuel maxsize fmt t f) rest).
    + intros Hp. specialize (Hmax Hp). specialize (Hmax' Hp). rewrite length_app. nia.
  - destruct (IH (S f)) as (rest & Hrest & Hmax'); [lia|lia|]. exists ([c] ++ rest). split.
    + intros maxsize Hm. apply (emits_bind maxsize (add maxsize (-1) 0 1 (put [c])) _ [c] rest); [|by apply Hrest].
      apply (add_emits maxsize (-1) 0 (put [c]) [c]); [done|done|done|apply put_stores].
    + intros Hp. specialize (Hmax' Hp). rewrite length_app. cbn [length]. nia.
Qed.
End Format.

(** The call with a given format stores the text. *)
Lemma internal_store depth s txt l p max : produces (λ maxsize, format_loop mktime tzname (strftime_internal mktime tzname depth t)
    (length (s ++ [0])) maxsize (s ++ [0]) t 0) txt →
  Z.of_nat (length txt) < max < 2 ^ 64 → (p + length txt < length l)%nat →
  strftime_internal mktime tzname (S depth) t (Some l) p max (s ++ [0]) =
  Ok (Z.of_nat (length txt), Some (take p l ++ txt ++ 0 :: drop (S (p + length txt)) l)).
Proof.
  clear Hmk Hzone. intros Hp Hm Hr. cbn [strftime_internal].
  destruct (em_fits _ _ _ (Hp max ltac:(lia)) (Out (Some l) p 0)) as (b' & E & Hi & Hb); [done|cbn; lia|done|].
  cbn beta in E. rewrite E. cbn [mbind res_bind]. cbn in Hb, Hi. destruct Hb as (Ep & c & ->).
  destruct (Z.eqb_spec max 0); [lia|]. cbn [negb]. rewrite Ep, Hi.
  assert (length (take p l ++ txt) = p + length txt)%nat as Ht by (rewrite length_app, length_take; lia).
  rewrite blit_ok by (rewrite app_assoc, length_app, Ht; cbn [length]; rewrite length_drop; lia). cbn [mbind res_bind].
  rewrite !(app_assoc (take p l) txt), take_app_length' by done. rewrite Z.add_0_l. do 4 f_equal. cbn [app length]. f_equal.
  rewrite <-Ht, drop_app_add. by rewrite Ht.
Qed.

Lemma internal_full depth s txt l max : produces (λ maxsize, format_loop mktime tzname (strftime_internal mktime tzname depth t)
    (length (s ++ [0])) maxsize (s ++ [0]) t 0) txt →
  0 < max < 2 ^ 64 → max ≤ Z.of_nat (length txt) ∧ max ≤ Z.of_nat (length l) →
  ∃ l', strftime_internal mktime tzname (S depth) t (Some l) 0 max (s ++ [0]) = Ok (0, Some l') ∧ length l' = length l ∧
    drop (Z.to_nat max) l' = drop (Z.to_nat max) l.
Proof.
  intros Hp Hm Hl. cbn [strftime_internal].
  destruct (em_full _ _ _ (Hp max ltac:(lia)) 0%nat (Out (Some l) 0 0)) as (r & E & Hc); [|cbn; lia|].
  { split; cbn; [lia|]. split; [done|lia]. }
  cbn beta in E. rewrite E. cbn [mbind res_bind]. unfold confined in Hc. cbn [s_buf] in Hc.
  destruct r as [l'|]; [|done]. destruct Hc as (L & _ & D). by exists l'.
Qed.

Lemma internal_stores depth s txt : produces (λ maxsize, format_loop mktime tzname (strftime_internal mktime tzname depth t)
    (length (s ++ [0])) maxsize (s ++ [0]) t 0) txt →
  Z.of_nat (length txt) ≤ INT_MAX → sub_ok (strftime_internal mktime tzname (S depth) t) s txt.
Proof.
  intros Hp Hl. split; [done| |intros l p max Hm Hr; by apply internal_store]. cbn [strftime_internal].
  destruct (em_fits _ _ _ (Hp (2 ^ 64 - 1) ltac:(lia)) (Out None 0 0)) as (b' & E & Hi & Hb); [done|unfold INT_MAX in *; cbn; lia|done|].
  cbn beta in E. rewrite E. cbn [mbind res_bind]. cbn in Hb, Hi. by rewrite Hb, Hi.
Qed.

Lemma sub_formats_stored x : x ∈ sub_formats → ∃ txt, sub_ok (strftime_internal mktime tzname 1 t) x txt.
Proof.
  intros Hx. assert (plain x ∧ Forall (λ c, c ≠ 0) x ∧ (length x ≤ 20)%nat) as (Hp & Hnz & Hl).
  { assert (Forall (λ x, plain x ∧ Forall (λ c, c ≠ 0) x ∧ (length x ≤ 20)%nat) sub_formats) as HF.
    { unfold plain. repeat constructor; try (apply (bool_decide_unpack _); vm_compute; exact I). }
    by apply (proj1 (Forall_forall _ _) HF). }
  destruct (format_loop_produces x Hnz ltac:(lia) (strftime_internal mktime tzname 0 t) (length (x ++ [0])) 0) as (txt & Ht & Hmax);
    [lia|lia|by left|]. exists txt. apply internal_stores; [done|]. specialize (Hmax Hp).
  unfold conversion_max, ZONE_MAX, INT_MAX in *. rewrite length_app in *. cbn [length] in *. nia.
Qed.

(** ** Theorems *)

(** C28: For every format and time there is a text, the same for every buffer, such
    that [strftime] stores the text and a NUL and returns its length when that is
    less than [maxsize], and otherwise returns 0; bytes from [maxsize] on are never
    touched, and the format is never read past its NUL. *)
Theorem strftime_exact format : Forall (λ c, c ≠ 0) format → Z.of_nat (length format) < 2 ^ 30 →
  ∃ txt, ∀ s maxsize, 0 < maxsize ≤ Z.of_nat (length s) → maxsize < 2 ^ 64 →
    if decide (Z.of_nat (length txt) < maxsize)
    then strftime_l mktime tzname s maxsize format t = Ok (Z.of_nat (length txt), txt ++ 0 :: drop (S (length txt)) s)
    else ∃ s', strftime_l mktime tzname s maxsize format t = Ok (0, s') ∧ length s' = length s ∧
      drop (Z.to_nat maxsize) s' = drop (Z.to_nat maxsize) s.
Proof.
  intros Hnz Hl.
  destruct (format_loop_produces format Hnz Hl (strftime_internal mktime tzname 1 t) (length (format ++ [0])) 0) as (txt & Ht & _);
    [lia|lia|right; apply sub_formats_stored|].
  exists txt. intros s maxsize Hm Hbig. unfold strftime_l. destruct (decide _) as [Hf|Hf].
  - rewrite (internal_store 1 format txt s 0 maxsize Ht) by lia. done.
  - destruct (internal_full 1 format txt s maxsize Ht) as (s' & -> & Hs'); [lia|lia|]. by exists s'.
Qed.
End Conversions.

(** ** The formats of the program *)

Lemma literal_step mktime tzname t sub fuel maxsize fmt f b c : fmt !! f = Some c → (c =? 0) = false → (c =? chr "%") = false →
  format_loop mktime tzname sub (S fuel) maxsize fmt t f b =
  (b ← add maxsize (-1) 0 1 (put [c]) b; format_loop mktime tzname sub fuel maxsize fmt t (S f) b).
Proof. intros Hc E0 Ep. cbn [format_loop]. unfold char_at. rewrite Hc. cbn [liftF mbind F_bind]. by rewrite E0, Ep. Qed.

(** A numeric conversion without flags, width and modifier. *)
Lemma number_step mktime tzname t sub fuel maxsize fmt f b c d v : fmt !! f = Some (chr "%") → fmt !! S f = Some c →
  c ∈ lit "Ymd" → conversion tzname c 0 false false t = Number d v → (1 < length fmt)%nat →
  format_loop mktime tzname sub (S fuel) maxsize fmt t f b =
  (b ← do_number maxsize (-1) 0 (if -1 <? d then d else -1) (int32 v) false false b;
   format_loop mktime tzname sub fuel maxsize fmt t (S (S f)) b).
Proof.
  intros Hp Hc Hin Hv Hl.
  assert (char_at fmt f = Ok (chr "%") ∧ char_at fmt (S f) = Ok c) as [Ef Ec] by (unfold char_at; by rewrite Hp, Hc).
  assert (((c =? chr "_") || (c =? chr "-") || (c =? chr "0")) = false ∧ (c =? chr "^") = false ∧ (c =? chr "#") = false ∧
    ISDIGIT c = false ∧ ((c =? chr "E") || (c =? chr "O")) = false ∧ (c =? 0) = false) as (E1 & E2 & E3 & E4 & E5 & E6).
  { change (lit "Ymd") with [89; 109; 100] in Hin. set_unfold. by destruct Hin as [->|[->|[->|?]]]. }
  assert (flags_loop (length fmt) fmt f 0 false false = Ok (S f, 0, false, false)) as Efl.
  { destruct (length fmt) as [|n]; [lia|]. cbn [flags_loop]. rewrite Ec. cbn [mbind res_bind]. by rewrite E1, E2, E3. }
  cbn [format_loop]. rewrite Ef. cbn [liftF mbind F_bind]. change (chr "%" =? 0) with false. change (chr "%" =? chr "%") with true.
  cbn [negb]. rewrite Efl. cbn [liftF mbind F_bind]. rewrite Ec. cbn [liftF mbind F_bind]. rewrite E4. cbn [liftF mbind F_bind].
  rewrite Ec. cbn [liftF mbind F_bind]. rewrite E5, Ec. cbn [liftF mbind F_bind]. by rewrite E6, Hv.
Qed.

Lemma number_text_pad (d : nat) v : 0 ≤ v ≤ 2 ^ 63 → (1 ≤ d)%nat →
  number_text (-1) 0 (Z.of_nat d) false false (v <? 0) (show_nat (Z.abs v)) = show_pad d v.
Proof.
  intros Hv Hd. unfold number_text, show_pad. destruct (Z.ltb_spec v 0); [lia|]. cbn [app case_text].
  change (negb (0 =? chr "-")) with true. change (0 =? chr "_") with false. cbn [andb].
  destruct (Z.ltb_spec 0 (Z.of_nat d - Z.of_nat (length (show_nat (Z.abs v))))) as [Hp|Hp].
  - rewrite pad_text_0. do 2 f_equal. lia.
  - unfold pad_text. replace (Z.to_nat (-1 - _)) with 0%nat by lia. by replace (d - _)%nat with 0%nat by lia.
Qed.

Lemma show_pad_1 v : 0 ≤ v < 10 ^ 4 → show_pad 1 v = show_int v.
Proof.
  intros Hv. unfold show_pad, show_int. rewrite Z.abs_eq by lia. destruct (Z.ltb_spec v 0); [lia|].
  pose proof (show_nat_length v 4 Hv ltac:(lia)). by replace (1 - _)%nat with 0%nat by lia.
Qed.

Lemma emits_ext maxsize m m' txt : (∀ b, m b = m' b) → emits maxsize m' txt → emits maxsize m txt.
Proof. intros E [H1 H2]. split; intros; rewrite E; eauto. Qed.

Section Steps.
  Context (mktime : ltm → Z) (tzname : Z → list Z) (t : ltm) (sub : call) (fmt : list Z) (fuel f : nat).
Let loop (fuel f : nat) (maxsize : Z) : out → F out := format_loop mktime tzname sub fuel maxsize fmt t f.

Lemma end_produces : fmt !! f = Some 0 → produces (loop (S fuel) f) [].
Proof.
  intros Hc maxsize Hm. eapply emits_ext; [|apply emits_nil]. intros b. unfold loop. cbn [format_loop].
  unfold char_at. by rewrite Hc.
Qed.

Lemma literal_produces c rest : fmt !! f = Some c → (c =? 0) = false → (c =? chr "%") = false →
  produces (loop fuel (S f)) rest → produces (loop (S fuel) f) (c :: rest).
Proof.
  intros Hc E0 Ep Hr maxsize Hm. eapply emits_ext; [intros b; by apply literal_step|].
  apply (emits_bind maxsize (add maxsize (-1) 0 1 (put [c])) _ [c] rest); [|by apply Hr].
  by apply (add_emits maxsize (-1) 0 (put [c]) [c]); [| | |apply put_stores].
Qed.

Lemma number_produces c (d : nat) v rest : fmt !! f = Some (chr "%") → fmt !! S f = Some c → c ∈ lit "Ymd" →
  conversion tzname c 0 false false t = Number (Z.of_nat d) v → (1 < length fmt)%nat → (1 ≤ d ≤ 4)%nat → 0 ≤ v < 2 ^ 31 →
  produces (loop fuel (S (S f))) rest → produces (loop (S fuel) f) (show_pad d v ++ rest).
Proof.
  intros Hp Hc Hin Hcv Hl Hd Hv Hr maxsize Hm. eapply emits_ext; [intros b; by eapply number_step|].
  apply (emits_bind maxsize (do_number _ _ _ _ _ _ _)); [|by apply Hr].
  destruct (Z.ltb_spec (-1) (Z.of_nat d)); [|lia]. rewrite int32_small by lia.
  rewrite <-number_text_pad by lia. apply do_number_emits; unfold INT_MAX; lia.
Qed.
End Steps.

Lemma program_formats mktime tzname t depth fmt : tm_ok (ft_tm (l_full t)) → fmt ∈ [lit "%Y-%m-%d"; lit "%Y%m%d"] →
  produces (λ maxsize, format_loop mktime tzname (strftime_internal mktime tzname depth t) (length (fmt ++ [0])) maxsize (fmt ++ [0]) t 0)
    (strftime_body fmt (ft_tm (l_full t))).
Proof.
  intros (_ & _ & _ & Hd & Hm & Hy) Hin. set (tm := ft_tm (l_full t)) in *.
  assert (show_int (tm_year tm + 1900) = show_pad 1 (tm_year tm + 1900)) as Ey by (rewrite show_pad_1; [done|lia]).
  set_unfold in Hin. destruct Hin as [->|[->|[]]].
  - rewrite strftime_day. unfold day_text. rewrite Ey, <-(app_nil_r (show_pad 2 (tm_mday tm))).
    change (length (lit "%Y-%m-%d" ++ [0])) with 9%nat. cbn [app].
    apply (number_produces _ _ _ _ _ 8 0 (chr "Y") 1); [done..|apply (bool_decide_unpack _); vm_compute; exact I|done|cbn; lia|lia|lia|].
    change (lit "-") with [45]. cbn [app]. apply literal_produces; [done..|].
    apply (number_produces _ _ _ _ _ 6 3 (chr "m") 2); [done..|apply (bool_decide_unpack _); vm_compute; exact I|done|cbn; lia|lia|lia|].
    apply literal_produces; [done..|].
    apply (number_produces _ _ _ _ _ 4 6 (chr "d") 2); [done..|apply (bool_decide_unpack _); vm_compute; exact I|done|cbn; lia|lia|lia|].
    by apply end_produces.
  - rewrite strftime_daydir. unfold daydir_text. rewrite Ey, <-(app_nil_r (show_pad 2 (tm_mday tm))).
    change (length (lit "%Y%m%d" ++ [0])) with 7%nat.
    apply (number_produces _ _ _ _ _ 6 0 (chr "Y") 1); [done..|apply (bool_decide_unpack _); vm_compute; exact I|done|cbn; lia|lia|lia|].
    apply (number_produces _ _ _ _ _ 5 2 (chr "m") 2); [done..|apply (bool_decide_unpack _); vm_compute; exact I|done|cbn; lia|lia|lia|].
    apply (number_produces _ _ _ _ _ 4 4 (chr "d") 2); [done..|apply (bool_decide_unpack _); vm_compute; exact I|done|cbn; lia|lia|lia|].
    by apply end_produces.
Qed.

(** C29: On the formats of the program [strftime] with the limit 11 does what the
    program is verified against, for every time with a four-digit year: the same
    bytes in the buffer, and the length as its result. *)
Theorem strftime_refines mktime tzname t fmt dst : tm_ok (ft_tm (l_full t)) → fmt ∈ [lit "%Y-%m-%d"; lit "%Y%m%d"] →
  (11 ≤ length dst)%nat →
  ∃ l, strftime_l mktime tzname dst 11 fmt t = Ok (Z.of_nat (length (strftime_body fmt (ft_tm (l_full t)))), l) ∧
    strftime dst 11 fmt (ft_tm (l_full t)) = Ok l.
Proof.
  intros Hok Hin Hl. set (txt := strftime_body fmt (ft_tm (l_full t))).
  assert (length txt < 11)%nat as Ht.
  { unfold txt. set_unfold in Hin. destruct Hin as [->|[->|[]]].
    - rewrite strftime_day. destruct (day_text_ok _ Hok). lia.
    - rewrite strftime_daydir. destruct (daydir_text_ok _ Hok). lia. }
  unfold strftime_l, strftime. rewrite (internal_store mktime tzname t 1 fmt txt dst 0 11) by (lia || by apply program_formats).
  fold txt. rewrite decide_True by done. eexists. split; [done|]. rewrite blit_ok by (rewrite length_app; cbn; lia).
  cbn [Nat.add]. rewrite take_0, length_app, <-app_assoc. cbn [app length]. by rewrite Nat.add_1_r.
Qed.

(** ** Witnesses *)

Definition sample_time : ltm := Ltm (FullTm (mkTm 5 30 10 6 10 122) 0 309) 0 28800 (Some (lit "CST")).

Lemma strftime_exact_witness :
  ∃ txt, strftime_l (λ _, 1667730605) (λ _, lit "UTC") (zeros 40) 40 (lit "%c %Z") sample_time =
      Ok (Z.of_nat (length txt), txt ++ 0 :: drop (S (length txt)) (zeros 40)) ∧ length txt = 28%nat.
Proof.
  destruct (strftime_exact (λ _, 1667730605) (λ _, lit "UTC") sample_time) with (format := lit "%c %Z") as [txt Ht].
  - split; [discriminate|reflexivity].
  - apply Nat.leb_le. reflexivity.
  - repeat constructor; discriminate.
  - reflexivity.
  - specialize (Ht (zeros 40) 40 ltac:(split; [reflexivity|vm_compute; discriminate]) ltac:(reflexivity)).
    assert (∃ s, strftime_l (λ _, 1667730605) (λ _, lit "UTC") (zeros 40) 40 (lit "%c %Z") sample_time = Ok (28, s)) as [s E]
      by (eexists; vm_compute; reflexivity).
    destruct (decide _) as [Hf|Hf].
    + exists txt. split; [exact Ht|]. rewrite E in Ht. injection Ht as Hn _. lia.
    + exfalso. destruct Ht as (s' & Hs & _). rewrite E in Hs. discriminate Hs.
Defined.

Lemma strftime_refines_witness :
  ∃ l, strftime_l (λ _, 0) (λ _, []) (zeros 20) 11 (lit "%Y%m%d") sample_time = Ok (8, l) ∧
    l = lit "20221106" ++ zeros 12.
Proof.
  destruct (strftime_refines (λ _, 0) (λ _, []) sample_time (lit "%Y%m%d") (zeros 20)) as (l & E & Em).
  - unfold tm_ok. cbn. lia.
  - apply (bool_decide_unpack _). vm_compute. exact I.
  - cbn. lia.
  - exists l. split; [exact E|]. vm_compute in Em. injection Em as <-. reflexivity.
Defined.
