(* ===== verification/StdioRead.v ===== *)
(** * glibc: reading through a buffered stream

    [fgets] (libio/iofgets.c, iogetline.c) and [fread] (libio/iofread.c) over the
    buffer of a stream opened for reading ([_IO_new_file_underflow] and
    [_IO_file_xsgetn] of libio/fileops.c, [__uflow] of libio/genops.c).  The
    program reads engine.conf with the one and recordings with the other.

    A stream is what its pointers delimit: the bytes between [_IO_read_ptr] and
    [_IO_read_end], the size of the buffer, the flags, and the part of the file
    that [read] has not delivered yet.  How many bytes each [read] delivers and
    whether it fails is up to the operating system (class [Reads]).  The stream
    is narrow, never written to and has no pushed-back characters, as is the case for
    a stream from [fopen (.., "r")] that is only read.

    The theorems: however the kernel cuts the file into pieces, [fgets] stores what
    the one-step [fgets] of Machine.v stores, and [fread] stores the next bytes of
    the file; a failing [read] is reported. *)

From S2P Require Import Prelude CString Machine.

(** ** Streams *)

Record stream := mkStream {
  s_area : list Z;        (* the bytes from _IO_read_ptr to _IO_read_end *)
  s_buf : option nat;     (* _IO_buf_end - _IO_buf_base, None for no buffer yet *)
  s_err : bool;           (* _IO_ERR_SEEN *)
  s_eof : bool;           (* _IO_EOF_SEEN *)
  s_offset : option Z;    (* _offset, None for _IO_pos_BAD *)
  s_rest : list Z;        (* what read has not delivered yet *)
  s_reads : nat;          (* read calls made on it *)
  s_errno : Z;            (* errno *)
}.

(** The answer of the [n]-th [read] for at most [want] bytes when [left] remain:
    an errno, or how many bytes it delivers. *)
Class Reads := {
  sys_read : nat → nat → nat → Z + nat;
  sys_bufsize : nat;      (* what _IO_file_doallocate chooses, or 1 *)
}.

(** POSIX: a [read] delivers no more than asked for and than there is, and
    nothing only at the end of the file. *)
Class ReadLaws `{Reads} : Prop := {
  read_bound : ∀ n want left k, sys_read n want left = inr k → (k ≤ want ∧ k ≤ left)%nat;
  read_eof : ∀ n want left, sys_read n want left = inr 0%nat → want = 0%nat ∨ left = 0%nat;
  bufsize_pos : (0 < sys_bufsize)%nat;
}.

Definition set_area (a : list Z) (s : stream) : stream :=
  mkStream a (s_buf s) (s_err s) (s_eof s) (s_offset s) (s_rest s) (s_reads s) (s_errno s).
Definition set_buf (b : option nat) (s : stream) : stream :=
  mkStream (s_area s) b (s_err s) (s_eof s) (s_offset s) (s_rest s) (s_reads s) (s_errno s).
Definition set_flags (err eof : bool) (s : stream) : stream :=
  mkStream (s_area s) (s_buf s) err eof (s_offset s) (s_rest s) (s_reads s) (s_errno s).
Definition set_offset (o : option Z) (s : stream) : stream :=
  mkStream (s_area s) (s_buf s) (s_err s) (s_eof s) o (s_rest s) (s_reads s) (s_errno s).

Section Ops.
Context `{Reads}.

(** [_IO_SYSREAD (fp, p, want)]: the count and the bytes. *)
Definition SYSREAD (want : nat) (s : stream) : Z * list Z * stream :=
  match sys_read (s_reads s) want (length (s_rest s)) with
  | inl e =>
      (-1, [], mkStream (s_area s) (s_buf s) (s_err s) (s_eof s) (s_offset s)
                 (s_rest s) (S (s_reads s)) e)
  | inr k =>
      (Z.of_nat k, take k (s_rest s),
       mkStream (s_area s) (s_buf s) (s_err s) (s_eof s) (s_offset s)
         (drop k (s_rest s)) (S (s_reads s)) (s_errno s))
  end.

(** [if (fp->_IO_buf_base == NULL) _IO_doallocbuf (fp)] *)
Definition doallocbuf (s : stream) : nat * stream :=
  match s_buf s with
  | Some n => (n, s)
  | None => (sys_bufsize, set_buf (Some sys_bufsize) s)
  end.

Definition pos_adjust (count : Z) (s : stream) : stream :=
  match s_offset s with Some o => set_offset (Some (o + count)) s | None => s end.

(** [int _IO_new_file_underflow (_IO_FILE *fp)]; [None] is EOF. *)
Definition underflow (s : stream) : option Z * stream :=
  match s_area s with
  | c :: _ => (Some c, s)
  | [] =>
      let '(size, s) := doallocbuf s in
      let '(count, bytes, s) := SYSREAD size (set_area [] s) in
      let s :=
        if count <=? 0 then
          if count =? 0 then set_flags (s_err s) true s else set_flags true (s_eof s) s
        else s in
      let count := if count <? 0 then 0 else count in
      let s := set_area bytes s in
      if count =? 0 then (None, set_offset None s)
      else (hd_error bytes, pos_adjust count s)
  end.

(** [int _IO_default_uflow (_IO_FILE *fp)] *)
Definition default_uflow (s : stream) : option Z * stream :=
  match underflow s with
  | (None, s) => (None, s)
  | (Some _, s) => (hd_error (s_area s), set_area (tl (s_area s)) s)
  end.

(** [int __uflow (_IO_FILE *fp)], for a stream without backup area and markers. *)
Definition uflow (s : stream) : option Z * stream :=
  match s_area s with
  | c :: a => (Some c, set_area a s)
  | [] => default_uflow s
  end.

(** The documented result of [memchr] (WordScan has the implementation). *)
Definition memchr (l : list Z) (c : Z) : option nat := fst <$> list_find (eq c) l.

(** The loop of [_IO_getline_info]; [got] is [ptr - buf]. *)
Fixpoint getline_loop (fuel : nat) (buf : list Z) (got n : nat) (delim extract_delim : Z)
    (s : stream) : res (nat * list Z * stream) :=
  match fuel with
  | O => Bad Unspecified
  | S fuel' =>
      if decide (n = 0%nat) then Ok (got, buf, s)
      else
        match s_area s with
        | [] =>
            match uflow s with
            | (None, s) => Ok (got, buf, s)
            | (Some c, s) =>
                if c =? delim then
                  if 0 <? extract_delim then
                    buf ← blit buf got [c];
                    Ok (S got, buf, s)
                  else
                    Ok (got, buf, if extract_delim <? 0
                                  then set_flags (s_err s) false (set_area (c :: s_area s) s) else s)
                else
                  buf ← blit buf got [c];
                  getline_loop fuel' buf (S got) (n - 1) delim extract_delim s
            end
        | area =>
            let len := length area in
            let len := if decide (n ≤ len)%nat then n else len in
            match memchr (take len area) delim with
            | Some t =>
                let len := if 0 <? extract_delim then S t else t in
                let t := if 0 <=? extract_delim then S t else t in
                buf ← blit buf got (take len area);
                Ok ((got + len)%nat, buf, set_area (drop t area) s)
            | None =>
                buf ← blit buf got (take len area);
                getline_loop fuel' buf (got + len) (n - len) delim extract_delim (set_area (drop len area) s)
            end
        end
  end.

Definition IO_getline (buf : list Z) (n : nat) (delim extract_delim : Z) (s : stream)
    : res (nat * list Z * stream) :=
  getline_loop (S n) buf 0 n delim extract_delim s.

(** [char *_IO_fgets (char *buf, int n, _IO_FILE *fp)]: [None] is NULL; the
    contents of [buf] are returned in both cases. *)
Definition IO_fgets (buf : list Z) (n : Z) (s : stream) : res (bool * list Z * stream) :=
  if n <=? 0 then Ok (false, buf, s)
  else if n =? 1 then buf ← blit buf 0 [0]; Ok (true, buf, s)
  else
    let old_error := s_err s in
    let s := set_flags false (s_eof s) s in
    r ← IO_getline buf (Z.to_nat (n - 1)) 10 1 s;
    let '(count, buf, s) := r in
    let finish s := set_flags (s_err s || old_error) (s_eof s) s in
    if (Z.of_nat count =? 0) || (s_err s && negb (s_errno s =? EAGAIN))
    then Ok (false, buf, finish s)
    else
      buf ← blit buf count [0];
      Ok (true, buf, finish s).

(** The loop of [_IO_file_xsgetn]; [got] is [s - data]. *)
Fixpoint xsgetn_loop (fuel : nat) (data : list Z) (got want : nat) (s : stream)
    : res (nat * list Z * stream) :=
  match fuel with
  | O => Bad Unspecified
  | S fuel' =>
      if decide (want = 0%nat) then Ok (want, data, s)
      else
        let have := length (s_area s) in
        if decide (want ≤ have)%nat then
          data ← blit data got (take want (s_area s));
          xsgetn_loop fuel' data (got + want) 0 (set_area (drop want (s_area s)) s)
        else
          data ← (if decide (0 < have)%nat then blit data got (s_area s) else Ok data);
          let got := (got + have)%nat in
          let want := (want - have)%nat in
          let s := set_area [] s in
          let size := default 0%nat (s_buf s) in
          if decide (want < size)%nat then
            match underflow s with
            | (None, s) => Ok (want, data, s)
            | (Some _, s) => xsgetn_loop fuel' data got want s
            end
          else
            let count := if decide (128 ≤ size)%nat then (want - want `mod` size)%nat else want in
            let '(count, bytes, s) := SYSREAD count s in
            if count <=? 0 then
              Ok (want, data,
                  if count =? 0 then set_flags (s_err s) true s else set_flags true (s_eof s) s)
            else
              data ← blit data got bytes;
              xsgetn_loop fuel' data (got + Z.to_nat count) (want - Z.to_nat count) (pos_adjust count s)
  end.

Definition IO_file_xsgetn (data : list Z) (n : nat) (s : stream) : res (nat * list Z * stream) :=
  let '(_, s) := doallocbuf s in
  r ← xsgetn_loop (2 * n + 2) data 0 n s;
  let '(want, data, s) := r in
  Ok ((n - want)%nat, data, s).

(** [_IO_size_t _IO_fread (void *buf, _IO_size_t size, _IO_size_t count, _IO_FILE *fp)] *)
Definition IO_fread (buf : list Z) (size count : Z) (s : stream) : res (Z * list Z * stream) :=
  let bytes_requested := uint64 (size * count) in
  if bytes_requested =? 0 then Ok (0, buf, s)
  else
    r ← IO_file_xsgetn buf (Z.to_nat bytes_requested) s;
    let '(bytes_read, buf, s) := r in
    Ok (if bytes_requested =? Z.of_nat bytes_read then count else Z.of_nat bytes_read / size, buf, s).
End Ops.


(** ** What is still to be read *)

Definition unread (s : stream) : list Z := s_area s ++ s_rest s.

(** An allocated buffer is not empty. *)
Definition stream_ok (s : stream) : Prop := ∀ n, s_buf s = Some n → (0 < n)%nat.

(** Every [read] succeeds. *)
Definition reliable `{Reads} : Prop := ∀ n want left, ∃ k, sys_read n want left = inr k.

Lemma blit_twice b off l1 l2 :
  (b' ← blit b off l1; blit b' (off + length l1) l2) = blit b off (l1 ++ l2).
Proof.
  unfold blit. rewrite length_app. destruct (decide (off + length l1 ≤ length b)%nat) as [Hf|Hf]; cbn [mbind res_bind].
  2: { rewrite decide_False by lia. done. }
  rewrite !length_app, length_take, length_drop.
  destruct (decide (off + (length l1 + length l2) ≤ length b)%nat) as [Hf2|Hf2].
  2: { by rewrite decide_False by lia. }
  rewrite decide_True by lia. f_equal.
  rewrite (app_assoc (take off b) l1).
  rewrite take_app_length' by (rewrite length_app, length_take; lia).
  rewrite drop_app_ge by (rewrite length_app, length_take; lia).
  rewrite drop_drop, <-!app_assoc. do 4 f_equal. rewrite length_app, length_take. lia.
Qed.

Lemma blit_nil b off : (off ≤ length b)%nat → blit b off [] = Ok b.
Proof.
  intros Hl. unfold blit. cbn [length]. rewrite decide_True by lia. rewrite Nat.add_0_r. cbn [app].
  by rewrite take_drop.
Qed.

Lemma blit_fits b off l b' : blit b off l = Ok b' → (off + length l ≤ length b')%nat ∧ length b' = length b.
Proof.
  intros E. pose proof (blit_length _ _ _ _ E) as Hl. unfold blit in E. case_decide; [|done]. lia.
Qed.

(** The line in a list whose beginning is in the buffer. *)
Lemma line_of_found n a r t :
  memchr (take n a) 10 = Some t → line_of n (a ++ r) = take (S t) a ∧ (t < length a)%nat.
Proof.
  unfold memchr. revert n t. induction a as [|c a IH]; intros [|n] t; cbn [take list_find]; try done.
  destruct (decide (10 = c)) as [<-|Hc].
  - intros E. cbn in E. injection E as <-. split; [done|cbn; lia].
  - intros E. destruct (list_find (eq 10) (take n a)) as [[i x]|] eqn:El; [|done].
    cbn in E. injection E as <-. destruct (IH n i) as [Hi Hl]; [by rewrite El|].
    cbn [app line_of]. destruct (Z.eqb_spec c 10); [congruence|]. rewrite Hi. split; [done|cbn; lia].
Qed.
Lemma line_of_missing n a r :
  memchr (take n a) 10 = None →
  line_of n (a ++ r) = take n a ++ line_of (n - length a) (drop n a ++ r).
Proof.
  unfold memchr. revert n. induction a as [|c a IH]; intros [|n]; cbn [take list_find app length]; try done.
  intros E. destruct (decide (10 = c)) as [<-|Hc]; [done|].
  destruct (list_find (eq 10) (take n a)) as [[i x]|] eqn:El; [done|].
  cbn [line_of]. destruct (Z.eqb_spec c 10); [congruence|]. rewrite IH by (by rewrite El). done.
Qed.

(** ** Refilling the buffer *)

Section Reading.
Context `{ReadLaws}.

Lemma doallocbuf_ok s : stream_ok s →
  let '(size, s') := doallocbuf s in
  (0 < size)%nat ∧ s_buf s' = Some size ∧ stream_ok s' ∧ unread s' = unread s ∧ s_area s' = s_area s ∧
  s_rest s' = s_rest s ∧ s_err s' = s_err s ∧ s_reads s' = s_reads s ∧ s_errno s' = s_errno s.
Proof.
  intros Hs. unfold doallocbuf. destruct (s_buf s) as [n|] eqn:E.
  - split_and!; try done. by apply Hs.
  - pose proof bufsize_pos as Hp. split_and!; try done. intros m Hm. cbn in Hm. congruence.
Qed.

(** A [read] into an empty area that succeeds. *)
Lemma SYSREAD_ok want s :
  reliable → (0 < want)%nat →
  ∃ k s', SYSREAD want s = (Z.of_nat k, take k (s_rest s), s') ∧ (k ≤ want)%nat ∧ (k ≤ length (s_rest s))%nat ∧
    (k = 0%nat → s_rest s = []) ∧ s_rest s' = drop k (s_rest s) ∧ s_area s' = s_area s ∧
    s_buf s' = s_buf s ∧ s_err s' = s_err s.
Proof.
  intros Hr Hw. unfold SYSREAD. destruct (Hr (s_reads s) want (length (s_rest s))) as [k E]. rewrite E.
  destruct (read_bound _ _ _ _ E) as [H1 H2]. exists k. eexists. split; [done|]. split_and!; try done.
  intros ->. apply read_eof in E as [E|E]; [lia|]. by apply nil_length_inv.
Qed.

(** At the end of the file nothing changes but flags; otherwise the next byte
    is in the area and what is unread is unchanged. *)
Lemma underflow_spec s :
  reliable → stream_ok s → s_area s = [] →
  ∃ s', underflow s = (head (unread s), s') ∧ unread s' = unread s ∧ stream_ok s' ∧ s_err s' = s_err s ∧
    (s_buf s ≠ None → s_buf s' = s_buf s) ∧ (unread s ≠ [] → s_area s' ≠ []).
Proof.
  intros Hr Hs Ha. unfold underflow. rewrite Ha.
  pose proof (doallocbuf_ok s Hs) as Hd. destruct (doallocbuf s) as [size s1] eqn:Ed.
  destruct Hd as (Hsz & Hb & Hs1 & Hu & Ha1 & Hr1 & He & _).
  destruct (SYSREAD_ok size (set_area [] s1) Hr Hsz) as (k & s2 & E & Hk1 & Hk2 & Hk0 & Hr2 & Ha2 & Hb2 & He2).
  rewrite E. cbn [set_area s_rest s_area s_buf s_err] in *. rewrite Hr1 in *.
  assert (s_buf s ≠ None → s_buf s1 = s_buf s) as Hbb.
  { unfold doallocbuf in Ed. by destruct (s_buf s); injection Ed as <- <-. }
  assert (∀ x, s_buf x = s_buf s1 → stream_ok x) as Hok.
  { intros x Hx n. rewrite Hx. apply Hs1. }
  assert (unread s = s_rest s) as Hus by (unfold unread; by rewrite Ha). rewrite Hus.
  destruct (decide (k = 0%nat)) as [->|Hk].
  - specialize (Hk0 eq_refl). rewrite Hk0 in *. change (Z.of_nat 0) with 0. cbn -[unread].
    eexists. split; [done|]. unfold unread. cbn. rewrite Hr2. cbn.
    split; [done|]. split; [by apply Hok|]. split; [congruence|]. split; [|done]. intros Hn. by rewrite Hb2, Hbb.
  - destruct (Z.leb_spec (Z.of_nat k) 0); [lia|]. destruct (Z.ltb_spec (Z.of_nat k) 0); [lia|].
    destruct (Z.eqb_spec (Z.of_nat k) 0); [lia|].
    assert (∀ x, s_area (pos_adjust (Z.of_nat k) x) = s_area x ∧ s_rest (pos_adjust (Z.of_nat k) x) = s_rest x ∧
      s_buf (pos_adjust (Z.of_nat k) x) = s_buf x ∧ s_err (pos_adjust (Z.of_nat k) x) = s_err x) as Hpa.
    { intros x. unfold pos_adjust. by destruct (s_offset x). }
    destruct (Hpa (set_area (take k (s_rest s)) s2)) as (P1 & P2 & P3 & P4).
    exists (pos_adjust (Z.of_nat k) (set_area (take k (s_rest s)) s2)). split.
    { destruct (s_rest s) as [|c l]; [cbn in Hk2; lia|]. destruct k; [done|]. done. }
    unfold unread. rewrite P1, P2, P3, P4. cbn. rewrite Hr2, take_drop.
    split; [done|]. split; [by apply Hok; rewrite P3|]. split; [congruence|].
    split; [intros Hn; by rewrite Hb2, Hbb|]. intros Hn. destruct (s_rest s); [done|]. by destruct k.
Qed.

Lemma uflow_spec s :
  reliable → stream_ok s → s_area s = [] →
  ∃ s', uflow s = (head (unread s), s') ∧ unread s' = tail (unread s) ∧ stream_ok s' ∧ s_err s' = s_err s.
Proof.
  intros Hr Hs Ha. destruct (underflow_spec s Hr Hs Ha) as (s1 & E & Hu & Hs1 & He & _ & Hne).
  unfold uflow, default_uflow. rewrite Ha, E. destruct (unread s) as [|c l] eqn:Eu; cbn [head].
  - exists s1. split; [done|]. split; [by rewrite Hu|done].
  - destruct (s_area s1) as [|x a] eqn:Ea; [by destruct Hne|].
    unfold unread in Hu. rewrite Ea in Hu. cbn in Hu. injection Hu as -> Hl.
    eexists. split; [done|]. cbn. by split_and!.
Qed.

(** ** [fgets] *)

Lemma getline_spec fuel : ∀ buf got n s,
  reliable → stream_ok s → (n < fuel)%nat → (got ≤ length buf)%nat →
  ∃ s', getline_loop fuel buf got n 10 1 s =
      (buf' ← blit buf got (line_of n (unread s)); Ok ((got + length (line_of n (unread s)))%nat, buf', s')) ∧
    unread s' = drop (length (line_of n (unread s))) (unread s) ∧ stream_ok s' ∧ s_err s' = s_err s.
Proof.
  induction fuel as [|fuel IH]; intros buf got n s Hr Hs Hn Hg; [lia|]. cbn [getline_loop].
  destruct (decide (n = 0%nat)) as [->|Hn0].
  { exists s. cbn [line_of length]. rewrite blit_nil by done. cbn. rewrite Nat.add_0_r, drop_0. done. }
  destruct n as [|n]; [done|]. destruct (s_area s) as [|x area] eqn:Ea.
  - destruct (uflow_spec s Hr Hs Ea) as (s1 & E & Hu & Hs1 & He). rewrite E.
    destruct (unread s) as [|c l] eqn:Eu; cbn [head tail] in *.
    { exists s1. cbn [line_of length]. rewrite blit_nil by done. cbn. by rewrite Nat.add_0_r. }
    cbn [line_of]. destruct (Z.eqb_spec c 10) as [->|Hc].
    { exists s1. cbn [Z.ltb Z.compare length drop]. by rewrite Nat.add_1_r, drop_0. }
    destruct (blit buf got [c]) as [b|e] eqn:Eb.
    + destruct (blit_fits _ _ _ _ Eb) as [Hf Hl]. cbn in Hf.
      destruct (IH b (S got) n s1 Hr Hs1 ltac:(lia) ltac:(lia)) as (s2 & E2 & Hu2 & Hs2 & He2).
      exists s2. cbn [mbind res_bind]. rewrite Nat.sub_succ, Nat.sub_0_r, E2, Hu.
      split; [|cbn [length drop]; rewrite Hu2, Hu; split; [done|]; split; [done|congruence]].
      change (c :: line_of n l) with ([c] ++ line_of n l).
      rewrite <-(blit_twice buf got [c] (line_of n l)), Eb. cbn [mbind res_bind]. change (length [c]) with 1%nat. rewrite Nat.add_1_r.
      by replace (got + length ([c] ++ line_of n l))%nat with (S got + length (line_of n l))%nat by (cbn; lia).
    + exists (set_area (drop (length (line_of n l)) l) (mkStream [] (s_buf s1) (s_err s1) false None [] 0 0)).
      change (c :: line_of n l) with ([c] ++ line_of n l).
      rewrite <-(blit_twice buf got [c] (line_of n l)), Eb. split; [done|].
      unfold unread. cbn. by rewrite app_nil_r.
  - rewrite <-Ea. set (m := if decide _ then _ else _).
    assert (take m (s_area s) = take (S n) (s_area s) ∧ m = Nat.min (S n) (length (s_area s))) as [Hm Hm'].
    { unfold m. case_decide; split; try lia; [done|]. by rewrite !take_ge by lia. }
    rewrite Hm. destruct (memchr (take (S n) (s_area s)) 10) as [t|] eqn:Et.
    + destruct (line_of_found _ _ (s_rest s) _ Et) as [El Hl]. fold (unread s) in El. rewrite El.
      cbn [Z.ltb Z.leb Z.compare]. rewrite length_take_le by lia.
      eexists. split; [done|]. cbn. unfold unread. cbn. rewrite drop_app_le by lia. done.
    + pose proof (line_of_missing _ _ (s_rest s) Et) as El. fold (unread s) in El. rewrite El.
      assert (take (S n) (s_area s) ≠ []) as Hne by (by rewrite Ea).
      assert (length (take (S n) (s_area s)) = m) as Hlm by (rewrite length_take; lia).
      assert (0 < m)%nat as Hm0 by (rewrite Hm', Ea; cbn; lia).
      assert (drop m (s_area s) = drop (S n) (s_area s)) as Hdm.
      { destruct (decide (S n ≤ length (s_area s))%nat); [by replace m with (S n) by lia|].
        by rewrite !drop_ge by lia. }
      assert (S n - m = S n - length (s_area s))%nat as Hnm by lia.
      destruct (blit buf got (take (S n) (s_area s))) as [b|e] eqn:Eb.
      * destruct (blit_fits _ _ _ _ Eb) as [Hf Hl]. rewrite Hlm in Hf.
        destruct (IH b (got + m)%nat (S n - m)%nat (set_area (drop m (s_area s)) s) Hr ltac:(done) ltac:(lia) ltac:(lia))
          as (s2 & E2 & Hu2 & Hs2 & He2).
        exists s2. cbn [mbind res_bind]. rewrite E2.
        assert (unread (set_area (drop m (s_area s)) s) = drop (S n) (s_area s) ++ s_rest s) as Hus
          by (unfold unread; cbn; by rewrite Hdm).
        rewrite Hus, Hnm in *. set (l2 := line_of _ _) in *. rewrite <-blit_twice, Eb. cbn [mbind res_bind].
        rewrite length_app, Hlm. split; [by rewrite Nat.add_assoc|]. split; [|done].
        rewrite Hu2. unfold unread. rewrite <-Hdm, <-drop_drop, (drop_app_le (s_area s)) by lia. done.
      * exists (set_area (drop (length (take (S n) (s_area s) ++ line_of (S n - length (s_area s)) (drop (S n) (s_area s) ++ s_rest s))) (unread s)) (mkStream [] (s_buf s) (s_err s) false None [] 0 0)).
        rewrite <-blit_twice, Eb. split; [done|]. unfold unread at 1. cbn. by rewrite app_nil_r.
Qed.

Lemma fgets_spec buf n s :
  reliable → stream_ok s → 2 ≤ n → s_err s = false →
  let l := line_of (Z.to_nat (n - 1)) (unread s) in
  ∃ s', IO_fgets buf n s =
      (if decide (l = []) then Ok (false, buf, s') else buf' ← blit buf 0 (l ++ [0]); Ok (true, buf', s')) ∧
    unread s' = drop (length l) (unread s) ∧ stream_ok s' ∧ s_err s' = false.
Proof.
  intros Hr Hs Hn He l. unfold IO_fgets.
  destruct (Z.leb_spec n 0); [lia|]. destruct (Z.eqb_spec n 1); [lia|]. unfold IO_getline.
  destruct (getline_spec (S (Z.to_nat (n - 1))) buf 0 (Z.to_nat (n - 1)) (set_flags false (s_eof s) s)
    Hr Hs ltac:(lia) ltac:(lia)) as (s1 & E & Hu & Hs1 & He1).
  change (unread (set_flags false (s_eof s) s)) with (unread s) in *. fold l in E, Hu. rewrite E, He. clearbody l.
  exists (set_flags (s_err s1 || false) (s_eof s1) s1). split; [|split_and!; try done; by rewrite orb_false_r].
  cbn [s_err set_flags] in He1. destruct (decide (l = [])) as [->|Hl].
  - rewrite blit_nil by lia. done.
  - rewrite <-(blit_twice buf 0 l [0]). destruct (blit buf 0 l) as [b|]; [|done]. cbn [mbind res_bind Nat.add].
    destruct (Z.eqb_spec (Z.of_nat (length l)) 0) as [E0|_]; [destruct l; [done|cbn in E0; lia]|].
    by rewrite He1.
Qed.

(** ** [fread] *)

Lemma pos_adjust_same k s :
  unread (pos_adjust k s) = unread s ∧ s_area (pos_adjust k s) = s_area s ∧
  s_buf (pos_adjust k s) = s_buf s.
Proof. unfold pos_adjust. by destruct (s_offset s). Qed.

(** [w] is the number of rounds that copy nothing that may still come: none when
    the area is not empty. *)
Lemma xsgetn_spec fuel : ∀ data got want s,
  reliable → stream_ok s → s_buf s ≠ None → (got ≤ length data)%nat →
  (2 * want + (if decide (s_area s = []) then 1 else 0) < fuel)%nat →
  ∃ s', xsgetn_loop fuel data got want s =
      (data' ← blit data got (take want (unread s)); Ok ((want - length (unread s))%nat, data', s')) ∧
    unread s' = drop want (unread s).
Proof.
  induction fuel as [|fuel IH]; intros data got want s Hr Hs Hb Hg Hf; [lia|]. cbn [xsgetn_loop].
  destruct (decide (want = 0%nat)) as [->|Hw].
  { exists s. cbn [take]. rewrite blit_nil by done. done. }
  destruct (decide (want ≤ length (s_area s))%nat) as [Hle|Hgt].
  { exists (set_area (drop want (s_area s)) s).
    replace (take want (unread s)) with (take want (s_area s)) by (unfold unread; by rewrite take_app_le).
    replace (want - length (unread s))%nat with 0%nat by (unfold unread; rewrite length_app; lia).
    split; [|unfold unread; cbn; by rewrite drop_app_le].
    destruct (blit data got (take want (s_area s))) as [d|]; [|done]. cbn [mbind res_bind].
    destruct fuel as [|fuel']; [lia|]. done. }
  assert ((if decide (0 < length (s_area s))%nat then blit data got (s_area s) else Ok data) =
    blit data got (s_area s)) as ->.
  { destruct (decide (0 < length (s_area s))%nat); [done|]. replace (s_area s) with (@nil Z) by (symmetry; apply nil_length_inv; lia).
    by rewrite blit_nil. }
  set (rest := s_rest s). set (a := s_area s) in *. remember (want - length a)%nat as w eqn:Hwd.
  assert (take want (unread s) = a ++ take w rest) as Ht by (unfold unread; fold a rest; subst w; by rewrite take_app_ge by lia).
  assert (drop want (unread s) = drop w rest) as Hd by (unfold unread; fold a rest; subst w; by rewrite drop_app_ge by lia).
  assert (want - length (unread s) = w - length rest)%nat as Hlen by (unfold unread; rewrite length_app; fold a rest; lia).
  rewrite Ht, Hd, Hlen, <-blit_twice.
  destruct (blit data got a) as [d|e] eqn:Eb; cbn [mbind res_bind].
  2: { exists (mkStream (drop w rest) None false false None [] 0 0). split; [done|]. unfold unread. cbn. by rewrite app_nil_r. }
  destruct (blit_fits _ _ _ _ Eb) as [Hfit Hl].
  destruct (s_buf s) as [size|] eqn:Esz; [|done]. cbn [set_area s_buf]. rewrite Esz. change (default 0%nat (Some size)) with size.
  assert (0 < size)%nat as Hsz by (by apply Hs).
  destruct (decide (w < size)%nat) as [Hws|Hws].
  - destruct (underflow_spec (set_area [] s) Hr Hs eq_refl) as (s1 & E & Hu & Hs1 & _ & Hb1 & Hne).
    rewrite E. change (unread (set_area [] s)) with rest in *.
    destruct rest as [|c l] eqn:Er; cbn [head].
    { exists s1. rewrite take_nil, blit_nil by lia. cbn [mbind res_bind length]. rewrite Nat.sub_0_r, Hu, drop_nil. by split. }
    assert (s_buf s1 = Some size) as Hb1' by (by rewrite Hb1; cbn; rewrite Esz).
    assert (2 * w + (if decide (s_area s1 = []) then 1 else 0) < fuel)%nat as Hf1.
    { destruct (decide (s_area s1 = [])) as [Hn|_]; [by apply Hne in Hn|].
      destruct (decide (a = [])) as [Ha|Ha]; [lia|].
      assert (0 < length a)%nat by (destruct a; [done|cbn; lia]). lia. }
    destruct (IH d (got + length a)%nat w s1 Hr Hs1 ltac:(by rewrite Hb1') Hfit Hf1) as (s2 & E2 & Hu2).
    exists s2. by rewrite E2, Hu2, Hu.
  - set (ask := if decide _ then _ else _).
    assert (0 < ask ≤ w)%nat as Hask.
    { unfold ask. destruct (decide (128 ≤ size)%nat); [|lia]. pose proof (Nat.mod_upper_bound w size ltac:(lia)). lia. }
    destruct (SYSREAD_ok ask (set_area [] s) Hr ltac:(lia)) as (k & s1 & E & Hk1 & Hk2 & Hk0 & Hr1 & Ha1 & Hb1 & _).
    rewrite E. cbn [set_area s_rest s_area s_buf] in *. fold rest in Hk2, Hk0, Hr1 |- *.
    destruct (Z.leb_spec (Z.of_nat k) 0) as [Hk|Hk].
    + assert (k = 0%nat) as -> by lia. specialize (Hk0 eq_refl). rewrite Hk0 in *. change (Z.of_nat 0) with 0.
      exists (set_flags (s_err s1) true s1). rewrite take_nil, blit_nil by lia.
      cbn [mbind res_bind length]. rewrite Nat.sub_0_r. split; [done|].
      unfold unread. cbn. rewrite Ha1, Hr1, !drop_nil. done.
    + rewrite Nat2Z.id. destruct (pos_adjust_same (Z.of_nat k) s1) as (P1 & P2 & P3).
      assert (take w rest = take k rest ++ take (w - k) (drop k rest)) as Htw.
      { rewrite take_take_drop. f_equal. lia. }
      rewrite Htw, <-blit_twice, length_take_le by done.
      destruct (blit d (got + length a) (take k rest)) as [d'|e] eqn:Eb'; cbn [mbind res_bind].
      2: { exists (mkStream (drop w rest) None false false None [] 0 0). split; [done|]. unfold unread. cbn. by rewrite app_nil_r. }
      destruct (blit_fits _ _ _ _ Eb') as [Hfit' Hl']. rewrite length_take_le in Hfit' by done.
      assert (unread s1 = drop k rest) as Hu1 by (unfold unread; by rewrite Ha1, Hr1).
      destruct (IH d' (got + length a + k)%nat (w - k)%nat (pos_adjust (Z.of_nat k) s1)) as (s2 & E2 & Hu2); try done.
      * intros n. rewrite P3, Hb1. intros Hn. apply Hs. congruence.
      * rewrite P3, Hb1. congruence.
      * rewrite P2, Ha1. rewrite decide_True by done. lia.
      * exists s2. rewrite E2, P1, Hu1, Hu2, P1, Hu1, drop_drop, length_drop.
        replace (k + (w - k))%nat with w by lia.
        by replace (w - k - (length rest - k))%nat with (w - length rest)%nat by lia.
Qed.
End Reading.

(** ** Theorems *)

(** The stream [s] is at the position of the file [f]. *)
Definition stream_at (f : FILE) (s : stream) : Prop :=
  drop (f_pos f) (f_data f) = unread s ∧ stream_ok s ∧ s_err s = false.

Section Theorems.
Context `{ReadLaws}.

(** C34: as long as no [read] fails, [fgets] through the buffer refines the one-step [fgets] the program is
    verified against: however [read] cuts the file into pieces and whatever the size of
    the buffer, it stores the same bytes, reports NULL in the same
    cases, faults in the same cases, and leaves the stream at the same position. *)
Theorem fgets_refines f s buf n :
  reliable → stream_at f s → (2 ≤ n)%nat →
  match fgets buf n f with
  | Ok (r, f') => ∃ s', IO_fgets buf (Z.of_nat n) s = Ok (bool_decide (is_Some r), default buf r, s') ∧ stream_at f' s'
  | Bad e => IO_fgets buf (Z.of_nat n) s = Bad e
  end.
Proof.
  intros Hr (Hu & Hs & He) Hn. unfold fgets.
  destruct (fgets_spec buf (Z.of_nat n) s Hr Hs ltac:(lia) He) as (s' & E & Hu' & Hs' & He').
  replace (Z.to_nat (Z.of_nat n - 1)) with (n - 1)%nat in * by lia. rewrite Hu, E.
  destruct (line_of (n - 1) (unread s)) as [|c l] eqn:El.
  - exists s'. split; [done|]. split; [|done]. by rewrite Hu, Hu'.
  - rewrite decide_False by done. destruct (blit buf 0 ((c :: l) ++ [0])) as [b|]; [|done]. cbn [mbind res_bind].
    exists s'. split; [done|]. split; [|done]. cbn [f_pos f_data]. by rewrite <-drop_drop, Hu, Hu'.
Qed.

(** [fread] stores the next bytes of the file, as many as are asked for or as
    there are, and counts the whole elements. *)
Theorem fread_delivers s buf size count :
  reliable → stream_ok s → 0 < size → 0 < count → size * count < 2 ^ 64 →
  let n := Z.to_nat (size * count) in
  (n ≤ length buf)%nat →
  ∃ buf' s', IO_fread buf size count s =
      Ok (Z.of_nat (Nat.min n (length (unread s))) / size, buf', s') ∧
    blit buf 0 (take n (unread s)) = Ok buf' ∧ unread s' = drop n (unread s).
Proof.
  intros Hr Hs Hsz Hc Hb n Hn. unfold IO_fread.
  assert (uint64 (size * count) = size * count) as -> by (unfold uint64; apply Z.mod_small; nia).
  destruct (Z.eqb_spec (size * count) 0); [nia|]. unfold IO_file_xsgetn.
  pose proof (doallocbuf_ok s Hs) as Hd. destruct (doallocbuf s) as [sz s1].
  destruct Hd as (_ & Hb1 & Hs1 & Hu & _).
  destruct (xsgetn_spec (2 * n + 2) buf 0 n s1 Hr Hs1 ltac:(by rewrite Hb1) ltac:(lia)) as (s2 & E & Hu2).
  { destruct (decide (s_area s1 = [])); lia. }
  fold n. rewrite E, Hu. rewrite Hu in Hu2.
  rewrite (blit_ok buf 0 (take n (unread s))) by (rewrite length_take; lia). cbn [mbind res_bind].
  eexists _, s2. split; [|done].
  replace (n - (n - length (unread s)))%nat with (Nat.min n (length (unread s))) by lia.
  destruct (Z.eqb_spec (size * count) (Z.of_nat (Nat.min n (length (unread s))))) as [E1|_]; [|done].
  rewrite <-E1. by rewrite Z.mul_comm, Z.div_mul by lia.
Qed.

(** A [read] that fails when the buffer is empty makes [fgets] return NULL,
    sets the error flag and [errno], and takes nothing from the file. *)
Theorem fgets_read_error s buf n size e :
  2 ≤ n → s_area s = [] → s_buf s = Some size → sys_read (s_reads s) size (length (s_rest s)) = inl e →
  ∃ s', IO_fgets buf n s = Ok (false, buf, s') ∧ s_err s' = true ∧ s_errno s' = e ∧ unread s' = unread s.
Proof.
  intros Hn Ha Hb He. unfold IO_fgets, IO_getline.
  destruct (Z.leb_spec n 0); [lia|]. destruct (Z.eqb_spec n 1); [lia|].
  destruct (Z.to_nat (n - 1)) as [|m] eqn:Em; [lia|]. remember (S m) as fuel. cbn [getline_loop]. subst fuel.
  assert (uflow (set_flags false (s_eof s) s) =
    (None, mkStream [] (s_buf s) true (s_eof s) None (s_rest s) (S (s_reads s)) e)) as Eu.
  { unfold uflow, default_uflow, underflow, doallocbuf, SYSREAD. cbn. rewrite Ha, Hb. cbn. rewrite He. cbn. by rewrite Hb. }
  rewrite decide_False by done. change (s_area (set_flags _ _ s)) with (s_area s).
  rewrite Ha, Eu. cbn [mbind res_bind]. eexists. split; [done|]. cbn.
  split; [done|]. split; [done|]. unfold unread. by rewrite Ha.
Qed.
End Theorems.

(** ** Witnesses *)

(** Pieces of at most three bytes, a buffer of four; and a disk that fails. *)
#[local] Instance three_bytes : Reads := {|
  sys_read _ want left := inr (Nat.min 3 (Nat.min want left));
  sys_bufsize := 4%nat;
|}.
#[local] Instance three_bytes_laws : ReadLaws.
Proof.
  split; unfold sys_read, sys_bufsize, three_bytes.
  - intros n want left k E. assert (k = Nat.min 3 (Nat.min want left)) as -> by congruence. lia.
  - intros n want left E. assert (Nat.min 3 (Nat.min want left) = 0)%nat by congruence. lia.
  - lia.
Qed.
Lemma three_bytes_reliable : reliable.
Proof. intros n want left. by eexists. Qed.

(** A stream just opened on a file. *)
Definition opened (l : list Z) : stream := mkStream [] None false false None l 0 0.
Definition two_lines : list Z := lit "log-level=ALL" ++ 10 :: lit "x".

Lemma fgets_refines_witness :
  ∃ s', IO_fgets (zeros 16) 16 (opened two_lines) = Ok (true, lit "log-level=ALL" ++ [10; 0; 0], s') ∧
    stream_at (mkFILE two_lines 14) s'.
Proof.
  apply (fgets_refines (mkFILE two_lines 0) (opened two_lines) (zeros 16) 16 three_bytes_reliable).
  - split; [reflexivity|]. split; [|reflexivity]. intros n E. discriminate E.
  - lia.
Defined.

Lemma fread_delivers_witness :
  ∃ buf' s', IO_fread (zeros 16) 1 16 (opened two_lines) = Ok (15, buf', s') ∧
    blit (zeros 16) 0 two_lines = Ok buf'.
Proof.
  destruct (fread_delivers (opened two_lines) (zeros 16) 1 16 three_bytes_reliable) as (b & s' & E & Eb & _).
  - intros n E. discriminate E.
  - lia.
  - lia.
  - lia.
  - vm_compute. lia.
  - exists b, s'. split; [exact E|exact Eb].
Defined.

Example short_lines :
  (r ← IO_fgets (zeros 8) 7 (opened two_lines); Ok (r.1, unread r.2)) =
  Ok (true, lit "log-le" ++ [0; 0], lit "vel=ALL" ++ 10 :: lit "x").
Proof. vm_compute. reflexivity. Qed.
