(* ===== verification/StdioSeek.v ===== *)
(** * glibc: seeking in a buffered stream

    [fseek], [ftell] and [rewind] (libio/fseek.c, ioftell.c, rewind.c,
    ioseekoff.c) on a stream opened for reading: [_IO_new_file_seekoff] and
    [do_ftell] of libio/fileops.c.  The program measures a recording by seeking
    to its end and rewinding (playback.c, line 69), and goes back to the start
    of engine.conf between its two passes (ConfigFile.c, line 21).

    Seeking needs more of a stream than reading: the part of the buffer that
    has been read already, since a target inside the buffer only moves
    [_IO_read_ptr], and the position of the descriptor, since the buffer holds
    the bytes before it.  A stream is therefore the file, the position, the
    bytes from [_IO_buf_base] to [_IO_read_end] and where [_IO_read_ptr] stands
    among them; [stream_of] forgets down to the streams of StdioRead.  It is
    narrow, never written to and has no pushed-back characters.

    The theorems: whatever is buffered and however [read] delivers, a seek that
    [lseek] does not refuse leaves the stream at its target with the end-of-file flag
    cleared and returns the target; [ftell] returns where the stream is; and the
    sequence the program loads a recording with reads the whole file. *)

From S2P Require Import Prelude CString Machine StdioRead.

(** ** Streams *)

Record rstream := mkR {
  r_data : list Z;        (* the file *)
  r_pos : nat;            (* the position of the descriptor *)
  r_got : list Z;         (* the bytes from _IO_buf_base to _IO_read_end *)
  r_ptr : nat;            (* _IO_read_ptr - _IO_buf_base *)
  r_buf : option nat;     (* _IO_buf_end - _IO_buf_base, None for no buffer yet *)
  r_err : bool;           (* _IO_ERR_SEEN *)
  r_eof : bool;           (* _IO_EOF_SEEN *)
  r_offset : option Z;    (* _offset, None for _IO_pos_BAD *)
  r_reads : nat;          (* read calls made on it *)
  r_seeks : nat;          (* lseek calls made on it *)
  r_errno : Z;            (* errno *)
}.

(** The stream of StdioRead: what is in the buffer and what is not read yet. *)
Definition stream_of (s : rstream) : stream :=
  mkStream (drop (r_ptr s) (r_got s)) (r_buf s) (r_err s) (r_eof s) (r_offset s)
    (drop (r_pos s) (r_data s)) (r_reads s) (r_errno s).

(** Whether the [n]-th [lseek] fails, and with which errno; whether [fstat]
    says that the file is a regular one. *)
Class Seeks := {
  sys_lseek : nat → option Z;
  sys_regular : bool;
}.

Definition SEEK_SET : Z := 0.
Definition SEEK_CUR : Z := 1.
Definition SEEK_END : Z := 2.
Definition EIO : Z := 5.
Definition EINVAL : Z := 22.
Definition EOVERFLOW_code : Z := 75.

Definition set_get (got : list Z) (ptr : nat) (s : rstream) : rstream :=
  mkR (r_data s) (r_pos s) got ptr (r_buf s) (r_err s) (r_eof s) (r_offset s) (r_reads s) (r_seeks s) (r_errno s).
Definition set_pos (p : nat) (s : rstream) : rstream :=
  mkR (r_data s) p (r_got s) (r_ptr s) (r_buf s) (r_err s) (r_eof s) (r_offset s) (r_reads s) (r_seeks s) (r_errno s).
Definition set_rbuf (n : nat) (s : rstream) : rstream :=
  mkR (r_data s) (r_pos s) (r_got s) (r_ptr s) (Some n) (r_err s) (r_eof s) (r_offset s) (r_reads s) (r_seeks s) (r_errno s).
Definition set_rflags (err eof : bool) (s : rstream) : rstream :=
  mkR (r_data s) (r_pos s) (r_got s) (r_ptr s) (r_buf s) err eof (r_offset s) (r_reads s) (r_seeks s) (r_errno s).
Definition set_roffset (o : option Z) (s : rstream) : rstream :=
  mkR (r_data s) (r_pos s) (r_got s) (r_ptr s) (r_buf s) (r_err s) (r_eof s) o (r_reads s) (r_seeks s) (r_errno s).
Definition count_read (s : rstream) : rstream :=
  mkR (r_data s) (r_pos s) (r_got s) (r_ptr s) (r_buf s) (r_err s) (r_eof s) (r_offset s) (S (r_reads s)) (r_seeks s) (r_errno s).
Definition count_seek (s : rstream) : rstream :=
  mkR (r_data s) (r_pos s) (r_got s) (r_ptr s) (r_buf s) (r_err s) (r_eof s) (r_offset s) (r_reads s) (S (r_seeks s)) (r_errno s).
Definition set_rerrno (e : Z) (s : rstream) : rstream :=
  mkR (r_data s) (r_pos s) (r_got s) (r_ptr s) (r_buf s) (r_err s) (r_eof s) (r_offset s) (r_reads s) (r_seeks s) e.

Section Ops.
Context `{Reads} `{Seeks}.

(** [_IO_SYSREAD (fp, p, want)]: the count and the bytes. *)
Definition R_SYSREAD (want : nat) (s : rstream) : Z * list Z * rstream :=
  let rest := drop (r_pos s) (r_data s) in
  match sys_read (r_reads s) want (length rest) with
  | inl e => (-1, [], set_rerrno e (count_read s))
  | inr k => (Z.of_nat k, take k rest, set_pos (r_pos s + k) (count_read s))
  end.

(** [_IO_SYSSEEK (fp, offset, dir)] on a regular file. *)
Definition SYSSEEK (offset dir : Z) (s : rstream) : Z * rstream :=
  match sys_lseek (r_seeks s) with
  | Some e => (-1, set_rerrno e (count_seek s))
  | None =>
      let s := count_seek s in
      let target := offset + (if dir =? SEEK_SET then 0
                              else if dir =? SEEK_CUR then Z.of_nat (r_pos s) else Z.of_nat (length (r_data s))) in
      if target <? 0 then (-1, set_rerrno EINVAL s) else (target, set_pos (Z.to_nat target) s)
  end.

(** [static _IO_off64_t do_ftell (_IO_FILE *fp)], nothing being written *)
Definition do_ftell (s : rstream) : Z * rstream :=
  let offset := match r_buf s with
                | Some _ => - (Z.of_nat (length (r_got s)) - Z.of_nat (r_ptr s))
                | None => 0
                end in
  let '(result, s) := match r_offset s with Some o => (o, s) | None => SYSSEEK 0 SEEK_CUR s end in
  if result =? -1 then (result, s)
  else
    let result := result + offset in
    if result <? 0 then (-1, set_rerrno EINVAL s) else (result, s).

(** The label [dumb] of [_IO_new_file_seekoff]. *)
Definition seek_dumb (offset dir : Z) (s : rstream) : Z * rstream :=
  let '(result, s) := SYSSEEK offset dir s in
  if result =? -1 then (result, s)
  else (result, set_get [] 0 (set_roffset (Some result) (set_rflags (r_err s) false s))).

(** Its lines 1020 to 1054, [dir] being [_IO_seek_set]: seek to a block
    boundary and read up to the target. *)
Definition seek_block (must_be_exact : bool) (offset : Z) (s : rstream) : Z * rstream :=
  let size := Z.of_nat (default 0%nat (r_buf s)) in
  let new_offset := Z.land offset (Z.lnot (size - 1)) in
  let delta := offset - new_offset in
  let '(new_offset, delta) := if size <? delta then (offset, 0) else (new_offset, delta) in
  let '(result, s) := SYSSEEK new_offset SEEK_SET s in
  if result <? 0 then (-1, s)
  else
    let '(count, bytes, s) :=
      if delta =? 0 then (0, [], s) else R_SYSREAD (Z.to_nat (if must_be_exact : bool then delta else size)) s in
    if count <? delta then seek_dumb (if count =? -1 then delta else delta - count) SEEK_CUR s
    else
      (offset,
       set_rflags (r_err s) false (set_roffset (Some (result + count)) (set_get bytes (Z.to_nat delta) s))).

(** The label [resync]. *)
Definition resync (offset : Z) (s : rstream) : Z * rstream :=
  match r_offset s with
  | Some o => if 0 <=? o then (offset, (SYSSEEK o SEEK_SET s).2) else (offset, s)
  | None => (offset, s)
  end.

(** Lines 998 to 1018: a target inside the buffer. *)
Definition seek_absolute (must_be_exact : bool) (offset : Z) (s : rstream) : Z * rstream :=
  match r_offset s with
  | Some o =>
      let start_offset := o - Z.of_nat (length (r_got s)) in
      if (start_offset <=? offset) && (offset <? o) then
        resync offset (set_rflags (r_err s) false (set_get (r_got s) (Z.to_nat (offset - start_offset)) s))
      else seek_block must_be_exact offset s
  | None => seek_block must_be_exact offset s
  end.

(** [_IO_off64_t _IO_new_file_seekoff (_IO_FILE *fp, _IO_off64_t offset, int dir, int mode)] *)
Definition file_seekoff (offset dir mode : Z) (s : rstream) : Z * rstream :=
  if mode =? 0 then do_ftell s
  else
    let must_be_exact := bool_decide (r_got s = []) in
    let s := match r_buf s with Some _ => s | None => set_get [] 0 (set_rbuf sys_bufsize s) end in
    if dir =? SEEK_CUR then
      let offset := offset - (Z.of_nat (length (r_got s)) - Z.of_nat (r_ptr s)) in
      match r_offset s with
      | None => seek_dumb offset dir s
      | Some o =>
          let offset := offset + o in
          if offset <? 0 then (-1, set_rerrno EINVAL s) else seek_absolute must_be_exact offset s
      end
    else if dir =? SEEK_SET then seek_absolute must_be_exact offset s
    else if sys_regular then seek_absolute must_be_exact (offset + Z.of_nat (length (r_data s))) s
    else seek_dumb offset dir s.

(** [_IO_off64_t _IO_seekoff_unlocked (_IO_FILE *fp, _IO_off64_t offset, int dir, int mode)] *)
Definition seekoff_unlocked (offset dir mode : Z) (s : rstream) : Z * rstream :=
  if negb (dir =? SEEK_CUR) && negb (dir =? SEEK_SET) && negb (dir =? SEEK_END)
  then (-1, set_rerrno EINVAL s) else file_seekoff offset dir mode s.

(** [int fseek (_IO_FILE *fp, long int offset, int whence)] *)
Definition IO_fseek (offset whence : Z) (s : rstream) : Z * rstream :=
  let '(r, s) := seekoff_unlocked offset whence 3 s in
  (if r =? -1 then -1 else 0, s).

(** [long int _IO_ftell (_IO_FILE *fp)] *)
Definition IO_ftell (s : rstream) : Z * rstream :=
  let '(pos, s) := seekoff_unlocked 0 SEEK_CUR 0 s in
  if pos =? -1 then (-1, if r_errno s =? 0 then set_rerrno EIO s else s)
  else if negb (int64 pos =? pos) then (-1, set_rerrno EOVERFLOW_code s)
  else (pos, s).

(** [void rewind (_IO_FILE *fp)] *)
Definition IO_rewind (s : rstream) : rstream :=
  let s := (seekoff_unlocked 0 SEEK_SET 3 s).2 in
  set_rflags false false s.
End Ops.

(** A stream just opened with [fopen (.., "r")]. *)
Definition opened_at (data : list Z) : rstream := mkR data 0 [] 0 None false false None 0 0 0.

(** ** Where a stream is *)

(** The position of the next byte to be read. *)
Definition tell (s : rstream) : Z := Z.of_nat (r_pos s) - (Z.of_nat (length (r_got s)) - Z.of_nat (r_ptr s)).

(** The buffer holds the bytes before the position of the descriptor. *)
Record rstream_ok (s : rstream) : Prop := {
  ro_ptr : (r_ptr s ≤ length (r_got s))%nat;
  ro_got : r_got s = take (length (r_got s)) (drop (r_pos s - length (r_got s)) (r_data s));
  ro_before : (length (r_got s) ≤ r_pos s)%nat;
  ro_buf : ∀ n, r_buf s = Some n → (0 < n)%nat;
  ro_none : r_buf s = None → r_got s = [];
  ro_offset : ∀ o, r_offset s = Some o → o = Z.of_nat (r_pos s);
}.

(** [lseek] is not refused. *)
Definition seeks_reliable `{Seeks} : Prop := ∀ n, sys_lseek n = None.

Lemma opened_ok data : rstream_ok (opened_at data).
Proof. by constructor. Qed.

(** What is unread is the file from [tell] on. *)
Lemma unread_tell s : rstream_ok s → unread (stream_of s) = drop (Z.to_nat (tell s)) (r_data s).
Proof.
  intros []. unfold unread, stream_of, tell. cbn [s_area s_rest].
  set (l := length (r_got s)) in *. rewrite ro_got0.
  replace (Z.to_nat _) with (r_pos s - l + r_ptr s)%nat by lia.
  rewrite skipn_firstn_comm, drop_drop.
  assert (drop (r_pos s) (r_data s) = drop (l - r_ptr s) (drop (r_pos s - l + r_ptr s) (r_data s))) as ->
    by (rewrite drop_drop; f_equal; lia).
  by rewrite take_drop.
Qed.

Section Seeking.
Context `{ReadLaws} `{Seeks}.

(** The stream [s'] is [s] moved to position [t]. *)
Record sought (s s' : rstream) (t : Z) : Prop := {
  so_ok : rstream_ok s';
  so_data : r_data s' = r_data s;
  so_tell : tell s' = t;
  so_eof : r_eof s' = false;
  so_err : r_err s' = r_err s;
  so_buf : is_Some (r_buf s) → r_buf s' = r_buf s;
}.

Lemma sought_base s1 s2 s' t : sought s1 s' t → r_data s1 = r_data s2 → r_err s1 = r_err s2 →
  r_buf s1 = r_buf s2 → sought s2 s' t.
Proof. intros [] E1 E2 E3. constructor; try done; [congruence..|]. rewrite <-E3. done. Qed.

Lemma seek_dumb_sought offset dir s : seeks_reliable → (∀ n, r_buf s = Some n → (0 < n)%nat) →
  let t := offset + (if dir =? SEEK_SET then 0
                     else if dir =? SEEK_CUR then Z.of_nat (r_pos s) else Z.of_nat (length (r_data s))) in
  0 ≤ t → ∃ s', seek_dumb offset dir s = (t, s') ∧ sought s s' t.
Proof.
  intros Hrel Hb t Ht. unfold seek_dumb, SYSSEEK. rewrite Hrel. cbn [count_seek r_pos r_data]. fold t.
  destruct (Z.ltb_spec t 0); [lia|]. destruct (Z.eqb_spec t (-1)); [lia|].
  eexists. split; [done|]. constructor; try done.
  - constructor; cbn; try done; try lia. intros o [= <-]. lia.
  - unfold tell. cbn. lia.
Qed.

(** Masking with the block size leaves an offset inside one block. *)
Lemma land_plus_ldiff a b : Z.land a b + Z.ldiff a b = a.
Proof.
  assert (Z.land (Z.land a b) (Z.ldiff a b) = 0) as E0.
  { apply Z.bits_inj'. intros n Hn. rewrite !Z.land_spec, Z.ldiff_spec, Z.bits_0.
    by destruct (Z.testbit a n), (Z.testbit b n). }
  rewrite Z.add_nocarry_lxor, Z.lxor_lor by done. rewrite Z.lor_comm. apply Z.lor_ldiff_and.
Qed.

Lemma land_block offset size : 0 < size → let d := offset - Z.land offset (Z.lnot (size - 1)) in 0 ≤ d < size.
Proof.
  intros Hs d. assert (d = Z.land offset (size - 1)) as ->.
  { unfold d. rewrite <-Z.ldiff_land. pose proof (land_plus_ldiff offset (size - 1)). lia. }
  split; [apply Z.land_nonneg; lia|].
  pose proof (land_plus_ldiff (size - 1) offset) as E. rewrite Z.land_comm in E.
  assert (0 ≤ Z.ldiff (size - 1) offset) by (apply Z.ldiff_nonneg; lia). lia.
Qed.

Lemma seek_block_sought exact offset s n : seeks_reliable → rstream_ok s → r_buf s = Some n → 0 ≤ offset →
  ∃ s', seek_block exact offset s = (offset, s') ∧ sought s s' offset.
Proof.
  intros Hrel [] Hb Ho. unfold seek_block. rewrite Hb. change (default 0%nat (Some n)) with n.
  pose proof (ro_buf0 n Hb) as Hn. pose proof (land_block offset (Z.of_nat n) ltac:(lia)) as Hd. cbv zeta in Hd.
  assert (0 ≤ Z.land offset (Z.lnot (Z.of_nat n - 1))) as Hnew by (apply Z.land_nonneg; lia).
  set (new := Z.land offset _) in *. set (delta := offset - new) in *. assert (offset = new + delta) as Eo by lia.
  clearbody new delta. destruct (Z.ltb_spec (Z.of_nat n) delta); [lia|].
  unfold SYSSEEK at 1. rewrite Hrel. change (SEEK_SET =? SEEK_SET) with true. cbv iota zeta. rewrite Z.add_0_r.
  destruct (Z.ltb_spec new 0); [lia|]. cbv iota. rewrite (proj2 (Z.ltb_ge new 0)) by done.
  set (s1 := set_pos (Z.to_nat new) (count_seek s)).
  assert (∀ q f, r_data q = r_data s → r_err q = r_err s → r_buf q = r_buf s → Z.of_nat (r_pos q) + f = offset →
    ∃ s', seek_dumb f SEEK_CUR q = (offset, s') ∧ sought s s' offset) as Hdumb.
  { intros q f E1 E2 E3 Ep. pose proof (seek_dumb_sought f SEEK_CUR q Hrel) as Hq.
    change (SEEK_CUR =? SEEK_SET) with false in Hq. change (SEEK_CUR =? SEEK_CUR) with true in Hq. cbv iota zeta in Hq.
    rewrite Z.add_comm, Ep in Hq. destruct Hq as (s' & E & Hso); [by rewrite E3|done|].
    exists s'. split; [done|]. by eapply sought_base. }
  destruct (Z.eqb_spec delta 0) as [->|Hd0].
  - change (0 <? 0) with false. cbv iota. eexists. split; [done|]. constructor; try done.
    + constructor; cbn; try done; try lia. intros o [= <-]. lia.
    + unfold tell. cbn. lia.
  - unfold R_SYSREAD. cbn [s1 set_pos r_reads r_pos r_data count_seek].
    set (rest := drop (Z.to_nat new) (r_data s)). set (want := Z.to_nat _).
    destruct (sys_read (r_reads s) want (length rest)) as [e|k] eqn:Er.
    + destruct (Z.ltb_spec (-1) delta); [|lia]. change (-1 =? -1) with true. cbv iota.
      apply Hdumb; try done. cbn. lia.
    + destruct (read_bound _ _ _ _ Er) as [_ Hk]. destruct (Z.ltb_spec (Z.of_nat k) delta) as [Hlt|Hge].
      * destruct (Z.eqb_spec (Z.of_nat k) (-1)); [lia|]. apply Hdumb; try done. cbn. lia.
      * assert (length (take k rest) = k) as Lk by (by apply length_take_le).
        eexists. split; [done|]. constructor; try done.
        -- constructor; cbn; rewrite ?Lk; try done; try lia.
           ++ unfold rest. do 2 f_equal. lia.
           ++ congruence.
           ++ intros o Eq. injection Eq as <-. lia.
        -- unfold tell. cbn. rewrite Lk. lia.
Qed.

Lemma seek_absolute_sought exact offset s n : seeks_reliable → rstream_ok s → r_buf s = Some n → 0 ≤ offset →
  ∃ s', seek_absolute exact offset s = (offset, s') ∧ sought s s' offset.
Proof.
  intros Hrel Hs Hb Ho. unfold seek_absolute. destruct (r_offset s) as [o|] eqn:Eo; [|by eapply seek_block_sought].
  pose proof Hs as []. pose proof (ro_offset0 o Eo) as ->.
  destruct (Z.leb_spec (Z.of_nat (r_pos s) - Z.of_nat (length (r_got s))) offset) as [Hlo|];
    [|by eapply seek_block_sought].
  destruct (Z.ltb_spec offset (Z.of_nat (r_pos s))) as [Hhi|]; [|by eapply seek_block_sought].
  cbn [andb]. unfold resync. cbn [r_offset set_rflags set_get]. rewrite Eo. destruct (Z.leb_spec 0 (Z.of_nat (r_pos s))); [|lia].
  eexists. split; [done|]. unfold SYSSEEK. rewrite Hrel. change (SEEK_SET =? SEEK_SET) with true. cbv iota zeta.
  rewrite Z.add_0_r. destruct (Z.ltb_spec (Z.of_nat (r_pos s)) 0); [lia|]. cbn [snd]. rewrite Nat2Z.id.
  constructor; try done; [|unfold tell; cbn; lia].
  constructor; cbn; try done; try lia.
Qed.

(** Where a seek goes. *)
Definition target (offset dir : Z) (s : rstream) : Z :=
  offset + (if dir =? SEEK_SET then 0 else if dir =? SEEK_CUR then tell s else Z.of_nat (length (r_data s))).

Lemma file_seekoff_sought offset dir mode s : seeks_reliable → rstream_ok s → mode ≠ 0 → 0 ≤ target offset dir s →
  ∃ s', file_seekoff offset dir mode s = (target offset dir s, s') ∧ sought s s' (target offset dir s).
Proof.
  intros Hrel Hs Hm Ht. unfold file_seekoff. destruct (Z.eqb_spec mode 0) as [|_]; [done|].
  set (exact := bool_decide _). clearbody exact.
  set (s1 := match r_buf s with Some _ => s | None => _ end).
  assert (rstream_ok s1 ∧ (∃ n, r_buf s1 = Some n) ∧ target offset dir s1 = target offset dir s ∧
    ∀ s' t, sought s1 s' t → sought s s' t) as (Hs1 & [n Hb1] & Et & Hback).
  { unfold s1. destruct (r_buf s) as [n|] eqn:Hb; [split_and!; try done; by exists n|].
    pose proof Hs as []. specialize (ro_none0 Hb). rewrite ro_none0 in *. cbn in ro_ptr0.
    split_and!.
    - constructor; cbn; try done; try lia. intros m [= <-]. apply bufsize_pos.
    - by eexists.
    - unfold target, tell. cbn. rewrite ro_none0. cbn. repeat case_match; lia.
    - intros s' t []. constructor; try done. rewrite Hb. by intros [? [=]]. }
  rewrite <-Et in Ht |- *. clearbody s1. clear Hs. revert Ht. unfold target.
  destruct (Z.eqb_spec dir SEEK_CUR) as [->|Hd].
  - change (SEEK_CUR =? SEEK_SET) with false. cbv iota. intros Ht.
    assert (offset + tell s1 = offset - (Z.of_nat (length (r_got s1)) - Z.of_nat (r_ptr s1)) + Z.of_nat (r_pos s1)) as Ec
      by (unfold tell; lia). rewrite Ec in *.
    destruct (r_offset s1) as [o|] eqn:Eo.
    + rewrite (ro_offset _ Hs1 o Eo). destruct (Z.ltb_spec (offset - (Z.of_nat (length (r_got s1)) - Z.of_nat (r_ptr s1)) + Z.of_nat (r_pos s1)) 0); [lia|].
      destruct (seek_absolute_sought exact _ s1 n Hrel Hs1 Hb1 Ht) as (s' & E & Hso). exists s'. by split; [|apply Hback].
    + pose proof (seek_dumb_sought (offset - (Z.of_nat (length (r_got s1)) - Z.of_nat (r_ptr s1))) SEEK_CUR s1 Hrel (ro_buf _ Hs1)) as Hq.
      change (SEEK_CUR =? SEEK_SET) with false in Hq. change (SEEK_CUR =? SEEK_CUR) with true in Hq. cbv iota zeta in Hq.
      destruct (Hq Ht) as (s' & E & Hso). exists s'. by split; [|apply Hback].
  - destruct (Z.eqb_spec dir SEEK_SET) as [->|Hd2]; intros Ht.
    + rewrite Z.add_0_r in *. destruct (seek_absolute_sought exact _ s1 n Hrel Hs1 Hb1 Ht) as (s' & E & Hso).
      exists s'. by split; [|apply Hback].
    + destruct sys_regular.
      * destruct (seek_absolute_sought exact _ s1 n Hrel Hs1 Hb1 Ht) as (s' & E & Hso). exists s'. by split; [|apply Hback].
      * pose proof (seek_dumb_sought offset dir s1 Hrel (ro_buf _ Hs1)) as Hq.
        rewrite (proj2 (Z.eqb_neq dir SEEK_SET) Hd2), (proj2 (Z.eqb_neq dir SEEK_CUR) Hd) in Hq. cbv iota zeta in Hq.
        destruct (Hq Ht) as (s' & E & Hso). exists s'. by split; [|apply Hback].
Qed.
End Seeking.

(** ** Theorems *)

Section Theorems.
Context `{ReadLaws} `{Seeks}.

Lemma ftell_spec s : seeks_reliable → rstream_ok s → tell s < 2 ^ 63 →
  ∃ s', IO_ftell s = (tell s, s') ∧ rstream_ok s' ∧ stream_of s' = stream_of s ∧ r_data s' = r_data s ∧ tell s' = tell s.
Proof.
  intros Hrel Hs Hlt. pose proof Hs as []. unfold IO_ftell, seekoff_unlocked. change (negb (SEEK_CUR =? SEEK_CUR)) with false.
  cbn [andb]. unfold file_seekoff. change (0 =? 0) with true. cbv iota. unfold do_ftell.
  assert (0 ≤ tell s) as Hpos by (unfold tell; lia).
  assert ((match r_buf s with Some _ => - (Z.of_nat (length (r_got s)) - Z.of_nat (r_ptr s)) | None => 0 end) =
    tell s - Z.of_nat (r_pos s)) as ->.
  { unfold tell. destruct (r_buf s) as [n|] eqn:Hb; [lia|]. rewrite ro_none0 in * by done. cbn in *. lia. }
  assert (∃ s', (match r_offset s with Some o => (o, s) | None => SYSSEEK 0 SEEK_CUR s end) = (Z.of_nat (r_pos s), s') ∧
    rstream_ok s' ∧ stream_of s' = stream_of s ∧ r_data s' = r_data s ∧ tell s' = tell s) as (s' & -> & Hs').
  { destruct (r_offset s) as [o|] eqn:Eo; [rewrite (ro_offset0 o) by done; by exists s|].
    unfold SYSSEEK. rewrite Hrel. change (SEEK_CUR =? SEEK_SET) with false. change (SEEK_CUR =? SEEK_CUR) with true. cbv iota zeta.
    cbn [count_seek r_pos]. rewrite Z.add_0_l. destruct (Z.ltb_spec (Z.of_nat (r_pos s)) 0); [lia|].
    rewrite Nat2Z.id. eexists. split; [done|]. split; [|by split_and!].
    constructor; try done. cbn. intros o. by rewrite Eo. }
  destruct (Z.eqb_spec (Z.of_nat (r_pos s)) (-1)); [lia|]. replace (Z.of_nat (r_pos s) + (tell s - Z.of_nat (r_pos s))) with (tell s) by lia.
  destruct (Z.ltb_spec (tell s) 0); [lia|]. destruct (Z.eqb_spec (tell s) (-1)); [lia|].
  assert (int64 (tell s) = tell s) as -> by (unfold int64; rewrite Z.mod_small; lia).
  rewrite Z.eqb_refl. by exists s'.
Qed.

Lemma fseek_spec offset whence s : seeks_reliable → rstream_ok s → 0 ≤ whence ≤ 2 → 0 ≤ target offset whence s →
  ∃ s', IO_fseek offset whence s = (0, s') ∧ sought s s' (target offset whence s).
Proof.
  intros Hrel Hs Hw Ht. unfold IO_fseek, seekoff_unlocked.
  replace (negb (whence =? SEEK_CUR) && negb (whence =? SEEK_SET) && negb (whence =? SEEK_END)) with false.
  2: { assert (whence = 0 ∨ whence = 1 ∨ whence = 2) as [->|[->| ->]] by lia; done. }
  destruct (file_seekoff_sought offset whence 3 s Hrel Hs ltac:(lia) Ht) as (s' & -> & Hso).
  destruct (Z.eqb_spec (target offset whence s) (-1)); [lia|]. by exists s'.
Qed.

Lemma rewind_spec s : seeks_reliable → rstream_ok s →
  rstream_ok (IO_rewind s) ∧ r_data (IO_rewind s) = r_data s ∧ tell (IO_rewind s) = 0 ∧ r_err (IO_rewind s) = false.
Proof.
  intros Hrel Hs. unfold IO_rewind, seekoff_unlocked. change (negb (SEEK_SET =? SEEK_SET)) with false. rewrite andb_false_r.
  cbn [andb]. destruct (file_seekoff_sought 0 SEEK_SET 3 s Hrel Hs ltac:(lia)) as (s' & -> & []); [done|]. cbn [snd].
  split_and!; try done. by destruct so_ok0.
Qed.

(** [fseek] to a position that is not negative, from the start, the current
    position or the end, whatever is in the buffer and however [read] delivers
    (short reads and failing ones included): it returns 0, what is read next is
    the file from the target on, the end-of-file flag is cleared, no error is
    added, and [ftell] returns the target. *)
Theorem fseek_moves offset whence s :
  seeks_reliable → rstream_ok s → 0 ≤ whence ≤ 2 → 0 ≤ target offset whence s < 2 ^ 63 →
  ∃ s' s'', IO_fseek offset whence s = (0, s') ∧ rstream_ok s' ∧
    unread (stream_of s') = drop (Z.to_nat (target offset whence s)) (r_data s) ∧
    r_eof s' = false ∧ r_err s' = r_err s ∧
    IO_ftell s' = (target offset whence s, s'') ∧ stream_of s'' = stream_of s'.
Proof.
  intros Hrel Hs Hw Ht. destruct (fseek_spec offset whence s Hrel Hs Hw) as (s' & E & []); [lia|].
  destruct (ftell_spec s' Hrel so_ok0) as (s'' & Et & _ & Est & _); [lia|]. exists s', s''.
  rewrite unread_tell, so_tell0, so_data0 by done. rewrite so_tell0 in Et. by split_and!.
Qed.

(** The seek between the two passes over engine.conf refines the rewind the
    program is verified against. *)
Theorem fseek_refines_rewind f s :
  seeks_reliable → rstream_ok s → r_data s = f_data f → r_err s = false →
  ∃ s', IO_fseek 0 SEEK_SET s = (0, s') ∧ stream_at (rewind f) (stream_of s').
Proof.
  intros Hrel Hs Hd He. destruct (fseek_spec 0 SEEK_SET s Hrel Hs) as (s' & E & []); [done..|].
  exists s'. split; [done|]. split_and!.
  - rewrite unread_tell, so_tell0, so_data0 by done. cbn. by rewrite drop_0.
  - intros n Hn. by eapply ro_buf.
  - cbn. congruence.
Qed.

(** C37: the calls the program loads a recording with: seek to the end, [ftell],
    [rewind], then [fread] of as many bytes.  The size is that of the file and the
    buffer receives the whole file, however [read] cuts it. *)
Theorem recording_loaded data buf :
  reliable → seeks_reliable → Z.of_nat (length data) < 2 ^ 63 → length buf = length data →
  ∃ s1 s2 s', IO_fseek 0 SEEK_END (opened_at data) = (0, s1) ∧
    IO_ftell s1 = (Z.of_nat (length data), s2) ∧
    IO_fread buf 1 (Z.of_nat (length data)) (stream_of (IO_rewind s2)) = Ok (Z.of_nat (length data), data, s').
Proof.
  intros Hr Hrel Hlen Hbuf.
  destruct (fseek_spec 0 SEEK_END (opened_at data) Hrel (opened_ok data)) as (s1 & E1 & []); [done|unfold target; cbn; lia|].
  assert (target 0 SEEK_END (opened_at data) = Z.of_nat (length data)) as Et by done. rewrite Et in so_tell0.
  destruct (ftell_spec s1 Hrel so_ok0) as (s2 & E2 & Hs2 & _ & Hd2 & _); [lia|]. rewrite so_tell0 in E2.
  destruct (rewind_spec s2 Hrel Hs2) as (Hs3 & Hd3 & Ht3 & _).
  assert (unread (stream_of (IO_rewind s2)) = data) as Hu.
  { rewrite unread_tell, Ht3, Hd3, Hd2, so_data0 by done. cbn. by rewrite drop_0. }
  destruct (decide (length data = 0%nat)) as [E0|E0].
  { exists s1, s2, (stream_of (IO_rewind s2)). split; [done|]. split; [done|]. rewrite E0 in *.
    apply length_zero_iff_nil in E0. apply length_zero_iff_nil in Hbuf. by rewrite Hbuf, E0. }
  destruct (fread_delivers (stream_of (IO_rewind s2)) buf 1 (Z.of_nat (length data)) Hr) as (b & s' & E3 & Eb & _);
    [intros n Hn; by eapply ro_buf|lia|lia|lia|lia|].
  exists s1, s2, s'. split; [done|]. split; [done|]. rewrite E3, Hu, Z.mul_1_l, Nat2Z.id, Nat.min_id, Z.div_1_r.
  rewrite Hu, Z.mul_1_l, Nat2Z.id, take_ge, blit_ok in Eb by lia. injection Eb as <-.
  do 3 f_equal. cbn [take app]. by rewrite drop_ge, app_nil_r by (cbn; lia).
Qed.
End Theorems.

(** ** Witnesses *)

(** Pieces of at most three bytes and a buffer of eight. *)
#[local] Instance three_per_read : Reads := {|
  sys_read _ want left := inr (Nat.min 3 (Nat.min want left));
  sys_bufsize := 8%nat;
|}.
#[local] Instance three_per_read_laws : ReadLaws.
Proof.
  split; unfold sys_read, sys_bufsize, three_per_read.
  - intros n want left k E. assert (k = Nat.min 3 (Nat.min want left)) as -> by congruence. lia.
  - intros n want left E. assert (Nat.min 3 (Nat.min want left) = 0)%nat by congruence. lia.
  - lia.
Qed.
#[local] Instance plain_file : Seeks := {| sys_lseek _ := None; sys_regular := true |}.

(** A file of thirty bytes with the second block in the buffer, three of its
    bytes read. *)
Definition in_block : rstream :=
  mkR (seqZ 0 30) 16 (seqZ 8 8) 3 (Some 8%nat) false false (Some 16) 2 0 0.

Lemma in_block_ok : rstream_ok in_block.
Proof. constructor; try done; [vm_compute; lia|vm_compute; lia|by intros n [= <-]; lia|by intros o [= <-]]. Qed.

Lemma fseek_moves_witness :
  (∃ s', IO_fseek (-2) SEEK_CUR in_block = (0, s') ∧ unread (stream_of s') = seqZ 9 21) ∧
  (∃ s', IO_fseek (-1) SEEK_END in_block = (0, s') ∧ unread (stream_of s') = [29]).
Proof.
  split.
  - destruct (fseek_moves (-2) SEEK_CUR in_block) as (s' & s'' & E & _ & Hu & _).
    + intros n. reflexivity.
    + apply in_block_ok.
    + unfold SEEK_CUR. lia.
    + vm_compute. split; [discriminate|reflexivity].
    + exists s'. split; [exact E|]. etransitivity; [exact Hu|vm_compute; reflexivity].
  - destruct (fseek_moves (-1) SEEK_END in_block) as (s' & s'' & E & _ & Hu & _).
    + intros n. reflexivity.
    + apply in_block_ok.
    + unfold SEEK_END. lia.
    + vm_compute. split; [discriminate|reflexivity].
    + exists s'. split; [exact E|]. etransitivity; [exact Hu|vm_compute; reflexivity].
Defined.

Lemma recording_loaded_witness :
  ∃ s1 s2 s', IO_fseek 0 SEEK_END (opened_at (seqZ 0 30)) = (0, s1) ∧ IO_ftell s1 = (30, s2) ∧
    IO_fread (zeros 30) 1 30 (stream_of (IO_rewind s2)) = Ok (30, seqZ 0 30, s').
Proof.
  apply (recording_loaded (seqZ 0 30) (zeros 30)).
  - intros n want left. eexists. reflexivity.
  - intros n. reflexivity.
  - rewrite length_seqZ. lia.
  - reflexivity.
Defined.

Lemma fseek_refines_rewind_witness :
  ∃ s', IO_fseek 0 SEEK_SET in_block = (0, s') ∧ stream_at (mkFILE (seqZ 0 30) 0) (stream_of s').
Proof.
  apply (fseek_refines_rewind (mkFILE (seqZ 0 30) 11) in_block).
  - intros n. reflexivity.
  - apply in_block_ok.
  - reflexivity.
  - reflexivity.
Defined.
