(* ===== verification/StdioWrite.v ===== *)
(** * glibc: writing through a buffered stream

    [fwrite] (libio/iofwrite.c), [fflush] (libio/iofflush.c) and [fclose]
    (libio/iofclose.c) over the buffer of a stream opened for writing:
    [_IO_new_file_xsputn], [_IO_new_file_overflow], [new_do_write],
    [_IO_new_file_write], [_IO_new_file_sync] and [_IO_new_file_close_it] of
    libio/fileops.c, [_IO_default_xsputn] and [_IO_doallocbuf] of
    libio/genops.c.  The program stores every packet with the first and the
    last (util.c, line 222), and flushes its log with the second.

    A stream is what its pointers delimit: the bytes between [_IO_write_base]
    and [_IO_write_ptr], where [_IO_write_end] is, the size of the buffer, the
    flags, and what has gone to the file.  How many bytes each [write] takes
    and whether it fails is up to the operating system (class [Writes]).  The
    stream is narrow and never read from, so its read pointers stay at the
    beginning of the buffer and no seek is needed; [_cur_column] is not
    modelled.

    The theorems: while [write] does not fail, the bytes of a [fwrite] reach
    the file in order once the stream is flushed or closed, however the kernel
    cuts them and whatever the buffering; with failures a fully buffered
    stream has written a prefix, and nothing is missing when [fwrite] and
    [fclose] both report success; a line buffered stream can lose bytes that
    both report as written. *)

From S2P Require Import Prelude CString Machine StdioRead.

(** ** Streams *)

Record ostream := mkOut {
  o_area : list Z;        (* the bytes from _IO_write_base to _IO_write_ptr *)
  o_end : nat;            (* _IO_write_end - _IO_buf_base *)
  o_buf : option nat;     (* _IO_buf_end - _IO_buf_base, None for no buffer yet *)
  o_putting : bool;       (* _IO_CURRENTLY_PUTTING *)
  o_line : bool;          (* _IO_LINE_BUF *)
  o_unbuf : bool;         (* _IO_UNBUFFERED *)
  o_append : bool;        (* _IO_IS_APPENDING *)
  o_readonly : bool;      (* _IO_NO_WRITES *)
  o_err : bool;           (* _IO_ERR_SEEN *)
  o_offset : option Z;    (* _offset, None for _IO_pos_BAD *)
  o_file : list Z;        (* what write has taken, in order *)
  o_writes : nat;         (* write calls made on it *)
  o_errno : Z;            (* errno *)
}.

(** The answer of the [n]-th [write] of [want] bytes: an errno, or how many
    bytes it takes; the result of [close]; the size [_IO_file_doallocate]
    chooses (or 1) and whether it finds a terminal. *)
Class Writes := {
  sys_write : nat → nat → Z + nat;
  sys_close : Z;
  sys_obufsize : nat;
  sys_isatty : bool;
}.

(** POSIX: a [write] takes at least one and at most all of the bytes. *)
Class WriteLaws `{Writes} : Prop := {
  write_bound : ∀ n want k, (0 < want)%nat → sys_write n want = inr k → (0 < k ≤ want)%nat;
  obufsize_pos : (0 < sys_obufsize)%nat;
}.

Definition EOF : Z := -1.
Definition EBADF : Z := 9.

Definition put_area (a : list Z) (e : nat) (s : ostream) : ostream :=
  mkOut a e (o_buf s) (o_putting s) (o_line s) (o_unbuf s) (o_append s) (o_readonly s) (o_err s)
    (o_offset s) (o_file s) (o_writes s) (o_errno s).
Definition put_offset (o : option Z) (s : ostream) : ostream :=
  mkOut (o_area s) (o_end s) (o_buf s) (o_putting s) (o_line s) (o_unbuf s) (o_append s) (o_readonly s) (o_err s)
    o (o_file s) (o_writes s) (o_errno s).
Definition put_error (e : Z) (s : ostream) : ostream :=
  mkOut (o_area s) (o_end s) (o_buf s) (o_putting s) (o_line s) (o_unbuf s) (o_append s) (o_readonly s) true
    (o_offset s) (o_file s) (o_writes s) e.
Definition put_buf (n : nat) (line : bool) (s : ostream) : ostream :=
  mkOut (o_area s) (o_end s) (Some n) (o_putting s) line (o_unbuf s) (o_append s) (o_readonly s) (o_err s)
    (o_offset s) (o_file s) (o_writes s) (o_errno s).
Definition put_putting (b : bool) (s : ostream) : ostream :=
  mkOut (o_area s) (o_end s) (o_buf s) b (o_line s) (o_unbuf s) (o_append s) (o_readonly s) (o_err s)
    (o_offset s) (o_file s) (o_writes s) (o_errno s).
Definition put_file (l : list Z) (s : ostream) : ostream :=
  mkOut (o_area s) (o_end s) (o_buf s) (o_putting s) (o_line s) (o_unbuf s) (o_append s) (o_readonly s) (o_err s)
    (o_offset s) (o_file s ++ l) (S (o_writes s)) (o_errno s).

(** [_IO_buf_end - _IO_buf_base] *)
Definition bufsize (s : ostream) : nat := default 0%nat (o_buf s).

Section Ops.
Context `{Writes}.

(** The loop of [_IO_new_file_write]: what is left to do. *)
Fixpoint write_loop (fuel : nat) (data : list Z) (s : ostream) : res (list Z * ostream) :=
  match fuel with
  | O => Bad Unspecified
  | S fuel' =>
      match data with
      | [] => Ok ([], s)
      | _ =>
          match sys_write (o_writes s) (length data) with
          | inl e => Ok (data, put_error e (put_file [] s))
          | inr count => write_loop fuel' (drop count data) (put_file (take count data) s)
          end
      end
  end.

(** [_IO_ssize_t _IO_new_file_write (_IO_FILE *f, const void *data, _IO_ssize_t n)] *)
Definition file_write (data : list Z) (s : ostream) : res (nat * ostream) :=
  r ← write_loop (S (length data)) data s;
  let '(rest, s) := r in
  let n := (length data - length rest)%nat in
  Ok (n, match o_offset s with Some o => put_offset (Some (o + Z.of_nat n)) s | None => s end).

(** [static _IO_size_t new_do_write (_IO_FILE *fp, const char *data, _IO_size_t to_do)] *)
Definition new_do_write (data : list Z) (s : ostream) : res (nat * ostream) :=
  let s := if o_append s then put_offset None s else s in
  r ← file_write data s;
  let '(count, s) := r in
  Ok (count, put_area [] (if o_line s || o_unbuf s then 0%nat else bufsize s) s).

(** [int _IO_new_do_write (_IO_FILE *fp, const char *data, _IO_size_t to_do)]:
    whether it returns 0, not EOF. *)
Definition do_write (data : list Z) (s : ostream) : res (bool * ostream) :=
  match data with
  | [] => Ok (true, s)
  | _ => r ← new_do_write data s; let '(count, s) := r in Ok (bool_decide (count = length data), s)
  end.

(** [_IO_do_flush (f)] *)
Definition do_flush (s : ostream) : res (bool * ostream) := do_write (o_area s) s.

(** [void _IO_doallocbuf (_IO_FILE *fp)] *)
Definition odoallocbuf (s : ostream) : ostream :=
  match o_buf s with
  | Some _ => s
  | None => if o_unbuf s then put_buf 1 (o_line s) s else put_buf sys_obufsize (o_line s || sys_isatty) s
  end.

(** Lines 753 to 788: start putting. *)
Definition start_putting (s : ostream) : ostream :=
  if negb (o_putting s) || negb (bool_decide (is_Some (o_buf s))) then
    let s := odoallocbuf s in
    let s := put_putting true (put_area [] (bufsize s) s) in
    if o_line s || o_unbuf s then put_area [] 0 s else s
  else s.

(** [int _IO_new_file_overflow (_IO_FILE *f, int ch)]; [ch] is [None] for EOF;
    whether it returns something else than EOF. *)
Definition overflow (ch : option Z) (s : ostream) : res (bool * ostream) :=
  if o_readonly s then Ok (false, put_error EBADF s)
  else
    let s := start_putting s in
    match ch with
    | None => do_flush s
    | Some c =>
        r ← (if decide (length (o_area s) = bufsize s) then do_flush s else Ok (true, s));
        let '(ok, s) := r in
        if negb ok then Ok (false, s)
        else
          let s := put_area (o_area s ++ [uint8 c]) (o_end s) s in
          if o_unbuf s || (o_line s && (c =? 10)) then do_flush s else Ok (true, s)
    end.

(** [_IO_size_t _IO_default_xsputn (_IO_FILE *f, const void *data, _IO_size_t n)]:
    the loop, with what is left to write. *)
Fixpoint default_xsputn_loop (fuel : nat) (data : list Z) (s : ostream) : res (nat * ostream) :=
  match fuel with
  | O => Bad Unspecified
  | S fuel' =>
      let count := if decide (length (o_area s) < o_end s)%nat
                   then Nat.min (o_end s - length (o_area s)) (length data) else 0%nat in
      let s := put_area (o_area s ++ take count data) (o_end s) s in
      match drop count data with
      | [] => Ok (0%nat, s)
      | c :: data' =>
          r ← overflow (Some c) s;
          let '(ok, s) := r in
          if ok : bool then default_xsputn_loop fuel' data' s else Ok (S (length data'), s)
      end
  end.

Definition default_xsputn (data : list Z) (s : ostream) : res (nat * ostream) :=
  if decide (length data = 0%nat) then Ok (0%nat, s)
  else
    r ← default_xsputn_loop (S (length data)) data s;
    let '(more, s) := r in
    Ok ((length data - more)%nat, s).

(** [for (p = s + n; p > s; ) if ( *--p == '\n')]: the last newline below [p]. *)
Fixpoint last_newline (data : list Z) (p : nat) : option nat :=
  match p with
  | O => None
  | S p' => if decide (data !! p' = Some 10) then Some p' else last_newline data p'
  end.

(** The first part of [_IO_new_file_xsputn]: how much fits into the
    buffer, and whether it must be flushed then. *)
Definition xsputn_room (data : list Z) (s : ostream) : nat * bool :=
  if o_line s && o_putting s then
    let count := (bufsize s - length (o_area s))%nat in
    if decide (length data ≤ count)%nat then
      match last_newline data (length data) with Some p => (S p, true) | None => (count, false) end
    else (count, false)
  else if decide (length (o_area s) < o_end s)%nat then ((o_end s - length (o_area s))%nat, false)
  else (0%nat, false).

(** [_IO_size_t _IO_new_file_xsputn (_IO_FILE *f, const void *data, _IO_size_t n)] *)
Definition file_xsputn (data : list Z) (s : ostream) : res (Z * ostream) :=
  let n := length data in
  if decide (n = 0%nat) then Ok (0, s)
  else
    let '(count, must_flush) := xsputn_room data s in
    let count := Nat.min count n in
    let s := put_area (o_area s ++ take count data) (o_end s) s in
    let data := drop count data in
    if bool_decide (length data = 0%nat) && negb must_flush then Ok (Z.of_nat n, s)
    else
      r ← overflow None s;
      let '(ok, s) := r in
      if negb ok then Ok (if decide (length data = 0%nat) then uint64 EOF else Z.of_nat (n - length data), s)
      else
        let block_size := bufsize s in
        let do_write := (length data - (if decide (128 ≤ block_size)%nat then length data `mod` block_size else 0))%nat in
        r ← (if decide (do_write = 0%nat) then Ok (0%nat, s) else new_do_write (take do_write data) s);
        let '(count, s) := r in
        if decide (count < do_write)%nat then Ok (Z.of_nat (n - (length data - count)), s)
        else
          r ← default_xsputn (drop do_write data) s;
          let '(more, s) := r in
          Ok (Z.of_nat (n - (length data - count - more)), s).

(** [_IO_size_t _IO_fwrite (const void *buf, _IO_size_t size, _IO_size_t count, _IO_FILE *fp)] *)
Definition IO_fwrite (buf : list Z) (size count : Z) (s : ostream) : res (Z * ostream) :=
  let request := uint64 (size * count) in
  if request =? 0 then Ok (0, s)
  else if decide (Z.to_nat request ≤ length buf)%nat then
    r ← file_xsputn (take (Z.to_nat request) buf) s;
    let '(written, s) := r in
    Ok (if (written =? request) || (written =? uint64 EOF) then count else written / size, s)
  else Bad OutOfBounds.

(** [int _IO_new_file_sync (_IO_FILE *fp)] and [int _IO_fflush (_IO_FILE *fp)] *)
Definition file_sync (s : ostream) : res (Z * ostream) :=
  r ← (match o_area s with [] => Ok (true, s) | _ => do_flush s end);
  let '(ok, s) := r in
  if negb ok then Ok (EOF, s) else Ok (0, put_offset None s).

Definition IO_fflush (s : ostream) : res (Z * ostream) :=
  r ← file_sync s;
  let '(retval, s) := r in
  Ok (if retval =? 0 then 0 else EOF, s).

(** [int _IO_new_file_close_it (_IO_FILE *fp)] on an open stream, on which the
    status of [_IO_new_fclose] and what is in the file depend; that the FILE is then
    taken off the list of open streams and freed is left out. *)
Definition IO_fclose (s : ostream) : res (Z * list Z) :=
  r ← (if negb (o_readonly s) && o_putting s then do_flush s else Ok (true, s));
  let '(ok, s) := r in
  let write_status := if ok : bool then 0 else EOF in
  Ok (if negb (sys_close =? 0) then sys_close else write_status, o_file s).
End Ops.

(** A stream from [fopen (.., "w+")] or, appending, [fopen (.., "a+")]. *)
Definition fresh (append : bool) (contents : list Z) : ostream :=
  mkOut [] 0 None false false false append false false None contents 0 0.

(** ** What a stream has been given *)

(** What is in the file and what is still in the buffer. *)
Definition given (s : ostream) : list Z := o_file s ++ o_area s.

(** The buffer of a stream that is only written to. *)
Definition out_ok (s : ostream) : Prop :=
  match o_buf s with
  | None => o_area s = [] ∧ o_end s = 0%nat ∧ o_putting s = false
  | Some n =>
      (0 < n)%nat ∧ (length (o_area s) ≤ n)%nat ∧ o_putting s = true ∧
      o_end s = if o_line s || o_unbuf s then 0%nat else n
  end.

(** The parts of a stream that do not change once it has a buffer. *)
Definition okind (s : ostream) : option nat * bool * bool * bool * bool :=
  (o_buf s, o_putting s, o_line s, o_unbuf s, o_readonly s).

(** No [write] fails. *)
Definition writes_reliable `{Writes} : Prop := ∀ n want, ∃ k, sys_write n want = inr k.

Section Writing.
Context `{WriteLaws}.

(** From [s] to [s'] the bytes [data] were given to the stream; if something
    failed, the buffer is empty and the file has a part of them. *)
Record sent (s s' : ostream) (data : list Z) (ok : bool) : Prop := {
  se_ok : out_ok s';
  se_readonly : o_readonly s' = o_readonly s;
  se_line : o_line s' = true → o_line s = true ∨ sys_isatty = true;
  se_grows : o_file s `prefix_of` o_file s';
  se_given : if ok then given s' = given s ++ data ∧ o_err s' = o_err s
             else o_file s' `prefix_of` given s ++ data ∧ o_area s' = [] ∧ o_err s' = true ∧ ¬ writes_reliable;
}.

Lemma sent_trans s s1 s2 d1 d2 ok : sent s s1 d1 true → sent s1 s2 d2 ok → sent s s2 (d1 ++ d2) ok.
Proof.
  intros [A1 A2 A3 A4 [A5 A6]] [B1 B2 B3 B4 B5]. constructor; [done|congruence| |by etrans|].
  - intros [Hl|Hl]%B3; [by apply A3|by right].
  - rewrite A5 in B5. rewrite app_assoc. destruct ok; [|done]. destruct B5. split; [done|congruence].
Qed.

Lemma sent_more s s' d e : sent s s' d false → sent s s' (d ++ e) false.
Proof.
  intros [A1 A2 A3 A4 (A5 & A6)]. constructor; try done. split; [|done]. rewrite app_assoc. by apply prefix_app_r.
Qed.

Lemma write_loop_spec fuel : ∀ data s, (length data < fuel)%nat →
  ∃ k s', write_loop fuel data s = Ok (drop k data, s') ∧ (k ≤ length data)%nat ∧
    o_file s' = o_file s ++ take k data ∧ okind s' = okind s ∧ o_area s' = o_area s ∧ o_end s' = o_end s ∧
    (k = length data ∧ o_err s' = o_err s ∨ (k < length data)%nat ∧ o_err s' = true ∧ ¬ writes_reliable).
Proof.
  induction fuel as [|fuel IH]; intros data s Hf; [lia|]. cbn [write_loop]. destruct data as [|c data].
  { exists 0%nat, s. rewrite app_nil_r. split_and!; auto. }
  set (l := c :: data) in *. destruct (sys_write (o_writes s) (length l)) as [e|k] eqn:E.
  - exists 0%nat, (put_error e (put_file [] s)). rewrite drop_0, take_0. split_and!; try done; [lia|].
    right. split_and!; [unfold l; cbn; lia|done|]. intros Hr. destruct (Hr (o_writes s) (length l)) as [k Ek]. congruence.
  - destruct (write_bound (o_writes s) (length l) k ltac:(unfold l; cbn; lia) E) as [Hk0 Hk].
    destruct (IH (drop k l) (put_file (take k l) s)) as (j & s' & Ew & Hj & Hfi & Hki & Ha & He & Herr).
    { rewrite length_drop. lia. }
    rewrite length_drop in Hj, Herr. exists (k + j)%nat, s'.
    rewrite Ew, drop_drop. split_and!; try done; [lia| |].
    + rewrite Hfi. cbn [put_file o_file]. by rewrite <-app_assoc, take_take_drop.
    + cbn [put_file o_err] in Herr. destruct Herr as [[??]|(?&?&?)]; [left|right]; split_and!; done || lia.
Qed.

Lemma new_do_write_spec data s : ∃ k s', new_do_write data s = Ok (k, s') ∧ (k ≤ length data)%nat ∧
  o_file s' = o_file s ++ take k data ∧ okind s' = okind s ∧ o_area s' = [] ∧
  o_end s' = (if o_line s || o_unbuf s then 0%nat else bufsize s) ∧
  (k = length data ∧ o_err s' = o_err s ∨ (k < length data)%nat ∧ o_err s' = true ∧ ¬ writes_reliable).
Proof.
  unfold new_do_write, file_write. set (s0 := if o_append s then put_offset None s else s).
  assert (o_file s0 = o_file s ∧ okind s0 = okind s ∧ o_err s0 = o_err s) as (E1 & E2 & E3)
    by (unfold s0; by destruct (o_append s)).
  destruct (write_loop_spec (S (length data)) data s0 ltac:(lia)) as (k & s1 & -> & Hk & Hf & Hki & _ & _ & He).
  cbn [mbind res_bind]. rewrite length_drop. replace (length data - (length data - k))%nat with k by lia.
  set (s2 := match o_offset s1 with Some _ => _ | None => s1 end).
  assert (o_file s2 = o_file s1 ∧ okind s2 = okind s1 ∧ o_err s2 = o_err s1) as (F1 & F2 & F3)
    by (unfold s2; by destruct (o_offset s1)).
  eexists k, _. split; [done|]. rewrite E1 in Hf. rewrite E3 in He.
  assert (okind s2 = okind s) as Hs by congruence. unfold okind in Hs. injection Hs as K1 K2 K3 K4 K5.
  split_and!; cbn [put_area o_file o_area o_end o_err okind]; try done; try congruence.
  - unfold okind. cbn. congruence.
  - unfold bufsize. by rewrite K1, K3, K4.
Qed.

(** Writing out bytes that come right after those in the file. *)
Lemma new_do_write_sent data s n : out_ok s → o_buf s = Some n → o_area s = [] →
  ∃ k s', new_do_write data s = Ok (k, s') ∧ (k ≤ length data)%nat ∧ o_buf s' = Some n ∧
    sent s s' data (bool_decide (k = length data)).
Proof.
  intros Hs Hb Ha. destruct (new_do_write_spec data s) as (k & s' & E & Hk & Hf & Hki & Ha' & He & Herr).
  exists k, s'. unfold okind in Hki. injection Hki as K1 K2 K3 K4 K5. split_and!; try done; [congruence|].
  unfold out_ok in Hs. rewrite Hb in Hs. destruct Hs as (Hn & _ & Hp & _).
  constructor.
  - unfold out_ok. rewrite K1, Hb, Ha', K2, K3, K4, He. unfold bufsize. rewrite Hb. cbn. split_and!; [done|lia|done..].
  - done.
  - rewrite K3. by left.
  - rewrite Hf. by apply prefix_app_r.
  - unfold given. rewrite Ha, Ha', Hf, !app_nil_r. destruct Herr as [[-> Hr]|(Hlt & Hr & Hnr)].
    + rewrite bool_decide_true by done. by rewrite take_ge.
    + rewrite bool_decide_false by lia. split_and!; try done. apply prefix_app, prefix_take.
Qed.

Lemma do_flush_sent s n : out_ok s → o_buf s = Some n →
  ∃ ok s', do_flush s = Ok (ok, s') ∧ o_buf s' = Some n ∧ o_area s' = [] ∧ o_unbuf s' = o_unbuf s ∧ o_line s' = o_line s ∧
    sent s s' [] ok.
Proof.
  intros Hs Hb. unfold do_flush, do_write. destruct (o_area s) as [|c a] eqn:Ea.
  { exists true, s. split_and!; try done. constructor; try done; [by left|]. by rewrite app_nil_r. }
  destruct (new_do_write_spec (c :: a) s) as (k & s' & -> & Hk & Hf & Hki & Ha' & He & Herr). cbn [mbind res_bind].
  unfold okind in Hki. injection Hki as K1 K2 K3 K4 K5.
  eexists _, s'. split_and!; try done; [congruence|].
  unfold out_ok in Hs. rewrite Hb in Hs. destruct Hs as (Hn & _ & Hp & _).
  constructor.
  - unfold out_ok. rewrite K1, Hb, Ha', K2, K3, K4, He. unfold bufsize. rewrite Hb. cbn. split_and!; [done|lia|done..].
  - done.
  - rewrite K3. by left.
  - rewrite Hf. by apply prefix_app_r.
  - unfold given. rewrite Ea, Ha', Hf, !app_nil_r. destruct Herr as [[-> Hr]|(Hlt & Hr & Hnr)].
    + rewrite bool_decide_true by done. by rewrite take_ge.
    + rewrite bool_decide_false by lia. split_and!; try done. apply prefix_app, prefix_take.
Qed.

Lemma start_putting_sent s : out_ok s → o_readonly s = false →
  ∃ n s', start_putting s = s' ∧ o_buf s' = Some n ∧ o_area s' = o_area s ∧ sent s s' [] true.
Proof.
  intros Hs Hr. unfold out_ok in Hs. unfold start_putting. destruct (o_buf s) as [n|] eqn:Hb.
  - destruct Hs as (Hn & Ha & Hp & He). rewrite Hp, bool_decide_true by (by eexists). cbn [negb orb].
    exists n, s. split_and!; try done. constructor; try done; [unfold out_ok; by rewrite Hb|by left|by rewrite app_nil_r].
  - destruct Hs as (Ha & He & Hp). rewrite Hp. cbn [negb orb]. unfold odoallocbuf. rewrite Hb.
    pose proof obufsize_pos. exists (if o_unbuf s then 1 else sys_obufsize)%nat. eexists. split; [done|].
    destruct (o_unbuf s) eqn:Hu; cbn.
    + rewrite Hu, orb_true_r. split_and!; try done.
      constructor; cbn; try done; [unfold out_ok; cbn; rewrite Hu, orb_true_r; split_and!; done || lia|by left|].
      unfold given. cbn. by rewrite Ha, !app_nil_r.
    + rewrite Hu, orb_false_r. destruct (o_line s || sys_isatty) eqn:Hl; cbn; split_and!; try done;
        (constructor; cbn; try done;
          first [by unfold given; cbn; rewrite Ha, !app_nil_r|by intros _; apply orb_true_iff
                |by unfold out_ok; cbn; rewrite ?Hl, ?Hu; split_and!; done || lia]).
Qed.

(** Bytes put into the buffer where there is room. *)
Lemma fill_sent s l n : out_ok s → o_buf s = Some n → (length (o_area s) + length l ≤ n)%nat →
  sent s (put_area (o_area s ++ l) (o_end s) s) l true.
Proof.
  intros Hs Hb Hl. unfold out_ok in Hs. rewrite Hb in Hs. destruct Hs as (Hn & _ & Hp & He).
  constructor; cbn; try done; [|by left|unfold given; cbn; by rewrite app_assoc].
  unfold out_ok. cbn. rewrite Hb, length_app. split_and!; done || lia.
Qed.

Lemma sent_nil s : out_ok s → sent s s [] true.
Proof. intros Hs. constructor; try done; [by left|]. by rewrite app_nil_r. Qed.

(** A failure of a later part is a failure of the whole. *)
Lemma sent_app s s1 s2 d1 d2 d3 ok : sent s s1 d1 true → sent s1 s2 d2 ok →
  (ok = true → d3 = []) → sent s s2 (d1 ++ d2 ++ d3) ok.
Proof.
  intros H1 H2 H3. pose proof (sent_trans _ _ _ _ _ _ H1 H2) as H12. destruct ok.
  - by rewrite H3, app_nil_r.
  - rewrite app_assoc. by apply sent_more.
Qed.

Lemma overflow_eof s : out_ok s → o_readonly s = false →
  ∃ ok s' n, overflow None s = Ok (ok, s') ∧ o_buf s' = Some n ∧ o_area s' = [] ∧ sent s s' [] ok.
Proof.
  intros Hs Hr. unfold overflow. rewrite Hr.
  destruct (start_putting_sent s Hs Hr) as (n & s1 & -> & Hb1 & Ha1 & H1).
  destruct (do_flush_sent s1 n (se_ok _ _ _ _ H1) Hb1) as (ok & s' & -> & Hb' & Ha' & _ & _ & H2).
  exists ok, s', n. split_and!; try done. by pose proof (sent_trans _ _ _ _ _ _ H1 H2).
Qed.

Lemma overflow_char c s : out_ok s → o_readonly s = false → is_byte c →
  ∃ ok s' n, overflow (Some c) s = Ok (ok, s') ∧ o_buf s' = Some n ∧ sent s s' [c] ok.
Proof.
  intros Hs Hr Hc. unfold overflow. rewrite Hr.
  destruct (start_putting_sent s Hs Hr) as (n & s1 & -> & Hb1 & Ha1 & H1).
  assert (uint8 c = c) as Ec by (unfold uint8; apply Z.mod_small; exact Hc).
  assert (∃ ok s2, (if decide (length (o_area s1) = bufsize s1) then do_flush s1 else Ok (true, s1)) = Ok (ok, s2) ∧
    o_buf s2 = Some n ∧ (ok = true → (length (o_area s2) < n)%nat) ∧ sent s1 s2 [] ok) as (ok & s2 & -> & Hb2 & Ha2 & H2).
  { pose proof (se_ok _ _ _ _ H1) as Hs1. pose proof Hs1 as Hs1'. unfold out_ok in Hs1'. rewrite Hb1 in Hs1'.
    unfold bufsize. rewrite Hb1. change (default 0%nat (Some n)) with n. destruct (decide (length (o_area s1) = n)).
    - destruct (do_flush_sent s1 n Hs1 Hb1) as (ok & s' & -> & Hb' & Ha' & _ & _ & H2).
      exists ok, s'. split_and!; try done. intros _. rewrite Ha'. cbn. lia.
    - exists true, s1. split_and!; try done; [lia|by apply sent_nil]. }
  cbn [mbind res_bind]. destruct ok; cbn [negb].
  2: { exists false, s2, n. split_and!; try done. apply (sent_app s s1 s2 [] [] [c]); done. }
  rewrite Ec. set (s3 := put_area _ _ s2).
  assert (sent s2 s3 [c] true) as H3 by (eapply fill_sent; [apply H2|exact Hb2|specialize (Ha2 eq_refl); cbn; lia]).
  assert (sent s s3 [c] true) as H03 by (apply (sent_trans s s1 s3 [] [c]), (sent_trans s1 s2 s3 [] [c]); done).
  destruct (_ || _).
  - destruct (do_flush_sent s3 n (se_ok _ _ _ _ H3) Hb2) as (ok & s' & -> & Hb' & Ha' & _ & _ & H4).
    exists ok, s', n. split_and!; try done. by apply (sent_trans s s3 s' [c] []).
  - by exists true, s3, n.
Qed.

Lemma default_xsputn_loop_spec fuel : ∀ data s n, out_ok s → o_buf s = Some n → o_readonly s = false → bytes_ok data →
  (length data < fuel)%nat →
  ∃ more s', default_xsputn_loop fuel data s = Ok (more, s') ∧ (more ≤ length data)%nat ∧
    sent s s' data (bool_decide (more = 0%nat)).
Proof.
  induction fuel as [|fuel IH]; intros data s n Hs Hb Hr Hd Hf; [lia|]. cbn [default_xsputn_loop].
  set (count := if decide _ then _ else _).
  assert (length (o_area s) + length (take count data) ≤ n)%nat as Hroom.
  { unfold out_ok in Hs. rewrite Hb in Hs. destruct Hs as (Hn & Ha & Hp & He). rewrite length_take. unfold count.
    destruct (decide _) as [Hlt|]; [|lia]. rewrite He in *. destruct (_ || _); lia. }
  set (s1 := put_area _ _ s). pose proof (fill_sent s (take count data) n Hs Hb Hroom) as H1. fold s1 in H1.
  destruct (drop count data) as [|c data'] eqn:Ed.
  { exists 0%nat, s1. rewrite bool_decide_true by done. split_and!; [done|lia|].
    rewrite <-(take_drop count data), Ed, app_nil_r. done. }
  assert (data = take count data ++ [c] ++ data') as Edata by (rewrite <-(take_drop count data) at 1; by rewrite Ed).
  assert (bytes_ok (c :: data')) as Hcd by (rewrite <-Ed; by apply Forall_drop).
  apply Forall_cons in Hcd as [Hc Hd'].
  assert (length data = length (take count data) + S (length data'))%nat as Hlen by (rewrite Edata at 1; by rewrite length_app).
  destruct (overflow_char c s1) as (ok & s2 & m & -> & Hb2 & H2); [apply H1|by rewrite (se_readonly _ _ _ _ H1)|done|].
  cbn [mbind res_bind]. destruct ok.
  - destruct (IH data' s2 m) as (more & s' & -> & Hm & H3); [apply H2|done| |done|lia|].
    { by rewrite (se_readonly _ _ _ _ H2), (se_readonly _ _ _ _ H1). }
    exists more, s'. split_and!; [done|lia|]. rewrite Edata, app_assoc.
    eapply sent_trans; [|exact H3]. by eapply sent_trans.
  - exists (S (length data')), s2. rewrite bool_decide_false by done. split_and!; [done|lia|].
    rewrite Edata. by eapply sent_app.
Qed.

Lemma default_xsputn_spec data s n : out_ok s → o_buf s = Some n → o_readonly s = false → bytes_ok data →
  ∃ k s', default_xsputn data s = Ok (k, s') ∧ (k ≤ length data)%nat ∧ sent s s' data (bool_decide (k = length data)).
Proof.
  intros Hs Hb Hr Hd. unfold default_xsputn. destruct (decide (length data = 0%nat)) as [E|E].
  { exists 0%nat, s. split_and!; [done|lia|]. rewrite E, bool_decide_true by done.
    apply length_zero_iff_nil in E as ->. by apply sent_nil. }
  destruct (default_xsputn_loop_spec (S (length data)) data s n Hs Hb Hr Hd ltac:(lia)) as (more & s' & -> & Hm & H1).
  cbn [mbind res_bind]. eexists _, s'. split_and!; [done|lia|].
  by rewrite (bool_decide_ext (length data - more = length data)%nat (more = 0)%nat) by lia.
Qed.

Lemma last_newline_lt data p k : last_newline data p = Some k → (k < p)%nat.
Proof.
  induction p as [|p IH]; cbn [last_newline]; [done|]. destruct (decide _); [|intros ?%IH; lia]. intros [= <-]. lia.
Qed.

Lemma room_sent data s : out_ok s →
  let '(count, must_flush) := xsputn_room data s in
  let c := Nat.min count (length data) in
  sent s (put_area (o_area s ++ take c data) (o_end s) s) (take c data) true ∧ (must_flush = true → o_line s = true).
Proof.
  intros Hs. unfold xsputn_room. destruct (o_buf s) as [n|] eqn:Hb.
  - pose proof Hs as Hs'. unfold out_ok in Hs'. rewrite Hb in Hs'. destruct Hs' as (Hn & Ha & Hp & He).
    unfold bufsize. rewrite Hb. change (default 0%nat (Some n)) with n. rewrite Hp, andb_true_r.
    assert (∀ c, (length (o_area s) + c ≤ n)%nat →
      sent s (put_area (o_area s ++ take c data) (o_end s) s) (take c data) true) as Hfill.
    { intros c Hc. eapply fill_sent; [done|done|]. rewrite length_take. lia. }
    destruct (o_line s) eqn:Hl.
    + destruct (decide _); [|split; [apply Hfill; lia|done]].
      destruct (last_newline data (length data)) as [p|] eqn:Ep; [|split; [apply Hfill; lia|done]].
      apply last_newline_lt in Ep. split; [apply Hfill; lia|done].
    + destruct (decide _); (split; [|done]); apply Hfill; [|lia].
      rewrite He. destruct (_ || _); lia.
  - pose proof Hs as Hs'. unfold out_ok in Hs'. rewrite Hb in Hs'. destruct Hs' as (Ha & He & Hp).
    rewrite Hp, andb_false_r, He. rewrite decide_False by lia. split; [|done]. cbn [Nat.min]. rewrite take_0, app_nil_r.
    assert (put_area (o_area s) 0 s = s) as -> by (destruct s; cbn in *; by subst). by apply sent_nil.
Qed.

Lemma file_xsputn_spec data s : out_ok s → o_readonly s = false → bytes_ok data → Z.of_nat (length data) < 2 ^ 64 - 1 →
  ∃ w s', file_xsputn data s = Ok (w, s') ∧ sent s s' data (bool_decide (w = Z.of_nat (length data))) ∧
    (w = uint64 EOF ∧ o_line s = true ∨ 0 ≤ w ≤ Z.of_nat (length data)).
Proof.
  intros Hs Hr Hd Hbig. unfold file_xsputn. destruct (decide (length data = 0%nat)) as [E0|E0].
  { exists 0, s. apply length_zero_iff_nil in E0 as ->. split_and!; [done|by apply sent_nil|right; cbn; lia]. }
  pose proof (room_sent data s Hs) as Hroom. destruct (xsputn_room data s) as [count mf]. destruct Hroom as [H1 Hmf].
  set (c := Nat.min count (length data)) in *. set (s1 := put_area _ _ s) in *.
  set (d := drop c data). assert (data = take c data ++ d) as Edata by (unfold d; by rewrite take_drop).
  assert (length data = c + length d)%nat as Hlen by (unfold d; rewrite length_drop; lia).
  assert (bytes_ok d) as Hdd by (by apply Forall_drop).
  destruct (bool_decide (length d = 0%nat) && negb mf) eqn:Edone.
  { apply andb_true_iff in Edone as [Ed%bool_decide_eq_true _]. apply length_zero_iff_nil in Ed.
    exists (Z.of_nat (length data)), s1. rewrite bool_decide_true by done. split_and!; [done| |lia].
    rewrite Edata, Ed, app_nil_r. exact H1. }
  destruct (overflow_eof s1) as (ok & s2 & n & -> & Hb2 & Ha2 & H2); [apply H1|by rewrite (se_readonly _ _ _ _ H1)|].
  cbn [mbind res_bind]. destruct ok; cbn [negb].
  2: { assert (sent s s2 data false) as Hfail by (rewrite Edata; by apply (sent_app s s1 s2 (take c data) [] d)).
       destruct (decide (length d = 0%nat)) as [Ed|Ed].
       - exists (uint64 EOF), s2. rewrite bool_decide_false by (change (uint64 EOF) with (2 ^ 64 - 1); lia).
         split_and!; [done|done|]. left. split; [done|]. apply Hmf. rewrite bool_decide_true in Edone by done.
         by destruct mf.
       - exists (Z.of_nat (length data - length d)), s2. rewrite bool_decide_false by lia. split_and!; [done|done|lia]. }
  assert (sent s s2 (take c data) true) as H02.
  { rewrite <-(app_nil_r (take c data)). by eapply sent_trans. }
  set (dw := (length d - _)%nat). assert (dw ≤ length d)%nat as Hdw by (unfold dw; lia).
  assert (∃ k s3 m, (if decide (dw = 0%nat) then Ok (0%nat, s2) else new_do_write (take dw d) s2) = Ok (k, s3) ∧
    (k ≤ dw)%nat ∧ o_buf s3 = Some m ∧ sent s2 s3 (take dw d) (bool_decide (k = dw))) as (k & s3 & m & -> & Hk & Hb3 & H3).
  { destruct (decide (dw = 0%nat)) as [E|E].
    - exists 0%nat, s2, n. rewrite E, take_0. split_and!; try done. apply sent_nil, H2.
    - destruct (new_do_write_sent (take dw d) s2 n (se_ok _ _ _ _ H2) Hb2 Ha2) as (k & s3 & Ew & Hk & Hb & H3).
      rewrite length_take_le in Hk, H3 by done. by exists k, s3, n. }
  cbn [mbind res_bind]. destruct (decide (k < dw)%nat) as [Hlt|Hge].
  - rewrite bool_decide_false in H3 by lia. exists (Z.of_nat (length data - (length d - k))), s3.
    rewrite bool_decide_false by lia. split_and!; [done| |lia].
    rewrite Edata, <-(take_drop dw d). by eapply sent_app.
  - rewrite bool_decide_true in H3 by lia.
    destruct (default_xsputn_spec (drop dw d) s3 m) as (j & s4 & -> & Hj & H4); [apply H3|done| |by apply Forall_drop|].
    { by rewrite (se_readonly _ _ _ _ H3), (se_readonly _ _ _ _ H02). }
    cbn [mbind res_bind]. rewrite length_drop in Hj, H4. eexists _, s4. split_and!; [done| |lia].
    rewrite (bool_decide_ext (Z.of_nat (length data - (length d - k - j)) = Z.of_nat (length data)) (j = length d - dw)%nat) by lia.
    assert (data = take c data ++ take dw d ++ drop dw d) as E2 by (by rewrite (take_drop dw d)).
    rewrite E2 at 1. eapply sent_trans; [exact H02|]. by eapply sent_trans.
Qed.

Lemma fclose_spec s : out_ok s → o_readonly s = false →
  ∃ ok s', IO_fclose s = Ok (if negb (sys_close =? 0) then sys_close else if ok : bool then 0 else EOF, o_file s') ∧
    o_area s' = [] ∧ sent s s' [] ok.
Proof.
  intros Hs Hr. unfold IO_fclose. rewrite Hr. cbn [negb andb]. destruct (o_buf s) as [n|] eqn:Hb.
  - destruct (do_flush_sent s n Hs Hb) as (ok & s' & E & _ & Ha & _ & _ & H1).
    unfold out_ok in Hs. rewrite Hb in Hs. destruct Hs as (_ & _ & Hp & _).
    rewrite Hp, E. cbn [mbind res_bind]. by exists ok, s'.
  - pose proof Hs as Hs'. unfold out_ok in Hs'. rewrite Hb in Hs'. destruct Hs' as (Ha & _ & Hp).
    rewrite Hp. cbn [mbind res_bind]. exists true, s. split_and!; [done|done|by apply sent_nil].
Qed.

Lemma fwrite_spec buf size count s : out_ok s → o_readonly s = false → bytes_ok buf → 0 < size → 0 < count →
  size * count < 2 ^ 64 - 1 → size * count ≤ Z.of_nat (length buf) →
  ∃ r ok s', IO_fwrite buf size count s = Ok (r, s') ∧ sent s s' (take (Z.to_nat (size * count)) buf) ok ∧
    (ok = true → r = count) ∧ (o_line s = false → r = count → ok = true).
Proof.
  intros Hs Hr Hb Hsz Hc Hbig Hlen. unfold IO_fwrite.
  assert (0 < size * count) as Hpos by (by apply Z.mul_pos_pos).
  assert (uint64 (size * count) = size * count) as -> by (unfold uint64; apply Z.mod_small; lia).
  destruct (Z.eqb_spec (size * count) 0); [lia|]. rewrite decide_True by lia.
  set (data := take (Z.to_nat (size * count)) buf).
  assert (Z.of_nat (length data) = size * count) as Hl by (unfold data; rewrite length_take; lia).
  destruct (file_xsputn_spec data s Hs Hr) as (w & s' & -> & H1 & Hw); [by apply Forall_take|lia|].
  cbn [mbind res_bind]. rewrite Hl in *. eexists _, _, s'. split_and!; [done|exact H1|..].
  - intros ->%bool_decide_eq_true. by rewrite Z.eqb_refl.
  - intros Hline Hret. apply bool_decide_eq_true. destruct Hw as [[_ Hl']|Hw]; [congruence|].
    destruct (Z.eqb_spec w (size * count)) as [|Hne]; [done|]. exfalso.
    destruct (Z.eqb_spec w (uint64 EOF)) as [->|_]; [change (uint64 EOF) with (2 ^ 64 - 1) in Hw; lia|].
    cbn [orb] in Hret. assert (w < size * count) as Hlt by lia.
    apply (Z.div_lt_upper_bound w size count Hsz) in Hlt. lia.
Qed.

(** [fflush] leaves nothing in the buffer. *)
Lemma fflush_spec s : out_ok s → ∃ ok s', IO_fflush s = Ok (if ok : bool then 0 else EOF, s') ∧ o_area s' = [] ∧ sent s s' [] ok.
Proof.
  intros Hs. unfold IO_fflush, file_sync. destruct (o_area s) as [|c a] eqn:Ea.
  { cbn [mbind res_bind negb]. exists true, (put_offset None s). split_and!; try done.
    constructor; try done; [by left|unfold given; cbn; by rewrite app_nil_r]. }
  destruct (o_buf s) as [n|] eqn:Hb.
  2: { unfold out_ok in Hs. rewrite Hb in Hs. destruct Hs as (Ha & _). congruence. }
  destruct (do_flush_sent s n Hs Hb) as (ok & s' & -> & _ & Ha & _ & _ & H1). cbn [mbind res_bind].
  destruct ok; cbn [negb mbind res_bind]; [|by exists false, s'].
  exists true, (put_offset None s'). split_and!; try done. destruct H1. by constructor.
Qed.
End Writing.

(** ** Theorems *)

Section Theorems.
Context `{WriteLaws}.

(** C35: [fwrite] followed by [fclose], as the program stores a packet: whatever
    [write] does, the file keeps what it had and gets a prefix of the data;
    nothing is missing when [fwrite] returns the count and [fclose] 0; and if no
    [write] fails the whole packet is in the file, [fwrite] returns the count and
    [fclose] what [close] returns.  The file is not a terminal. *)
Theorem recording_written buf n append old :
  sys_isatty = false → bytes_ok buf → 0 < n ≤ Z.of_nat (length buf) → n < 2 ^ 64 - 1 →
  let data := take (Z.to_nat n) buf in
  ∃ r s st file, IO_fwrite buf 1 n (fresh append old) = Ok (r, s) ∧ IO_fclose s = Ok (st, file) ∧
    old `prefix_of` file ∧ file `prefix_of` old ++ data ∧
    (r = n → st = 0 → file = old ++ data) ∧
    (writes_reliable → r = n ∧ st = sys_close ∧ file = old ++ data).
Proof.
  intros Htty Hb Hn Hbig data. set (s0 := fresh append old).
  destruct (fwrite_spec buf 1 n s0) as (r & ok & s & E & H1 & Hr1 & Hr2); try done; try lia.
  rewrite Z.mul_1_l in H1. fold data in H1.
  destruct (fclose_spec s (se_ok _ _ _ _ H1)) as (ok2 & s' & E2 & Ha2 & H2); [by rewrite (se_readonly _ _ _ _ H1)|].
  eexists r, s, _, (o_file s'). split_and!; [done|done|..].
  - etrans; [exact (se_grows _ _ _ _ H1)|exact (se_grows _ _ _ _ H2)].
  - pose proof (se_given _ _ _ _ H1) as G1. pose proof (se_given _ _ _ _ H2) as G2.
    change (given s0) with (old ++ []) in G1. rewrite (app_nil_r old) in G1.
    assert (given s `prefix_of` old ++ data) as Hg.
    { destruct ok; [by destruct G1 as [-> _]|]. destruct G1 as (G1 & Ga & _). unfold given. by rewrite Ga, app_nil_r. }
    destruct ok2; [|destruct G2 as [G2 _]; rewrite app_nil_r in G2; by etrans].
    destruct G2 as [G2 _]. unfold given in G2 at 1. rewrite Ha2, !app_nil_r in G2. by rewrite G2.
  - intros Hr Hst. assert (ok = true) as -> by (by apply Hr2).
    destruct (Z.eqb_spec sys_close 0) as [Hcl|]; cbn [negb] in Hst; [|done]. destruct ok2; [|done].
    destruct (se_given _ _ _ _ H1) as [G1 _]. destruct (se_given _ _ _ _ H2) as [G2 _].
    change (given s0) with (old ++ []) in G1. rewrite app_nil_r in G1.
    unfold given in G2 at 1. rewrite Ha2, !app_nil_r in G2. congruence.
  - intros Hrel. destruct ok; [|by destruct (se_given _ _ _ _ H1) as (_ & _ & _ & Hn')].
    destruct ok2; [|by destruct (se_given _ _ _ _ H2) as (_ & _ & _ & Hn')].
    destruct (se_given _ _ _ _ H1) as [G1 _]. destruct (se_given _ _ _ _ H2) as [G2 _].
    change (given s0) with (old ++ []) in G1. rewrite app_nil_r in G1.
    unfold given in G2 at 1. rewrite Ha2, !app_nil_r in G2.
    split_and!; [by apply Hr1| |congruence]. by destruct (Z.eqb_spec sys_close 0).
Qed.
End Theorems.

(** The pieces of a message, one [fwrite] each. *)
Fixpoint fwrite_all `{Writes} (pieces : list (list Z)) (s : ostream) : res ostream :=
  match pieces with
  | [] => Ok s
  | d :: pieces =>
      r ← IO_fwrite d 1 (Z.of_nat (length d)) s;
      fwrite_all pieces r.2
  end.

Lemma fwrite_all_spec `{WriteLaws} pieces : writes_reliable → ∀ s, out_ok s → o_readonly s = false →
  Forall (λ d, bytes_ok d ∧ Z.of_nat (length d) < 2 ^ 64 - 1) pieces →
  ∃ s', fwrite_all pieces s = Ok s' ∧ out_ok s' ∧ o_readonly s' = false ∧ given s' = given s ++ concat pieces.
Proof.
  intros Hrel. induction pieces as [|d pieces IH]; intros s Hs Hr Hp; cbn [fwrite_all concat].
  { exists s. by rewrite app_nil_r. }
  apply Forall_cons in Hp as [[Hd Hbig] Hp].
  assert (∃ r s1, IO_fwrite d 1 (Z.of_nat (length d)) s = Ok (r, s1) ∧ out_ok s1 ∧ o_readonly s1 = false ∧
    given s1 = given s ++ d) as (r & s1 & -> & Hs1 & Hr1 & Hg).
  { destruct (decide (length d = 0%nat)) as [E|E].
    { apply length_zero_iff_nil in E as ->. exists 0, s. by rewrite app_nil_r. }
    destruct (fwrite_spec d 1 (Z.of_nat (length d)) s) as (r & ok & s1 & Ew & H1 & _); try done; try lia.
    rewrite Z.mul_1_l, Nat2Z.id, take_ge in H1 by lia. exists r, s1. pose proof (se_given _ _ _ _ H1) as Hg.
    destruct ok; [|by destruct Hg as (_ & _ & _ & Hn)]. destruct H1. split_and!; [done|done|congruence|by destruct Hg]. }
  cbn [mbind res_bind snd]. destruct (IH s1 Hs1 Hr1 Hp) as (s' & E & Hs' & Hr' & Hg').
  exists s'. split_and!; try done. by rewrite Hg', Hg, app_assoc.
Qed.

(** C36: a message written in pieces through a buffered stream and flushed or
    closed leaves in the file what the one-step writes the program is verified
    against leave there, as long as no [write] fails: however the kernel cuts
    the pieces, whatever the size of the buffer, line buffered or not. *)
Theorem stream_refines_append `{WriteLaws} pieces append old p w :
  writes_reliable → Forall (λ d, bytes_ok d ∧ Z.of_nat (length d) < 2 ^ 64 - 1) pieces → w_files w !! p = Some old →
  ∃ s file, fwrite_all pieces (fresh append old) = Ok s ∧ IO_fclose s = Ok (sys_close, file) ∧
    (∃ s', IO_fflush s = Ok (0, s') ∧ o_file s' = file) ∧
    w_files (foldl (λ w d, append_file p d w) w pieces) !! p = Some file.
Proof.
  intros Hrel Hp Hw. destruct (fwrite_all_spec pieces Hrel (fresh append old)) as (s & E & Hs & Hr & Hg); try done.
  exists s, (old ++ concat pieces). split; [done|]. change (given (fresh append old)) with (old ++ []) in Hg. rewrite app_nil_r in Hg.
  assert (∀ s' ok, o_area s' = [] → sent s s' [] ok → ok = true ∧ o_file s' = old ++ concat pieces) as Hend.
  { intros s' ok Ha H1. pose proof (se_given _ _ _ _ H1) as G. destruct ok; [|by destruct G as (_ & _ & _ & Hn)].
    split; [done|]. destruct G as [G _]. unfold given in G at 1. rewrite Ha, !app_nil_r in G. congruence. }
  split_and!.
  - destruct (fclose_spec s Hs Hr) as (ok & s' & -> & Ha & H1). destruct (Hend s' ok Ha H1) as [-> ->].
    by destruct (Z.eqb_spec sys_close 0) as [->|].
  - destruct (fflush_spec s Hs) as (ok & s' & -> & Ha & H1). destruct (Hend s' ok Ha H1) as [-> Ef]. by exists s'.
  - clear - Hw. revert w old Hw. induction pieces as [|d pieces IH]; intros w old Hw; cbn [foldl concat].
    { by rewrite app_nil_r. }
    rewrite app_assoc. apply IH. unfold append_file. cbn. by rewrite lookup_insert_eq, Hw.
Qed.

(** [fwrite] reports a line that could not be written as written: the flush at
    the newline empties the buffer although [write] failed, so nothing is
    left for [fclose] to fail on.  (The comment in iofwrite.c says the data is
    in the buffer then.) *)
Theorem line_buffered_loses :
  ∃ (W : Writes), WriteLaws ∧ ∃ s1 s2,
    IO_fwrite [97; 10; 98] 1 3 (fresh false []) = Ok (3, s1) ∧
    IO_fwrite [99; 100; 10] 1 3 s1 = Ok (3, s2) ∧ o_err s2 = true ∧ IO_fclose s2 = Ok (0, [97; 10; 98]).
Proof.
  exists {| sys_write n want := if decide (n = 0%nat) then inr want else inl 28;
            sys_close := 0; sys_obufsize := 8; sys_isatty := true |}.
  split.
  - split; cbn; [|lia]. intros n want k Hw. destruct (decide (n = 0%nat)); [intros [= <-]; lia|done].
  - eexists _, _. split; [vm_compute; reflexivity|]. split; [vm_compute; reflexivity|]. split; reflexivity.
Qed.

(** ** Witnesses *)

(** A kernel that takes at most three bytes at a time; one whose disk is full
    after eight writes. *)
#[local] Instance three_at_once : Writes :=
  {| sys_write n want := inr (Nat.min 3 want); sys_close := 0; sys_obufsize := 8; sys_isatty := false |}.
#[local] Instance three_at_once_laws : WriteLaws.
Proof.
  split; unfold sys_write, sys_obufsize, three_at_once; [|lia].
  intros n want k Hw E. assert (k = Nat.min 3 want) as -> by congruence. lia.
Qed.
Lemma three_at_once_reliable : writes_reliable.
Proof. intros n want. by eexists. Qed.

Lemma recording_written_witness :
  ∃ s, IO_fwrite (seqZ 0 30) 1 20 (fresh false []) = Ok (20, s) ∧ IO_fclose s = Ok (0, seqZ 0 20).
Proof.
  destruct (recording_written (seqZ 0 30) 20 false []) as (r & s & st & file & E1 & E2 & _ & _ & _ & Hr).
  - reflexivity.
  - apply Forall_seqZ. intros x Hx. unfold is_byte. lia.
  - rewrite length_seqZ. lia.
  - lia.
  - destruct (Hr three_at_once_reliable) as (-> & -> & ->). exists s. split; [exact E1|exact E2].
Defined.

Lemma stream_refines_append_witness :
  ∃ s, fwrite_all [lit "[INFO] "; lit "ready"; [10]] (fresh true (lit "old")) = Ok s ∧
    IO_fclose s = Ok (0, lit "old[INFO] ready" ++ [10]).
Proof.
  destruct (stream_refines_append [lit "[INFO] "; lit "ready"; [10]] true (lit "old") [lit "day.log"]
    (boot {[ [lit "day.log"] := lit "old" ]} {[ [] ]}) three_at_once_reliable) as (s & file & E & Ec & _ & Hf).
  - repeat constructor; vm_compute; first [reflexivity|discriminate].
  - reflexivity.
  - assert (file = lit "old[INFO] ready" ++ [10]) as -> by (vm_compute in Hf; injection Hf as <-; reflexivity).
    exists s. split; [exact E|exact Ec].
Defined.
