(* ===== verification/ConfigFile.v ===== *)
(** * ConfigFile.c: reading engine.conf

    [loadFile_ConfigFile] reads the file twice with [fgets], first to count
    the valid lines ([getLines_ConfigFile]), then to copy them;
    [parseFile_ConfigFile] cuts each line at its first ['='] into the fixed
    arrays of [struct ConfigInfo]; [getInfo_ConfigFile] looks a key up.

    The theorems: loading never faults and fills every slot it allocated, for
    any contents of the file; parsing faults exactly when a key or a value is
    longer than its array; a written configuration is read back, the first
    entry of a key winning; a missing file ends the process. *)

From S2P Require Import Prelude CString Machine.

(** ** Data *)

Definition KEY_LEN : nat := 64.
Definition VAL_LEN : nat := 128.

(** [struct ConfigInfo { char key[64]; char val[128]; }] *)
Record ConfigInfo := mkConfigInfo { key : list Z; val : list Z }.

(** An element of [char **fileData]: an allocated line, or no valid pointer. *)
Abbreviation line_ptr := (option (list Z)).

Definition EQUALS : Z := chr "=".
Definition HASH : Z := chr "#".
Definition NEWLINE : Z := 10.

(** ** Operations *)

Section Ops.
Context `{Env}.

(** [void print_err (char *str, int line, int err_no)] *)
Definition print_err {A} (str : list Z) (line err_no : Z) : IO A :=
  printf (show_int line ++ lit ", " ++ str ++ lit " :" ++ env_strerror err_no ++ [NEWLINE]) ;;
  exit_with EXIT_FAIL_CODE.

(** [int isValid_ConfigFile (const char *buf)] *)
Definition isValid_ConfigFile (buf : list Z) : res bool :=
  match buf with
  | [] => Bad OutOfBounds
  | c :: _ =>
      if (c =? HASH) || (c =? NEWLINE) then Ok false
      else
        p ← strchr buf EQUALS;
        Ok (match p with None => false | Some _ => true end)
  end.

Fixpoint getLines_loop (fuel : nat) (buf : list Z) (file : FILE) (lines : Z) : IO (Z * FILE) :=
  match fuel with
  | O => λ _, OutOfFuel
  | S fuel' =>
      r ← lift (fgets buf BUFFERSIZE file);
      match r with
      | (None, file) => mret (lines, file)
      | (Some buf, file) =>
          v ← lift (isValid_ConfigFile buf);
          if negb v then getLines_loop fuel' buf file lines
          else
            buf ← lift (memset buf 0 BUFFERSIZE);
            getLines_loop fuel' buf file (lines + 1)
      end
  end.

(** [int getLines_ConfigFile (FILE *file)]; the stream is left at its start. *)
Definition getLines_ConfigFile (file : FILE) : IO (Z * FILE) :=
  r ← getLines_loop (S (length (f_data file))) (zeros BUFFERSIZE) file 0;
  mret (r.1, rewind r.2).

Fixpoint loadFile_loop (fuel : nat) (buf : list Z) (file : FILE)
    (temp : list line_ptr) (index : nat) : IO (list line_ptr * nat) :=
  match fuel with
  | O => λ _, OutOfFuel
  | S fuel' =>
      r ← lift (fgets buf BUFFERSIZE file);
      match r with
      | (None, _) => mret (temp, index)
      | (Some buf, file) =>
          v ← lift (isValid_ConfigFile buf);
          if negb v then loadFile_loop fuel' buf file temp index
          else
            len ← lift (strlen buf);
            line ← lift (strcpy (zeros (S (Z.to_nat len))) buf);
            if decide (index < length temp)%nat then
              buf' ← lift (memset buf 0 BUFFERSIZE);
              loadFile_loop fuel' buf' file (<[index := Some line]> temp) (S index)
            else lift (Bad OutOfBounds)
      end
  end.

(** [void loadFile_ConfigFile (const char *filePath, char ***fileData, int *line)] *)
Definition loadFile_ConfigFile (filePath : list Z) : IO (list line_ptr * Z) :=
  file ← fopen_read filePath;
  match file with
  | None =>
      err ← gets w_errno;
      print_err (lit "config file fopen failed") 30 err
  | Some file =>
      r ← getLines_ConfigFile file;
      let lines : Z := r.1 in
      t ← loadFile_loop (S (length (f_data r.2))) (zeros BUFFERSIZE) r.2
            (replicate (Z.to_nat lines) None) 0;
      mret (t.1, lines)
  end.

(** One iteration of the loop of [parseFile_ConfigFile]. *)
Definition parse_line (line : list Z) (info : ConfigInfo) : res ConfigInfo :=
  pos ← strchr line EQUALS;
  match pos with
  | None => Bad NullPointer
  | Some pos =>
      key' ← strncpy (key info) line pos;
      len ← strlen line;
      let flag : nat :=
        if nth (Z.to_nat len - 1) line 0 =? NEWLINE then 1%nat else 0%nat in
      rlen ← strlen (drop (pos + 1) line);
      val' ← strncpy (val info) (drop (pos + 1) line) (Z.to_nat rlen - flag);
      Ok (mkConfigInfo key' val')
  end.

Fixpoint parse_lines (fileData : list line_ptr) (lines : nat) : res (list ConfigInfo) :=
  match lines, fileData with
  | O, _ => Ok []
  | S n, [] => Bad OutOfBounds
  | S n, None :: _ => Bad NullPointer
  | S n, Some line :: rest =>
      i ← parse_line line (mkConfigInfo (zeros KEY_LEN) (zeros VAL_LEN));
      infos ← parse_lines rest n;
      Ok (i :: infos)
  end.

(** [void parseFile_ConfigFile (char **fileData, int lines, struct ConfigInfo **info)]:
    the parsed table, and [fileData] with its first [lines] entries freed and NULL. *)
Definition parseFile_ConfigFile (fileData : list line_ptr) (lines : Z)
    : IO (list line_ptr * list ConfigInfo) :=
  myinfo ← lift (parse_lines fileData (Z.to_nat lines));
  mret (replicate (Z.to_nat lines) None ++ drop (Z.to_nat lines) fileData, myinfo).

(** [char *getInfo_ConfigFile (const char *key, struct ConfigInfo *info, int line)]:
    the array [val] of the first entry whose key is [k], or NULL. *)
Fixpoint getInfo_loop (k : list Z) (info : list ConfigInfo) (line : nat) : res (option (list Z)) :=
  match line, info with
  | O, _ => Ok None
  | S n, [] => Bad OutOfBounds
  | S n, i :: rest =>
      d ← strcmp k (key i);
      if d =? 0 then Ok (Some (val i)) else getInfo_loop k rest n
  end.
Definition getInfo_ConfigFile (k : list Z) (info : list ConfigInfo) (line : Z)
    : IO (option (list Z)) :=
  lift (getInfo_loop (k ++ [0]) info (Z.to_nat line)).

(** [strcpy (dst, getInfo_ConfigFile (..))] and [atoi (getInfo_ConfigFile (..))]
    dereference the pointer without a test. *)
Definition strcpy_ptr (dst : list Z) (src : option (list Z)) : res (list Z) :=
  match src with None => Bad NullPointer | Some s => strcpy dst s end.
Definition atoi_ptr (src : option (list Z)) : res Z :=
  match src with None => Bad NullPointer | Some s => atoi s end.

(** The sequence of every caller: load, parse, keep the table. *)
Definition read_config (filePath : list Z) : IO (list ConfigInfo * Z) :=
  fl ← loadFile_ConfigFile filePath;
  pi ← parseFile_ConfigFile fl.1 fl.2;
  mret (pi.2, fl.2).

End Ops.

(** ** The lines of a file, as [fgets] delivers them *)

Fixpoint before_nul (l : list Z) : list Z :=
  match l with
  | [] => []
  | c :: l' => if c =? 0 then [] else c :: before_nul l'
  end.

(** The pieces of at most 1023 bytes, each ending at a newline. *)
Fixpoint chunks (fuel : nat) (l : list Z) : list (list Z) :=
  match fuel with
  | O => []
  | S fuel' =>
      match line_of (BUFFERSIZE - 1) l with
      | [] => []
      | c => c :: chunks fuel' (drop (length c) l)
      end
  end.

(** A piece counts as a configuration line. *)
Definition valid_line (c : list Z) : bool :=
  match c with
  | [] => false
  | x :: _ => negb ((x =? HASH) || (x =? NEWLINE)) && bool_decide (EQUALS ∈ before_nul c)
  end.

(** The configuration lines of a file's contents, as C strings. *)
Definition config_lines (data : list Z) : list (list Z) :=
  before_nul <$> filter (λ c, valid_line c = true) (chunks (S (length data)) data).

Lemma cstr_before_nul c r : cstr (c ++ 0 :: r) = Ok (before_nul c).
Proof.
  induction c as [|x c IH]; simpl; [done|]. destruct (x =? 0); [done|]. by rewrite IH.
Qed.

Lemma before_nul_ok c : Forall (λ x, x ≠ 0) (before_nul c).
Proof.
  induction c as [|x c IH]; simpl; [done|]. destruct (Z.eqb_spec x 0); by constructor.
Qed.

Lemma before_nul_id c : Forall (λ x, x ≠ 0) c → before_nul c = c.
Proof.
  induction 1 as [|x c Hx Hc IH]; simpl; [done|].
  destruct (Z.eqb_spec x 0); [done|by rewrite IH].
Qed.

Lemma before_nul_length c : (length (before_nul c) ≤ length c)%nat.
Proof. induction c as [|x c IH]; simpl; [lia|]. destruct (x =? 0); simpl; lia. Qed.

Lemma line_of_length n l : (length (line_of n l) ≤ n)%nat.
Proof.
  revert l. induction n as [|n IH]; intros [|c l]; simpl; [lia..|].
  destruct (c =? 10); simpl; [lia|]. specialize (IH l). lia.
Qed.

Lemma line_of_prefix n l : line_of n l = take (length (line_of n l)) l.
Proof.
  revert l. induction n as [|n IH]; intros [|c l]; simpl; try done.
  destruct (c =? 10); simpl; [done|]. by rewrite <-IH.
Qed.

Lemma line_of_nil n l : line_of (S n) l = [] → l = [].
Proof. destruct l as [|c l]; simpl; [done|]. by destruct (c =? 10). Qed.

Lemma strchr_before_nul c r :
  ∃ o, strchr (c ++ 0 :: r) EQUALS = Ok o ∧ (is_Some o ↔ EQUALS ∈ before_nul c).
Proof.
  induction c as [|x c IH]; simpl.
  - exists None. split; [done|]. split; [by intros []|by intros ?%elem_of_nil].
  - destruct (Z.eqb_spec x EQUALS) as [->|Hx].
    + exists (Some 0%nat). split; [done|]. split; [|done]. intros _.
      change (EQUALS =? 0) with false. cbv iota. left.
    + destruct (Z.eqb_spec x 0) as [->|H0].
      * exists None. split; [done|]. split; [by intros []|by intros ?%elem_of_nil].
      * destruct IH as (o & -> & Ho). simpl. exists (option_map S o). split; [done|].
        rewrite elem_of_cons, <-Ho. destruct o as [i|]; simpl.
        -- split; [by right; eexists|by eexists].
        -- split; [by intros []|]. intros [?|[? ?]]; [congruence|done].
Qed.

Lemma isValid_chunk c r :
  c ≠ [] → isValid_ConfigFile (c ++ 0 :: r) = Ok (valid_line c).
Proof.
  intros Hc. unfold isValid_ConfigFile, valid_line. destruct c as [|x c]; [done|].
  cbn [app]. destruct ((x =? HASH) || (x =? NEWLINE)); [done|].
  destruct (strchr_before_nul (x :: c) r) as (o & Ho & Hiff).
  cbn [app] in Ho. rewrite Ho. cbn [mbind res_bind negb andb].
  destruct o; case_bool_decide as Hd; try done; exfalso.
  - apply Hd, Hiff. eauto.
  - apply Hiff in Hd. by destruct Hd.
Qed.

Lemma fgets_chunk buf data pos :
  length buf = BUFFERSIZE →
  ∃ r, fgets buf BUFFERSIZE (mkFILE data pos) =
    match line_of (BUFFERSIZE - 1) (drop pos data) with
    | [] => Ok (None, mkFILE data pos)
    | c => Ok (Some (c ++ 0 :: r), mkFILE data (pos + length c))
    end ∧
    length (line_of (BUFFERSIZE - 1) (drop pos data) ++ 0 :: r) = BUFFERSIZE.
Proof.
  intros Hb. unfold fgets. simpl f_data. simpl f_pos.
  pose proof (line_of_length (BUFFERSIZE - 1) (drop pos data)) as Hl.
  set (c := line_of (BUFFERSIZE - 1) (drop pos data)) in *.
  assert (length (c ++ [0%Z]) ≤ length buf)%nat as Hle by (unfold BUFFERSIZE in *; len).
  exists (drop (S (length c)) buf). split.
  - destruct c as [|x c'] eqn:E; [done|]. rewrite blit_0 by done.
    cbn [mbind res_bind]. rewrite <-app_assoc. cbn [app]. repeat f_equal.
    simpl. rewrite length_app. simpl. lia.
  - rewrite length_app. simpl. rewrite length_drop. unfold BUFFERSIZE in *. lia.
Qed.

Lemma chunks_fuel f1 f2 l :
  (length l < f1)%nat → (length l < f2)%nat → chunks f1 l = chunks f2 l.
Proof.
  revert f2 l. induction f1 as [|f1 IH]; intros [|f2] l H1 H2; try lia. cbn [chunks].
  destruct (line_of _ l) as [|x c] eqn:E; [done|]. f_equal.
  apply IH; rewrite length_drop; simpl; destruct l; simpl in *; try done; lia.
Qed.

Lemma memset_buf buf : length buf = BUFFERSIZE → memset buf 0 BUFFERSIZE = Ok (zeros BUFFERSIZE).
Proof.
  intros Hb. unfold memset. rewrite blit_0 by (rewrite length_replicate; lia).
  rewrite length_replicate, drop_ge by lia. by rewrite app_nil_r.
Qed.

Definition count_valid (cs : list (list Z)) : nat :=
  length (filter (λ c, valid_line c = true) cs).

Section Loops.
Context `{Env}.

(** The counting pass returns the number of valid pieces, for enough fuel. *)
Lemma getLines_loop_spec fuel : ∀ buf data pos n w,
  length buf = BUFFERSIZE → (length (drop pos data) < fuel)%nat →
  ∃ pos', getLines_loop fuel buf (mkFILE data pos) n w =
    Ret (n + Z.of_nat (count_valid (chunks fuel (drop pos data))), mkFILE data pos') w.
Proof.
  induction fuel as [|fuel IH]; intros buf data pos n w Hb Hf; [lia|].
  cbn [getLines_loop chunks].
  destruct (fgets_chunk buf data pos Hb) as (r & Hg & Hl). rewrite Hg.
  destruct (line_of _ (drop pos data)) as [|x c] eqn:E.
  - exists pos. unfold mbind, M_bind, lift, mret, M_ret. by rewrite Z.add_0_r.
  - rewrite (bind_Ret _ _ _ _ _ (lift_Ok _ _)). cbv beta iota.
    rewrite isValid_chunk by done. rewrite (bind_Ret _ _ _ _ _ (lift_Ok _ _)).
    assert (length (drop (length (x :: c)) (drop pos data)) < fuel)%nat as Hf'.
    { rewrite length_drop. destruct (drop pos data); [done|simpl in *; lia]. }
    unfold count_valid. rewrite filter_cons.
    destruct (valid_line (x :: c)) eqn:Hv; cbn [negb]; cbv iota.
    + rewrite decide_True by done. rewrite memset_buf by done.
      rewrite (bind_Ret _ _ _ _ _ (lift_Ok _ _)).
      destruct (IH (zeros BUFFERSIZE) data (pos + length (x :: c))%nat (n + 1) w)
        as (pos' & ->); [done|by rewrite <-drop_drop|].
      exists pos'. rewrite <-drop_drop. do 2 f_equal. unfold count_valid. simpl length. lia.
    + rewrite decide_False by done.
      destruct (IH ((x :: c) ++ 0 :: r) data (pos + length (x :: c))%nat n w)
        as (pos' & ->); [done|by rewrite <-drop_drop|].
      exists pos'. by rewrite <-drop_drop.
Qed.

(** The copying pass stores the valid pieces in order from [index] on. *)
Lemma loadFile_loop_spec fuel : ∀ buf data pos temp index w,
  length buf = BUFFERSIZE → (length (drop pos data) < fuel)%nat →
  (index + count_valid (chunks fuel (drop pos data)) ≤ length temp)%nat →
  let ls := filter (λ c, valid_line c = true) (chunks fuel (drop pos data)) in
  loadFile_loop fuel buf (mkFILE data pos) temp index w =
  Ret (take index temp ++ ((λ c, Some (before_nul c ++ [0])) <$> ls) ++
       drop (index + length ls) temp, (index + length ls)%nat) w.
Proof.
  induction fuel as [|fuel IH]; intros buf data pos temp index w Hb Hf Hi; [lia|].
  cbn [loadFile_loop chunks] in *.
  destruct (fgets_chunk buf data pos Hb) as (r & Hg & Hl). rewrite Hg.
  destruct (line_of _ (drop pos data)) as [|x c] eqn:E.
  - unfold mbind, M_bind, lift, mret, M_ret. simpl.
    by rewrite Nat.add_0_r, take_drop.
  - rewrite (bind_Ret _ _ _ _ _ (lift_Ok _ _)). cbv beta iota.
    rewrite isValid_chunk by done. rewrite (bind_Ret _ _ _ _ _ (lift_Ok _ _)).
    assert (length (drop (length (x :: c)) (drop pos data)) < fuel)%nat as Hf'.
    { rewrite length_drop. destruct (drop pos data); [done|simpl in *; lia]. }
    remember (x :: c) as k eqn:Hk. clear Hk.
    unfold count_valid in Hi. cbv zeta. rewrite filter_cons in *.
    destruct (valid_line k) eqn:Hv; cbn [negb]; cbv iota.
    + rewrite decide_True in * by done.
      unfold strlen. rewrite cstr_before_nul. cbn [mbind res_bind].
      rewrite (bind_Ret _ _ _ _ _ (lift_Ok _ _)).
      rewrite Nat2Z.id. set (s := before_nul k).
      assert (strcpy (zeros (S (length s))) (k ++ 0 :: r) = Ok (s ++ [0])) as ->.
      { destruct (strcpy_holds (zeros (S (length s))) (k ++ 0 :: r) s) as [-> _];
          [apply cstr_before_nul|unfold zeros; rewrite length_replicate; lia|].
        rewrite drop_ge by (unfold zeros; rewrite length_replicate; lia). done. }
      rewrite (bind_Ret _ _ _ _ _ (lift_Ok _ _)).
      cbn [length] in Hi. rewrite decide_True by lia.
      rewrite memset_buf by done. rewrite (bind_Ret _ _ _ _ _ (lift_Ok _ _)).
      rewrite IH; [|done|by rewrite <-drop_drop|
        rewrite length_insert, <-drop_drop; unfold count_valid; lia].
      rewrite <-drop_drop. set (ls := filter _ _) in *. simpl length. simpl fmap.
      f_equal. f_equal; [|lia].
      rewrite (take_S_r _ _ (Some (s ++ [0]))) by (apply list_lookup_insert_eq; lia).
      rewrite take_insert_ge by lia. rewrite drop_insert_lt by lia.
      rewrite <-app_assoc. cbn [app]. do 4 f_equal. lia.
    + rewrite decide_False in * by done.
      rewrite IH; [|done|by rewrite <-drop_drop|by rewrite <-drop_drop].
      by rewrite <-drop_drop.
Qed.

End Loops.

(** ** What a configuration means *)

(** A line cut at its first ['=']. *)
Fixpoint cut_eq (l : list Z) : list Z * list Z :=
  match l with
  | [] => ([], [])
  | c :: l' => if c =? EQUALS then ([], l') else
               let kv := cut_eq l' in (c :: kv.1, kv.2)
  end.

(** Drop one trailing newline. *)
Definition chomp (v : list Z) : list Z :=
  if bool_decide (last v = Some NEWLINE) then removelast v else v.

Definition entry_of (l : list Z) : list Z * list Z :=
  let kv := cut_eq l in (kv.1, chomp kv.2).

(** The key/value pairs of a file. *)
Definition entries (data : list Z) : list (list Z * list Z) :=
  entry_of <$> config_lines data.

(** A pair fits the arrays of [struct ConfigInfo]. *)
Definition fits (e : list Z * list Z) : Prop :=
  (length e.1 ≤ KEY_LEN)%nat ∧ (length e.2 ≤ VAL_LEN)%nat.
#[global] Instance fits_dec e : Decision (fits e).
Proof. apply _. Defined.

(** It fits with room for the terminating NULs. *)
Definition fits_str (e : list Z * list Z) : Prop :=
  (length e.1 < KEY_LEN)%nat ∧ (length e.2 < VAL_LEN)%nat.
#[global] Instance fits_str_dec e : Decision (fits_str e).
Proof. apply _. Defined.

Definition info_of (e : list Z * list Z) : ConfigInfo :=
  mkConfigInfo (pad_to KEY_LEN e.1) (pad_to VAL_LEN e.2).

(** The value of the first pair with key [k]. *)
Fixpoint assoc (k : list Z) (es : list (list Z * list Z)) : option (list Z) :=
  match es with
  | [] => None
  | e :: es' => if beq k e.1 then Some e.2 else assoc k es'
  end.

Lemma config_lines_ok data l :
  l ∈ config_lines data → Forall (λ x, x ≠ 0) l ∧ EQUALS ∈ l.
Proof.
  unfold config_lines. rewrite list_elem_of_fmap. intros (c & -> & Hc).
  apply list_elem_of_filter in Hc as [Hv _]. split; [apply before_nul_ok|].
  unfold valid_line in Hv. destruct c; [done|].
  apply andb_true_iff in Hv as [_ Hv]. by apply bool_decide_eq_true in Hv.
Qed.

Lemma cut_eq_spec l : EQUALS ∈ l →
  l = (cut_eq l).1 ++ EQUALS :: (cut_eq l).2 ∧ Forall (λ x, x ≠ EQUALS) (cut_eq l).1.
Proof.
  induction l as [|c l IH]; intros Hin; [by apply elem_of_nil in Hin|]. simpl.
  destruct (Z.eqb_spec c EQUALS) as [->|Hc]; simpl; [done|].
  apply elem_of_cons in Hin as [?|Hin]; [congruence|].
  destruct (IH Hin) as [Hl Hf]. split; [by f_equal|by constructor].
Qed.

Lemma last_nth {A} (l : list A) d : l ≠ [] → last l = Some (nth (length l - 1) l d).
Proof.
  induction l as [|x l IH]; intros Hne; [done|]. destruct l as [|y l]; [done|].
  rewrite last_cons_cons, IH by done. simpl. by rewrite Nat.sub_0_r.
Qed.

Lemma chomp_take v flag :
  flag = (if bool_decide (last v = Some NEWLINE) then 1 else 0)%nat →
  chomp v = take (length v - flag) v.
Proof.
  intros ->. unfold chomp. case_bool_decide as Hl.
  - assert (v ≠ []) by (by destruct v). by rewrite removelast_firstn_len, Nat.sub_1_r.
  - by rewrite Nat.sub_0_r, firstn_all.
Qed.

(** [strncpy] of [m] non-NUL bytes into a zeroed array. *)
Lemma strncpy_zeros n m src :
  (m ≤ length src)%nat → Forall (λ c, c ≠ 0) (take m src) →
  strncpy (zeros n) src m =
  if decide (m ≤ n)%nat then Ok (pad_to n (take m src)) else Bad OutOfBounds.
Proof.
  intros Hm Hf. unfold strncpy. rewrite strn_exact by done. cbn [mbind res_bind].
  assert (length (take m src) = m) as Hl by len. case_decide.
  - rewrite blit_0 by (unfold zeros; len). unfold pad_to, zeros. by rewrite drop_replicate.
  - apply blit_over. unfold zeros. len.
Qed.

(** The newline test of the source looks at the last byte of the value. *)
Lemma newline_flag k v :
  (nth (length (k ++ EQUALS :: v) - 1) (k ++ EQUALS :: v) 0 =? NEWLINE) =
  bool_decide (last v = Some NEWLINE).
Proof.
  pose proof (last_nth (k ++ EQUALS :: v) 0 ltac:(by destruct k)) as Hn.
  rewrite last_app_cons in Hn.
  destruct v as [|y v']; [|rewrite last_cons_cons in Hn].
  - injection Hn as <-. done.
  - rewrite Hn. bcase; case_bool_decide; congruence.
Qed.

(** The parser on one line: the two halves, zero padded, or an overflow. *)
Lemma parse_line_spec l :
  Forall (λ x, x ≠ 0) l → EQUALS ∈ l →
  parse_line (l ++ [0]) (mkConfigInfo (zeros KEY_LEN) (zeros VAL_LEN)) =
  if decide (fits (entry_of l)) then Ok (info_of (entry_of l)) else Bad OutOfBounds.
Proof.
  intros Hnz Hin. destruct (cut_eq_spec l Hin) as [Hl Hk]. unfold entry_of.
  set (k := (cut_eq l).1) in *. set (v := (cut_eq l).2) in *. rewrite Hl in Hnz |- *.
  pose proof (proj1 (Forall_app _ _ _) Hnz) as [Hnk Hnv]. inversion_clear Hnv as [|?? _ Hv].
  unfold parse_line. rewrite strlen_ne by done.
  assert ((k ++ EQUALS :: v) ++ [0] = k ++ EQUALS :: v ++ [0]) as E1 by by rewrite <-app_assoc.
  assert (drop (length k + 1) ((k ++ EQUALS :: v) ++ [0]) = v ++ [0]) as E2.
  { rewrite E1, drop_app_add. done. }
  rewrite E1 at 1. rewrite (strchr_found k (v ++ [0]) EQUALS) by (by apply Forall_and).
  cbn [mbind res_bind key val]. rewrite E2, strlen_ne by done.
  cbn [mbind res_bind]. rewrite !Nat2Z.id, app_nth1 by len. rewrite newline_flag.
  rewrite (strncpy_zeros KEY_LEN); [|len|by rewrite E1, take_app_length].
  rewrite E1, take_app_length.
  rewrite (strncpy_zeros VAL_LEN); [|len|rewrite take_app_le by lia; by apply Forall_take].
  rewrite take_app_le by lia. rewrite <-(chomp_take v) by done.
  assert (length v - (if bool_decide (last v = Some NEWLINE) then 1 else 0) = length (chomp v))%nat
    as -> by (rewrite (chomp_take v _ eq_refl); len).
  unfold fits. cbn [fst snd]. do 3 case_decide; cbn [mbind res_bind]; tauto || done.
Qed.

(** ** Lookup *)

Lemma strcmp_key k e :
  Forall (λ x, x ≠ 0) k → Forall (λ x, x ≠ 0) e.1 → fits_str e →
  ∃ d, strcmp (k ++ [0]) (key (info_of e)) = Ok d ∧ (d = 0 ↔ k = e.1).
Proof.
  intros Hk He [Hf _]. apply strcmp_cstr; [by apply cstr_app_ne|].
  unfold info_of, pad_to. cbn [key]. destruct (KEY_LEN - length e.1)%nat eqn:E; [lia|].
  simpl. by apply cstr_app_ne.
Qed.

Lemma getInfo_loop_spec k es :
  Forall (λ x, x ≠ 0) k →
  Forall (λ e, Forall (λ x, x ≠ 0) e.1 ∧ fits_str e) es →
  getInfo_loop (k ++ [0]) (info_of <$> es) (length es) = Ok (pad_to VAL_LEN <$> assoc k es).
Proof.
  intros Hk. induction 1 as [|e es [He Hf] Hes IH]; [done|].
  cbn [getInfo_loop fmap list_fmap length assoc].
  destruct (strcmp_key k e) as (d & -> & Hd); [done..|]. cbn [mbind res_bind].
  destruct (beq k e.1) eqn:Hb.
  - apply beq_true, Hd in Hb as ->. done.
  - destruct (Z.eqb_spec d 0) as [->|]; [|done].
    apply beq_false in Hb. exfalso. by apply Hb, Hd.
Qed.

Lemma parse_lines_spec ls :
  Forall (λ l, Forall (λ x, x ≠ 0) l ∧ EQUALS ∈ l) ls →
  parse_lines ((λ l, Some (l ++ [0])) <$> ls) (length ls) =
  if decide (Forall fits (entry_of <$> ls)) then Ok (info_of <$> (entry_of <$> ls))
  else Bad OutOfBounds.
Proof.
  induction 1 as [|l ls [Hl Hin] Hls IH].
  - rewrite decide_True; [done|constructor].
  - cbn [parse_lines fmap list_fmap length]. rewrite parse_line_spec by done.
    destruct (decide (fits (entry_of l))) as [Hf|Hf]; cbn [mbind res_bind].
    + rewrite IH. destruct (decide (Forall fits (entry_of <$> ls))) as [Ht|Ht]; cbn [mbind res_bind].
      * rewrite decide_True; [done|by constructor].
      * rewrite decide_False; [done|]. intros Hn. by inversion_clear Hn.
    + rewrite decide_False; [done|]. intros Hn. by inversion_clear Hn.
Qed.

Lemma entries_keys data :
  Forall (λ e, Forall (λ x, x ≠ 0) e.1) (entries data).
Proof.
  apply Forall_fmap, Forall_forall. intros l Hl. cbn.
  destruct (config_lines_ok _ _ Hl) as [Hnz Hin].
  destruct (cut_eq_spec _ Hin) as [E _]. rewrite E in Hnz. by apply Forall_app in Hnz as [? _].
Qed.

(** ** Rendering a configuration *)

(** What a line of a configuration file may be. *)
Inductive item :=
| Entry (k v : list Z)     (* key=value *)
| Comment (s : list Z)     (* # ... *)
| Other (s : list Z).      (* a line without '=', possibly empty *)

Definition render_item (i : item) : list Z :=
  match i with
  | Entry k v => k ++ EQUALS :: v
  | Comment s => HASH :: s
  | Other s => s
  end ++ [NEWLINE].
Definition render (items : list item) : list Z := concat (render_item <$> items).

Definition item_ok (i : item) : Prop :=
  match i with
  | Entry k v =>
      Forall (λ x, x ≠ 0 ∧ x ≠ NEWLINE ∧ x ≠ EQUALS) k ∧ head k ≠ Some HASH ∧
      Forall (λ x, x ≠ 0 ∧ x ≠ NEWLINE) v ∧ fits_str (k, v)
  | Comment s => Forall (λ x, x ≠ NEWLINE) s ∧ (length s < 1022)%nat
  | Other s => Forall (λ x, x ≠ NEWLINE ∧ x ≠ EQUALS) s ∧ (length s < 1023)%nat
  end.

Definition item_entries (items : list item) : list (list Z * list Z) :=
  omap (λ i, match i with Entry k v => Some (k, v) | _ => None end) items.

Lemma line_of_newline n a r :
  Forall (λ x, x ≠ NEWLINE) a → (length a < n)%nat →
  line_of n (a ++ NEWLINE :: r) = a ++ [NEWLINE].
Proof.
  intros Ha. revert n. induction Ha as [|x a Hx Ha IH]; intros [|n] Hl; simpl in *; try lia; [done|].
  unfold NEWLINE in Hx. destruct (Z.eqb_spec x 10); [done|]. by rewrite IH by lia.
Qed.

Lemma render_item_line i : item_ok i → ∃ a,
  render_item i = a ++ [NEWLINE] ∧ Forall (λ x, x ≠ NEWLINE) a ∧ (length a < 1023)%nat.
Proof.
  destruct i as [k v|s|s]; cbn [item_ok render_item].
  - intros (Hk & _ & Hv & Hl1 & Hl2). unfold KEY_LEN, VAL_LEN in *. cbn [fst snd] in *.
    eexists; split; [done|]. split; [|len]. apply Forall_app; split.
    + eapply Forall_impl; [exact Hk|]. by intros ? (? & ? & ?).
    + constructor; [done|]. eapply Forall_impl; [exact Hv|]. by intros ? [? ?].
  - intros [Hs Hl]. eexists; split; [done|]. split; [by constructor|simpl; lia].
  - intros [Hs Hl]. eexists; split; [done|]. split; [|lia].
    eapply Forall_impl; [exact Hs|]. by intros ? [? ?].
Qed.

Lemma chunks_render fuel items :
  Forall item_ok items → (length (render items) < fuel)%nat →
  chunks fuel (render items) = render_item <$> items.
Proof.
  intros Hi. revert fuel. induction Hi as [|i items Hi His IH]; intros [|fuel] Hf; try (simpl in *; lia); [done|].
  cbn [chunks]. unfold render in *. cbn [fmap list_fmap concat] in *.
  destruct (render_item_line i Hi) as (a & E0 & Ha & Hl). rewrite E0 in Hf |- *.
  rewrite <-app_assoc in Hf |- *. cbn [app] in Hf |- *. rewrite line_of_newline by done.
  destruct (a ++ [NEWLINE]) as [|x c] eqn:E; [by destruct a|]. rewrite <-E. f_equal.
  replace (a ++ NEWLINE :: concat (render_item <$> items))
    with ((a ++ [NEWLINE]) ++ concat (render_item <$> items)) by (by rewrite <-app_assoc).
  rewrite drop_app_length. apply IH. len.
Qed.

Lemma valid_entry k v :
  item_ok (Entry k v) → valid_line (render_item (Entry k v)) = true ∧
  entry_of (before_nul (render_item (Entry k v))) = (k, v).
Proof.
  intros (Hk & Hh & Hv & _).
  change (render_item (Entry k v)) with ((k ++ EQUALS :: v) ++ [NEWLINE]).
  assert (Forall (λ x, x ≠ 0) ((k ++ EQUALS :: v) ++ [NEWLINE])) as Hnz.
  { apply Forall_app; split; [|by constructor]. apply Forall_app; split.
    - eapply Forall_impl; [exact Hk|]. by intros ? (? & ? & ?).
    - constructor; [done|]. eapply Forall_impl; [exact Hv|]. by intros ? [? ?]. }
  split.
  - unfold valid_line. rewrite before_nul_id by done.
    assert (EQUALS ∈ (k ++ EQUALS :: v) ++ [NEWLINE]) as Hin by set_solver.
    destruct k as [|x k]; [by rewrite bool_decide_true|]. cbn [app] in *.
    rewrite bool_decide_true by done. inversion_clear Hk as [|?? (? & ? & ?) _].
    cbn. destruct (Z.eqb_spec x HASH) as [->|]; [done|]. by destruct (Z.eqb_spec x NEWLINE).
  - rewrite before_nul_id by done. unfold entry_of. rewrite <-app_assoc. cbn [app].
    assert (cut_eq (k ++ EQUALS :: v ++ [NEWLINE]) = (k, v ++ [NEWLINE])) as ->.
    { clear Hh Hnz. induction Hk as [|x k (? & ? & Hx) Hk IH]; [done|]. simpl.
      destruct (Z.eqb_spec x EQUALS); [done|]. by rewrite IH. }
    cbn [fst snd]. unfold chomp. rewrite last_snoc, bool_decide_true by done.
    by rewrite removelast_last.
Qed.

Lemma invalid_item i :
  item_ok i → (∀ k v, i ≠ Entry k v) → valid_line (render_item i) = false.
Proof.
  destruct i as [k v|s|s]; intros Hi Hne; [by destruct (Hne k v)|reflexivity|].
  destruct Hi as [Hs _]. change (render_item (Other s)) with (s ++ [NEWLINE]).
  unfold valid_line. destruct (s ++ [NEWLINE]) as [|x c] eqn:E; [done|].
  apply andb_false_iff. right. apply bool_decide_eq_false. rewrite <-E. intros Hin.
  assert (EQUALS ∈ s ++ [NEWLINE]) as Hin'.
  { clear -Hin. induction (s ++ [NEWLINE]) as [|y l IH]; simpl in *; [done|].
    destruct (y =? 0); [by apply elem_of_nil in Hin|].
    apply elem_of_cons in Hin as [->|Hin]; [left|right; by apply IH]. }
  apply elem_of_app in Hin' as [Hin'|Hin'].
  - eapply Forall_forall in Hs; [|done]. by destruct Hs.
  - by apply list_elem_of_singleton in Hin'.
Qed.

(** The entries read from a rendered configuration are the ones written. *)
Lemma entries_render items :
  Forall item_ok items → entries (render items) = item_entries items.
Proof.
  intros Hi. unfold entries, config_lines. rewrite chunks_render by (done || lia).
  induction Hi as [|i items Hi His IH]; [done|].
  cbn [fmap list_fmap]. rewrite filter_cons. unfold item_entries in *. cbn [omap list_omap].
  destruct i as [k v|s|s].
  - destruct (valid_entry k v Hi) as [Hv He]. rewrite decide_True by done.
    cbn [fmap list_fmap]. rewrite He. by f_equal.
  - rewrite decide_False; [done|]. by rewrite invalid_item.
  - rewrite decide_False; [done|]. by rewrite invalid_item.
Qed.

(** ** Theorems *)

Section Theorems.
Context `{Env}.

Lemma loadFile_spec s w data :
  w_files w !! path_of w s = Some data →
  loadFile_ConfigFile s w =
  Ret ((λ l, Some (l ++ [0])) <$> config_lines data, Z.of_nat (length (config_lines data))) w.
Proof.
  intros Hf. unfold loadFile_ConfigFile, fopen_read.
  rewrite (bind_Ret _ _ w (Some (mkFILE data 0)) w)
    by (unfold mbind, M_bind, gets; by rewrite Hf).
  unfold getLines_ConfigFile. cbn [f_data].
  destruct (getLines_loop_spec (S (length data)) (zeros BUFFERSIZE) data 0 0 w) as (pos' & Hg);
    [done|rewrite drop_0; lia|]. rewrite drop_0 in Hg.
  rewrite (bind_Ret _ _ w (Z.of_nat (count_valid (chunks (S (length data)) data)), mkFILE data 0) w)
    by (erewrite bind_Ret by exact Hg; done).
  cbv zeta. cbn [fst snd f_data]. rewrite Nat2Z.id.
  erewrite bind_Ret; [|apply loadFile_loop_spec; [done|rewrite drop_0; lia|]].
  2:{ rewrite drop_0, length_replicate. lia. }
  unfold mret, M_ret. cbn [fst]. rewrite drop_0. unfold config_lines, count_valid.
  rewrite length_fmap. do 2 f_equal. rewrite take_0, drop_ge by (rewrite length_replicate; lia).
  by rewrite app_nil_l, app_nil_r, <-list_fmap_compose.
Qed.

Lemma read_config_eq s w data :
  w_files w !! path_of w s = Some data →
  read_config s w =
  if decide (Forall fits (entries data))
  then Ret (info_of <$> entries data, Z.of_nat (length (entries data))) w
  else Crash OutOfBounds.
Proof.
  intros Hf. unfold read_config. rewrite (bind_Ret _ _ _ _ _ (loadFile_spec s w data Hf)).
  unfold parseFile_ConfigFile. cbn [fst snd]. rewrite Nat2Z.id.
  rewrite parse_lines_spec
    by (apply Forall_forall; intros l Hl; by apply (config_lines_ok data)).
  fold (entries data).
  replace (length (entries data)) with (length (config_lines data))
    by (unfold entries; by rewrite length_fmap).
  by destruct (decide (Forall fits (entries data))).
Qed.

Lemma getInfo_entries k es w :
  Forall (λ x, x ≠ 0) k → Forall (λ e, Forall (λ x, x ≠ 0) e.1 ∧ fits_str e) es →
  getInfo_ConfigFile k (info_of <$> es) (Z.of_nat (length es)) w =
  Ret (pad_to VAL_LEN <$> assoc k es) w.
Proof.
  intros Hk Hes. unfold getInfo_ConfigFile. rewrite Nat2Z.id.
  by rewrite getInfo_loop_spec.
Qed.

(** ** What the users of a configuration rely on *)

(** Every key and value is shorter than its array. *)
Definition conf_ok (data : list Z) : Prop := Forall fits_str (entries data).

Lemma read_config_ok s w data :
  w_files w !! path_of w s = Some data → conf_ok data →
  read_config s w = Ret (info_of <$> entries data, Z.of_nat (length (entries data))) w.
Proof.
  intros Hf Hc. rewrite (read_config_eq s w data Hf), decide_True; [done|].
  eapply Forall_impl; [exact Hc|]. intros e [??]; split; lia.
Qed.

Lemma getInfo_ok k data w :
  conf_ok data → nz k →
  getInfo_ConfigFile k (info_of <$> entries data) (Z.of_nat (length (entries data))) w =
  Ret (pad_to VAL_LEN <$> assoc k (entries data)) w.
Proof.
  intros Hc Hk. apply getInfo_entries; [done|].
  apply Forall_and. split; [apply entries_keys|done].
Qed.

Lemma chomp_nz v : nz v → nz (chomp v).
Proof.
  intros Hv. rewrite (chomp_take v _ eq_refl). by apply Forall_take.
Qed.

(** A value found in a configuration is a string shorter than its array. *)
Lemma assoc_value k data v :
  conf_ok data → assoc k (entries data) = Some v → nz v ∧ (length v < VAL_LEN)%nat.
Proof.
  intros Hc Ha. assert (∃ e, e ∈ entries data ∧ e.2 = v) as (e & He & <-).
  { clear Hc. induction (entries data) as [|e es IH]; simpl in Ha; [done|].
    destruct (beq k e.1); [injection Ha as <-; exists e; split; [left|done]|].
    destruct (IH Ha) as (e' & ? & ?). exists e'. split; [by right|done]. }
  split; [|by eapply Forall_forall in Hc; [apply Hc|done]].
  unfold entries in He. apply list_elem_of_fmap in He as (l & -> & Hl).
  destruct (config_lines_ok _ _ Hl) as [Hnz Hin].
  destruct (cut_eq_spec _ Hin) as [E _]. rewrite E in Hnz.
  apply Forall_app in Hnz as [_ Hv]. inversion_clear Hv. by apply chomp_nz.
Qed.

(** For any contents of the file, [loadFile_ConfigFile] terminates without
    fault: the two passes agree on the number of valid lines, every slot of
    the allocated array holds one of them, in file order, and the process
    state is unchanged. *)
Theorem loadFile_total s w data :
  w_files w !! path_of w s = Some data →
  loadFile_ConfigFile s w =
    Ret ((λ l, Some (l ++ [0])) <$> config_lines data, Z.of_nat (length (config_lines data))) w ∧
  Forall (λ l, Forall (λ x, x ≠ 0) l ∧ EQUALS ∈ l) (config_lines data).
Proof.
  intros Hf. split; [by apply loadFile_spec|].
  apply Forall_forall. intros l. apply config_lines_ok.
Qed.

(** C38: Reading a configuration file succeeds exactly when every key has at
    most 64 and every value at most 128 bytes; a longer one is written past
    its array. *)
Theorem read_config_safe_iff s w data :
  w_files w !! path_of w s = Some data →
  (Forall fits (entries data) →
     read_config s w = Ret (info_of <$> entries data, Z.of_nat (length (entries data))) w) ∧
  (¬ Forall fits (entries data) → read_config s w = Crash OutOfBounds).
Proof.
  intros Hf. rewrite (read_config_eq s w data Hf). case_decide; by split.
Qed.

(** C15: a configuration written as [key=value] lines mixed with comments and
    other lines is read back: looking up any key in the file gives the value
    of its first entry, and NULL when there is none. *)
Theorem config_roundtrip s w items k :
  w_files w !! path_of w s = Some (render items) →
  Forall item_ok items → Forall (λ x, x ≠ 0) k →
  (ci ← read_config s; getInfo_ConfigFile k ci.1 ci.2) w =
  Ret (pad_to VAL_LEN <$> assoc k (item_entries items)) w.
Proof.
  intros Hf Hi Hk.
  assert (Forall fits_str (entries (render items))) as Hfit.
  { clear Hf. rewrite entries_render by done. induction Hi as [|i items Hi _ IH]; [constructor|].
    destruct i; cbn; [constructor; [apply Hi|done]|done..]. }
  erewrite bind_Ret; [|rewrite (read_config_eq s w _ Hf), decide_True; [done|]].
  2:{ eapply Forall_impl; [exact Hfit|]. intros e [??]; split; lia. }
  cbn [fst snd]. rewrite <-entries_render by done. apply getInfo_entries; [done|].
  apply Forall_and. split; [apply entries_keys|done].
Qed.

(** A missing configuration file ends the process with code -1, after the
    message of [print_err], whatever the caller was doing. *)
Theorem read_config_missing s w :
  w_files w !! path_of w s = None →
  read_config s w =
  Exit EXIT_FAIL_CODE (set_events (w_events w ++
    [EvPrint (lit "30, config file fopen failed :" ++ env_strerror ENOENT ++ [NEWLINE])])
    (set_errno ENOENT w)).
Proof.
  intros Hf. unfold read_config. apply bind_Exit.
  unfold loadFile_ConfigFile, fopen_read, mbind, M_bind, gets. by rewrite Hf.
Qed.

End Theorems.

(** ** Witnesses *)

Definition sample_conf : list Z :=
  lit "# log" ++ [10] ++ lit "log-path=./log" ++ [10; 10] ++ lit "log-level=ALL" ++ [10].

(** A process in [/srv] with this [engine.conf]. *)
Definition conf_world (data : list Z) : World :=
  boot {[ [lit "srv"; lit "engine.conf"] := data ]} ∅.

Lemma loadFile_total_witness :
  loadFile_ConfigFile (H := sample_env) (lit "/srv/engine.conf") (conf_world sample_conf) =
  Ret ([Some (lit "log-path=./log" ++ [10; 0]); Some (lit "log-level=ALL" ++ [10; 0])], 2)
    (conf_world sample_conf).
Proof.
  destruct (loadFile_total (H := sample_env) (lit "/srv/engine.conf")
    (conf_world sample_conf) sample_conf) as [-> _]; vm_compute; reflexivity.
Defined.

Definition long_key_conf : list Z := replicate 65 65 ++ lit "=1".

Lemma read_config_safe_iff_witness :
  read_config (H := sample_env) (lit "engine.conf") (conf_world long_key_conf) =
  Crash OutOfBounds.
Proof.
  apply (read_config_safe_iff (H := sample_env) (lit "engine.conf")
    (conf_world long_key_conf) long_key_conf); [vm_compute; reflexivity|].
  intros Hf. inversion_clear Hf as [|e es [He _] _]. vm_compute in He. lia.
Defined.

Definition dup_items : list item :=
  [Comment (lit "x=y"); Entry (lit "port") (lit "1"); Entry (lit "port") (lit "2")].

Lemma config_roundtrip_witness :
  (ci ← read_config (H := sample_env) (lit "engine.conf");
   getInfo_ConfigFile (lit "port") ci.1 ci.2) (conf_world (render dup_items)) =
  Ret (Some (pad_to VAL_LEN (lit "1"))) (conf_world (render dup_items)).
Proof.
  apply (config_roundtrip (H := sample_env) (lit "engine.conf")
    (conf_world (render dup_items)) dup_items (lit "port")).
  - vm_compute. reflexivity.
  - repeat constructor; vm_compute; done || lia.
  - repeat constructor; vm_compute; done.
Defined.

Lemma read_config_missing_witness :
  ∃ w', read_config (H := sample_env) (lit "engine.conf") (boot ∅ ∅) = Exit (-1) w'.
Proof.
  eexists. apply (read_config_missing (H := sample_env) (lit "engine.conf") (boot ∅ ∅)).
  reflexivity.
Defined.
