(* ===== verification/Log.v ===== *)
(** * log.c: the log writer

    [LogWrite] takes the log mutex, re-reads engine.conf, decides from the
    level bits whether the message is written, opens the day's log file,
    writes one line and closes it.  The theorems give the exact line and file
    of an enabled message, that a disabled message touches no file, that the
    mutex is free again on both paths, which formats are safe, and the frame
    that the other components rely on (class [Logger]). *)

From S2P Require Import Prelude CString Machine ConfigFile.

(** ** Variadic arguments *)

Inductive arg := AStr (s : list Z) | AInt (z : Z).

(** ** Operations *)

Section Ops.
Context `{Env}.

(** [static char LogLevelText[4][10]] *)
Definition LogLevelText : list (list Z) := [lit "INFO"; lit "DEBUG"; lit "WARN"; lit "ERROR"].

(** [void GetDate (char *date)] *)
Definition GetDate (date : list Z) : IO (list Z) :=
  timer ← time;
  lift (strftime date 11 (lit "%Y-%m-%d") (env_localtime timer)).

(** [unsigned char GetCode (char *path)] *)
Definition GetCode (path : list Z) : res Z :=
  i ← strcmp (lit "INFO" ++ [0]) path;
  if i =? 0 then Ok 1 else
  w ← strcmp (lit "WARN" ++ [0]) path;
  if w =? 0 then Ok 3 else
  e ← strcmp (lit "ERROR" ++ [0]) path;
  if e =? 0 then Ok 4 else
  n ← strcmp (lit "NONE" ++ [0]) path;
  if n =? 0 then Ok 0 else
  d ← strcmp (lit "DEBUG" ++ [0]) path;
  if d =? 0 then Ok 2 else Ok 255.

Definition set_filepath (fp : list Z) : IO unit :=
  modify (λ w, set_logsetting
    (mkLOGSET fp (maxfilelen (w_logsetting w)) (loglevel (w_logsetting w))) w).
Definition set_loglevel (l : Z) : IO unit :=
  modify (λ w, set_logsetting
    (mkLOGSET (filepath (w_logsetting w)) (maxfilelen (w_logsetting w)) l) w).
Definition set_maxfilelen (l : Z) : IO unit :=
  modify (λ w, set_logsetting
    (mkLOGSET (filepath (w_logsetting w)) l (loglevel (w_logsetting w))) w).

(** [ReadLogConfig]: the name of the day's log file, in [value]. *)
Definition log_file_value (info : list ConfigInfo) (lines : Z) : IO (list Z) :=
  lp ← getInfo_ConfigFile (lit "log-path") info lines;
  value ← lift (strcpy_ptr (zeros 512) lp);
  data ← GetDate (zeros 50);
  data ← lift (strcat data (lit ".log" ++ [0]));
  value ← lift (strcat value (lit "/" ++ [0]));
  lift (strcat value data).

(** [ReadLogConfig]: [logsetting.filepath] is overwritten when it differs; the
    copy has no NUL. *)
Definition store_filepath (value : list Z) : IO unit :=
  fp ← gets (λ w, filepath (w_logsetting w));
  d ← lift (strcmp value fp);
  if negb (d =? 0) then
    len ← lift (strlen value);
    fp' ← lift (memcpy fp 0 value (Z.to_nat len));
    set_filepath fp'
  else mret tt.

(** [static unsigned char ReadLogConfig (char *path)] *)
Definition ReadLogConfig (path : list Z) : IO Z :=
  ci ← read_config path;
  value ← log_file_value ci.1 ci.2;
  store_filepath value ;;
  value ← lift (memset value 0 512);
  ll ← getInfo_ConfigFile (lit "log-level") ci.1 ci.2;
  value ← lift (strcpy_ptr value ll);
  code ← lift (GetCode value);
  set_loglevel code ;;
  mret EXIT_SUCCESS_CODE.

(** [getcwd (path, sizeof (path)); strcat (path, CONFIGFILE);] into a zeroed
    array of 512: the configuration path every component computes. *)
Definition config_path : IO (list Z) :=
  cwd ← getcwd;
  path ← lift (if decide (length cwd < 512)%nat then strcpy (zeros 512) (cwd ++ [0])
               else Bad Unspecified);
  lift (strcat path (CONFIGFILE ++ [0])).

(** [static LOGSET *GetLogSet ()] *)
Definition GetLogSet : IO LOGSET :=
  path ← config_path;
  s ← lift (cstr path);
  a ← access s;
  (if a =? 0 then
     r ← ReadLogConfig s;
     if negb (r =? 0) then set_loglevel INFO ;; set_maxfilelen 4096 else mret tt
   else set_loglevel INFO ;; set_maxfilelen 4096) ;;
  gets w_logsetting.

(** [static void SetTime ()]: [sprintf (loging.logtime, "%d:%d:%d", ..)] *)
Definition time_text (t : tm) : list Z :=
  show_int (tm_hour t + 8) ++ lit ":" ++ show_int (tm_min t) ++ lit ":" ++ show_int (tm_sec t).
Definition SetTime : IO unit :=
  timer ← time;
  lt ← gets (λ w, logtime (w_loging w));
  lt ← lift (blit lt 0 (time_text (env_localtime timer) ++ [0]));
  modify (λ w, set_loging (mkLOG lt (log_filepath (w_loging w)) (logfile (w_loging w))) w).

(** [static void PrintfLog (char *format, va_list args)]: the characters [s],
    [d] and [c] of the format take an argument, with or without ['%']. *)
Fixpoint PrintfLog_loop (fp : path) (format : list Z) (args : list arg) : IO unit :=
  match format with
  | [] => mret tt
  | c :: format' =>
      if c =? chr "s" then
        match args with
        | AStr s :: args' => fwrite fp s ;; PrintfLog_loop fp format' args'
        | _ => lift (Bad BadVarArg)
        end
      else if c =? chr "d" then
        match args with
        | AInt d :: args' => fwrite fp (show_int (int32 d)) ;; PrintfLog_loop fp format' args'
        | _ => lift (Bad BadVarArg)
        end
      else if c =? chr "c" then
        match args with
        | AInt d :: args' => fwrite fp [uint8 d] ;; PrintfLog_loop fp format' args'
        | _ => lift (Bad BadVarArg)
        end
      else
        (if negb (c =? chr "%") && negb (c =? NEWLINE) then fwrite fp [c] else mret tt) ;;
        PrintfLog_loop fp format' args
  end.
Definition PrintfLog (fp : path) (format : list Z) (args : list arg) : IO unit :=
  PrintfLog_loop fp format args ;; fwrite fp [NEWLINE].

(** The HOME fallback of [InitLog], for an empty [filepath]. *)
Definition home_filepath (fp : list Z) : IO unit :=
  match env_home with
  | None => lift (Bad NullPointer)
  | Some home =>
      fp ← lift (memcpy fp 0 (home ++ [0]) (length home));
      strdate ← GetDate (zeros 30);
      strdate ← lift (strcat strdate (lit ".log" ++ [0]));
      fp ← lift (strcat fp (lit "/" ++ [0]));
      fp ← lift (strcat fp strdate);
      set_filepath fp
  end.

(** [perror (s)]: the text, a colon and the name of the error, on the terminal. *)
Definition perror (s : list Z) : IO unit :=
  e ← strerror_errno;
  printf (s ++ lit ": " ++ e ++ [NEWLINE]).

(** [static int InitLog (unsigned char loglevel)]; [GetLogSet] returns the address
    of [logsetting], never NULL. *)
Definition InitLog (level : Z) : IO Z :=
  ls ← GetLogSet;
  if negb (Z.land level (loglevel ls) =? level) then mret EXIT_FAIL_CODE
  else
    modify (set_loging zero_LOG) ;;
    SetTime ;;
    fp ← gets (λ w, filepath (w_logsetting w));
    len ← lift (strlen fp);
    (if len =? 0 then home_filepath fp else mret tt) ;;
    fp ← gets (λ w, filepath (w_logsetting w));
    lfp ← lift (memcpy (zeros MAXFILEPATH) 0 fp MAXFILEPATH);
    modify (λ w, set_loging (mkLOG (logtime (w_loging w)) lfp (logfile (w_loging w))) w) ;;
    name ← lift (cstr lfp);
    f ← open_write false name;
    modify (λ w, set_loging (mkLOG (logtime (w_loging w)) lfp f) w) ;;
    match f with
    | None => perror (lit "Open Log File Fail!") ;; mret EXIT_FAIL_CODE
    | Some p =>
        lt ← gets (λ w, logtime (w_loging w));
        lt ← lift (cstr lt);
        match LogLevelText !! Z.to_nat (level - 1) with
        | Some txt =>
            if 1 <=? level then
              fwrite p (lit "[" ++ txt ++ lit "] [" ++ lt ++ lit "] ") ;;
              mret EXIT_SUCCESS_CODE
            else lift (Bad OutOfBounds)
        | None => lift (Bad OutOfBounds)
        end
    end.

Definition lock_log : IO unit := λ w,
  if w_log_mutex w then Blocked else Ret tt (set_log_mutex true w).
Definition unlock_log : IO unit := modify (set_log_mutex false).

(** [int LogWrite (unsigned char loglevel, char *format, ...)] *)
Definition LogWrite_impl (level : Z) (format : list Z) (args : list arg) : IO Z :=
  lock_log ;;
  r ← InitLog level;
  rtv ← (if negb (r =? 0) then mret EXIT_FAIL_CODE
         else
           f ← gets (λ w, logfile (w_loging w));
           match f with
           | None => lift (Bad NullPointer)
           | Some p =>
               PrintfLog p format args ;;
               modify (λ w, set_loging
                 (mkLOG (logtime (w_loging w)) (log_filepath (w_loging w)) None) w) ;;
               mret EXIT_SUCCESS_CODE
           end);
  unlock_log ;;
  mret rtv.

End Ops.

(** ** Reference definitions *)

(** What [GetCode] computes, on strings. *)
Definition level_code (s : list Z) : Z :=
  if beq (lit "INFO") s then 1 else if beq (lit "WARN") s then 3
  else if beq (lit "ERROR") s then 4 else if beq (lit "NONE") s then 0
  else if beq (lit "DEBUG") s then 2 else 255.

(** The level test of [InitLog]. *)
Definition level_enabled (level setting : Z) : bool := Z.land level setting =? level.

(** The text a format prints, or [None] when a conversion meets an argument of
    the wrong type or none. *)
Fixpoint fmt_render (format : list Z) (args : list arg) : option (list Z) :=
  match format with
  | [] => Some []
  | c :: format' =>
      if c =? chr "s" then
        match args with
        | AStr s :: args' => app s <$> fmt_render format' args'
        | _ => None
        end
      else if c =? chr "d" then
        match args with
        | AInt d :: args' => app (show_int (int32 d)) <$> fmt_render format' args'
        | _ => None
        end
      else if c =? chr "c" then
        match args with
        | AInt d :: args' => app [uint8 d] <$> fmt_render format' args'
        | _ => None
        end
      else if negb (c =? chr "%") && negb (c =? NEWLINE)
      then app [c] <$> fmt_render format' args
      else fmt_render format' args
  end.

(** The day's log file under the directory [lp]. *)
Definition log_name (lp : list Z) (t : tm) : list Z :=
  lp ++ lit "/" ++ day_text t ++ lit ".log".

Definition conf_file (w : World) : list Z := w_cwd w ++ CONFIGFILE.

(** The logger can read its configuration: directory [lp], level [ll]. *)
Definition log_conf (w : World) (lp ll : list Z) : Prop :=
  ∃ data, w_files w !! path_of w (conf_file w) = Some data ∧ conf_ok data ∧
    assoc (lit "log-path") (entries data) = Some lp ∧
    assoc (lit "log-level") (entries data) = Some ll.

(** Configuration, working directory and stored file name are usable. *)
Definition log_set (w : World) (lp ll : list Z) : Prop :=
  log_conf w lp ll ∧ nz (w_cwd w) ∧ (length (w_cwd w) < 500)%nat ∧
  ∃ old, filepath (w_logsetting w) = pad_to MAXFILEPATH old ∧ nz old ∧
         (length old ≤ length lp + 15)%nat.

(** ** Lemmas *)

Section Lemmas.
Context `{Env}.

Lemma GetCode_spec n s : nz s → (length s < n)%nat → GetCode (pad_to n s) = Ok (level_code s).
Proof.
  intros Hs Hl. unfold GetCode, level_code.
  assert (∀ l, nz (lit l) → ∃ d, strcmp (lit l ++ [0]) (pad_to n s) = Ok d ∧
    (d =? 0) = beq (lit l) s) as Hc.
  { intros l Hl'. destruct (strcmp_pad (lit l) n s) as (d & Hd & Hiff); [done..|].
    exists d. split; [done|]. destruct (beq (lit l) s) eqn:E.
    - apply Z.eqb_eq, Hiff. by apply beq_true.
    - apply Z.eqb_neq. intros Hd0%Hiff. by apply beq_true in Hd0; congruence. }
  do 5 (match goal with |- context [strcmp (lit ?l ++ [0]) _] =>
    let d := fresh "d" in let H1 := fresh in let H2 := fresh in
    destruct (Hc l ltac:(nz_lit)) as (d & H1 & H2); rewrite H1; cbn [mbind res_bind];
    rewrite H2; clear d H1 H2; destruct (beq (lit l) s); [done|] end).
  done.
Qed.

Lemma config_path_spec w :
  nz (w_cwd w) → (length (w_cwd w) < 500)%nat →
  config_path w = Ret (pad_to 512 (conf_file w)) w.
Proof.
  intros Hc Hl. unfold config_path, getcwd. autorewrite with io.
  rewrite decide_True by lia.
  rewrite (strcpy_zeros 512 _ (w_cwd w)) by (try apply cstr_app_ne; done || lia).
  autorewrite with io.
  rewrite (strcat_pad 512 _ _ CONFIGFILE); [done|done|reflexivity|].
  change (length CONFIGFILE) with 12%nat. lia.
Qed.

Lemma GetDate_spec `{!Calendar} n w :
  (11 ≤ n)%nat →
  GetDate (zeros n) w =
  Ret (pad_to n (day_text (env_localtime (env_clock (w_nsys w))))) (set_nsys (S (w_nsys w)) w).
Proof.
  intros Hn. unfold GetDate. autorewrite with io.
  pose proof (day_text_ok _ (cal_ok (w_nsys w))) as [Hl _].
  rewrite strftime_zeros; rewrite ?strftime_day; [done|lia|done].
Qed.

Lemma log_name_ok lp t :
  tm_ok t → nz lp → nz (log_name lp t) ∧ length (log_name lp t) = (length lp + 15)%nat.
Proof.
  intros Ht Hlp. destruct (day_text_ok t Ht) as [Hl Hz%str_ok_nz]. unfold log_name. split.
  - repeat (apply Forall_app; split; [done || nz_lit|]). nz_lit.
  - rewrite !length_app, Hl. cbn. lia.
Qed.

Lemma log_file_value_spec `{!Calendar} w data lp :
  conf_ok data → assoc (lit "log-path") (entries data) = Some lp →
  log_file_value (info_of <$> entries data) (Z.of_nat (length (entries data))) w =
  Ret (pad_to 512 (log_name lp (env_localtime (env_clock (w_nsys w))))) (set_nsys (S (w_nsys w)) w).
Proof.
  intros Hc Hlp. destruct (assoc_value _ _ _ Hc Hlp) as [Hz Hl]. unfold VAL_LEN in *.
  set (t := env_localtime (env_clock (w_nsys w))).
  destruct (day_text_ok t (cal_ok (w_nsys w))) as [Hdl Hdz%str_ok_nz].
  unfold log_file_value.
  rewrite (bind_Ret _ _ _ _ _ (getInfo_ok (lit "log-path") data w Hc ltac:(nz_lit))), Hlp.
  cbn [fmap option_fmap option_map strcpy_ptr].
  rewrite (strcpy_zeros 512 _ lp); [|by apply cstr_pad|lia]. autorewrite with io.
  rewrite (bind_Ret _ _ _ _ _ (GetDate_spec 50 w ltac:(lia))). fold t.
  rewrite (strcat_pad 50 _ _ (lit ".log")); [|done|reflexivity|rewrite Hdl; cbn; lia].
  autorewrite with io.
  rewrite (strcat_pad 512 _ _ (lit "/")); [|done|reflexivity|cbn; lia]. autorewrite with io.
  rewrite (strcat_pad 512 _ _ (day_text t ++ lit ".log")).
  - unfold log_name. by rewrite <-app_assoc.
  - apply Forall_app; split; [done|nz_lit].
  - apply cstr_pad; [apply Forall_app; split; [done|nz_lit]|]. rewrite length_app, Hdl. cbn. lia.
  - rewrite !length_app, Hdl. cbn. lia.
Qed.

Definition with_filepath (fp : list Z) (w : World) : World :=
  set_logsetting (mkLOGSET fp (maxfilelen (w_logsetting w)) (loglevel (w_logsetting w))) w.

Lemma with_filepath_id w : with_filepath (filepath (w_logsetting w)) w = w.
Proof. destruct w as [????? [???] ?????]. done. Qed.

(** A path at least as long as the stored one replaces it completely. *)
Lemma store_filepath_spec w old name :
  filepath (w_logsetting w) = pad_to MAXFILEPATH old → nz old → nz name →
  (length old ≤ length name < 512)%nat →
  store_filepath (pad_to 512 name) w = Ret tt (with_filepath (pad_to MAXFILEPATH name) w).
Proof.
  intros Hfp Ho Hn Hl. unfold store_filepath. autorewrite with io. rewrite Hfp.
  destruct (strcmp_cstr (pad_to 512 name) (pad_to MAXFILEPATH old) name old)
    as (d & -> & Hd); [apply cstr_pad; unfold MAXFILEPATH; done || lia..|].
  autorewrite with io. destruct (Z.eqb_spec d 0) as [E|E]; cbn [negb].
  - apply Hd in E. subst old. rewrite <-Hfp, with_filepath_id. done.
  - rewrite strlen_pad by (done || lia). autorewrite with io.
    rewrite Nat2Z.id, memcpy_pad by (unfold MAXFILEPATH; lia). done.
Qed.

(** [ReadLogConfig] installs the day's file name and the level code. *)
Lemma ReadLogConfig_spec `{!Calendar} s w data lp ll old :
  w_files w !! path_of w s = Some data → conf_ok data →
  assoc (lit "log-path") (entries data) = Some lp →
  assoc (lit "log-level") (entries data) = Some ll →
  filepath (w_logsetting w) = pad_to MAXFILEPATH old → nz old →
  (length old ≤ length lp + 15)%nat →
  ReadLogConfig s w =
  Ret 0 (set_logsetting
    (mkLOGSET (pad_to MAXFILEPATH (log_name lp (env_localtime (env_clock (w_nsys w)))))
       (maxfilelen (w_logsetting w)) (level_code ll))
    (set_nsys (S (w_nsys w)) w)).
Proof.
  intros Hf Hc Hlp Hll Hfp Hold Hlen.
  destruct (assoc_value _ _ _ Hc Hlp) as [Hlpz Hlpl].
  destruct (assoc_value _ _ _ Hc Hll) as [Hllz Hlll]. unfold VAL_LEN in *.
  set (t := env_localtime (env_clock (w_nsys w))).
  destruct (log_name_ok lp t (cal_ok (w_nsys w)) Hlpz) as [Hnz Hnl].
  unfold ReadLogConfig. rewrite (bind_Ret _ _ _ _ _ (read_config_ok s w data Hf Hc)). cbn [fst snd].
  rewrite (bind_Ret _ _ _ _ _ (log_file_value_spec w data lp Hc Hlp)). fold t.
  erewrite bind_Ret; [|apply (store_filepath_spec _ old); [exact Hfp|done|done|lia]].
  rewrite memset_zero by (rewrite pad_to_length; lia). autorewrite with io.
  erewrite bind_Ret; [|apply getInfo_ok; [done|nz_lit]].
  rewrite Hll. cbn [fmap option_fmap option_map strcpy_ptr].
  rewrite (strcpy_zeros 512 _ ll); [|by apply cstr_pad|lia]. autorewrite with io.
  rewrite GetCode_spec by (done || lia). unfold set_loglevel. by autorewrite with io.
Qed.

(** The process state after the configuration was read for a message. *)
Definition logged (lp ll : list Z) (w : World) : World :=
  set_logsetting
    (mkLOGSET (pad_to MAXFILEPATH (log_name lp (env_localtime (env_clock (w_nsys w)))))
       (maxfilelen (w_logsetting w)) (level_code ll))
    (set_nsys (S (w_nsys w)) w).

Lemma conf_file_nz w : nz (w_cwd w) → nz (conf_file w).
Proof. intros. apply Forall_app; split; [done|nz_lit]. Qed.

Lemma conf_file_length w : length (conf_file w) = (length (w_cwd w) + 12)%nat.
Proof. unfold conf_file. rewrite length_app. done. Qed.

Lemma access_file s w d : w_files w !! path_of w s = Some d → access s w = Ret 0 w.
Proof.
  intros Hf. unfold access. autorewrite with io. unfold path_exists.
  rewrite Hf. rewrite (bool_decide_true (is_Some (Some d))) by eauto. by rewrite orb_true_r.
Qed.

Lemma GetLogSet_spec `{!Calendar} w lp ll :
  log_set w lp ll →
  GetLogSet w = Ret (w_logsetting (logged lp ll w)) (logged lp ll w).
Proof.
  intros ((data & Hf & Hc & Hlp & Hll) & Hz & Hl & (old & Hfp & Ho & Hol)). unfold GetLogSet.
  rewrite (bind_Ret _ _ _ _ _ (config_path_spec w Hz Hl)).
  rewrite cstr_pad; [|by apply conf_file_nz|rewrite conf_file_length; lia].
  autorewrite with io. rewrite (bind_Ret _ _ _ _ _ (access_file _ _ _ Hf)). cbn [Z.eqb].
  erewrite bind_Ret; [|erewrite bind_Ret; [|by eapply ReadLogConfig_spec]; done].
  done.
Qed.

Lemma show_small z : 0 ≤ z ≤ 99 → nz (show_int z) ∧ (length (show_int z) ≤ 2)%nat.
Proof.
  intros Hz. split; [apply str_ok_nz, show_int_str_ok; lia|].
  unfold show_int. destruct (Z.ltb_spec z 0); [lia|].
  by pose proof (show_nat_length z 2 ltac:(simpl; lia) ltac:(lia)) as [[??] _].
Qed.

Lemma time_text_ok t : tm_ok t → nz (time_text t) ∧ (length (time_text t) < 20)%nat.
Proof.
  intros (? & ? & ? & _). unfold time_text.
  destruct (show_small (tm_hour t + 8)) as [??]; [lia|].
  destruct (show_small (tm_min t)) as [??]; [lia|].
  destruct (show_small (tm_sec t)) as [??]; [lia|]. split.
  - do 2 (apply Forall_app; split; [assumption|]; apply Forall_app; split; [nz_lit|]). assumption.
  - rewrite !length_app. change (length (lit ":")) with 1%nat. lia.
Qed.

Lemma SetTime_spec `{!Calendar} w lfp f :
  w_loging w = mkLOG (zeros MAXLOGTIME) lfp f →
  SetTime w =
  Ret tt (set_loging (mkLOG (pad_to MAXLOGTIME (time_text (env_localtime (env_clock (w_nsys w))))) lfp f)
            (set_nsys (S (w_nsys w)) w)).
Proof.
  intros Hw. unfold SetTime. autorewrite with io. cbn [w_loging set_nsys]. rewrite Hw. cbn [logtime].
  destruct (time_text_ok _ (cal_ok (w_nsys w))) as [Hz Hl]. set (s := time_text _) in *.
  assert (blit (zeros MAXLOGTIME) 0 (s ++ [0]) = Ok (pad_to MAXLOGTIME s)) as ->.
  { pose proof (strcpy_zeros MAXLOGTIME (s ++ [0]) s (cstr_app_ne _ _ Hz) Hl) as Hs.
    unfold strcpy, strcpy_at in Hs. rewrite cstr_app_ne in Hs by done. done. }
  autorewrite with io. unfold modify. cbn [w_loging set_nsys]. by rewrite Hw.
Qed.

(** ** The format interpreter *)

Lemma append_file_app p a b w : append_file p b (append_file p a w) = append_file p (a ++ b) w.
Proof.
  unfold append_file. cbn [w_files set_files]. rewrite lookup_insert_eq. unfold default, from_option, id.
  rewrite insert_insert_eq, <-app_assoc. done.
Qed.

Lemma append_file_nil p w : is_Some (w_files w !! p) → append_file p [] w = w.
Proof.
  intros [d Hd]. unfold append_file. rewrite Hd. cbn. rewrite app_nil_r, insert_id by done.
  by destruct w.
Qed.

Lemma append_file_is_Some p d w : is_Some (w_files (append_file p d w) !! p).
Proof. unfold append_file. cbn [w_files set_files]. rewrite lookup_insert_eq. eauto. Qed.

Lemma bind_fwrite {B} p d (k : unit → IO B) w :
  (fwrite p d ≫= k) w = k tt (append_file p d w).
Proof. done. Qed.

Lemma PrintfLog_loop_spec p format : ∀ args w,
  is_Some (w_files w !! p) →
  PrintfLog_loop p format args w =
  match fmt_render format args with
  | Some s => Ret tt (append_file p s w)
  | None => Crash BadVarArg
  end.
Proof.
  induction format as [|c format IH]; intros args w Hp; cbn [PrintfLog_loop fmt_render].
  { by rewrite append_file_nil. }
  assert (∀ a s, PrintfLog_loop p format a (append_file p s w) =
    match app s <$> fmt_render format a with
    | Some s' => Ret tt (append_file p s' w) | None => Crash BadVarArg end) as IH'.
  { intros a s. rewrite IH by apply append_file_is_Some.
    destruct (fmt_render format a); [|done]. cbn. by rewrite append_file_app. }
  repeat case_match; simplify_eq; rewrite ?bind_fwrite, ?bind_mret; auto.
  all: rewrite ?IH', ?IH by done.
  all: by match goal with E : _ = Some _ |- _ => rewrite E | E : _ = None |- _ => rewrite E end.
Qed.

Lemma PrintfLog_spec p format args w :
  is_Some (w_files w !! p) →
  PrintfLog p format args w =
  match fmt_render format args with
  | Some s => Ret tt (append_file p (s ++ [NEWLINE]) w)
  | None => Crash BadVarArg
  end.
Proof.
  intros Hp. unfold PrintfLog, mbind, M_bind. rewrite PrintfLog_loop_spec by done.
  destruct (fmt_render format args) as [s|]; [|done].
  by rewrite <-append_file_app.
Qed.

(** ** [InitLog] and [LogWrite] *)

Lemma LogLevelText_lookup level :
  1 ≤ level ≤ 4 → ∃ txt, LogLevelText !! Z.to_nat (level - 1) = Some txt.
Proof.
  intros. apply lookup_lt_is_Some. cbn. lia.
Qed.

(** The name of the level in the log line. *)
Definition level_text (level : Z) : list Z :=
  default [] (LogLevelText !! Z.to_nat (level - 1)).

(** The file a message of this moment goes to, and its line. *)
Definition log_target (lp : list Z) (w : World) : path :=
  path_of w (log_name lp (env_localtime (env_clock (w_nsys w)))).
Definition log_head (level : Z) (w : World) : list Z :=
  lit "[" ++ level_text level ++ lit "] [" ++
  time_text (env_localtime (env_clock (S (w_nsys w)))) ++ lit "] ".

(** The state when the log file is about to be opened. *)
Definition log_opening (lp ll : list Z) (w : World) : World :=
  set_loging (mkLOG (pad_to MAXLOGTIME (time_text (env_localtime (env_clock (S (w_nsys w))))))
                    (pad_to MAXFILEPATH (log_name lp (env_localtime (env_clock (w_nsys w))))) None)
    (set_nsys (S (S (w_nsys w))) (logged lp ll w)).

Lemma InitLog_disabled `{!Calendar} level w lp ll :
  log_set w lp ll →
  level_enabled level (level_code ll) = false →
  InitLog level w = Ret EXIT_FAIL_CODE (logged lp ll w).
Proof.
  intros Hs He. unfold InitLog.
  rewrite (bind_Ret _ _ _ _ _ (GetLogSet_spec w lp ll Hs)).
  unfold level_enabled in He. cbn [w_logsetting logged set_logsetting loglevel]. by rewrite He.
Qed.

Lemma log_set_path w lp ll : log_set w lp ll → nz lp ∧ (length lp < 128)%nat.
Proof. intros [(data & _ & Hok & Hlp & _) _]. by apply (assoc_value _ _ _ Hok) in Hlp. Qed.

(** The state after an enabled message was written, or after its file could
    not be opened. *)
Definition log_written (lp ll : list Z) (line : list Z) (w : World) : World :=
  append_file (log_target lp w) line
    (set_nsys (S (S (S (w_nsys w)))) (log_opening lp ll w)).
Definition log_unopened (lp ll : list Z) (w : World) : World :=
  set_events (w_events w ++
      [EvPrint (lit "Open Log File Fail!" ++ lit ": " ++ env_strerror (open_errno (log_opening lp ll w)) ++ [NEWLINE])])
    (set_errno (open_errno (log_opening lp ll w))
      (set_nsys (S (S (S (w_nsys w)))) (log_opening lp ll w))).

(** The log file of this moment can be opened. *)
Definition log_openable (lp ll : list Z) (w : World) : bool :=
  open_ok (log_opening lp ll w) (log_name lp (env_localtime (env_clock (w_nsys w)))).

(** An enabled message up to the opening of its file. *)
Lemma InitLog_enabled `{!Calendar} level w lp ll :
  log_set w lp ll → level_enabled level (level_code ll) = true → 1 ≤ level ≤ 4 →
  InitLog level w =
  if log_openable lp ll w then
    Ret 0 (set_loging (mkLOG (logtime (w_loging (log_opening lp ll w)))
                         (log_filepath (w_loging (log_opening lp ll w))) (Some (log_target lp w)))
             (log_written lp ll (log_head level w) w))
  else Ret (-1) (log_unopened lp ll w).
Proof.
  intros Hs He Hlv. destruct (log_set_path _ _ _ Hs) as [Hlpz Hlpl].
  unfold InitLog. rewrite (bind_Ret _ _ _ _ _ (GetLogSet_spec w lp ll Hs)).
  unfold level_enabled in He. cbn [w_logsetting logged set_logsetting loglevel]. rewrite He.
  cbn [negb]. autorewrite with io.
  erewrite bind_Ret; [|by apply SetTime_spec]. autorewrite with io.
  cbn [w_logsetting set_loging set_nsys logged set_logsetting filepath w_nsys].
  set (t := env_localtime (env_clock (w_nsys w))).
  destruct (log_name_ok lp t (cal_ok (w_nsys w)) Hlpz) as [Hnz Hnl].
  rewrite strlen_pad by first [assumption|unfold MAXFILEPATH; lia]. autorewrite with io.
  destruct (Z.eqb_spec (Z.of_nat (length (log_name lp t))) 0); [lia|]. autorewrite with io.
  cbn [w_logsetting set_loging set_nsys logged set_logsetting filepath]. fold t.
  rewrite memcpy_all by (apply pad_to_length; unfold MAXFILEPATH; lia). autorewrite with io.
  rewrite cstr_pad by first [assumption|unfold MAXFILEPATH; lia]. autorewrite with io.
  cbn [logtime logfile w_loging set_loging].
  match goal with |- _ ?st = _ => change st with (log_opening lp ll w) end.
  pose proof (open_write_eq false (log_name lp t) (log_opening lp ll w)) as Eo.
  change (open_ok _ _) with (log_openable lp ll w) in Eo.
  unfold mbind at 1, M_bind at 1. rewrite Eo. destruct (log_openable lp ll w); [|done].
  autorewrite with io. cbn [w_loging set_files set_nsys log_opening set_loging logtime].
  destruct (time_text_ok _ (cal_ok (S (w_nsys w)))) as [Htz Htl].
  rewrite cstr_pad by assumption. autorewrite with io.
  unfold log_written, log_head, level_text. destruct (LogLevelText_lookup level Hlv) as [txt ->].
  destruct (Z.leb_spec 1 level); [|lia]. rewrite bind_fwrite. unfold mret, M_ret. f_equal.
  unfold append_file. cbn. unfold log_target.
  change (path_of (log_opening lp ll w) (log_name lp t)) with (path_of w (log_name lp t)).
  fold t. rewrite lookup_insert_eq. cbn. by rewrite insert_insert_eq.
Qed.

(** [LogWrite] once the log is configured: nothing is written for a disabled
    level; otherwise one line is appended. *)
Lemma LogWrite_cases `{!Calendar} level format args w lp ll msg :
  w_log_mutex w = false → log_set w lp ll → 1 ≤ level ≤ 4 →
  fmt_render format args = Some msg →
  LogWrite_impl level format args w =
  if level_enabled level (level_code ll) then
    if log_openable lp ll w
    then Ret 0 (log_written lp ll (log_head level w ++ msg ++ [NEWLINE]) w)
    else Ret (-1) (log_unopened lp ll w)
  else Ret (-1) (logged lp ll w).
Proof.
  intros Hm Hs Hlv Hr. unfold LogWrite_impl, lock_log, mbind at 1, M_bind at 1. rewrite Hm.
  set (w1 := set_log_mutex true w).
  assert (log_set w1 lp ll) as Hs1 by exact Hs.
  assert (w = set_log_mutex false w1) as Ew.
  { unfold w1. destruct w; cbn in *. by subst. }
  change (log_openable lp ll w) with (log_openable lp ll w1).
  destruct (level_enabled level (level_code ll)) eqn:He.
  - unfold mbind at 1, M_bind at 1. rewrite (InitLog_enabled level w1 lp ll) by done.
    destruct (log_openable lp ll w1).
    + cbn [negb Z.eqb]. autorewrite with io. cbn [w_loging set_loging logfile].
      rewrite bind_assoc. erewrite bind_Ret; [|rewrite PrintfLog_spec, Hr; [done|apply append_file_is_Some]].
      autorewrite with io. unfold unlock_log. autorewrite with io.
      unfold mret, M_ret. f_equal. unfold log_written. rewrite <-!append_file_app.
      clearbody w1. by subst w.
    + cbn. clearbody w1. by subst w.
  - unfold mbind at 1, M_bind at 1. rewrite (InitLog_disabled level w1 lp ll) by done.
    cbn. clearbody w1. by subst w.
Qed.

End Lemmas.

(** ** The logger as the other components see it *)

(** A path whose last component ends in [.log]. *)
Definition is_log_file (p : path) : Prop :=
  ∃ d name, p = d ++ [name] ∧ ends_with (lit ".log") name.

(** What the process did to the outside, console output left out. *)
Definition is_act (e : event) : bool := match e with EvPrint _ => false | _ => true end.
Definition acts (w : World) : list event := filter (λ e, is_act e = true) (w_events w).

(** A message changes only log files, the logger's own variables, [errno],
    the system call count and the console. *)
Record log_frame (w w' : World) : Prop := {
  lf_dirs : w_dirs w' = w_dirs w;
  lf_cwd : w_cwd w' = w_cwd w;
  lf_uuid : w_uuid w' = w_uuid w;
  lf_tcp : w_tcp w' = w_tcp w;
  lf_acts : acts w' = acts w;
  lf_nsys : (w_nsys w ≤ w_nsys w')%nat;
  lf_files : ∀ p, ¬ is_log_file p → w_files w' !! p = w_files w !! p;
}.

(** What the logger needs other components to leave alone. *)
Record log_stable (w w' : World) : Prop := {
  ls_cwd : w_cwd w' = w_cwd w;
  ls_set : w_logsetting w' = w_logsetting w;
  ls_mutex : w_log_mutex w' = w_log_mutex w;
  ls_conf : w_files w' !! path_of w (conf_file w) = w_files w !! path_of w (conf_file w);
}.

(** The promise of log.c: in a ready state a well-typed message returns, is
    framed, and leaves the logger ready. *)
Class Logger `{Env} := {
  LogWrite : Z → list Z → list arg → IO Z;
  log_ready : World → Prop;
  LogWrite_ok : ∀ level format args msg w,
    log_ready w → 1 ≤ level ≤ 4 → fmt_render format args = Some msg →
    ∃ r w', LogWrite level format args w = Ret r w' ∧ log_frame w w' ∧ log_ready w';
  log_ready_stable : ∀ w w', log_ready w → log_stable w w' → log_ready w';
}.

#[export] Instance log_frame_refl : Reflexive log_frame.
Proof. intros w. by constructor. Qed.
#[export] Instance log_frame_trans : Transitive log_frame.
Proof.
  intros w1 w2 w3 [] []. constructor; try congruence; [lia|].
  intros p Hp. rewrite lf_files1, lf_files0 by done. done.
Qed.

(** A message followed by more code: the code continues in a framed state. *)
Lemma log_step `{Logger} {B} level format args (k : Z → IO B) w :
  log_ready w → 1 ≤ level ≤ 4 → is_Some (fmt_render format args) →
  ∃ r w', (LogWrite level format args ≫= k) w = k r w' ∧ log_frame w w' ∧ log_ready w'.
Proof.
  intros Hr Hl [msg Hm]. destruct (LogWrite_ok level format args msg w Hr Hl Hm) as (r & w' & E & Hf).
  exists r, w'. split; [by apply bind_Ret|done].
Qed.

(** Step over the message at the head of the goal's code. *)
Ltac log_next Hr w' Hf Hr' :=
  match goal with
  | |- context [(LogWrite ?l ?f ?a ≫= ?k) ?w] =>
      let r := fresh "r" in let E := fresh "E" in
      destruct (log_step l f a k w Hr) as (r & w' & E & Hf & Hr');
      [vm_compute; split; discriminate | by eexists |]; rewrite E; clear E; try clear r
  end.

(** States that differ in [errno] and the system call count only. *)
Lemma log_frame_sys e n w : (w_nsys w ≤ n)%nat → log_frame w (set_errno e (set_nsys n w)).
Proof. intros. by constructor. Qed.
Lemma log_ready_sys `{Logger} e n w : log_ready w → log_ready (set_errno e (set_nsys n w)).
Proof. intros Hr. eapply log_ready_stable; [exact Hr|]. by constructor. Qed.

(** A logger that drops every message is ready in every state. *)
Definition silent_logger `{Env} : Logger.
Proof.
  refine {| LogWrite _ _ _ := mret (-1); log_ready _ := True |}.
  - intros level format args msg w _ _ _. exists (-1), w. done.
  - done.
Defined.

(** ** log.c implements the interface *)

Lemma day_log_plain t : tm_ok t → plain_name (day_text t ++ lit ".log").
Proof.
  intros Ht. destruct (day_text_ok t Ht) as [Hl _]. split; [|split; [|split]].
  2,3,4: intros E; apply (f_equal length) in E; rewrite length_app, Hl in E; done.
  intros [Hin|Hin]%elem_of_app; [|revert Hin; by_decide].
  destruct Ht as (_ & _ & _ & ? & ? & ?). unfold day_text in Hin.
  destruct (show_year (tm_year t + 1900)) as [_ D1]; [lia|].
  destruct (show_pad2 (tm_mon t + 1)) as [_ D2]; [lia|].
  destruct (show_pad2 (tm_mday t)) as [_ D3]; [lia|].
  assert (∀ d, all_digits d → chr "/" ∉ d) as Hd.
  { intros d Hd Hi. eapply Forall_forall in Hd; [|exact Hi]. change (chr "/") with 47 in Hd. lia. }
  repeat (apply elem_of_app in Hin as [Hin|Hin]);
    first [by eapply Hd; [|exact Hin]|revert Hin; by_decide].
Qed.

Lemma log_target_is_log `{Calendar} lp w : is_log_file (log_target lp w).
Proof.
  unfold log_target, path_of, log_name.
  destruct (resolve_last (w_cwd w) lp
    (day_text (env_localtime (env_clock (w_nsys w))) ++ lit ".log")) as [d Hd].
  { apply day_log_plain, cal_ok. }
  exists d. eexists. split; [exact Hd|]. by eexists.
Qed.

Lemma conf_not_log w : ¬ is_log_file (path_of w (conf_file w)).
Proof.
  intros (d & name & Hp & [p Hname]). unfold path_of, conf_file in Hp.
  destruct (resolve_last (w_cwd w) (w_cwd w) (lit "engine.conf")) as [d' Hd'].
  { split; [by_decide|done]. }
  change (chr "/" :: lit "engine.conf") with CONFIGFILE in Hd'. rewrite Hd' in Hp.
  apply app_inj_tail in Hp as [_ Hn]. rewrite Hname in Hn.
  apply (f_equal (λ l, last l)) in Hn. rewrite last_app in Hn. by vm_compute in Hn.
Qed.

Section Instance_.
Context `{Env, !Calendar}.

Definition impl_ready (w : World) : Prop := w_log_mutex w = false ∧ ∃ lp ll, log_set w lp ll.

Lemma logged_set lp ll w w' :
  log_set w lp ll → w_cwd w' = w_cwd w →
  w_logsetting w' = w_logsetting (logged lp ll w) →
  w_files w' !! path_of w (conf_file w) = w_files w !! path_of w (conf_file w) →
  log_set w' lp ll.
Proof.
  intros Hs Hc Hl Hf. destruct (log_set_path _ _ _ Hs) as [Hz Hll].
  destruct Hs as ((data & Hd & Hok & H1 & H2) & Hz' & Hl' & _).
  split; [|split; [by rewrite Hc|split; [by rewrite Hc|]]].
  - exists data. unfold path_of, conf_file in *. rewrite Hc. by rewrite Hf.
  - rewrite Hl. eexists. split; [done|].
    destruct (log_name_ok lp _ (cal_ok (w_nsys w)) Hz) as [? ->]. split; [done|lia].
Qed.

Lemma impl_LogWrite_ok level format args msg w :
  impl_ready w → 1 ≤ level ≤ 4 → fmt_render format args = Some msg →
  ∃ r w', LogWrite_impl level format args w = Ret r w' ∧ log_frame w w' ∧ impl_ready w'.
Proof.
  intros (Hm & lp & ll & Hs) Hlv Hr.
  rewrite (LogWrite_cases level format args w lp ll msg) by done.
  assert (∀ d p, is_log_file p → ∀ q, ¬ is_log_file q →
    w_files (append_file p d w) !! q = w_files w !! q) as Hap.
  { intros d p Hp q Hq. cbn. apply lookup_insert_ne. congruence. }
  destruct (level_enabled _ _); [destruct (log_openable _ _ _)|].
  - eexists _, _. split; [done|]. split.
    + constructor; try done; [cbn; lia|]. apply Hap, log_target_is_log.
    + split; [done|]. exists lp, ll. apply (logged_set lp ll w); try done.
      apply Hap; [apply log_target_is_log|apply conf_not_log].
  - eexists _, _. split; [done|]. split.
    + constructor; try done; [|cbn; lia]. unfold acts. cbn.
      rewrite filter_app. cbn. by rewrite app_nil_r.
    + split; [done|]. exists lp, ll. by apply (logged_set lp ll w).
  - eexists _, _. split; [done|]. split.
    + constructor; try done. cbn; lia.
    + split; [done|]. exists lp, ll. by apply (logged_set lp ll w).
Qed.

Lemma impl_ready_stable w w' : impl_ready w → log_stable w w' → impl_ready w'.
Proof.
  intros (Hm & lp & ll & (data & Hd & Hok) & Hz & Hl & Hfp) [Hc Hs Hmx Hcf].
  split; [congruence|]. exists lp, ll.
  split; [|split; [by rewrite Hc|split; [by rewrite Hc|by rewrite Hs]]].
  exists data. unfold path_of, conf_file in *. rewrite Hc, Hcf. by split.
Qed.

#[export] Instance log_c : Logger := {|
  LogWrite := LogWrite_impl;
  log_ready := impl_ready;
  LogWrite_ok := impl_LogWrite_ok;
  log_ready_stable := impl_ready_stable;
|}.

End Instance_.

(** ** Theorems *)

Section Theorems.
Context `{Env, !Calendar}.

(** C19: when the level is enabled by the configured one and the day's file can
    be opened, [LogWrite] returns 0 with the mutex free and exactly one line,
    ["[LEVEL] [h:m:s] message"], appended to [<log-path>/<date>.log]; no other
    file, directory or network action changes. *)
Theorem LogWrite_appends_line level format args w lp ll msg :
  w_log_mutex w = false → log_set w lp ll → 1 ≤ level ≤ 4 →
  fmt_render format args = Some msg →
  level_enabled level (level_code ll) = true → log_openable lp ll w = true →
  ∃ w', LogWrite_impl level format args w = Ret 0 w' ∧
    w_files w' = <[log_target lp w := default [] (w_files w !! log_target lp w) ++
                     log_head level w ++ msg ++ [NEWLINE]]> (w_files w) ∧
    w_log_mutex w' = false ∧ w_dirs w' = w_dirs w ∧ w_events w' = w_events w ∧
    logfile (w_loging w') = None.
Proof.
  intros Hm Hs Hlv Hr He Ho. eexists. split.
  - rewrite (LogWrite_cases level format args w lp ll msg), He, Ho by done. reflexivity.
  - done.
Qed.

(** A message whose level bits are not all in the configured level returns
    -1, writes no file, and leaves the mutex free. *)
Theorem LogWrite_disabled level format args w lp ll msg :
  w_log_mutex w = false → log_set w lp ll → 1 ≤ level ≤ 4 →
  fmt_render format args = Some msg →
  level_enabled level (level_code ll) = false →
  ∃ w', LogWrite_impl level format args w = Ret (-1) w' ∧
    w_files w' = w_files w ∧ w_log_mutex w' = false ∧ w_events w' = w_events w.
Proof.
  intros Hm Hs Hlv Hr He. eexists. split.
  - rewrite (LogWrite_cases level format args w lp ll msg), He by done. reflexivity.
  - done.
Qed.

(** The levels are tested as bit masks although they are numbered 0 to 4,
    so the configured level does not act as a threshold: [WARN] keeps INFO,
    DEBUG and WARN messages and drops the ERROR ones, [DEBUG] drops INFO,
    [ERROR] keeps only ERROR, and any unknown word (such as [ALL]) keeps all. *)
Theorem level_mask_table level ll :
  1 ≤ level ≤ 4 → nz ll → (length ll < 512)%nat → ∃ code, GetCode (pad_to 512 ll) = Ok code ∧
  (level_enabled level code = true ↔
  (ll = lit "INFO" ∧ level = INFO) ∨ (ll = lit "DEBUG" ∧ level = DEBUG) ∨
  (ll = lit "WARN" ∧ level ≠ ERROR) ∨ (ll = lit "ERROR" ∧ level = ERROR) ∨
  (ll ∉ [lit "INFO"; lit "DEBUG"; lit "WARN"; lit "ERROR"; lit "NONE"])).
Proof.
  intros Hlv Hnz Hlen. exists (level_code ll). split; [by apply GetCode_spec|]. clear Hnz Hlen.
  assert (level = 1 ∨ level = 2 ∨ level = 3 ∨ level = 4) as Hl by lia.
  assert (∀ s, beq s ll = true → s = ll) as Hb by (intros s; apply beq_true).
  assert (∀ s, beq s ll = false → s ≠ ll) as Hb' by (intros s; apply beq_false).
  rewrite !not_elem_of_cons. unfold level_code, INFO, DEBUG, ERROR.
  repeat match goal with |- context [if beq ?s ll then _ else _] =>
    destruct (beq s ll) eqn:?; [pose proof (Hb s ltac:(assumption)); subst ll
                               |pose proof (Hb' s ltac:(assumption))] end.
  1-5: assert (∀ n, (lit n ∉ []) ↔ True) by (intros; split; [done|intros _; apply not_elem_of_nil]);
       destruct Hl as [->|[->|[->| ->]]]; vm_compute; intuition congruence.
  split; [intros _; do 4 right; repeat split; auto; apply not_elem_of_nil|].
  intros _. by destruct Hl as [->|[->|[->| ->]]].
Qed.

(** The format interpreter has no [%x]: a message with the format
    ["%d %s%x %s"] of threadpool.c reads the thread id as a string pointer, so
    writing it is undefined behaviour whenever the message is enabled. *)
Theorem PrintfLog_hex_faults p w line tid s1 s2 :
  is_Some (w_files w !! p) →
  PrintfLog p (lit "%d %s%x %s") [AInt line; AStr s1; AInt tid; AStr s2] w = Crash BadVarArg.
Proof. intros Hp. by rewrite PrintfLog_spec. Qed.

(** When the configured log path becomes shorter, the stored file name
    keeps the tail of the old one, because the copy has no terminating NUL. *)
Theorem store_filepath_stale_tail w old name :
  filepath (w_logsetting w) = pad_to MAXFILEPATH old → nz old → nz name →
  (length name < length old < 512)%nat →
  ∃ w', store_filepath (pad_to 512 name) w = Ret tt w' ∧
    cstr (filepath (w_logsetting w')) = Ok (name ++ drop (length name) old).
Proof.
  intros Hfp Ho Hn Hl. unfold store_filepath. autorewrite with io. rewrite Hfp.
  destruct (strcmp_cstr (pad_to 512 name) (pad_to MAXFILEPATH old) name old)
    as (d & -> & Hd); [apply cstr_pad; [done|unfold MAXFILEPATH; lia]..|].
  autorewrite with io. destruct (Z.eqb_spec d 0) as [E|E]; cbn [negb].
  { apply Hd in E. subst. lia. }
  rewrite strlen_pad by (done || lia). autorewrite with io. rewrite Nat2Z.id.
  rewrite memcpy_ok by (rewrite pad_to_length; unfold MAXFILEPATH; lia).
  rewrite bind_lift_Ok. eexists. split; [reflexivity|]. cbn.
  rewrite take_0, pad_to_split, take_app_length by lia. cbn [app].
  change (drop (0 + length name)) with (drop (A := Z) (length name)).
  rewrite (pad_to_split MAXFILEPATH) by (unfold MAXFILEPATH; lia).
  rewrite drop_app_le by lia. rewrite app_assoc. apply cstr_app_ne.
  apply Forall_app; split; [done|by apply Forall_drop].
Qed.

End Theorems.

(** ** Witnesses *)

(** A process with [engine.conf] naming [./log] and a level. *)
Definition log_world (level : list Z) : World :=
  boot {[ [lit "srv"; lit "engine.conf"] :=
          render [Entry (lit "log-path") (lit "./log"); Entry (lit "log-level") level] ]}
       {[ []; [lit "srv"]; [lit "srv"; lit "log"] ]}.

(** Establish [log_set] for a concrete world by evaluation. *)
Ltac solve_log_set :=
  split; [eexists; split; [vm_compute; reflexivity|];
          split; [unfold conf_ok; by_decide|split; vm_compute; reflexivity]
         |split; [by_decide|split; [vm_compute; lia|
          exists []; split; [vm_compute; reflexivity|split; [constructor|cbn; lia]]]]].

Lemma log_world_warn : log_set (log_world (lit "WARN")) (lit "./log") (lit "WARN").
Proof. solve_log_set. Qed.

Lemma LogWrite_appends_line_witness :
  ∃ w', LogWrite_impl (H := sample_env) INFO (lit "%d %s") [AInt 7; AStr (lit "hi")]
          (log_world (lit "WARN")) = Ret 0 w' ∧
        w_files w' !! [lit "srv"; lit "log"; lit "2022-11-06.log"] =
          Some (lit "[INFO] [18:30:0] 7 hi" ++ [10]).
Proof.
  destruct (LogWrite_appends_line (H := sample_env) INFO (lit "%d %s") [AInt 7; AStr (lit "hi")]
    (log_world (lit "WARN")) (lit "./log") (lit "WARN") (lit "7 hi")) as (w' & Hw & Hf & _).
  - reflexivity.
  - apply log_world_warn.
  - vm_compute. split; discriminate.
  - vm_compute. reflexivity.
  - vm_compute. reflexivity.
  - vm_compute. reflexivity.
  - exists w'. split; [exact Hw|]. rewrite Hf. vm_compute. reflexivity.
Defined.

Lemma LogWrite_disabled_witness :
  ∃ w', LogWrite_impl (H := sample_env) ERROR (lit "%d %s") [AInt 7; AStr (lit "disk full")]
          (log_world (lit "WARN")) = Ret (-1) w' ∧
        w_files w' = w_files (log_world (lit "WARN")).
Proof.
  destruct (LogWrite_disabled (H := sample_env) ERROR (lit "%d %s") [AInt 7; AStr (lit "disk full")]
    (log_world (lit "WARN")) (lit "./log") (lit "WARN") (lit "7 disk full")) as (w' & Hw & Hf & _).
  - reflexivity.
  - apply log_world_warn.
  - vm_compute. split; discriminate.
  - vm_compute. reflexivity.
  - vm_compute. reflexivity.
  - exists w'. split; [exact Hw|exact Hf].
Defined.

Lemma level_mask_table_witness :
  ∃ code, GetCode (pad_to 512 (lit "WARN")) = Ok code ∧ level_enabled INFO code = true.
Proof.
  destruct (level_mask_table INFO (lit "WARN")) as (code & Hc & Hiff).
  - vm_compute. split; discriminate.
  - by_decide.
  - vm_compute. lia.
  - exists code. split; [exact Hc|]. apply Hiff. do 2 right. left. split; [reflexivity|discriminate].
Defined.

Lemma PrintfLog_hex_faults_witness :
  PrintfLog [lit "l"] (lit "%d %s%x %s")
    [AInt 53; AStr (lit "start thread 0x"); AInt 140; AStr (lit "is waitting")]
    (boot {[ [lit "l"] := [] ]} ∅) = Crash BadVarArg.
Proof. apply PrintfLog_hex_faults. vm_compute. eauto. Defined.

Lemma store_filepath_stale_tail_witness :
  ∃ w', store_filepath (pad_to 512 (lit "./a.log"))
    (set_logsetting (mkLOGSET (pad_to MAXFILEPATH (lit "./long/b.log")) 0 0) (boot ∅ ∅)) = Ret tt w' ∧
    cstr (filepath (w_logsetting w')) = Ok (lit "./a.logb.log").
Proof.
  destruct (store_filepath_stale_tail
    (set_logsetting (mkLOGSET (pad_to MAXFILEPATH (lit "./long/b.log")) 0 0) (boot ∅ ∅))
    (lit "./long/b.log") (lit "./a.log")) as (w' & Hw & Hc).
  - reflexivity.
  - by_decide.
  - by_decide.
  - vm_compute. lia.
  - exists w'. split; [exact Hw|exact Hc].
Defined.
