(* ===== verification/JinzhiConvert.v ===== *)
(** * jinzhiConvert.c: hexadecimal and binary text

    [HexToAscii] writes two capital digits per byte and a NUL, [AsciiToHex]
    reads them back, [decimalToBinary] prints the 32 bits of a number.  The
    theorems: the round trip for an even number of bytes, what an odd number
    does to the middle byte, and the meaning of the printed bits. *)

From S2P Require Import Prelude CString Machine ConfigFile.

(** ** Operations *)

(** [char lowtocap (char c)] *)
Definition lowtocap (c : Z) : Z :=
  if (97 <=? c) && (c <=? 122) then int8 (c - 32) else c.

(** The value the source computes for one character: [dh] or [dl]. *)
Definition digit_value (c : Z) : Z :=
  let d := lowtocap c - 48 in
  if 9 <? d then lowtocap c - 65 + 10 else d.

(** [src[i]] of a [char] array: a signed value. *)
Definition char_at (src : list Z) (i : Z) : res Z :=
  match src !! Z.to_nat i with
  | Some b => if 0 <=? i then Ok (int8 b) else Bad OutOfBounds
  | None => Bad OutOfBounds
  end.
(** [dest[i] = v] of a byte array. *)
Definition store_at (dest : list Z) (i v : Z) : res (list Z) :=
  if decide (0 ≤ i < Z.of_nat (length dest)) then Ok (<[Z.to_nat i := uint8 v]> dest)
  else Bad OutOfBounds.

(** The body of the loop of [AsciiToHex]. *)
Definition AsciiToHex_body (src : list Z) (len i : Z) (dest : list Z) : res (list Z) :=
  ch ← char_at src (2 * i);
  cl ← char_at src (2 * i + 1);
  let dh := digit_value ch in
  let dl := digit_value cl in
  dest ← store_at dest i (dh * 16 + dl);
  if 0 <? Z.rem len 2 then
    last ← char_at src (len - 1);
    dest ← store_at dest (Z.quot len 2) (last - 48);
    if 9 <? uint8 (last - 48) then
      store_at dest (Z.quot len 2) (lowtocap last - 65 + 10)
    else Ok dest
  else Ok dest.

Fixpoint AsciiToHex_loop (src : list Z) (len i : Z) (n : nat) (dest : list Z) : res (list Z) :=
  match n with
  | O => Ok dest
  | S n' => dest ← AsciiToHex_body src len i dest; AsciiToHex_loop src len (i + 1) n' dest
  end.

(** [void AsciiToHex (char *src, uint8_t *dest, int len)]: the new contents of
    [dest]; NULL pointers and empty lengths only print. *)
Definition AsciiToHex (src dest : option (list Z)) (len : Z) : IO (option (list Z)) :=
  match src, dest with
  | Some src, Some dest =>
      if len <? 1 then printf (lit "length is NULL" ++ [NEWLINE]) ;; mret (Some dest)
      else d ← lift (AsciiToHex_loop src len 0 (Z.to_nat len) dest); mret (Some d)
  | _, _ => printf (lit "src or dest is NULL" ++ [NEWLINE]) ;; mret dest
  end.

(** One hexadecimal digit of [HexToAscii], as a [char]. *)
Definition hex_char (v : Z) : Z :=
  let d := int8 (48 + v) in
  if 57 <? d then int8 (d - 57 - 1 + 65) else d.

Fixpoint HexToAscii_loop (src : list Z) (i : Z) (n : nat) (dest : list Z) : res (list Z) :=
  match n with
  | O => store_at dest (2 * i) 0
  | S n' =>
      match src !! Z.to_nat i with
      | None => Bad OutOfBounds
      | Some b =>
          dest ← store_at dest (2 * i) (hex_char (b / 16));
          dest ← store_at dest (2 * i + 1) (hex_char (b `mod` 16));
          HexToAscii_loop src (i + 1) n' dest
      end
  end.

(** [void HexToAscii (uint8_t *src, char *dest, int len)] *)
Definition HexToAscii (src dest : option (list Z)) (len : Z) : IO (option (list Z)) :=
  match src, dest with
  | Some src, Some dest =>
      if len <? 1 then printf (lit "length is NULL" ++ [NEWLINE]) ;; mret (Some dest)
      else d ← lift (HexToAscii_loop src 0 (Z.to_nat len) dest); mret (Some d)
  | _, _ => printf (lit "src or dest is NULL" ++ [NEWLINE]) ;; mret dest
  end.

(** The loop of [decimalToBinary] for [i = n - 1, .., 0]; [1 << 31] is the
    most negative [int]. *)
Fixpoint decimalToBinary_loop (num : Z) (n : nat) : IO unit :=
  match n with
  | O => mret tt
  | S n' =>
      let mask := int32 (Z.shiftl 1 (Z.of_nat n')) in
      printf (if negb (Z.land num mask =? 0) then lit "1" else lit "0") ;;
      decimalToBinary_loop num n'
  end.

(** [void decimalToBinary (int num)] *)
Definition decimalToBinary (num : Z) : IO unit := decimalToBinary_loop num 32.

(** ** Digits *)

Lemma nibble_cases (P : Z → Prop) v :
  0 ≤ v < 16 → P 0 → P 1 → P 2 → P 3 → P 4 → P 5 → P 6 → P 7 → P 8 → P 9 → P 10 → P 11 →
  P 12 → P 13 → P 14 → P 15 → P v.
Proof.
  intros Hv. intros.
  assert (v = 0 ∨ v = 1 ∨ v = 2 ∨ v = 3 ∨ v = 4 ∨ v = 5 ∨ v = 6 ∨ v = 7 ∨ v = 8 ∨ v = 9 ∨
          v = 10 ∨ v = 11 ∨ v = 12 ∨ v = 13 ∨ v = 14 ∨ v = 15) as Hc by lia.
  by repeat destruct Hc as [->|Hc]; try subst.
Qed.

(** Reading back the digit that was written. *)
Lemma hex_digit v : 0 ≤ v < 16 →
  digit_value (int8 (uint8 (hex_char v))) = v ∧
  uint8 (if 9 <? uint8 (int8 (uint8 (hex_char v)) - 48)
         then lowtocap (int8 (uint8 (hex_char v))) - 65 + 10
         else int8 (uint8 (hex_char v)) - 48) = v.
Proof.
  intros Hv. pattern v. apply nibble_cases; [done|..]; vm_compute; done.
Qed.

Lemma byte_nibbles b : is_byte b → 0 ≤ b / 16 < 16 ∧ 0 ≤ b `mod` 16 < 16 ∧ b / 16 * 16 + b `mod` 16 = b.
Proof. unfold is_byte. intros. Z.div_mod_to_equations. lia. Qed.

Lemma store_at_ok dest i v :
  0 ≤ i < Z.of_nat (length dest) → store_at dest i v = Ok (<[Z.to_nat i := uint8 v]> dest).
Proof. intros. unfold store_at. by rewrite decide_True. Qed.

(** ** The text [HexToAscii] writes *)

Definition hex_pair (b : Z) : list Z := [uint8 (hex_char (b / 16)); uint8 (hex_char (b `mod` 16))].
Definition hex_text (bs : list Z) : list Z := concat (hex_pair <$> bs).

Lemma hex_text_length bs : length (hex_text bs) = (2 * length bs)%nat.
Proof. induction bs as [|b bs IH]; [done|]. unfold hex_text in *. cbn [fmap list_fmap concat]. len. Qed.

Lemma hex_text_lookup bs i b :
  bs !! i = Some b →
  hex_text bs !! (2 * i)%nat = Some (uint8 (hex_char (b / 16))) ∧
  hex_text bs !! (2 * i + 1)%nat = Some (uint8 (hex_char (b `mod` 16))).
Proof.
  revert i. induction bs as [|x bs IH]; intros [|i] Hi; simplify_eq/=; [done|].
  destruct (IH i Hi) as [H1 H2]. unfold hex_text in *. cbn [fmap list_fmap concat].
  replace (i + S (i + 0))%nat with (S (2 * i)) by lia.
  replace (2 * S i + 1)%nat with (S (S (2 * i + 1))) by lia. by split.
Qed.

Lemma store_at_app pre x rest i v :
  i = Z.of_nat (length pre) → store_at (pre ++ x :: rest) i v = Ok (pre ++ uint8 v :: rest).
Proof.
  intros ->. rewrite store_at_ok by (rewrite length_app; cbn; lia).
  rewrite Nat2Z.id. by rewrite insert_app_r_alt, Nat.sub_diag by lia.
Qed.

(** The loop fills [dest] from the position it has reached. *)
Lemma HexToAscii_loop_spec src : ∀ n i pre rest,
  0 ≤ i → (Z.to_nat i + n = length src)%nat → length pre = (2 * Z.to_nat i)%nat →
  (2 * n < length rest)%nat →
  HexToAscii_loop src i n (pre ++ rest) =
  Ok (pre ++ hex_text (drop (Z.to_nat i) src) ++ 0 :: drop (2 * n + 1) rest).
Proof.
  induction n as [|n IH]; intros i pre rest Hi Hn Hp Hl; cbn [HexToAscii_loop].
  - destruct rest as [|x rest]; [simpl in Hl; lia|]. rewrite store_at_app by lia.
    rewrite drop_ge by lia. done.
  - destruct rest as [|x [|y rest]]; [simpl in Hl; lia..|].
    destruct (lookup_lt_is_Some_2 src (Z.to_nat i)) as [b Hb]; [lia|]. rewrite Hb.
    rewrite store_at_app by lia. cbn [mbind res_bind].
    rewrite (app_snoc pre). rewrite store_at_app by (rewrite length_app; simpl; lia).
    cbn [mbind res_bind]. rewrite (app_snoc (pre ++ _)).
    rewrite IH; [|lia|lia|rewrite !length_app; simpl; lia|simpl in Hl; lia].
    rewrite (drop_S src b (Z.to_nat i)) by done.
    replace (Z.to_nat (i + 1)) with (S (Z.to_nat i)) by lia.
    rewrite <-!app_assoc. unfold hex_text, hex_pair. cbn [fmap list_fmap concat app].
    replace (2 * S n + 1)%nat with (S (S (2 * n + 1))) by lia. done.
Qed.

(** ** The round trip *)

(** The bytes [AsciiToHex] leaves after [k] iterations on the text of [bs]. *)
Definition odd_fix (bs : list Z) (l : list Z) : list Z :=
  if 0 <? Z.rem (Z.of_nat (length bs)) 2
  then <[(length bs / 2)%nat := default 0 (bs !! (length bs / 2)%nat) / 16]> l else l.

Lemma char_at_text bs r i b :
  bs !! i = Some b →
  char_at (hex_text bs ++ r) (2 * Z.of_nat i) = Ok (int8 (uint8 (hex_char (b / 16)))) ∧
  char_at (hex_text bs ++ r) (2 * Z.of_nat i + 1) = Ok (int8 (uint8 (hex_char (b `mod` 16)))).
Proof.
  intros Hb. destruct (hex_text_lookup bs i b Hb) as [H1 H2]. unfold char_at.
  replace (Z.to_nat (2 * Z.of_nat i)) with (2 * i)%nat by lia.
  replace (Z.to_nat (2 * Z.of_nat i + 1)) with (2 * i + 1)%nat by lia.
  rewrite !(lookup_app_l_Some _ _ _ _ H1), !(lookup_app_l_Some _ _ _ _ H2).
  by destruct (Z.leb_spec 0 (2 * Z.of_nat i)), (Z.leb_spec 0 (2 * Z.of_nat i + 1)); try lia.
Qed.

(** One iteration: the byte is stored, and for an odd length the middle one
    becomes its own high half. *)
Lemma AsciiToHex_body_spec bs r i b dest :
  bytes_ok bs → bs !! i = Some b → length dest = length bs →
  AsciiToHex_body (hex_text bs ++ r) (Z.of_nat (length bs)) (Z.of_nat i) dest =
  Ok (odd_fix bs (<[i := b]> dest)).
Proof.
  intros Hok Hb Hl. pose proof (lookup_lt_Some _ _ _ Hb) as Hi.
  assert (is_byte b) as Hbb by (eapply Forall_lookup_1; done).
  destruct (byte_nibbles b Hbb) as (Hh & Hlo & Hsum).
  unfold AsciiToHex_body. destruct (char_at_text bs r i b Hb) as [-> ->]. cbn [mbind res_bind].
  rewrite (proj1 (hex_digit _ Hh)), (proj1 (hex_digit _ Hlo)), Hsum.
  rewrite store_at_ok by lia. cbn [mbind res_bind]. rewrite Nat2Z.id, uint8_small by exact Hbb.
  unfold odd_fix. destruct (Z.ltb_spec 0 (Z.rem (Z.of_nat (length bs)) 2)) as [Hodd|]; [|done].
  rewrite Z.rem_mod_nonneg in Hodd by lia.
  set (m := (length bs / 2)%nat).
  assert (Z.of_nat (length bs) = 2 * Z.of_nat m + 1) as Hm.
  { unfold m. rewrite Nat2Z.inj_div. Z.div_mod_to_equations. lia. }
  destruct (lookup_lt_is_Some_2 bs m) as [c Hc]; [lia|]. rewrite Hc. cbn [default].
  assert (is_byte c) as Hcb by (eapply Forall_lookup_1; done).
  destruct (byte_nibbles c Hcb) as (Hch & _ & _).
  replace (Z.of_nat (length bs) - 1) with (2 * Z.of_nat m) by lia.
  rewrite (proj1 (char_at_text bs r m c Hc)). cbn [mbind res_bind].
  replace (Z.quot (Z.of_nat (length bs)) 2) with (Z.of_nat m)
    by (rewrite Z.quot_div_nonneg by lia; rewrite Hm; Z.div_mod_to_equations; lia).
  rewrite store_at_ok by (rewrite length_insert; lia). cbn [mbind res_bind].
  pose proof (proj2 (hex_digit _ Hch)) as Hd. rewrite Nat2Z.id.
  destruct (9 <? _) eqn:E9; [|by rewrite Hd].
  rewrite store_at_ok by (rewrite !length_insert; lia). rewrite Nat2Z.id, Hd.
  by rewrite list_insert_insert_eq.
Qed.

Lemma odd_fix_length bs l : length (odd_fix bs l) = length l.
Proof. unfold odd_fix. destruct (0 <? _); [apply length_insert|done]. Qed.

(** Fixing the middle byte early makes no difference. *)
Lemma odd_fix_absorb bs X r k :
  odd_fix bs (take k (odd_fix bs X) ++ r) = odd_fix bs (take k X ++ r).
Proof.
  unfold odd_fix. destruct (0 <? _); [|done]. set (m := (length bs / 2)%nat).
  set (v := default 0 (bs !! m) / 16).
  destruct (decide (m < k)%nat).
  - rewrite take_insert_lt by done.
    destruct (decide (m < length (take k X))%nat).
    + rewrite insert_app_l by (by rewrite length_insert).
      by rewrite list_insert_insert_eq, insert_app_l.
    + by rewrite (list_insert_ge (take k X)) by lia.
  - by rewrite take_insert_ge by lia.
Qed.

Lemma AsciiToHex_loop_spec bs r : bytes_ok bs → ∀ n i dest,
  (i + S n = length bs)%nat → length dest = length bs →
  AsciiToHex_loop (hex_text bs ++ r) (Z.of_nat (length bs)) (Z.of_nat i) (S n) dest =
  Ok (odd_fix bs (take i dest ++ drop i bs)).
Proof.
  intros Hok. induction n as [|n IH]; intros i dest Hi Hl.
  - destruct (lookup_lt_is_Some_2 bs i) as [b Hb]; [lia|].
    cbn [AsciiToHex_loop]. rewrite (AsciiToHex_body_spec bs r i b dest) by done. cbn [mbind res_bind].
    do 2 f_equal. rewrite (drop_S bs b i) by done. rewrite (drop_ge bs (S i)) by lia.
    rewrite insert_take_drop by lia. rewrite (drop_ge dest (S i)) by lia. done.
  - destruct (lookup_lt_is_Some_2 bs i) as [b Hb]; [lia|].
    remember (S n) as n' eqn:En. cbn [AsciiToHex_loop].
    rewrite (AsciiToHex_body_spec bs r i b dest) by done. cbn [mbind res_bind].
    replace (Z.of_nat i + 1) with (Z.of_nat (S i)) by lia. subst n'.
    rewrite IH by (rewrite ?odd_fix_length, ?length_insert; lia).
    rewrite odd_fix_absorb. do 2 f_equal.
    rewrite (drop_S bs b i) by done.
    rewrite (take_S_r _ _ b) by (apply list_lookup_insert_eq; lia).
    by rewrite take_insert_ge, <-app_assoc by lia.
Qed.

(** ** Whole conversions *)

Section Theorems.

(** The text of [bs] in a [char] array with room for it. *)
Lemma HexToAscii_spec bs dest w :
  bs ≠ [] → (2 * length bs < length dest)%nat →
  HexToAscii (Some bs) (Some dest) (Z.of_nat (length bs)) w =
  Ret (Some (hex_text bs ++ 0 :: drop (2 * length bs + 1) dest)) w.
Proof.
  intros Hne Hl. unfold HexToAscii.
  destruct (Z.ltb_spec (Z.of_nat (length bs)) 1); [destruct bs; [done|simpl in *; lia]|].
  rewrite Nat2Z.id.
  pose proof (HexToAscii_loop_spec bs (length bs) 0 [] dest) as Hs.
  cbn [app] in Hs. rewrite Hs by (simpl; lia). rewrite drop_0. done.
Qed.

(** Reading the text of [bs] back. *)
Lemma AsciiToHex_text bs r dest w :
  bytes_ok bs → bs ≠ [] → length dest = length bs →
  AsciiToHex (Some (hex_text bs ++ r)) (Some dest) (Z.of_nat (length bs)) w =
  Ret (Some (odd_fix bs bs)) w.
Proof.
  intros Hok Hne Hd. unfold AsciiToHex.
  assert (∃ n, length bs = S n) as [n En] by (destruct bs; [done|eexists; done]).
  destruct (Z.ltb_spec (Z.of_nat (length bs)) 1); [lia|].
  replace (Z.to_nat (Z.of_nat (length bs))) with (S n) by lia.
  pose proof (AsciiToHex_loop_spec bs r Hok n 0 dest) as Hs. change (Z.of_nat 0) with 0 in Hs.
  rewrite Hs by lia. by rewrite bind_lift_Ok.
Qed.

(** ** The bits [decimalToBinary] prints *)

(** The number written by binary digits, most significant first. *)
Definition bits_value (bits : list bool) : Z :=
  foldl (λ a b, 2 * a + Z.b2z b) 0 bits.
Fixpoint low_bits (num : Z) (n : nat) : list bool :=
  match n with O => [] | S n' => Z.testbit num (Z.of_nat n') :: low_bits num n' end.
Definition bit_text (b : bool) : list Z := if b then lit "1" else lit "0".

Lemma land_pow2_zero num n : 0 ≤ n → (Z.land num (2 ^ n) =? 0) = negb (Z.testbit num n).
Proof.
  intros Hn. assert (Z.land num (2 ^ n) = if Z.testbit num n then 2 ^ n else 0) as ->.
  { apply Z.bits_inj'. intros m Hm. rewrite Z.land_spec, Z.pow2_bits_eqb by done.
    destruct (Z.eqb_spec n m) as [<-|Hne].
    - rewrite andb_true_r. destruct (Z.testbit num n); [by rewrite Z.pow2_bits_true|by rewrite Z.bits_0].
    - rewrite andb_false_r. destruct (Z.testbit num n); [|by rewrite Z.bits_0].
      rewrite Z.pow2_bits_false by done. done. }
  destruct (Z.testbit num n); simpl; [|done]. apply Z.eqb_neq.
  pose proof (Z.pow_pos_nonneg 2 n). lia.
Qed.

(** The sign bit is tested with the most negative [int]. *)
Lemma land_int_min num : - 2 ^ 31 ≤ num < 2 ^ 31 →
  (Z.land num (- 2 ^ 31) =? 0) = negb (Z.testbit num 31).
Proof.
  intros Hn. change (- 2 ^ 31) with (Z.lnot (Z.ones 31)).
  rewrite <-Z.ldiff_land, Z.ldiff_ones_r, Z.testbit_odd by done.
  rewrite Z.shiftr_div_pow2, Z.shiftl_mul_pow2 by done.
  assert (num / 2 ^ 31 = 0 ∨ num / 2 ^ 31 = -1) as [-> | ->]; [|done..].
  Z.div_mod_to_equations. lia.
Qed.

Lemma mask_test num n : - 2 ^ 31 ≤ num < 2 ^ 31 → (n < 32)%nat →
  negb (Z.land num (int32 (Z.shiftl 1 (Z.of_nat n))) =? 0) = Z.testbit num (Z.of_nat n).
Proof.
  intros Hnum Hn. rewrite Z.shiftl_1_l. destruct (decide (n = 31)%nat) as [->|].
  - change (int32 (2 ^ Z.of_nat 31)) with (- 2 ^ 31). rewrite land_int_min by done. apply negb_involutive.
  - assert (0 < 2 ^ Z.of_nat n < 2 ^ 31)
      by (split; [apply Z.pow_pos_nonneg|apply Z.pow_lt_mono_r]; lia).
    rewrite int32_small, land_pow2_zero by lia.
    apply negb_involutive.
Qed.

Lemma decimalToBinary_loop_spec num n w :
  - 2 ^ 31 ≤ num < 2 ^ 31 → (n ≤ 32)%nat →
  decimalToBinary_loop num n w =
  Ret tt (set_events (w_events w ++ ((λ b, EvPrint (bit_text b)) <$> low_bits num n)) w).
Proof.
  intros Hnum. revert w. induction n as [|n IH]; intros w Hn; cbn [decimalToBinary_loop low_bits].
  - cbn. rewrite app_nil_r. by destruct w.
  - rewrite mask_test by lia. unfold mbind at 1, M_bind at 1. cbn [printf emit].
    rewrite IH by lia. cbn. by rewrite <-app_assoc.
Qed.

Lemma bits_value_app a num n :
  foldl (λ a b, 2 * a + Z.b2z b) a (low_bits num n) = a * 2 ^ Z.of_nat n + num `mod` 2 ^ Z.of_nat n.
Proof.
  revert a. induction n as [|n IH]; intros a; cbn [low_bits foldl].
  { change (2 ^ Z.of_nat 0) with 1. rewrite Z.mod_1_r. lia. }
  rewrite IH, Nat2Z.inj_succ, Z.pow_succ_r by lia.
  rewrite Z.testbit_spec' by lia. set (p := 2 ^ Z.of_nat n).
  assert (0 < p) by (apply Z.pow_pos_nonneg; lia).
  rewrite (Z.mul_comm 2 p), (Z.rem_mul_r num p 2) by lia. nia.
Qed.

(** ** Theorems *)

(** [HexToAscii] followed by [AsciiToHex] gives the bytes back when their
    number is even and the buffers are large enough. *)
Theorem hex_roundtrip_even bs text dest w :
  bytes_ok bs → bs ≠ [] → Nat.Even (length bs) →
  (2 * length bs < length text)%nat → length dest = length bs →
  (t ← HexToAscii (Some bs) (Some text) (Z.of_nat (length bs));
   AsciiToHex t (Some dest) (Z.of_nat (length bs))) w = Ret (Some bs) w.
Proof.
  intros Hok Hne [k Hk] Hl Hd. rewrite (bind_Ret _ _ _ _ _ (HexToAscii_spec bs text w Hne Hl)).
  rewrite AsciiToHex_text by done. unfold odd_fix.
  by rewrite Hk, Nat2Z.inj_mul, Z.mul_comm, Z.rem_mul by lia.
Qed.

(** For an odd number of bytes the test meant for an odd number of
    characters fires, and the middle byte comes back as its high half. *)
Theorem hex_roundtrip_odd bs text dest w :
  bytes_ok bs → Nat.Odd (length bs) →
  (2 * length bs < length text)%nat → length dest = length bs →
  (t ← HexToAscii (Some bs) (Some text) (Z.of_nat (length bs));
   AsciiToHex t (Some dest) (Z.of_nat (length bs))) w =
  Ret (Some (<[(length bs / 2)%nat := default 0 (bs !! (length bs / 2)%nat) / 16]> bs)) w.
Proof.
  intros Hok [k Hk] Hl Hd. assert (bs ≠ []) as Hne by (intros ->; simpl in *; lia).
  rewrite (bind_Ret _ _ _ _ _ (HexToAscii_spec bs text w Hne Hl)), AsciiToHex_text by done.
  unfold odd_fix. destruct (Z.ltb_spec 0 (Z.rem (Z.of_nat (length bs)) 2)) as [|Hr]; [done|].
  rewrite Z.rem_mod_nonneg in Hr by lia. exfalso. Z.div_mod_to_equations. lia.
Qed.

(** [decimalToBinary] prints 32 characters, ["0"] or ["1"], which read as
    a binary number are the [unsigned] value of its argument. *)
Theorem decimalToBinary_prints num w :
  - 2 ^ 31 ≤ num < 2 ^ 31 →
  ∃ bits, decimalToBinary num w =
      Ret tt (set_events (w_events w ++ ((λ b, EvPrint (bit_text b)) <$> bits)) w) ∧
    length bits = 32%nat ∧ bits_value bits = uint32 num.
Proof.
  intros Hn. exists (low_bits num 32). split; [by apply decimalToBinary_loop_spec|].
  split; [done|]. unfold bits_value, uint32. by rewrite bits_value_app.
Qed.

End Theorems.

(** ** Witnesses *)

Lemma hex_roundtrip_even_witness :
  (t ← HexToAscii (Some [235; 144]) (Some (zeros 5)) 2;
   AsciiToHex t (Some (zeros 2)) 2) (boot ∅ ∅) = Ret (Some [235; 144]) (boot ∅ ∅).
Proof.
  apply (hex_roundtrip_even [235; 144] (zeros 5) (zeros 2) (boot ∅ ∅)).
  - repeat constructor; discriminate.
  - discriminate.
  - exists 1%nat. reflexivity.
  - vm_compute. lia.
  - reflexivity.
Defined.

Lemma hex_roundtrip_odd_witness :
  (t ← HexToAscii (Some [17; 235; 51]) (Some (zeros 8)) 3;
   AsciiToHex t (Some (zeros 3)) 3) (boot ∅ ∅) = Ret (Some [17; 14; 51]) (boot ∅ ∅).
Proof.
  apply (hex_roundtrip_odd [17; 235; 51] (zeros 8) (zeros 3) (boot ∅ ∅)).
  - repeat constructor; discriminate.
  - exists 1%nat. reflexivity.
  - vm_compute. lia.
  - reflexivity.
Defined.

Lemma decimalToBinary_prints_witness :
  ∃ bits, decimalToBinary (-1) (boot ∅ ∅) =
      Ret tt (set_events ([] ++ ((λ b, EvPrint (bit_text b)) <$> bits)) (boot ∅ ∅)) ∧
    length bits = 32%nat ∧ bits_value bits = 4294967295.
Proof. apply (decimalToBinary_prints (-1) (boot ∅ ∅)). vm_compute. split; [discriminate|reflexivity]. Defined.
