(* ===== verification/DataHeader.v ===== *)
(** * dataHeader.h: packet headers and how a packet is recognised

    The three header structures as the compiler lays them out on x86-64
    (little endian, natural alignment; [ReplayProtocol] packed), their memory
    images, and the test of util.c [distribute_receive] that tells forwarded
    packets from playback commands.  The theorems: the layouts, the round trips
    between a header and its image, and the exact set of packets of each kind. *)

From S2P Require Import Prelude CString.

(** ** Constants *)

Definition SEACOMMHEADER : Z := 0x66666666.
Definition BDCOMMHEADER : Z := 0xEB.
Definition PLAYBACKHEADER : Z := 0x88888888.
Definition PLAYBACK_START : Z := 1.
Definition PLAYBACK_END : Z := 2.

(** ** Structures; a [FLOAT] is its 32-bit pattern *)

Record SeaCommunication := mkSea {
  sea_PacketHead : Z; sea_PayloadSize : Z; sea_ChunkNum : Z; sea_ChunkID : Z;
  sea_DataTime : Z; sea_Longitude : Z; sea_Latitude : Z;
  sea_SystemID : Z; sea_DataType : Z;
}.

Record BDCommunication := mkBD { bd_PacketHead : Z; bd_SystemID : Z; bd_DataType : Z }.

Record ReplayProtocol := mkReplay {
  PacketHead : Z; CommandType : Z; StartTime : Z; EndTime : Z; Speed : Z;
}.

(** ** Layout *)

(** Offsets of fields of the given sizes, and the size of the structure: each
    field is aligned to its size unless the structure is packed. *)
Definition align_up (n a : nat) : nat := ((n + a - 1) / a * a)%nat.
Fixpoint offsets (packed : bool) (off : nat) (sizes : list nat) : list nat * nat :=
  match sizes with
  | [] => ([], off)
  | s :: sizes' =>
      let o := if packed then off else align_up off s in
      let r := offsets packed (o + s) sizes' in
      (o :: r.1, r.2)
  end.
Definition layout (packed : bool) (sizes : list nat) : list nat * nat :=
  let r := offsets packed 0 sizes in
  (r.1, if packed then r.2 else align_up r.2 (foldr Nat.max 1%nat sizes)).

Definition sea_sizes : list nat := [4; 4; 2; 2; 4; 4; 4; 2; 2]%nat.
Definition bd_sizes : list nat := [1; 2; 2]%nat.
Definition replay_sizes : list nat := [4; 1; 4; 4; 1]%nat.

Definition sizeof_Sea : nat := (layout false sea_sizes).2.
Definition sizeof_BD : nat := (layout false bd_sizes).2.
Definition sizeof_Replay : nat := (layout true replay_sizes).2.

(** ** Little-endian fields *)

Fixpoint le_value (bs : list Z) : Z :=
  match bs with [] => 0 | b :: bs' => b + 256 * le_value bs' end.
Fixpoint le_bytes (n : nat) (v : Z) : list Z :=
  match n with O => [] | S n' => v `mod` 256 :: le_bytes n' (v / 256) end.

(** The field of [size] bytes at [off] of a memory image. *)
Definition field (image : list Z) (off size : nat) : Z := le_value (take size (drop off image)).

(** What [memcpy] of an image into the structure makes of its fields. *)
Definition Sea_of (b : list Z) : SeaCommunication :=
  mkSea (field b 0 4) (field b 4 4) (field b 8 2) (field b 10 2) (field b 12 4)
        (field b 16 4) (field b 20 4) (field b 24 2) (field b 26 2).
Definition BD_of (b : list Z) : BDCommunication := mkBD (field b 0 1) (field b 2 2) (field b 4 2).
Definition Replay_of (b : list Z) : ReplayProtocol :=
  mkReplay (field b 0 4) (field b 4 1) (field b 5 4) (field b 9 4) (field b 13 1).

(** The image of a structure: its fields one after the other. *)
Fixpoint pack (sizes : list nat) (vals : list Z) : list Z :=
  match sizes, vals with
  | n :: sizes', v :: vals' => le_bytes n v ++ pack sizes' vals'
  | _, _ => []
  end.

(** [pad] is the alignment byte of [BDCommunication]. *)
Definition Sea_image (s : SeaCommunication) : list Z :=
  pack sea_sizes [sea_PacketHead s; sea_PayloadSize s; sea_ChunkNum s; sea_ChunkID s;
                  sea_DataTime s; sea_Longitude s; sea_Latitude s; sea_SystemID s; sea_DataType s].
Definition BD_image (pad : Z) (s : BDCommunication) : list Z :=
  pack [1; 1; 2; 2]%nat [bd_PacketHead s; pad; bd_SystemID s; bd_DataType s].
Definition Replay_image (s : ReplayProtocol) : list Z :=
  pack replay_sizes [PacketHead s; CommandType s; StartTime s; EndTime s; Speed s].

(** ** Recognising a packet *)

(** A zeroed buffer into which [data] was received, up to [n] bytes of it: the
    rest of the buffer is zero. *)
Definition buf_bytes (n : nat) (data : list Z) : list Z := take n (data ++ zeros n).

Inductive kind := KDistribute | KPlayback | KUseless.
#[global] Instance kind_eq_dec : EqDecision kind.
Proof. solve_decision. Defined.

(** util.c [distribute_receive]: the three headers are copied out of the buffer
    and tested in this order. *)
Definition packet_kind (data : list Z) : kind :=
  let sea := Sea_of (buf_bytes sizeof_Sea data) in
  let bd := BD_of (buf_bytes sizeof_BD data) in
  let replay := Replay_of (buf_bytes sizeof_Replay data) in
  if (sea_PacketHead sea =? SEACOMMHEADER) || (bd_PacketHead bd =? BDCOMMHEADER)
  then KDistribute
  else if PacketHead replay =? PLAYBACKHEADER then KPlayback
  else KUseless.

(** ** Lemmas on little-endian values *)

Lemma le_bytes_length n v : length (le_bytes n v) = n.
Proof. revert v. induction n; intros; simpl; auto. Qed.

Lemma le_bytes_ok n v : bytes_ok (le_bytes n v).
Proof.
  revert v. induction n; intros v; constructor; [|by apply IHn].
  apply Z.mod_pos_bound. lia.
Qed.

Lemma le_value_bytes n v : 0 ≤ v < 256 ^ Z.of_nat n → le_value (le_bytes n v) = v.
Proof.
  revert v. induction n as [|n IH]; intros v Hv; cbn [le_bytes le_value].
  - change (256 ^ Z.of_nat 0) with 1 in Hv. lia.
  - rewrite Nat2Z.inj_succ, Z.pow_succ_r in Hv by lia.
    rewrite IH; [Z.div_mod_to_equations; lia|].
    split; [apply Z.div_pos; lia|apply Z.div_lt_upper_bound; lia].
Qed.

Lemma le_bytes_value bs : bytes_ok bs → le_bytes (length bs) (le_value bs) = bs.
Proof.
  induction 1 as [|b bs Hb Hbs IH]; [done|]. unfold is_byte in Hb.
  cbn [length le_bytes le_value].
  replace ((b + 256 * le_value bs) `mod` 256) with b by (Z.div_mod_to_equations; lia).
  replace ((b + 256 * le_value bs) / 256) with (le_value bs) by (Z.div_mod_to_equations; lia).
  by rewrite IH.
Qed.

Lemma le_value_range bs : bytes_ok bs → 0 ≤ le_value bs < 256 ^ Z.of_nat (length bs).
Proof.
  induction 1 as [|b bs Hb Hbs IH]; [done|]. unfold is_byte in Hb. cbn [length le_value].
  rewrite Nat2Z.inj_succ, Z.pow_succ_r by lia. lia.
Qed.

(** A field holds [v] exactly when its bytes are those of [v]. *)
Lemma le_value_iff bs v :
  bytes_ok bs → 0 ≤ v < 256 ^ Z.of_nat (length bs) →
  le_value bs = v ↔ bs = le_bytes (length bs) v.
Proof.
  intros Hb Hv. split; [intros <-; by rewrite le_bytes_value|].
  intros E. rewrite E. by apply le_value_bytes.
Qed.

(** ** Lemmas on images *)

Fixpoint unpack (sizes : list nat) (b : list Z) : list Z :=
  match sizes with
  | [] => []
  | n :: sizes' => le_value (take n b) :: unpack sizes' (drop n b)
  end.

Lemma unpack_pack sizes vals :
  Forall2 (λ n v, 0 ≤ v < 256 ^ Z.of_nat n) sizes vals → unpack sizes (pack sizes vals) = vals.
Proof.
  induction 1 as [|n v sizes vals Hv _ IH]; [done|]. cbn [unpack pack].
  rewrite <-(le_bytes_length n v) at 1 3. rewrite take_app_length, drop_app_length.
  by rewrite le_value_bytes, IH.
Qed.

Lemma pack_unpack sizes b :
  bytes_ok b → length b = sum_list sizes → pack sizes (unpack sizes b) = b.
Proof.
  revert b. induction sizes as [|n sizes IH]; intros b Hb Hl; cbn [unpack pack].
  - by destruct b.
  - cbn in Hl. rewrite IH; [|by apply Forall_drop|len].
    rewrite <-(take_drop n b) at 3. f_equal.
    rewrite <-(le_bytes_value (take n b)) at 2 by by apply Forall_take. f_equal. len.
Qed.

Lemma pack_length sizes vals : length sizes = length vals → length (pack sizes vals) = sum_list sizes.
Proof.
  revert vals. induction sizes as [|n sizes IH]; intros [|v vals] Hl; simplify_eq/=; [done|].
  by rewrite length_app, le_bytes_length, IH.
Qed.

Lemma unpack_range sizes b :
  bytes_ok b → sum_list sizes = length b →
  Forall2 (λ n v, 0 ≤ v < 256 ^ Z.of_nat n) sizes (unpack sizes b).
Proof.
  revert b. induction sizes as [|n sizes IH]; intros b Hb Hl; cbn [unpack]; constructor.
  - cbn in Hl. pose proof (le_value_range (take n b) ltac:(by apply Forall_take)) as Hr.
    rewrite length_take, Nat.min_l in Hr by lia. done.
  - apply IH; [by apply Forall_drop|]. cbn in Hl. len.
Qed.

(** ** Lemmas on buffers *)

Lemma buf_bytes_length n data : length (buf_bytes n data) = n.
Proof. unfold buf_bytes, zeros. len. Qed.
Lemma buf_bytes_ok n data : bytes_ok data → bytes_ok (buf_bytes n data).
Proof.
  intros. apply Forall_take, Forall_app. split; [done|]. by apply Forall_replicate.
Qed.
Lemma buf_bytes_take n m data : (m ≤ n)%nat → take m (buf_bytes n data) = buf_bytes m data.
Proof.
  intros. unfold buf_bytes. rewrite take_take, Nat.min_l by done.
  rewrite !take_app. f_equal. unfold zeros. rewrite !take_replicate. f_equal. lia.
Qed.
Lemma buf_bytes_id n data : length data = n → buf_bytes n data = data.
Proof. intros <-. unfold buf_bytes. by rewrite take_app_length. Qed.

(** A zero-extended buffer starts with a non-zero byte string exactly when the
    received data does. *)
Lemma buf_bytes_prefix data p :
  Forall (λ c, c ≠ 0) p → buf_bytes (length p) data = p ↔ p `prefix_of` data.
Proof.
  intros Hp. unfold buf_bytes. split.
  - intros E. destruct (decide (length p ≤ length data)%nat) as [Hl|Hl].
    + exists (drop (length p) data). rewrite <-E at 1.
      rewrite take_app_le by done. by rewrite take_drop.
    + exfalso. rewrite take_app_ge in E by lia. rewrite <-E in Hp.
      apply Forall_app in Hp as [_ Hp].
      destruct (length p - length data)%nat eqn:En; [lia|].
      destruct (length p) eqn:Ep; [lia|]. by inversion Hp.
  - intros [r ->]. rewrite <-app_assoc. by rewrite take_app_length.
Qed.

Lemma head_field data n v p :
  bytes_ok data → (length p ≤ n)%nat → v = le_value p → bytes_ok p → Forall (λ c, c ≠ 0) p →
  (field (buf_bytes n data) 0 (length p) =? v) = bool_decide (p `prefix_of` data).
Proof.
  intros Hd Hn -> Hp Hz. unfold field. rewrite drop_0, buf_bytes_take by done.
  assert (le_value (buf_bytes (length p) data) = le_value p ↔ p `prefix_of` data) as Hi.
  { rewrite <-buf_bytes_prefix by done. split; [|by intros ->].
    intros E. pose proof (le_bytes_value _ (buf_bytes_ok (length p) data Hd)) as E2.
    rewrite buf_bytes_length, E, le_bytes_value in E2 by done. done. }
  case_bool_decide; [by apply Z.eqb_eq, Hi|apply Z.eqb_neq; tauto].
Qed.

Lemma packet_kind_eq data : bytes_ok data →
  packet_kind data =
  if bool_decide ([0x66; 0x66; 0x66; 0x66] `prefix_of` data) || bool_decide ([0xEB] `prefix_of` data)
  then KDistribute
  else if bool_decide ([0x88; 0x88; 0x88; 0x88] `prefix_of` data) then KPlayback else KUseless.
Proof.
  intros Hd. unfold packet_kind, Sea_of, BD_of, Replay_of. cbn [sea_PacketHead bd_PacketHead PacketHead].
  rewrite (head_field data _ SEACOMMHEADER [0x66; 0x66; 0x66; 0x66]),
    (head_field data _ BDCOMMHEADER [0xEB]),
    (head_field data _ PLAYBACKHEADER [0x88; 0x88; 0x88; 0x88]);
    first [done | vm_compute; lia | repeat constructor; vm_compute; congruence].
Qed.

(** ** Theorems *)

Definition u8 (v : Z) : Prop := 0 ≤ v < 2 ^ 8.
Definition u16 (v : Z) : Prop := 0 ≤ v < 2 ^ 16.
Definition u32 (v : Z) : Prop := 0 ≤ v < 2 ^ 32.

Definition Replay_wf (p : ReplayProtocol) : Prop :=
  u32 (PacketHead p) ∧ u8 (CommandType p) ∧ u32 (StartTime p) ∧ u32 (EndTime p) ∧ u8 (Speed p).
Definition Sea_wf (s : SeaCommunication) : Prop :=
  u32 (sea_PacketHead s) ∧ u32 (sea_PayloadSize s) ∧ u16 (sea_ChunkNum s) ∧ u16 (sea_ChunkID s) ∧
  u32 (sea_DataTime s) ∧ u32 (sea_Longitude s) ∧ u32 (sea_Latitude s) ∧
  u16 (sea_SystemID s) ∧ u16 (sea_DataType s).

(** The field offsets used above are those of the C layout rules. *)
Lemma layouts :
  layout false sea_sizes = ([0; 4; 8; 10; 12; 16; 20; 24; 26]%nat, 28%nat) ∧
  layout false bd_sizes = ([0; 2; 4]%nat, 6%nat) ∧
  layout true replay_sizes = ([0; 4; 5; 9; 13]%nat, 14%nat).
Proof. done. Qed.

Lemma Replay_unpack b :
  [PacketHead (Replay_of b); CommandType (Replay_of b); StartTime (Replay_of b);
   EndTime (Replay_of b); Speed (Replay_of b)] = unpack replay_sizes b.
Proof. unfold replay_sizes. cbn [unpack]. by rewrite !drop_drop. Qed.
Lemma Sea_unpack b :
  [sea_PacketHead (Sea_of b); sea_PayloadSize (Sea_of b); sea_ChunkNum (Sea_of b);
   sea_ChunkID (Sea_of b); sea_DataTime (Sea_of b); sea_Longitude (Sea_of b);
   sea_Latitude (Sea_of b); sea_SystemID (Sea_of b); sea_DataType (Sea_of b)] = unpack sea_sizes b.
Proof. unfold sea_sizes. cbn [unpack]. by rewrite !drop_drop. Qed.
Lemma BD_unpack b :
  [bd_PacketHead (BD_of b); field b 1 1; bd_SystemID (BD_of b); bd_DataType (BD_of b)] =
  unpack [1; 1; 2; 2]%nat b.
Proof. cbn [unpack]. by rewrite !drop_drop. Qed.

(** A playback command survives the trip through its 14-byte packed image,
    and every 14-byte image is the image of the command read from it. *)
Theorem replay_roundtrip p b :
  Replay_wf p → bytes_ok b → length b = sizeof_Replay →
  Replay_of (Replay_image p) = p ∧ length (Replay_image p) = sizeof_Replay ∧
  Replay_image (Replay_of b) = b ∧ Replay_wf (Replay_of b).
Proof.
  intros (H1 & H2 & H3 & H4 & H5) Hb Hl. split; [|split; [by apply pack_length|split]].
  - pose proof (Replay_unpack (Replay_image p)) as E.
    unfold Replay_image in E at 6. rewrite unpack_pack in E by (repeat (apply Forall2_cons; split; [assumption|]); constructor).
    destruct p, (Replay_of _). cbn [PacketHead CommandType StartTime EndTime Speed] in E. congruence.
  - unfold Replay_image. rewrite Replay_unpack. by apply pack_unpack.
  - pose proof (unpack_range replay_sizes b Hb (eq_sym Hl)) as Hr. rewrite <-Replay_unpack in Hr.
    unfold replay_sizes in Hr. rewrite !Forall2_cons in Hr.
    destruct Hr as (? & ? & ? & ? & ? & _). done.
Qed.

(** The image of a sea header is 28 bytes, one of a BD header is 6 bytes
    whatever the alignment byte, and reading an image back gives the header. *)
Theorem comm_headers_roundtrip s pad h :
  Sea_wf s → u8 pad → u8 (bd_PacketHead h) → u16 (bd_SystemID h) → u16 (bd_DataType h) →
  Sea_of (Sea_image s) = s ∧ length (Sea_image s) = sizeof_Sea ∧
  BD_of (BD_image pad h) = h ∧ length (BD_image pad h) = sizeof_BD.
Proof.
  intros (H1 & H2 & H3 & H4 & H5 & H6 & H7 & H8 & H9) Hp Hh1 Hh2 Hh3.
  split; [|split; [by apply pack_length|split; [|by apply pack_length]]].
  - pose proof (Sea_unpack (Sea_image s)) as E.
    unfold Sea_image in E at 10. rewrite unpack_pack in E by (repeat (apply Forall2_cons; split; [assumption|]); constructor).
    destruct s as [], (Sea_of _) as []. cbn in *. congruence.
  - pose proof (BD_unpack (BD_image pad h)) as E.
    unfold BD_image in E at 5. rewrite unpack_pack in E by (repeat (apply Forall2_cons; split; [assumption|]); constructor).
    destruct h as [], (BD_of _) as []. cbn in *. congruence.
Qed.

(** A packet is forwarded exactly when it starts with four bytes 0x66 or
    with the byte 0xEB, and is a playback command exactly when it starts with
    four bytes 0x88; a shorter packet is never taken for a longer header. *)
Theorem packet_kind_spec data :
  bytes_ok data →
  (packet_kind data = KDistribute ↔
     [0x66; 0x66; 0x66; 0x66] `prefix_of` data ∨ [0xEB] `prefix_of` data) ∧
  (packet_kind data = KPlayback ↔ [0x88; 0x88; 0x88; 0x88] `prefix_of` data).
Proof.
  intros Hd. rewrite packet_kind_eq by done.
  assert (∀ x p, x ≠ 0x88 → x :: p `prefix_of` data → ¬ [0x88; 0x88; 0x88; 0x88] `prefix_of` data) as Hx.
  { intros x p Hne [r ->] [r' [=]]. done. }
  pose proof (Hx 0x66 [0x66; 0x66; 0x66] ltac:(done)). pose proof (Hx 0xEB [] ltac:(done)).
  do 3 case_bool_decide; cbn [orb]; split; split; (done || tauto).
Qed.

(** ** Witnesses *)

Definition sample_replay : ReplayProtocol := mkReplay PLAYBACKHEADER PLAYBACK_START 1667750400 1667754000 5.

Lemma replay_roundtrip_witness :
  Replay_of (Replay_image sample_replay) = sample_replay ∧
  Replay_image (Replay_of (zeros 14)) = zeros 14.
Proof.
  destruct (replay_roundtrip sample_replay (zeros 14)) as (H1 & _ & H2 & _).
  - vm_compute. intuition discriminate.
  - by apply Forall_replicate.
  - reflexivity.
  - split; assumption.
Defined.

Lemma comm_headers_roundtrip_witness :
  Sea_of (Sea_image (mkSea SEACOMMHEADER 28 1 0 1667750400 0x42F00000 0x41F00000 7 3)) =
    mkSea SEACOMMHEADER 28 1 0 1667750400 0x42F00000 0x41F00000 7 3 ∧
  BD_of (BD_image 170 (mkBD BDCOMMHEADER 7 3)) = mkBD BDCOMMHEADER 7 3.
Proof.
  destruct (comm_headers_roundtrip (mkSea SEACOMMHEADER 28 1 0 1667750400 0x42F00000 0x41F00000 7 3)
    170 (mkBD BDCOMMHEADER 7 3)) as (H1 & _ & H2 & _).
  1-5: vm_compute; intuition discriminate.
  split; assumption.
Defined.

Lemma packet_kind_spec_witness :
  packet_kind [0xEB; 0x90] = KDistribute ∧ packet_kind (Replay_image sample_replay) = KPlayback.
Proof.
  split.
  - apply (packet_kind_spec [0xEB; 0x90]); [repeat constructor; vm_compute; congruence|].
    right. by exists [0x90].
  - apply (packet_kind_spec (Replay_image sample_replay));
      [repeat constructor; vm_compute; congruence|].
    by exists (drop 4 (Replay_image sample_replay)).
Defined.
