(* ===== verification/RecordData.v ===== *)
(** * recordData.c: where a forwarded packet is recorded

    [initDataRecord] reads the data directory from engine.conf, makes the
    directory of the day when it is missing, numbers the packet with the global
    [uuid] (0 to 999) and opens [<data-path>/<yyyymmdd>/<seconds>_<uuid>.data].

    The theorems: the exact file opened and the new [uuid] for a known and for a
    new day, the error returns, that [uuid] stays below 1000 on every path, and
    that a file name determines its second and number. *)

From S2P Require Import Prelude CString Machine ConfigFile Log.

(** ** Operations *)

Section Ops.
Context `{Env, !Logger}.

(** [void GetDirName (char *date)] *)
Definition GetDirName (date : list Z) : IO (list Z) :=
  timer ← time;
  lift (strftime date 11 (lit "%Y%m%d") (env_localtime timer)).

(** The directory of the day, as [CreateDataDir] and playback.c
    [myscandirServe] compute it: [<data-path>/<yyyymmdd>] in an array of 512. *)
Definition day_dir (path : list Z) : IO (list Z) :=
  ci ← read_config path;
  dp ← getInfo_ConfigFile (lit "data-path") ci.1 ci.2;
  value ← lift (strcpy_ptr (zeros 512) dp);
  data ← GetDirName (zeros 50);
  value ← lift (strcat value (lit "/" ++ [0]));
  lift (strcat value data).

(** [static unsigned int CreateDataDir (char *path)]: the result and the new
    contents of [path]. *)
Definition CreateDataDir (path : list Z) : IO (Z * list Z) :=
  s ← lift (cstr path);
  value ← day_dir s;
  dir ← lift (cstr value);
  let finish : IO (Z * list Z) :=
    path ← lift (memset path 0 512);
    len ← lift (strlen value);
    path ← lift (memcpy path 0 value (Z.to_nat len));
    mret (EXIT_SUCCESS_CODE, path) in
  a ← access dir;
  if a =? 0 then
    modify (λ w, set_uuid (uint32 (w_uuid w + 1)) w) ;; finish
  else
    ret ← mkdir dir;
    if negb (ret =? 0) then
      e ← strerror_errno;
      LogWrite ERROR (lit "%d %s :%s") [AInt 36; AStr (lit "mkdir failed"); AStr e] ;;
      mret (uint32 EXIT_FAIL_CODE, path)
    else modify (set_uuid 0) ;; finish.

(** [sprintf (charValue, "%d_%03d", timestamp, uuid)] with unsigned arguments *)
Definition name_text (timestamp uuid : Z) : list Z :=
  show_int (int32 timestamp) ++ lit "_" ++ show_pad 3 (int32 uuid).

(** [static void CreateDataFile (char *path)] *)
Definition CreateDataFile (path : list Z) : IO (list Z) :=
  t ← time;
  t ← time;
  let timestamp := uint32 t in
  modify (λ w, if 999 <? w_uuid w then set_uuid 0 w else w) ;;
  path ← lift (strcat path (lit "/" ++ [0]));
  uuid ← gets w_uuid;
  charValue ← lift (blit (zeros 512) 0 (name_text timestamp uuid ++ [0]));
  path ← lift (strcat path charValue);
  lift (strcat path (lit ".data" ++ [0])).

(** The second half of [initDataRecord]: create and open the file. *)
Definition openDataFile (path : list Z) : IO (option Machine.path) :=
  path ← CreateDataFile path;
  name ← lift (cstr path);
  fp ← open_write true name;
  match fp with
  | None =>
      e ← strerror_errno;
      LogWrite ERROR (lit "%d %s :%s") [AInt 83; AStr (lit "fopen failed"); AStr e] ;;
      mret None
  | Some p => mret (Some p)
  end.

(** [FILE *initDataRecord (FILE *fp)]: the open file, or NULL. *)
Definition initDataRecord : IO (option path) :=
  path ← config_path;
  s ← lift (cstr path);
  a ← access s;
  if a =? 0 then
    r ← CreateDataDir path;
    if r.1 =? uint32 EXIT_FAIL_CODE then
      LogWrite ERROR (lit "%d %s") [AInt 71; AStr (lit "CreateDataDir failed")] ;;
      mret None
    else openDataFile r.2
  else
    e ← strerror_errno;
    LogWrite ERROR (lit "%d %s :%s") [AInt 75; AStr (lit "data directory create failed"); AStr e] ;;
    mret None.

End Ops.

(** ** Reference definitions *)

(** The recorded file of second [ts] and number [u]. *)
Definition data_name (ts u : Z) : list Z := name_text ts u ++ lit ".data".

(** The next packet number: [uuid] counts modulo 1000. *)
Definition next_uuid (u : Z) : Z := if u =? 999 then 0 else u + 1.

(** The configuration names the data directory [dp]. *)
Definition data_conf (w : World) (dp : list Z) : Prop :=
  (∃ data, w_files w !! path_of w (conf_file w) = Some data ∧ conf_ok data ∧
     assoc (lit "data-path") (entries data) = Some dp) ∧
  nz (w_cwd w) ∧ (length (w_cwd w) < 500)%nat.

(** ** Names *)

Lemma show_int_length z : - 2 ^ 31 ≤ z < 2 ^ 31 → (length (show_int z) ≤ 11)%nat ∧ nz (show_int z).
Proof.
  intros Hz. split; [|apply str_ok_nz, show_int_str_ok; lia]. unfold show_int.
  destruct (Z.ltb_spec z 0).
  - pose proof (show_nat_length (- z) 10 ltac:(simpl; lia) ltac:(lia)) as [[??] _]. cbn [length]. lia.
  - pose proof (show_nat_length z 10 ltac:(simpl; lia) ltac:(lia)) as [[??] _]. lia.
Qed.

Lemma show_pad3 z : 0 ≤ z ≤ 999 → length (show_pad 3 z) = 3%nat ∧ all_digits (show_pad 3 z).
Proof.
  intros Hz. unfold show_pad. rewrite Z.abs_eq by lia. destruct (Z.ltb_spec z 0); [lia|].
  pose proof (show_nat_length z 3 ltac:(simpl; lia) ltac:(lia)) as [[??] _].
  destruct (show_nat_spec z) as (Hd & _ & _); [lia|].
  split; [len|]. apply Forall_app; split; [|done]. apply Forall_replicate. by vm_compute.
Qed.

Lemma name_text_ok ts u :
  0 ≤ u ≤ 999 → nz (name_text ts u) ∧ (length (name_text ts u) ≤ 15)%nat.
Proof.
  intros Hu. unfold name_text. rewrite (int32_small u) by lia.
  destruct (show_int_length (int32 ts)) as [Hl Hz]; [apply int32_range|].
  destruct (show_pad3 u) as [Hl' Hd]; [lia|]. split.
  - apply Forall_app; split; [assumption|]. apply Forall_app; split; [nz_lit|].
    by apply str_ok_nz, digits_str_ok.
  - rewrite !length_app, Hl'. change (length (lit "_")) with 1%nat. lia.
Qed.

Lemma show_pad3_inj a b :
  0 ≤ a ≤ 999 → 0 ≤ b ≤ 999 → show_pad 3 a = show_pad 3 b → a = b.
Proof.
  intros Ha Hb. unfold show_pad. rewrite !Z.abs_eq by lia.
  destruct (Z.ltb_spec a 0), (Z.ltb_spec b 0); [lia..|]. intros E.
  assert (∀ z, 0 ≤ z ≤ 999 →
    foldl (λ a x, a * 10 + (x - 48)) 0 (replicate (3 - length (show_nat z)) (chr "0") ++ show_nat z) = z)
    as Hv.
  { intros z Hz. destruct (show_nat_spec z) as (_ & _ & Hz'); [lia|].
    rewrite foldl_app. rewrite <-Hz' at 3. f_equal.
    generalize (3 - length (show_nat z))%nat as k. induction k as [|k IH]; [done|]. exact IH. }
  rewrite <-(Hv a Ha), <-(Hv b Hb). by rewrite E.
Qed.

(** ** Lemmas on the operations *)

Section Lemmas.
Context `{Env, !Calendar}.

Lemma GetDirName_spec n w :
  (11 ≤ n)%nat →
  GetDirName (zeros n) w =
  Ret (pad_to n (daydir_text (env_localtime (env_clock (w_nsys w))))) (set_nsys (S (w_nsys w)) w).
Proof.
  intros Hn. unfold GetDirName. autorewrite with io.
  pose proof (daydir_text_ok _ (cal_ok (w_nsys w))) as [Hl _].
  rewrite strftime_zeros; rewrite ?strftime_daydir; [done|lia|done].
Qed.

(** The directory of the present day. *)
Definition today (dp : list Z) (w : World) : list Z :=
  dp ++ lit "/" ++ daydir_text (env_localtime (env_clock (w_nsys w))).

Lemma data_conf_path w dp : data_conf w dp → nz dp ∧ (length dp < 128)%nat.
Proof. intros [(data & _ & Hok & Hdp) _]. by apply (assoc_value _ _ _ Hok) in Hdp. Qed.

Lemma today_ok dp w : nz dp → nz (today dp w) ∧ length (today dp w) = (length dp + 9)%nat.
Proof.
  intros Hz. destruct (daydir_text_ok _ (cal_ok (w_nsys w))) as [Hl Hd%digits_str_ok%str_ok_nz].
  unfold today. split.
  - apply Forall_app; split; [assumption|]. apply Forall_app; split; [nz_lit|assumption].
  - rewrite !length_app, Hl. cbn. lia.
Qed.

Lemma day_dir_spec w dp :
  data_conf w dp →
  day_dir (conf_file w) w = Ret (pad_to 512 (today dp w)) (set_nsys (S (w_nsys w)) w).
Proof.
  intros Hd. destruct (data_conf_path w dp Hd) as [Hz Hl].
  destruct Hd as [(data & Hf & Hc & Hdp) _]. unfold day_dir.
  rewrite (bind_Ret _ _ _ _ _ (read_config_ok _ w data Hf Hc)). cbn [fst snd].
  rewrite (bind_Ret _ _ _ _ _ (getInfo_ok (lit "data-path") data w Hc ltac:(nz_lit))), Hdp.
  cbn [fmap option_fmap option_map strcpy_ptr].
  rewrite (strcpy_zeros 512 _ dp); [|by apply cstr_pad|lia]. autorewrite with io.
  rewrite (bind_Ret _ _ _ _ _ (GetDirName_spec 50 w ltac:(lia))).
  destruct (daydir_text_ok _ (cal_ok (w_nsys w))) as [Htl Htz%digits_str_ok%str_ok_nz].
  rewrite (strcat_pad 512 _ _ (lit "/")); [|done|reflexivity|cbn; lia]. autorewrite with io.
  rewrite (strcat_pad 512 _ _ (daydir_text (env_localtime (env_clock (w_nsys w))))).
  - unfold today. by rewrite <-app_assoc.
  - apply Forall_app; split; [assumption|nz_lit].
  - apply cstr_pad; [assumption|lia].
  - rewrite length_app, Htl. cbn. lia.
Qed.

Context `{!Logger}.

Lemma CreateDataDir_finish w dir (path : list Z) :
  nz dir → (length dir < 512)%nat → length path = 512%nat →
  ((path ← lift (memset path 0 512);
    len ← lift (strlen (pad_to 512 dir));
    path ← lift (memcpy path 0 (pad_to 512 dir) (Z.to_nat len));
    mret (EXIT_SUCCESS_CODE, path)) : IO (Z * list Z)) w = Ret (0, pad_to 512 dir) w.
Proof.
  intros Hz Hl Hp. rewrite memset_zero by done. autorewrite with io.
  rewrite strlen_pad by done. autorewrite with io. rewrite Nat2Z.id.
  rewrite <-pad_to_nil, memcpy_pad by (cbn; lia). done.
Qed.

(** [CreateDataDir] by cases: the day is known, is new, or cannot be made. *)
Lemma CreateDataDir_spec w dp :
  data_conf w dp →
  let w1 := set_nsys (S (w_nsys w)) w in
  let w2 := set_errno ENOENT w1 in
  CreateDataDir (pad_to 512 (conf_file w)) w =
  if path_exists w (path_of w (today dp w)) then
    Ret (0, pad_to 512 (today dp w)) (set_uuid (uint32 (w_uuid w + 1)) w1)
  else if mkdir_ok w1 (today dp w) then
    Ret (0, pad_to 512 (today dp w))
        (set_uuid 0 (set_dirs ({[path_of w (today dp w)]} ∪ w_dirs w) (set_nsys (S (S (w_nsys w))) w2)))
  else
    (LogWrite ERROR (lit "%d %s :%s")
       [AInt 36; AStr (lit "mkdir failed"); AStr (env_strerror (mkdir_errno w1 (today dp w)))] ;;
     mret (uint32 EXIT_FAIL_CODE, pad_to 512 (conf_file w)))
      (set_errno (mkdir_errno w1 (today dp w)) (set_nsys (S (S (w_nsys w))) w2)).
Proof.
  intros Hd w1 w2. destruct (data_conf_path w dp Hd) as [Hz Hl].
  destruct (today_ok dp w Hz) as [Htz Htl]. pose proof Hd as (_ & Hcz & Hcl).
  unfold CreateDataDir. rewrite cstr_pad; [|by apply conf_file_nz|rewrite conf_file_length; lia].
  rewrite bind_lift_Ok. rewrite (bind_Ret _ _ _ _ _ (day_dir_spec w dp Hd)).
  rewrite cstr_pad by first [assumption|lia]. rewrite bind_lift_Ok.
  unfold mbind at 1, M_bind at 1. rewrite access_eq.
  change (path_exists _ (path_of _ _)) with (path_exists w (path_of w (today dp w))).
  assert (length (pad_to 512 (conf_file w)) = 512%nat) as Hlen
    by (apply pad_to_length; rewrite conf_file_length; lia).
  destruct (path_exists w (path_of w (today dp w))); cbn [Z.eqb].
  - rewrite bind_modify. rewrite (CreateDataDir_finish _ (today dp w)) by first [assumption|lia]. done.
  - unfold mbind at 1, M_bind at 1. rewrite mkdir_eq.
    change (mkdir_ok _ _) with (mkdir_ok w1 (today dp w)).
    destruct (mkdir_ok w1 (today dp w)); [|done]. cbn [Z.eqb negb].
    rewrite bind_modify. rewrite (CreateDataDir_finish _ (today dp w)) by first [assumption|lia]. done.
Qed.

(** The number [CreateDataFile] uses. *)
Definition clamp_uuid (u : Z) : Z := if 999 <? u then 0 else u.

Lemma CreateDataFile_spec w dir :
  nz dir → (length dir < 400)%nat → 0 ≤ w_uuid w →
  CreateDataFile (pad_to 512 dir) w =
  Ret (pad_to 512 (dir ++ lit "/" ++
         data_name (uint32 (env_clock (S (w_nsys w)))) (clamp_uuid (w_uuid w))))
      (set_uuid (clamp_uuid (w_uuid w)) (set_nsys (S (S (w_nsys w))) w)).
Proof.
  intros Hz Hl Hu. unfold CreateDataFile. autorewrite with io.
  match goal with |- (lift _ ≫= _) ?st = _ => assert (st =
    set_uuid (clamp_uuid (w_uuid w)) (set_nsys (S (S (w_nsys w))) w)) as -> end.
  { unfold clamp_uuid. cbn [w_uuid set_nsys]. destruct (999 <? w_uuid w); [done|]. by destruct w. }
  assert (0 ≤ clamp_uuid (w_uuid w) ≤ 999) as Hc by (unfold clamp_uuid; bcase; lia).
  set (ts := uint32 _). destruct (name_text_ok ts (clamp_uuid (w_uuid w)) Hc) as [Hnz Hnl].
  rewrite (strcat_pad 512 _ _ (lit "/")); [|done|reflexivity|cbn; lia]. autorewrite with io.
  cbn [w_uuid set_uuid]. set (nm := name_text ts _) in *.
  assert (blit (zeros 512) 0 (nm ++ [0]) = Ok (pad_to 512 nm)) as ->.
  { pose proof (strcpy_zeros 512 (nm ++ [0]) nm (cstr_app_ne _ _ Hnz) ltac:(lia)) as Hs.
    unfold strcpy, strcpy_at in Hs. by rewrite cstr_app_ne in Hs. }
  autorewrite with io.
  assert (nz (dir ++ lit "/")) by (apply Forall_app; split; [assumption|nz_lit]).
  rewrite (strcat_pad 512 _ _ nm); [|assumption|apply cstr_pad; [assumption|lia]|rewrite length_app; cbn; lia].
  autorewrite with io. rewrite (strcat_pad 512 _ _ (lit ".data")).
  - unfold data_name. fold ts. fold nm. by rewrite <-!app_assoc.
  - by apply Forall_app.
  - reflexivity.
  - rewrite !length_app. cbn. lia.
Qed.

(** The file a packet recorded in state [w] with number [u] goes to, when the
    time is read at the system calls [n] and later. *)
Definition record_name (dir : list Z) (n : nat) (u : Z) : list Z :=
  dir ++ lit "/" ++ data_name (uint32 (env_clock n)) u.

Lemma record_name_ok dir n u :
  nz dir → 0 ≤ u ≤ 999 →
  nz (record_name dir n u) ∧ (length (record_name dir n u) ≤ length dir + 21)%nat.
Proof.
  intros Hz Hu. destruct (name_text_ok (uint32 (env_clock n)) u Hu) as [Hnz Hnl].
  unfold record_name, data_name. split.
  - apply Forall_app; split; [assumption|]. apply Forall_app; split; [nz_lit|].
    apply Forall_app; split; [assumption|nz_lit].
  - rewrite !length_app. change (length (lit "/")) with 1%nat. change (length (lit ".data")) with 5%nat. lia.
Qed.

Lemma openDataFile_spec w dir :
  nz dir → (length dir < 400)%nat → 0 ≤ w_uuid w →
  let u := clamp_uuid (w_uuid w) in
  let name := record_name dir (S (w_nsys w)) u in
  let w1 := set_uuid u (set_nsys (S (S (w_nsys w))) w) in
  openDataFile (pad_to 512 dir) w =
  if open_ok w1 name then
    Ret (Some (path_of w name))
        (set_files (<[path_of w name := []]> (w_files w)) (set_nsys (S (S (S (w_nsys w)))) w1))
  else
    (LogWrite ERROR (lit "%d %s :%s")
       [AInt 83; AStr (lit "fopen failed"); AStr (env_strerror (open_errno w1))] ;;
     mret None) (set_errno (open_errno w1) (set_nsys (S (S (S (w_nsys w)))) w1)).
Proof.
  intros Hz Hl Hu u name w1. unfold openDataFile.
  rewrite (bind_Ret _ _ _ _ _ (CreateDataFile_spec w dir Hz Hl Hu)). fold u. fold w1.
  assert (0 ≤ u ≤ 999) as Hc by (unfold u, clamp_uuid; bcase; lia).
  destruct (record_name_ok dir (S (w_nsys w)) u Hz Hc) as [Hnz Hnl].
  change (dir ++ _) with name in *. fold name in Hnz, Hnl.
  rewrite cstr_pad by first [assumption|lia].
  rewrite bind_lift_Ok. unfold mbind at 1, M_bind at 1. rewrite open_write_eq.
  by destruct (open_ok w1 name).
Qed.

Lemma initDataRecord_unfold w dp :
  data_conf w dp →
  initDataRecord w =
  (r ← CreateDataDir (pad_to 512 (conf_file w));
   if r.1 =? uint32 EXIT_FAIL_CODE then
     LogWrite ERROR (lit "%d %s") [AInt 71; AStr (lit "CreateDataDir failed")] ;; mret None
   else openDataFile r.2) w.
Proof.
  intros [(data & Hf & _) [Hz Hl]]. unfold initDataRecord.
  rewrite (bind_Ret _ _ _ _ _ (config_path_spec w Hz Hl)).
  rewrite cstr_pad; [|by apply conf_file_nz|rewrite conf_file_length; lia]. rewrite bind_lift_Ok.
  by rewrite (bind_Ret _ _ _ _ _ (access_file _ _ _ Hf)).
Qed.

End Lemmas.

(** ** The promise to the forwarding code *)

(** A path whose last component ends in [.data]. *)
Definition is_data_file (p : path) : Prop :=
  ∃ d name, p = d ++ [name] ∧ ends_with (lit ".data") name.

(** What recording may do: one new empty data file, the day's directory, the
    packet number, and log lines. *)
Record record_frame `{Logger} (w : World) (r : option path) (w' : World) : Prop := {
  rf_uuid : 0 ≤ w_uuid w' ≤ 999;
  rf_cwd : w_cwd w' = w_cwd w;
  rf_tcp : w_tcp w' = w_tcp w;
  rf_acts : acts w' = acts w;
  rf_nsys : (w_nsys w ≤ w_nsys w')%nat;
  rf_dirs : w_dirs w ⊆ w_dirs w';
  rf_files : ∀ q, ¬ is_log_file q → r ≠ Some q → w_files w' !! q = w_files w !! q;
  rf_new : ∀ q, r = Some q → is_data_file q ∧ w_files w' !! q = Some [];
  rf_ready : log_ready w';
}.

Lemma data_name_plain ts u : 0 ≤ u ≤ 999 → plain_name (data_name ts u).
Proof.
  intros Hu. unfold data_name, name_text. rewrite (int32_small u) by lia.
  destruct (show_pad3 u Hu) as [Hl Hd]. split; [|split; [|split]].
  2-4: intros E; apply (f_equal length) in E; rewrite !length_app, Hl in E; cbn in E; lia.
  assert (∀ d, all_digits d → chr "/" ∉ d) as Hdig.
  { intros d Hd' Hi. eapply Forall_forall in Hd'; [|exact Hi]. change (chr "/") with 47 in Hd'. lia. }
  intros Hin. rewrite !elem_of_app in Hin. destruct Hin as [[Hin|[Hin|Hin]]|Hin].
  - pose proof (int32_range ts). revert Hin. unfold show_int. bcase.
    + intros [E|Hin]%elem_of_cons; [discriminate E|].
      eapply Hdig; [|exact Hin]. apply show_nat_spec. lia.
    + apply Hdig, show_nat_spec. lia.
  - revert Hin. by_decide.
  - by apply (Hdig _ Hd).
  - revert Hin. by_decide.
Qed.

Lemma record_path_data `{Env} w dir n u :
  0 ≤ u ≤ 999 → ∃ d, path_of w (record_name dir n u) = d ++ [data_name (uint32 (env_clock n)) u].
Proof. intros Hu. apply resolve_last. by apply data_name_plain. Qed.

(** Data files are neither log files nor the configuration. *)
Lemma data_not_log p : is_data_file p → ¬ is_log_file p.
Proof.
  intros (d & n & -> & [x ->]) (d' & n' & E & [y ->]). apply app_inj_tail in E as [_ E].
  apply (f_equal (λ l, last l)) in E. rewrite !last_app in E. by vm_compute in E.
Qed.
Lemma conf_path_last w : ∃ d, path_of w (conf_file w) = d ++ [lit "engine.conf"].
Proof. apply resolve_last. split; [by_decide|done]. Qed.
Lemma data_not_conf p w : is_data_file p → p ≠ path_of w (conf_file w).
Proof.
  intros (d & n & -> & [x ->]) E. destruct (conf_path_last w) as [d' Hd']. rewrite Hd' in E.
  apply app_inj_tail in E as [_ E].
  apply (f_equal (λ l, last l)) in E. rewrite last_app in E. by vm_compute in E.
Qed.

Section Frame.
Context `{Env, !Calendar, !Logger}.

(** A file opened for recording leaves the logger ready. *)
Lemma ready_new_file w w' p :
  log_ready w → is_data_file p → w_cwd w' = w_cwd w → w_logsetting w' = w_logsetting w →
  w_log_mutex w' = w_log_mutex w → w_files w' = <[p := []]> (w_files w) → log_ready w'.
Proof.
  intros Hr Hp Hc Hs Hm Hf. eapply log_ready_stable; [exact Hr|]. constructor; try done.
  rewrite Hf. apply lookup_insert_ne. by apply data_not_conf.
Qed.

(** The second half in any state reached by the first. *)
Lemma openDataFile_frame w0 w dir :
  nz dir → (length dir < 400)%nat → 0 ≤ w_uuid w → log_ready w →
  w_cwd w = w_cwd w0 → w_tcp w = w_tcp w0 → acts w = acts w0 → w_dirs w0 ⊆ w_dirs w →
  w_files w = w_files w0 → (w_nsys w0 ≤ w_nsys w)%nat →
  ∃ r w', openDataFile (pad_to 512 dir) w = Ret r w' ∧ record_frame w0 r w'.
Proof.
  intros Hz Hl Hu Hr Hc Ht Ha Hd Hf Hn. rewrite openDataFile_spec by done.
  set (u := clamp_uuid (w_uuid w)). set (w1 := set_uuid u _). set (name := record_name _ _ _).
  assert (0 ≤ u ≤ 999) as Hc' by (unfold u, clamp_uuid; bcase; lia).
  destruct (open_ok w1 name).
  - eexists _, _. split; [done|].
    assert (is_data_file (path_of w name)) as Hp.
    { destruct (record_path_data w dir (S (w_nsys w)) u Hc') as [d Hd'].
      exists d. eexists. split; [exact Hd'|]. by eexists. }
    constructor; cbn; try done.
    + lia.
    + intros q _ Hq. rewrite lookup_insert_ne by congruence. by rewrite Hf.
    + intros q [= <-]. split; [done|]. apply lookup_insert_eq.
    + by eapply (ready_new_file w).
  - set (w2 := set_errno _ _).
    assert (log_ready w2) as Hr2 by (eapply log_ready_stable; [exact Hr|]; by constructor).
    log_next Hr2 w3 Hfr Hr3. eexists _, _. split; [done|]. destruct Hfr. constructor; try done.
    + by rewrite lf_uuid.
    + by rewrite lf_cwd.
    + by rewrite lf_tcp.
    + by rewrite lf_acts.
    + etrans; [|exact lf_nsys]. cbn. lia.
    + by rewrite lf_dirs.
    + intros q Hq _. rewrite lf_files by done. cbn. by rewrite Hf.
Qed.

(** Recording always returns, with the promised frame. *)
Lemma initDataRecord_frame w dp :
  log_ready w → data_conf w dp → 0 ≤ w_uuid w ≤ 999 →
  ∃ r w', initDataRecord w = Ret r w' ∧ record_frame w r w'.
Proof.
  intros Hr Hd Hu. destruct (data_conf_path w dp Hd) as [Hz Hl].
  destruct (today_ok dp w Hz) as [Htz Htl].
  rewrite (initDataRecord_unfold w dp Hd). unfold mbind at 1, M_bind at 1.
  rewrite (CreateDataDir_spec w dp Hd).
  destruct (path_exists w (path_of w (today dp w))); [|destruct (mkdir_ok _ _)].
  - apply openDataFile_frame; try done; [lia|cbn; apply uint32_range| |cbn; lia].
    eapply log_ready_stable; [exact Hr|]. by constructor.
  - apply openDataFile_frame; try done; [lia|..]; [|cbn; set_solver|cbn; lia].
    eapply log_ready_stable; [exact Hr|]. by constructor.
  - set (w2 := set_errno (mkdir_errno _ _) _).
    assert (log_ready w2) as Hr2 by (eapply log_ready_stable; [exact Hr|]; by constructor).
    log_next Hr2 w3 Hf3 Hr3. cbn [mret M_ret fst]. change (uint32 EXIT_FAIL_CODE =? uint32 EXIT_FAIL_CODE) with true. cbv iota.
    log_next Hr3 w4 Hf4 Hr4. eexists _, _. split; [done|].
    assert (log_frame w w4) as [].
    { etrans; [|exact Hf4]. etrans; [|exact Hf3]. constructor; try done. cbn. lia. }
    constructor; try done.
    + by rewrite lf_uuid.
    + by rewrite lf_dirs.
    + intros q Hq _. by apply lf_files.
Qed.

(** ** Theorems *)

(** C20: on a day whose directory exists, [initDataRecord] opens (emptied)
    [<data-path>/<yyyymmdd>/<seconds>_<uuid>.data], where [uuid] is the old
    number plus one, 999 being followed by 0; nothing else changes. *)
Theorem initDataRecord_same_day w dp :
  data_conf w dp → 0 ≤ w_uuid w ≤ 999 →
  path_exists w (path_of w (today dp w)) = true →
  let u := next_uuid (w_uuid w) in
  let name := record_name (today dp w) (S (S (w_nsys w))) u in
  env_io_fail (S (S (S (w_nsys w)))) = None → can_create w (path_of w name) = true →
  initDataRecord w =
  Ret (Some (path_of w name))
      (set_files (<[path_of w name := []]> (w_files w))
        (set_uuid u (set_nsys (S (S (S (S (w_nsys w))))) w))).
Proof.
  intros Hd Hu He u name Hio Hcr. destruct (data_conf_path w dp Hd) as [Hz Hl].
  destruct (today_ok dp w Hz) as [Htz Htl].
  rewrite (initDataRecord_unfold w dp Hd). unfold mbind at 1, M_bind at 1.
  rewrite (CreateDataDir_spec w dp Hd), He. cbn [fst snd].
  change (0 =? uint32 EXIT_FAIL_CODE) with false. cbv iota.
  rewrite uint32_small by lia. rewrite openDataFile_spec by first [assumption|cbn; lia].
  assert (clamp_uuid (w_uuid w + 1) = u) as Ec.
  { unfold clamp_uuid, u, next_uuid. repeat bcase; lia. }
  cbn [w_uuid set_uuid set_nsys w_nsys]. rewrite Ec.
  change (record_name (today dp w) (S (S (w_nsys w))) u) with name.
  unfold open_ok. cbn [w_nsys set_uuid set_nsys]. rewrite Hio.
  change (can_create _ (path_of _ name)) with (can_create w (path_of w name)). by rewrite Hcr.
Qed.

(** When the day's directory is missing and can be made, [initDataRecord]
    makes it, restarts the numbering at 0 and opens the file number 0 in it. *)
Theorem initDataRecord_new_day w dp :
  data_conf w dp → path_exists w (path_of w (today dp w)) = false →
  can_create w (path_of w (today dp w)) = true →
  env_io_fail (S (w_nsys w)) = None → env_io_fail (S (S (S (S (w_nsys w))))) = None →
  let name := record_name (today dp w) (S (S (S (w_nsys w)))) 0 in
  let w1 := set_dirs ({[path_of w (today dp w)]} ∪ w_dirs w) w in
  can_create w1 (path_of w name) = true →
  ∃ w', initDataRecord w = Ret (Some (path_of w name)) w' ∧
    w_files w' = <[path_of w name := []]> (w_files w) ∧
    w_dirs w' = {[path_of w (today dp w)]} ∪ w_dirs w ∧ w_uuid w' = 0.
Proof.
  intros Hd He Hcr Hio Hio2 name w1 Hcr2. destruct (data_conf_path w dp Hd) as [Hz Hl].
  destruct (today_ok dp w Hz) as [Htz Htl].
  rewrite (initDataRecord_unfold w dp Hd). unfold mbind at 1, M_bind at 1.
  rewrite (CreateDataDir_spec w dp Hd), He. unfold mkdir_ok. cbn [w_nsys set_nsys]. rewrite Hio.
  change (path_exists _ (path_of _ (today dp w))) with (path_exists w (path_of w (today dp w))).
  change (can_create _ (path_of _ (today dp w))) with (can_create w (path_of w (today dp w))).
  rewrite He, Hcr. cbn [negb andb fst snd]. change (0 =? uint32 EXIT_FAIL_CODE) with false. cbv iota.
  rewrite openDataFile_spec by first [assumption|cbn; lia].
  unfold open_ok. cbn [w_uuid set_uuid set_dirs set_errno set_nsys w_nsys]. rewrite Hio2.
  change (clamp_uuid 0) with 0.
  change (record_name (today dp w) (S (S (S (w_nsys w)))) 0) with name.
  change (can_create _ (path_of _ name)) with (can_create w1 (path_of w name)). rewrite Hcr2.
  eexists. split; [reflexivity|]. done.
Qed.

(** Whatever file operations the system refuses, [initDataRecord] returns:
    NULL with nothing changed but log lines and directories, or one new empty
    data file; the packet number stays in 0..999 and the logger stays usable. *)
Theorem initDataRecord_total w dp :
  log_ready w → data_conf w dp → 0 ≤ w_uuid w ≤ 999 →
  ∃ r w', initDataRecord w = Ret r w' ∧ record_frame w r w'.
Proof. apply initDataRecord_frame. Qed.

(** Without engine.conf nothing is recorded: [initDataRecord] returns NULL
    and changes only log files. *)
Theorem initDataRecord_no_conf w :
  log_ready w → nz (w_cwd w) → (length (w_cwd w) < 500)%nat →
  path_exists w (path_of w (conf_file w)) = false →
  ∃ w', initDataRecord w = Ret None w' ∧ log_frame w w'.
Proof.
  intros Hr Hz Hl He. unfold initDataRecord.
  rewrite (bind_Ret _ _ _ _ _ (config_path_spec w Hz Hl)).
  rewrite cstr_pad; [|by apply conf_file_nz|rewrite conf_file_length; lia]. rewrite bind_lift_Ok.
  unfold mbind at 1, M_bind at 1. rewrite access_eq, He.
  change (-1 =? 0) with false. cbv iota. unfold strerror_errno. autorewrite with io.
  set (w2 := set_errno _ _).
  assert (log_ready w2) as Hr2 by (eapply log_ready_stable; [exact Hr|]; by constructor).
  log_next Hr2 w3 Hf3 Hr3. eexists. split; [done|]. etrans; [|exact Hf3]. by constructor.
Qed.

End Frame.

(** The name of a recorded file determines its second and its number. *)
Lemma data_name_inj ts u ts' u' :
  0 ≤ ts < 2 ^ 32 → 0 ≤ ts' < 2 ^ 32 → 0 ≤ u ≤ 999 → 0 ≤ u' ≤ 999 →
  data_name ts u = data_name ts' u' → ts = ts' ∧ u = u'.
Proof.
  intros Ht Ht' Hu Hu' E. unfold data_name, name_text in E.
  rewrite !(int32_small u), !(int32_small u') in E by lia.
  apply app_inv_tail in E. rewrite !app_assoc in E.
  destruct (show_pad3 u Hu) as [Hl _], (show_pad3 u' Hu') as [Hl' _].
  apply app_inj_2 in E as [E1 E2]; [|by rewrite Hl, Hl'].
  apply app_inj_tail in E1 as [E1 _].
  apply show_int_inj in E1; [|apply int32_range..]. split; [|by apply show_pad3_inj].
  unfold int32 in E1. Z.div_mod_to_equations. lia.
Qed.

Lemma iter_next_uuid k u : 0 ≤ u ≤ 999 → Nat.iter k next_uuid u = (u + Z.of_nat k) `mod` 1000.
Proof.
  intros Hu. induction k as [|k IH]; rewrite ?Nat.iter_succ.
  - simpl. rewrite Z.mod_small; lia.
  - rewrite IH. unfold next_uuid. bcase; Z.div_mod_to_equations; lia.
Qed.

(** Packets of one second get distinct files as long as fewer than 1000
    are recorded: the [i]-th and the [j]-th next packet share a name exactly
    when 1000 divides [j - i]. *)
Theorem record_names_period ts u i j :
  0 ≤ ts < 2 ^ 32 → 0 ≤ u ≤ 999 → (i ≤ j)%nat →
  data_name ts (Nat.iter i next_uuid u) = data_name ts (Nat.iter j next_uuid u) ↔
  (1000 | Z.of_nat j - Z.of_nat i).
Proof.
  intros Ht Hu Hij. rewrite !iter_next_uuid by done. split.
  - intros [_ E]%data_name_inj; [|Z.div_mod_to_equations; lia..].
    exists ((u + Z.of_nat j) / 1000 - (u + Z.of_nat i) / 1000). Z.div_mod_to_equations. lia.
  - intros [q Hq]. replace (u + Z.of_nat j) with (u + Z.of_nat i + q * 1000) by lia.
    rewrite Z.mod_add by lia. reflexivity.
Qed.

(** ** Witnesses *)

(** A configured process with a data directory and these day directories. *)
Definition record_world (days : gset path) (u : Z) : World :=
  set_uuid u (boot {[ [lit "srv"; lit "engine.conf"] :=
          render [Entry (lit "log-path") (lit "./log"); Entry (lit "log-level") (lit "ALL");
                  Entry (lit "data-path") (lit "./data")] ]}
       ({[ []; [lit "srv"]; [lit "srv"; lit "log"]; [lit "srv"; lit "data"] ]} ∪ days)).
Definition day_20221106 : path := [lit "srv"; lit "data"; lit "20221106"].

Lemma record_world_conf days u : data_conf (record_world days u) (lit "./data").
Proof.
  split; [|split; [by_decide|vm_compute; lia]].
  eexists. split; [vm_compute; reflexivity|]. split; [unfold conf_ok; by_decide|vm_compute; reflexivity].
Qed.

Lemma record_world_ready days u : @log_ready sample_env log_c (record_world days u).
Proof.
  split; [done|]. exists (lit "./log"), (lit "ALL").
  split; [|split; [by_decide|split; [vm_compute; lia|]]].
  - eexists. split; [vm_compute; reflexivity|].
    split; [unfold conf_ok; by_decide|split; vm_compute; reflexivity].
  - exists []. split; [vm_compute; reflexivity|split; [constructor|cbn; lia]].
Qed.

Lemma initDataRecord_same_day_witness :
  ∃ w', initDataRecord (H := sample_env) (record_world {[day_20221106]} 999) =
    Ret (Some (day_20221106 ++ [lit "1667750402_000.data"])) w' ∧ w_uuid w' = 0.
Proof.
  eexists. split; [rewrite (initDataRecord_same_day (H := sample_env) (record_world {[day_20221106]} 999) (lit "./data"))|].
  - match goal with |- Ret (Some ?p) _ = _ => replace p with (day_20221106 ++ [lit "1667750402_000.data"])
      by (vm_compute; reflexivity) end. reflexivity.
  - apply record_world_conf.
  - vm_compute. split; discriminate.
  - vm_compute. reflexivity.
  - reflexivity.
  - vm_compute. reflexivity.
  - reflexivity.
Defined.

Lemma initDataRecord_new_day_witness :
  ∃ w', initDataRecord (H := sample_env) (record_world ∅ 17) =
    Ret (Some (day_20221106 ++ [lit "1667750403_000.data"])) w' ∧ w_uuid w' = 0.
Proof.
  destruct (initDataRecord_new_day (H := sample_env) (record_world ∅ 17) (lit "./data"))
    as (w' & Hw & _ & _ & Hu).
  - apply record_world_conf.
  - vm_compute. reflexivity.
  - vm_compute. reflexivity.
  - reflexivity.
  - reflexivity.
  - vm_compute. reflexivity.
  - exists w'. split; [|exact Hu]. etransitivity; [exact Hw|].
    match goal with |- Ret (Some ?p) _ = _ => replace p with (day_20221106 ++ [lit "1667750403_000.data"])
      by (vm_compute; reflexivity) end. reflexivity.
Defined.

Lemma initDataRecord_total_witness :
  ∃ r w', initDataRecord (H := sample_env) (record_world ∅ 17) = Ret r w' ∧ 0 ≤ w_uuid w' ≤ 999.
Proof.
  destruct (initDataRecord_total (H := sample_env) (record_world ∅ 17) (lit "./data"))
    as (r & w' & Hw & Hf).
  - apply record_world_ready.
  - apply record_world_conf.
  - vm_compute. split; discriminate.
  - exists r, w'. split; [exact Hw|apply Hf].
Defined.

Lemma initDataRecord_no_conf_witness :
  ∃ w', initDataRecord (H := sample_env) (H0 := @silent_logger sample_env) (boot ∅ {[ [] ]}) = Ret None w' ∧
    w_files w' !! [lit "srv"; lit "data"] = None.
Proof.
  destruct (initDataRecord_no_conf (H := sample_env) (H1 := @silent_logger sample_env) (boot ∅ {[ [] ]}))
    as (w' & Hw & Hf).
  - exact I.
  - by_decide.
  - vm_compute. lia.
  - vm_compute. reflexivity.
  - exists w'. split; [exact Hw|]. rewrite (lf_files _ _ Hf); [reflexivity|].
    intros (d & n & E & [x ->]).
    apply (app_inj_tail [lit "srv"] d) in E as [_ E].
    apply (f_equal (λ l, last l)) in E. rewrite last_app in E. vm_compute in E. discriminate E.
Defined.

Lemma record_names_period_witness :
  data_name 1667750402 (Nat.iter 0 next_uuid 5) = data_name 1667750402 (Nat.iter 1000 next_uuid 5).
Proof.
  apply (record_names_period 1667750402 5 0 1000); [lia|lia|lia|]. exists 1. reflexivity.
Defined.
