(* ===== verification/Inet.v ===== *)
(** * glibc: Internet addresses as text and as words

    [inet_addr] (resolv/inet_addr.c) reads dotted addresses with decimal, octal
    and hexadecimal parts, [inet_ntoa] (inet/inet_ntoa.c) writes them, [htons]
    swaps the bytes of a port.  The theorems: [inet_addr] reads back every
    address [inet_ntoa] writes, two addresses print alike only when equal (so
    comparing printed addresses, as distribute_client_send does, compares
    addresses), and the byte swap is its own inverse. *)

From S2P Require Import Prelude CString DataHeader.

(** ** Reading numbers *)

(** The value of a digit or letter, 36 for any other character. *)
Definition digit_val (c : Z) : Z :=
  if (48 <=? c) && (c <=? 57) then c - 48
  else if (65 <=? c) && (c <=? 90) then c - 55
  else if (97 <=? c) && (c <=? 122) then c - 87
  else 36.

(** The digits of base [base] at the start of [a]: their value, and the rest. *)
Fixpoint base_digits (base : Z) (a : list Z) (acc : Z) : res (Z * list Z) :=
  match a with
  | [] => Bad Unterminated
  | c :: a' =>
      if digit_val c <? base then base_digits base a' (acc * base + digit_val c)
      else Ok (acc, a)
  end.

Definition ULONG_MAX : Z := 2 ^ 64 - 1.

(** [strtoul (a, &endp, 0)] for a string that starts with a digit: the value,
    whether it overflowed, and [endp]. *)
Definition strtoul0 (a : list Z) : res (Z * bool * list Z) :=
  r ← (match a with
       | c :: a' =>
           if c =? chr "0" then
             match a' with
             | x :: h :: _ =>
                 if ((x =? chr "x") || (x =? chr "X")) then
                   if digit_val h <? 16 then base_digits 16 (drop 1 a') 0
                   else Ok (0, a')
                 else base_digits 8 a 0
             | _ => base_digits 8 a 0
             end
           else base_digits 10 a 0
       | [] => Bad Unterminated
       end);
  Ok (Z.min ULONG_MAX r.1, ULONG_MAX <? r.1, r.2).

(** ** Addresses *)

Definition INADDR_NONE : Z := 0xffffffff.

(** [htons], [ntohs] and [htonl] on a little-endian machine *)
Definition htons (x : Z) : Z := (x `mod` 256) * 256 + (x / 256) `mod` 256.
Definition htonl (x : Z) : Z := le_value (rev (le_bytes 4 x)).

(** [max[4]] *)
Definition aton_max : list Z := [0xffffffff; 0xffffff; 0xffff; 0xff].

(** The loop of [__inet_aton] at [cp], after the parts [bytes]; [None] is
    [ret_0].  At most three dots are accepted, so four rounds are enough. *)
Fixpoint aton_loop (fuel : nat) (cp : list Z) (bytes : list Z) : res (option (Z * list Z * list Z)) :=
  match fuel with
  | O => Ok None
  | S fuel' =>
      match cp with
      | [] => Bad Unterminated
      | c :: _ =>
          if negb (is_digit c) then Ok None
          else
            r ← strtoul0 cp;
            let '(ul, erange, cp) := (r : Z * bool * list Z) in
            if erange then Ok None
            else if 0xffffffff <? ul then Ok None
            else
              match cp with
              | [] => Bad Unterminated
              | c :: cp' =>
                  if c =? chr "." then
                    if decide (2 < length bytes)%nat then Ok None
                    else if 0xff <? ul then Ok None
                    else aton_loop fuel' cp' (bytes ++ [ul])
                  else Ok (Some (ul, cp, bytes))
              end
      end
  end.

(** [int __inet_aton (const char *cp, struct in_addr *addr)] *)
Definition inet_aton (cp : list Z) : res (option Z) :=
  r ← aton_loop 5 cp [];
  match r with
  | None => Ok None
  | Some (val, cp, bytes) =>
      match cp with
      | [] => Bad Unterminated
      | c :: _ =>
          if negb (c =? 0) && negb (is_space c) then Ok None
          else if nth (length bytes) aton_max 0 <? val then Ok None
          else Ok (Some (Z.lor (le_value bytes) (htonl val)))
      end
  end.

(** [in_addr_t __inet_addr (const char *cp)] *)
Definition inet_addr (cp : list Z) : res Z :=
  r ← inet_aton cp;
  Ok (match r with Some a => a | None => INADDR_NONE end).

(** [char *inet_ntoa (struct in_addr in)]: the text, without its NUL. *)
Definition inet_ntoa (b : Z * Z * Z * Z) : list Z :=
  let '(b0, b1, b2, b3) := b in
  show_int b0 ++ lit "." ++ show_int b1 ++ lit "." ++ show_int b2 ++ lit "." ++ show_int b3.

(** The address word of four bytes. *)
Definition word_of (b : Z * Z * Z * Z) : Z :=
  let '(b0, b1, b2, b3) := b in le_value [b0; b1; b2; b3].
Definition addr_ok (b : Z * Z * Z * Z) : Prop :=
  let '(b0, b1, b2, b3) := b in is_byte b0 ∧ is_byte b1 ∧ is_byte b2 ∧ is_byte b3.

(** ** Lemmas *)

Lemma digit_val_digit c : 48 ≤ c ≤ 57 → digit_val c = c - 48.
Proof. intros. unfold digit_val. destruct (Z.leb_spec 48 c), (Z.leb_spec c 57); [done|lia..]. Qed.

Lemma base10_app d c r acc :
  all_digits d → 10 ≤ digit_val c →
  base_digits 10 (d ++ c :: r) acc = Ok (foldl (λ a x, a * 10 + (x - 48)) acc d, c :: r).
Proof.
  intros Hd Hc. revert acc. induction Hd as [|x d Hx Hd IH]; intros acc; cbn [app base_digits foldl].
  - destruct (Z.ltb_spec (digit_val c) 10); [lia|done].
  - rewrite digit_val_digit by done. destruct (Z.ltb_spec (x - 48) 10); [apply IH|lia].
Qed.

(** Reading one decimal part up to a dot or the end. *)
Lemma strtoul0_byte b c r :
  is_byte b → c = chr "." ∨ c = 0 → strtoul0 (show_int b ++ c :: r) = Ok (b, false, c :: r).
Proof.
  unfold is_byte. intros Hb Hc. assert (10 ≤ digit_val c) as Hv by (by destruct Hc as [->| ->]).
  unfold strtoul0, show_int. destruct (Z.ltb_spec b 0); [lia|].
  destruct (decide (b = 0)) as [->|Hnz].
  - change (show_nat 0) with [48]. destruct Hc as [->| ->]; destruct r; done.
  - destruct (show_nat_spec b) as (Hd & _ & Hval); [lia|].
    destruct (show_nat_head b) as (x & d & E & Hx); [lia|]. rewrite E in *. cbn [app].
    destruct (Z.eqb_spec x (chr "0")) as [Hx0|_]; [vm_compute in Hx0; lia|].
    change (x :: d ++ c :: r) with ((x :: d) ++ c :: r).
    rewrite base10_app by done. cbn [mbind res_bind fst snd]. rewrite Hval.
    unfold ULONG_MAX. rewrite Z.min_r by lia. destruct (Z.ltb_spec (2 ^ 64 - 1) b); [lia|done].
Qed.

Lemma show_int_digit b : is_byte b → ∃ x d, show_int b = x :: d ∧ is_digit x = true.
Proof.
  unfold is_byte. intros Hb. unfold show_int. destruct (Z.ltb_spec b 0); [lia|].
  destruct (show_nat_spec b) as (Hd & Hne & _); [lia|]. destruct (show_nat b) as [|x d]; [done|].
  exists x, d. split; [done|]. inversion_clear Hd. unfold is_digit.
  destruct (Z.leb_spec 48 x), (Z.leb_spec x 57); lia || done.
Qed.

Lemma aton_part fuel b r bytes :
  is_byte b → (length bytes ≤ 2)%nat →
  aton_loop (S fuel) (show_int b ++ lit "." ++ r) bytes = aton_loop fuel r (bytes ++ [b]).
Proof.
  intros Hb Hl. destruct (show_int_digit b Hb) as (x & d & E & Hx). cbn [aton_loop].
  change (lit "." ++ r) with (chr "." :: r). rewrite strtoul0_byte by auto. rewrite E. cbn [app].
  rewrite Hx. cbn [negb mbind res_bind]. unfold is_byte in Hb.
  destruct (Z.ltb_spec 0xffffffff b); [lia|]. change (chr "." =? chr ".") with true. cbv iota.
  rewrite decide_False by lia. destruct (Z.ltb_spec 0xff b); [lia|done].
Qed.

Lemma aton_last fuel b r bytes :
  is_byte b → aton_loop (S fuel) (show_int b ++ 0 :: r) bytes = Ok (Some (b, 0 :: r, bytes)).
Proof.
  intros Hb. destruct (show_int_digit b Hb) as (x & d & E & Hx). cbn [aton_loop].
  rewrite strtoul0_byte by auto. rewrite E. cbn [app]. rewrite Hx. cbn [negb mbind res_bind].
  unfold is_byte in Hb. destruct (Z.ltb_spec 0xffffffff b); [lia|done].
Qed.

Lemma htonl_byte b : is_byte b → htonl b = b * 2 ^ 24.
Proof.
  unfold is_byte. intros. unfold htonl. cbn [le_bytes rev app le_value].
  rewrite (Z.mod_small b 256), (Z.div_small b 256) by lia. change (0 `mod` 256) with 0.
  change (0 / 256 / 256) with 0. change (0 / 256) with 0. change (0 `mod` 256) with 0. lia.
Qed.

(** Or-ing disjoint bits adds them. *)
Lemma lor_high a b : 0 ≤ a < 2 ^ 24 → Z.lor a (b * 2 ^ 24) = a + b * 2 ^ 24.
Proof.
  intros Ha. pose proof (Z.add_lor_land a (b * 2 ^ 24)) as E.
  enough (Z.land a (b * 2 ^ 24) = 0) by lia.
  apply Z.bits_inj'. intros n Hn. rewrite Z.land_spec, Z.bits_0. destruct (Z.ltb_spec n 24).
  - rewrite Z.mul_pow2_bits_low by done. apply andb_false_r.
  - replace (Z.testbit a n) with false; [done|]. symmetry.
    destruct (decide (a = 0)) as [->|]; [apply Z.bits_0|].
    apply Z.bits_above_log2; [lia|]. apply Z.log2_lt_pow2; [lia|].
    pose proof (Z.pow_le_mono_r 2 24 n). lia.
Qed.

(** [inet_addr] reads what [inet_ntoa] wrote. *)
Lemma inet_addr_ntoa b r : addr_ok b → inet_addr (inet_ntoa b ++ 0 :: r) = Ok (word_of b).
Proof.
  destruct b as [[[b0 b1] b2] b3]. intros (H0 & H1 & H2 & H3).
  unfold inet_addr, inet_aton, inet_ntoa. rewrite <-!app_assoc.
  rewrite !aton_part by (done || cbn; lia). rewrite aton_last by done. cbn [app mbind res_bind].
  change (negb (0 =? 0) && negb (is_space 0)) with false. cbv iota.
  change (nth (length [b0; b1; b2]) aton_max 0) with 0xff. unfold is_byte in *.
  destruct (Z.ltb_spec 0xff b3); [lia|]. rewrite htonl_byte by done.
  unfold word_of. cbn [mbind res_bind le_value]. f_equal. rewrite lor_high by lia. lia.
Qed.

(** On a terminated string every conversion stops inside it. *)
Lemma base_digits_total base l r : base ≤ 36 → ∀ acc, ∃ v l',
  base_digits base (l ++ 0 :: r) acc = Ok (v, l' ++ 0 :: r).
Proof.
  intros Hb. induction l as [|c l IH]; intros acc; cbn [app base_digits].
  - exists acc, []. change (digit_val 0) with 36. by destruct (Z.ltb_spec 36 base); [lia|].
  - destruct (digit_val c <? base); [apply IH|]. by exists acc, (c :: l).
Qed.

Lemma strtoul0_total l r : ∃ v o l', strtoul0 (l ++ 0 :: r) = Ok (v, o, l' ++ 0 :: r).
Proof.
  unfold strtoul0.
  assert (∀ b l, b ≤ 36 → ∃ v o l', (r0 ← base_digits b (l ++ 0 :: r) 0;
    Ok (Z.min ULONG_MAX r0.1, ULONG_MAX <? r0.1, r0.2)) = Ok (v, o, l' ++ 0 :: r)) as Hd.
  { intros b l0 Hb. destruct (base_digits_total b l0 r Hb 0) as (v & l' & ->). cbn. eauto. }
  destruct l as [|c l]; [exact (Hd 10 [] ltac:(lia))|]. cbn [app].
  destruct (c =? chr "0"); [|exact (Hd 10 (c :: l) ltac:(lia))].
  destruct l as [|x l]; cbn [app].
  - destruct r as [|h r]; exact (Hd 8 [c] ltac:(lia)).
  - destruct l as [|h l]; cbn [app drop].
    + destruct ((x =? chr "x") || (x =? chr "X")); [|exact (Hd 8 [c; x] ltac:(lia))].
      change (digit_val 0 <? 16) with false. cbv iota. cbn. eexists _, _, [x]. done.
    + destruct ((x =? chr "x") || (x =? chr "X")); [|exact (Hd 8 (c :: x :: h :: l) ltac:(lia))].
      destruct (digit_val h <? 16); [exact (Hd 16 (h :: l) ltac:(lia))|].
      cbn. eexists _, _, (x :: h :: l). done.
Qed.

Lemma aton_loop_total fuel l r bytes :
  ∃ o, aton_loop fuel (l ++ 0 :: r) bytes = Ok o ∧
    match o with Some (_, cp, _) => cp ≠ [] | None => True end.
Proof.
  revert l bytes. induction fuel as [|fuel IH]; intros l bytes; [by exists None|]. cbn [aton_loop].
  assert (∃ c a, l ++ 0 :: r = c :: a) as (c & a & Ec) by (destruct l; cbn; eauto).
  rewrite Ec. destruct (negb (is_digit c)); [by exists None|]. rewrite <-Ec.
  destruct (strtoul0_total l r) as (v & o & l' & ->). cbn [mbind res_bind].
  destruct o; [by exists None|]. destruct (0xffffffff <? v); [by exists None|].
  destruct l' as [|c' l']; cbn [app].
  - change (0 =? chr ".") with false. cbv iota. eexists. split; [done|]. done.
  - destruct (c' =? chr "."); [|eexists; by split]. destruct (decide _); [by exists None|].
    destruct (0xff <? v); [by exists None|]. apply IH.
Qed.

Lemma inet_addr_total a s : cstr a = Ok s → ∃ v, inet_addr a = Ok v.
Proof.
  intros (r & -> & _)%cstr_split. unfold inet_addr, inet_aton.
  destruct (aton_loop_total 5 s r []) as ([[[v cp] bytes]|] & -> & Ho); cbn [mbind res_bind]; [|by eexists].
  destruct cp as [|c cp]; [done|]. destruct (negb (c =? 0) && negb (is_space c)); [by eexists|].
  destruct (_ <? v); by eexists.
Qed.

(** The printed form fits its buffer and is a C string. *)
Lemma inet_ntoa_text a : addr_ok a → (length (inet_ntoa a) < 18)%nat ∧ nz (inet_ntoa a).
Proof.
  intros Ha. destruct a as [[[a0 a1] a2] a3]. destruct Ha as (H0 & H1 & H2 & H3).
  assert (∀ x, is_byte x → (length (show_int x) ≤ 3)%nat ∧ nz (show_int x)) as Hs.
  { unfold is_byte. intros x Hx. split; [|apply str_ok_nz, show_int_str_ok; lia].
    unfold show_int. destruct (Z.ltb_spec x 0); [lia|].
    by pose proof (show_nat_length x 3 ltac:(simpl; lia) ltac:(lia)) as [[??] _]. }
  destruct (Hs a0 H0), (Hs a1 H1), (Hs a2 H2), (Hs a3 H3). unfold inet_ntoa. split.
  - rewrite !length_app. change (length (lit ".")) with 1%nat. lia.
  - do 3 (apply Forall_app; split; [assumption|]; apply Forall_app; split; [nz_lit|]). assumption.
Qed.

(** ** Theorems *)

(** C39: [inet_addr] reads back the address of every text [inet_ntoa] writes,
    whatever follows the text in its buffer. *)
Theorem inet_roundtrip b r :
  addr_ok b → inet_addr (inet_ntoa b ++ 0 :: r) = Ok (word_of b).
Proof. apply inet_addr_ntoa. Qed.

(** The printed form identifies the address, fits its buffer of 18 bytes,
    and is a C string. *)
Theorem inet_ntoa_faithful a b :
  addr_ok a → addr_ok b →
  (inet_ntoa a = inet_ntoa b ↔ a = b) ∧ (length (inet_ntoa a) < 18)%nat ∧ nz (inet_ntoa a).
Proof.
  intros Ha Hb. split; [split; [|by intros ->]|].
  - intros E. pose proof (inet_addr_ntoa a [] Ha) as E1. rewrite E, (inet_addr_ntoa b [] Hb) in E1.
    destruct a as [[[a0 a1] a2] a3], b as [[[b0 b1] b2] b3].
    destruct Ha as (? & ? & ? & ?), Hb as (? & ? & ? & ?). unfold word_of, is_byte in *.
    cbn [le_value] in E1. injection E1 as E1.
    assert (a0 = b0) by lia. assert (a1 = b1) by lia. assert (a2 = b2) by lia. assert (a3 = b3) by lia.
    by subst.
  - by apply inet_ntoa_text.
Qed.

(** Converting a port to network order and back gives it again. *)
Theorem htons_involutive x : 0 ≤ x < 2 ^ 16 → htons (htons x) = x ∧ 0 ≤ htons x < 2 ^ 16.
Proof.
  intros Hx. unfold htons.
  assert (0 ≤ x `mod` 256 < 256) by (apply Z.mod_pos_bound; lia).
  assert (0 ≤ x / 256 < 256) by (split; [apply Z.div_pos; lia|apply Z.div_lt_upper_bound; lia]).
  rewrite (Z.mod_small (x / 256)) by lia. split; [|lia].
  set (hi := x / 256) in *. set (lo := x `mod` 256) in *.
  assert (x = 256 * hi + lo) as Ex by (apply Z.div_mod; lia). clearbody hi lo. subst x.
  Z.div_mod_to_equations. lia.
Qed.

(** ** Witnesses *)

Lemma inet_roundtrip_witness :
  inet_addr (lit "192.168.30.3" ++ [0]) = Ok (word_of (192, 168, 30, 3)).
Proof. apply (inet_roundtrip (192, 168, 30, 3) []). vm_compute. intuition discriminate. Defined.

Lemma inet_ntoa_faithful_witness :
  inet_ntoa (192, 168, 30, 3) ≠ inet_ntoa (192, 168, 30, 33).
Proof.
  destruct (inet_ntoa_faithful (192, 168, 30, 3) (192, 168, 30, 33)) as [[H _] _].
  - vm_compute. intuition discriminate.
  - vm_compute. intuition discriminate.
  - intros E. discriminate (H E).
Defined.

Lemma htons_involutive_witness : htons (htons 60003) = 60003.
Proof. apply (htons_involutive 60003). lia. Defined.
