(* ===== verification/StrToL.v ===== *)
(** * glibc: reading numbers and the environment

    [__strtol_l_internal] of [glibc-2.27/stdlib/strtol_l.c] for narrow
    characters in the C locale and without digit grouping ([group] is 0 in
    [strtol], [strtoul] and [atoi]), in its signed and its unsigned instance;
    [atoi] and [getenv], which the configuration and the log file name use.

    The program's own files are verified against the short definitions
    [strtol10] and [atoi] of CString.v and [strtoul0] of Inet.v; the theorems
    here show that glibc's loop, with its precomputed overflow limits, its
    number prefixes and its special case for a lone [0x], implements them. *)

From S2P Require Import Prelude CString Inet WordScan WordCopy.

(** ** Characters of the C locale *)

Definition isalpha (c : Z) : bool :=
  ((65 <=? c) && (c <=? 90)) || ((97 <=? c) && (c <=? 122)).
Definition toupper (c : Z) : Z := if (97 <=? c) && (c <=? 122) then c - 32 else c.

Inductive errno_value := EINVAL | ERANGE.

#[global] Instance errno_value_eq_dec : EqDecision errno_value.
Proof. solve_decision. Defined.

(** ** The overflow limits: [F(2) .. F(36)] *)

Definition cutoff_tab : list Z := (λ x, ULONG_MAX / x) <$> seqZ 2 35.
Definition cutlim_tab : list Z := (λ x, ULONG_MAX `mod` x) <$> seqZ 2 35.

Definition tab_at (t : list Z) (i : Z) : res Z :=
  match (if 0 <=? i then t !! Z.to_nat i else None) with
  | Some x => Ok x
  | None => Bad OutOfBounds
  end.

(** ** The conversion *)

(** Pointers are an offset into [nptr] with the bytes from there on. *)
Fixpoint skip_white (s : Z) (l : list Z) : res (Z * list Z) :=
  match l with
  | [] => Bad Unterminated
  | c :: l' => if is_space c then skip_white (s + 1) l' else Ok (s, l)
  end.

(** "Recognize number prefix and if BASE is zero, figure it out ourselves." *)
Definition number_prefix (base s : Z) (l : list Z) : res (Z * Z * list Z) :=
  match l with
  | [] => Bad Unterminated
  | c :: l1 =>
      if c =? chr "0" then
        if (base =? 0) || (base =? 16) then
          match l1 with
          | [] => Bad Unterminated
          | x :: l2 =>
              if toupper x =? chr "X" then Ok (16, s + 2, l2)
              else if base =? 0 then Ok (8, s, l) else Ok (base, s, l)
          end
        else Ok (base, s, l)
      else if base =? 0 then Ok (10, s, l) else Ok (base, s, l)
  end.

(** The digit a character stands for, when it is a digit or a letter. *)
Definition digit_char (c : Z) : option Z :=
  if (chr "0" <=? c) && (c <=? chr "9") then Some (c - chr "0")
  else if isalpha c then Some (toupper c - chr "A" + 10)
  else None.

(** [for (; c != '\0'; c = *++s)]: the value so far, and whether a digit was
    dropped because it would not have fitted. *)
Fixpoint strtol_loop (base cutoff cutlim i : Z) (overflow : bool) (s : Z) (l : list Z)
    : res (Z * bool * Z * list Z) :=
  match l with
  | [] => Bad Unterminated
  | c :: l' =>
      if c =? 0 then Ok (i, overflow, s, l)
      else
        match digit_char c with
        | None => Ok (i, overflow, s, l)
        | Some d =>
            if base <=? d then Ok (i, overflow, s, l)
            else if (cutoff <? i) || ((i =? cutoff) && (cutlim <? d))
            then strtol_loop base cutoff cutlim i true (s + 1) l'
            else strtol_loop base cutoff cutlim (uint64 (uint64 (i * base) + d)) overflow (s + 1) l'
        end
  end.

(** [noconv]: what [*endptr] is set to. *)
Definition noconv_end (nptr : list Z) (save : Z) : Z :=
  match nptr !! Z.to_nat (save - 1), nptr !! Z.to_nat (save - 2) with
  | Some x, Some o =>
      if (2 <=? save) && (toupper x =? chr "X") && (o =? chr "0") then save - 1 else 0
  | _, _ => 0
  end.

(** The value, [*endptr] as an offset ([None]: not stored), and [errno]. *)
Definition strtol_l (unsigned : bool) (nptr : list Z) (base : Z)
    : res (Z * option Z * option errno_value) :=
  if (base <? 0) || (base =? 1) || (36 <? base) then Ok (0, None, Some EINVAL)
  else
    r ← skip_white 0 nptr;
    let '(s, l) := r in
    match l with
    | [] => Bad Unterminated
    | c :: l1 =>
        if c =? 0 then Ok (0, Some (noconv_end nptr 0), None)
        else
          let negative := c =? chr "-" in
          let '(s, l) := if negative || (c =? chr "+") then (s + 1, l1) else (s, l) in
          r ← number_prefix base s l;
          let '(base, s, l) := r in
          let save := s in
          cutoff ← tab_at cutoff_tab (base - 2);
          cutlim ← tab_at cutlim_tab (base - 2);
          r ← strtol_loop base cutoff cutlim 0 false s l;
          let '(i, overflow, s, _) := r in
          if s =? save then Ok (0, Some (noconv_end nptr save), None)
          else
            let limit :=
              if negative then uint64 (uint64 (- uint64 (- 2 ^ 63 + 1)) + 1) else 2 ^ 63 - 1 in
            let overflow :=
              if unsigned then overflow else overflow || (limit <? i) in
            if overflow then
              Ok (if unsigned then ULONG_MAX else if negative then - 2 ^ 63 else 2 ^ 63 - 1,
                  Some s, Some ERANGE)
            else
              let v := if negative then uint64 (- i) else i in
              Ok (if unsigned then v else int64 v, Some s, None)
    end.

Definition strtol (nptr : list Z) (base : Z) : res Z :=
  r ← strtol_l false nptr base; Ok r.1.1.

Definition atoi_libc (nptr : list Z) : res Z := v ← strtol nptr 10; Ok (int32 v).

(** ** The environment *)

(** The two bytes at the start of a string, as [uint16_t]. *)
Definition start16 (l : list Z) : res Z :=
  match l with
  | a :: b :: _ => Ok (Z.lor a (Z.shiftl b 8))
  | _ => Bad OutOfBounds
  end.

(** The loop for names of one character. *)
Fixpoint getenv_short (name_start : Z) (environ : list (list Z)) : res (option (list Z)) :=
  match environ with
  | [] => Ok None
  | ep :: environ' =>
      ep_start ← start16 ep;
      if name_start =? ep_start then Ok (Some (drop 2 ep)) else getenv_short name_start environ'
  end.

(** The loop for longer names: [name] without its first two characters. *)
Fixpoint getenv_long (name_start : Z) (name : list Z) (len : Z) (environ : list (list Z))
    : res (option (list Z)) :=
  match environ with
  | [] => Ok None
  | ep :: environ' =>
      ep_start ← start16 ep;
      if name_start =? ep_start then
        d ← STRNCMP (drop 2 ep) name len;
        if d =? 0 then
          match ep !! Z.to_nat (len + 2) with
          | None => Bad OutOfBounds
          | Some c =>
              if c =? chr "=" then Ok (Some (drop (Z.to_nat (len + 3)) ep))
              else getenv_long name_start name len environ'
          end
        else getenv_long name_start name len environ'
      else getenv_long name_start name len environ'
  end.

(** [None] for [__environ] is the null pointer; an entry is the string's bytes,
    the result the bytes after the equals sign. *)
Definition getenv (environ : option (list (list Z))) (name : list Z) : res (option (list Z)) :=
  len ← strlen name;
  match environ with
  | None => Ok None
  | Some environ =>
      match name with
      | [] => Bad OutOfBounds
      | c :: name1 =>
          if c =? 0 then Ok None
          else
            match name1 with
            | [] => Bad OutOfBounds
            | c1 :: _ =>
                if c1 =? 0 then getenv_short (Z.lor (Z.shiftl (chr "=") 8) c) environ
                else
                  name_start ← start16 name;
                  getenv_long name_start (drop 2 name) (len - 2) environ
            end
      end
  end.

(** ** The digit loop *)

Lemma digit_char_val c :
  match digit_char c with Some d => digit_val c = d | None => digit_val c = 36 end.
Proof.
  unfold digit_char, digit_val, isalpha, toupper.
  change (chr "0") with 48. change (chr "9") with 57. change (chr "A") with 65.
  destruct (Z.leb_spec 48 c), (Z.leb_spec c 57); cbn [andb]; try done;
    destruct (Z.leb_spec 65 c), (Z.leb_spec c 90); cbn [andb orb]; try lia;
    destruct (Z.leb_spec 97 c), (Z.leb_spec c 122); cbn [andb orb]; lia.
Qed.

Lemma tab_at_spec (f : Z → Z) b : 2 ≤ b ≤ 36 → tab_at (f <$> seqZ 2 35) (b - 2) = Ok (f b).
Proof.
  intros Hb. unfold tab_at. destruct (Z.leb_spec 0 (b - 2)); [|lia].
  rewrite list_lookup_fmap, lookup_seqZ_lt by lia. simpl. do 2 f_equal. lia.
Qed.

(** The number read so far is [n]: it is the register, or it did not fit. *)
Definition holds_number (i : Z) (overflow : bool) (n : Z) : Prop :=
  if overflow then 2 ^ 64 ≤ n else i = n ∧ n < 2 ^ 64.

(** The limits detect exactly the digits that do not fit. *)
Lemma cutoff_exact b i d : 2 ≤ b → 0 ≤ i → 0 ≤ d < b →
  (ULONG_MAX / b <? i) || ((i =? ULONG_MAX / b) && (ULONG_MAX `mod` b <? d)) = true ↔
  2 ^ 64 ≤ i * b + d.
Proof.
  intros Hb Hi Hd. pose proof (Z.div_mod ULONG_MAX b ltac:(lia)) as E.
  pose proof (Z.mod_pos_bound ULONG_MAX b ltac:(lia)) as Hm.
  set (q := ULONG_MAX / b) in *. set (m := ULONG_MAX `mod` b) in *. clearbody q m.
  assert (ULONG_MAX = 2 ^ 64 - 1) as EU by done. rewrite EU in E. clear EU.
  rewrite orb_true_iff, andb_true_iff, !Z.ltb_lt, Z.eqb_eq.
  split; [intros [?|[-> ?]]; nia|]. intros H. destruct (decide (q < i)); [by left|right]. nia.
Qed.

Lemma holds_number_step b i ov n d : 2 ≤ b → 0 ≤ i → 0 ≤ n → 0 ≤ d < b → holds_number i ov n →
  let full := (ULONG_MAX / b <? i) || ((i =? ULONG_MAX / b) && (ULONG_MAX `mod` b <? d)) in
  holds_number (if full then i else uint64 (uint64 (i * b) + d)) (full || ov) (n * b + d) ∧
  0 ≤ (if full then i else uint64 (uint64 (i * b) + d)).
Proof.
  intros Hb Hi Hn Hd H full. pose proof (cutoff_exact b i d Hb Hi Hd) as Hc. fold full in Hc.
  destruct full; cbn [orb].
  - split; [|done]. unfold holds_number in *. destruct ov; [nia|]. destruct H as [-> _]. by apply Hc.
  - assert (i * b + d < 2 ^ 64) as Hlt by (destruct (decide (2 ^ 64 ≤ i * b + d)) as [Hge|]; [by apply Hc in Hge|lia]).
    unfold uint64. rewrite (Z.mod_small (i * b)), Z.mod_small by nia.
    split; [|nia]. unfold holds_number in *. destruct ov; [nia|]. destruct H as [-> _]. done.
Qed.

(** The loop computes the number [base_digits] does. *)
Lemma strtol_loop_spec b l : 2 ≤ b ≤ 36 → ∀ i ov s n, 0 ≤ i → 0 ≤ n → holds_number i ov n →
  match base_digits b l n with
  | Ok (n', l') => ∃ i' ov',
      strtol_loop b (ULONG_MAX / b) (ULONG_MAX `mod` b) i ov s l =
        Ok (i', ov', s + (Z.of_nat (length l) - Z.of_nat (length l')), l') ∧
      holds_number i' ov' n' ∧ 0 ≤ i' ∧ n ≤ n' ∧ (length l' ≤ length l)%nat ∧
      (length l' = length l → n' = n)
  | Bad f => strtol_loop b (ULONG_MAX / b) (ULONG_MAX `mod` b) i ov s l = Bad f
  end.
Proof.
  intros Hb. induction l as [|c l IH]; intros i ov s n Hi Hn Hh; [done|]. cbn [base_digits strtol_loop].
  assert (∀ x : list Z, Ok (i, ov, s, x) = Ok (i, ov, s + (Z.of_nat (length x) - Z.of_nat (length x)), x)) as Hstop
    by (intros; do 3 f_equal; lia).
  destruct (Z.eqb_spec c 0) as [->|Hc].
  { change (digit_val 0) with 36. destruct (Z.ltb_spec 36 b); [lia|]. exists i, ov. rewrite Hstop. naive_solver lia. }
  pose proof (digit_char_val c) as Hd.
  destruct (digit_char c) as [d|]; rewrite Hd.
  2:{ destruct (Z.ltb_spec 36 b); [lia|]. exists i, ov. rewrite Hstop. naive_solver lia. }
  destruct (Z.ltb_spec d b), (Z.leb_spec b d); try lia.
  2:{ exists i, ov. rewrite Hstop. naive_solver lia. }
  assert (0 ≤ d) as Hd0 by (subst d; unfold digit_val; repeat case_match; bsimpl; lia).
  destruct (holds_number_step b i ov n d) as [Hh' Hi']; try done; try lia.
  set (full := _ || _) in *.
  specialize (IH (if full then i else uint64 (uint64 (i * b) + d)) (full || ov) (s + 1) (n * b + d)
    Hi' ltac:(nia) Hh').
  destruct (base_digits b l (n * b + d)) as [[n' l']|f].
  - destruct IH as (i' & ov' & E & Hh2 & Hi2 & Hle & Hlen & _). exists i', ov'.
    split; [|split; [done|]; split; [done|]; split; [nia|]; split; [simpl; lia|]].
    + transitivity (strtol_loop b (ULONG_MAX / b) (ULONG_MAX `mod` b)
        (if full then i else uint64 (uint64 (i * b) + d)) (full || ov) (s + 1) l); [by destruct full|].
      rewrite E. do 3 f_equal. cbn [length]. lia.
    + intros Heq. simpl in Heq. lia.
  - rewrite <-IH. by destruct full.
Qed.

(** ** [strtol] in base 10 and [atoi] *)

Lemma skip_white_space l : ∀ s,
  match skip_space l with
  | Ok l' => skip_white s l = Ok (s + (Z.of_nat (length l) - Z.of_nat (length l')), l') ∧
             (length l' ≤ length l)%nat
  | Bad f => skip_white s l = Bad f
  end.
Proof.
  induction l as [|c l IH]; intros s; [done|]. cbn [skip_space skip_white].
  destruct (is_space c).
  - specialize (IH (s + 1)). destruct (skip_space l) as [l'|f]; [|done].
    destruct IH as [-> Hl]. split; [|simpl; lia]. do 2 f_equal. cbn [length]. lia.
  - split; [do 2 f_equal; lia|done].
Qed.

Lemma digit_val_10 c : (digit_val c <? 10) = is_digit c ∧ (is_digit c = true → digit_val c = c - 48).
Proof.
  unfold digit_val, is_digit. destruct (Z.leb_spec 48 c), (Z.leb_spec c 57); cbn [andb].
  - split; [by apply Z.ltb_lt; lia|done].
  - split; [|done]. apply Z.ltb_ge. repeat case_match; bsimpl; lia.
  - split; [|done]. apply Z.ltb_ge. repeat case_match; bsimpl; lia.
  - split; [|done]. apply Z.ltb_ge. repeat case_match; bsimpl; lia.
Qed.

Lemma dec_value_base l : ∀ acc, dec_value l acc = (r ← base_digits 10 l acc; Ok r.1).
Proof.
  induction l as [|c l IH]; intros acc; [done|]. cbn [dec_value base_digits].
  destruct (digit_val_10 c) as [-> Hv]. destruct (is_digit c); [|done].
  by rewrite IH, Hv.
Qed.

(** The limits of [long], as the code writes them. *)
Lemma strtol_saturates (neg : bool) i ov n : 0 ≤ i → 0 ≤ n → holds_number i ov n →
  (if ov || ((if neg then uint64 (uint64 (- uint64 (- 2 ^ 63 + 1)) + 1) else 2 ^ 63 - 1) <? i)
   then if neg then - 2 ^ 63 else 2 ^ 63 - 1
   else int64 (if neg then uint64 (- i) else i)) =
  if neg then Z.max (- 2 ^ 63) (- n) else Z.min (2 ^ 63 - 1) n.
Proof.
  intros Hi Hn Hh. change (uint64 (uint64 (- uint64 (- 2 ^ 63 + 1)) + 1)) with (2 ^ 63).
  unfold holds_number in Hh. destruct ov; cbn [orb]; [destruct neg; lia|]. destruct Hh as [-> Hlt].
  destruct neg.
  - destruct (Z.ltb_spec (2 ^ 63) n); [lia|]. destruct (decide (n = 0)) as [->|]; [done|].
    unfold int64, uint64. replace (- n) with (2 ^ 64 - n + (-1) * 2 ^ 64) at 1 by lia.
    rewrite Z.mod_add, (Z.mod_small (2 ^ 64 - n)) by lia.
    replace (2 ^ 64 - n + 2 ^ 63) with (2 ^ 63 - n + 1 * 2 ^ 64) by lia.
    rewrite Z.mod_add, Z.mod_small by lia. lia.
  - destruct (Z.ltb_spec (2 ^ 63 - 1) n); [lia|]. unfold int64. rewrite Z.mod_small; lia.
Qed.

(** The conversion behind white space, sign and prefix. *)
Lemma strtol_digits b (neg : bool) (nptr : list Z) s l : 2 ≤ b ≤ 36 →
  (r ← (cutoff ← tab_at cutoff_tab (b - 2);
        cutlim ← tab_at cutlim_tab (b - 2);
        r ← strtol_loop b cutoff cutlim 0 false s l;
        let '(i, overflow, s', _) := r in
        if s' =? s then Ok (0, Some (noconv_end nptr s), None)
        else
          let limit := if neg then uint64 (uint64 (- uint64 (- 2 ^ 63 + 1)) + 1) else 2 ^ 63 - 1 in
          if overflow || (limit <? i) then
            Ok (if neg then - 2 ^ 63 else 2 ^ 63 - 1, Some s', Some ERANGE)
          else Ok (int64 (if neg then uint64 (- i) else i), Some s', None));
   Ok r.1.1) =
  (r ← base_digits b l 0; Ok (if neg then Z.max (- 2 ^ 63) (- r.1) else Z.min (2 ^ 63 - 1) r.1)).
Proof.
  intros Hb. unfold cutoff_tab, cutlim_tab. rewrite !tab_at_spec by done. cbn [mbind res_bind].
  pose proof (strtol_loop_spec b l Hb 0 false s 0 ltac:(lia) ltac:(lia) ltac:(done)) as H.
  destruct (base_digits b l 0) as [[n l']|f]; cbn [mbind res_bind fst].
  - destruct H as (i & ov & -> & Hh & Hi & Hn & Hlen & Hz). cbn [mbind res_bind].
    destruct (Z.eqb_spec (s + (Z.of_nat (length l) - Z.of_nat (length l'))) s) as [E|E].
    + assert (n = 0) as ->; [|by destruct neg].
      apply Hz. lia.
    + rewrite <-(strtol_saturates neg i ov n) by done. by destruct (ov || _).
  - by rewrite H.
Qed.

Lemma number_prefix_10 s l : number_prefix 10 s l =
  match l with [] => Bad Unterminated | _ => Ok (10, s, l) end.
Proof. destruct l as [|c l]; [done|]. unfold number_prefix. by destruct (c =? chr "0"). Qed.

Lemma strtol_base10 nptr : strtol nptr 10 = strtol10 nptr.
Proof.
  unfold strtol, strtol_l, strtol10. cbn [Z.ltb Z.compare Z.eqb orb Pos.compare Pos.eqb].
  pose proof (skip_white_space nptr 0) as Hw. destruct (skip_space nptr) as [l|f]; [|by rewrite Hw].
  destruct Hw as [-> _]. cbn [mbind res_bind]. destruct l as [|c l]; [done|].
  destruct (Z.eqb_spec c 0) as [->|Hc]; [done|].
  destruct (Z.eqb_spec c (chr "-")) as [->|Hneg]; cbn [orb].
  - rewrite number_prefix_10, dec_value_base. destruct l as [|x l]; [done|]. cbn [mbind res_bind].
    etransitivity; [apply (strtol_digits 10 true); lia|]. by destruct (base_digits _ _ _) as [[]|].
  - rewrite dec_value_base. destruct (Z.eqb_spec c (chr "+")) as [->|Hpos]; rewrite number_prefix_10.
    + destruct l as [|x l]; [done|]. cbn [mbind res_bind].
      etransitivity; [apply (strtol_digits 10 false); lia|]. by destruct (base_digits _ _ _) as [[]|].
    + cbn [mbind res_bind].
      etransitivity; [apply (strtol_digits 10 false); lia|]. by destruct (base_digits _ _ _) as [[]|].
Qed.

(** C26: Glibc's [strtol] in base 10, with its table of overflow limits and its 64-bit
    register, returns what the definition used for the program's own files
    says, on every input: the exact value, saturated at the range of [long]. *)
Theorem strtol_equiv nptr : strtol nptr 10 = strtol10 nptr.
Proof. apply strtol_base10. Qed.

(** Glibc's [atoi], the truncation of [strtol] to [int]. *)
Theorem atoi_equiv nptr : atoi_libc nptr = atoi nptr.
Proof. unfold atoi_libc, atoi. by rewrite strtol_base10. Qed.

(** ** [strtoul] in base 0 *)

Lemma strtoul_digits b (nptr : list Z) s l n l' : 2 ≤ b ≤ 36 → base_digits b l 0 = Ok (n, l') →
  (length l' < length l)%nat →
  (cutoff ← tab_at cutoff_tab (b - 2);
   cutlim ← tab_at cutlim_tab (b - 2);
   r ← strtol_loop b cutoff cutlim 0 false s l;
   let '(i, overflow, s', _) := r in
   if s' =? s then Ok (0, Some (noconv_end nptr s), None)
   else if (overflow : bool) then Ok (ULONG_MAX, Some s', Some ERANGE) else Ok (i, Some s', None)) =
  Ok (Z.min ULONG_MAX n, Some (s + (Z.of_nat (length l) - Z.of_nat (length l'))),
      if ULONG_MAX <? n then Some ERANGE else None).
Proof.
  intros Hb Hd Hl. unfold cutoff_tab, cutlim_tab. rewrite !tab_at_spec by done. cbn [mbind res_bind].
  pose proof (strtol_loop_spec b l Hb 0 false s 0 ltac:(lia) ltac:(lia) ltac:(done)) as H.
  rewrite Hd in H. destruct H as (i & ov & -> & Hh & Hi & Hn & _ & _). cbn [mbind res_bind].
  destruct (Z.eqb_spec (s + (Z.of_nat (length l) - Z.of_nat (length l'))) s); [lia|].
  unfold holds_number in Hh. change ULONG_MAX with (2 ^ 64 - 1).
  destruct ov; [|destruct Hh as [-> Hh]]; destruct (Z.ltb_spec (2 ^ 64 - 1) n); try lia;
    do 3 f_equal; lia.
Qed.

Lemma base_digits_first b c l n l' : digit_val c < b → base_digits b (c :: l) 0 = Ok (n, l') →
  (length l' ≤ length l)%nat.
Proof.
  intros Hc. cbn [base_digits]. destruct (Z.ltb_spec (digit_val c) b); [|lia]. clear.
  revert n l'. generalize (0 * b + digit_val c). induction l as [|x l IH]; intros acc n l' H; [done|].
  cbn [base_digits] in H. destruct (digit_val x <? b); [apply IH in H; simpl; lia|]. by simplify_eq.
Qed.

Lemma toupper_X x : (toupper x =? chr "X") = (x =? chr "x") || (x =? chr "X").
Proof.
  unfold toupper. change (chr "X") with 88. change (chr "x") with 120.
  destruct (Z.leb_spec 97 x), (Z.leb_spec x 122); cbn [andb]; repeat bcase; lia || done.
Qed.

Lemma noconv_end_0x x l :
  noconv_end (chr "0" :: x :: l) 2 = if toupper x =? chr "X" then 1 else 0.
Proof.
  unfold noconv_end.
  change ((chr "0" :: x :: l) !! Z.to_nat (2 - 1)) with (Some x).
  change ((chr "0" :: x :: l) !! Z.to_nat (2 - 2)) with (Some (chr "0")). cbv beta iota.
  change (2 <=? 2) with true. rewrite Z.eqb_refl, andb_true_r. done.
Qed.

(** Glibc's [strtoul] in base 0 on a text that starts with a digit, as [inet_aton] calls
    it: the value, [*endptr] and [ERANGE] of [strtoul0], for decimal, octal and
    hexadecimal numbers and for [0x] without digits. *)
Theorem strtoul_equiv a c txt v er rest : cstr a = Ok (c :: txt) → is_digit c = true →
  strtoul0 a = Ok (v, er, rest) →
  strtol_l true a 0 =
  Ok (v, Some (Z.of_nat (length a) - Z.of_nat (length rest)), if er then Some ERANGE else None).
Proof.
  intros (r & -> & Hnz)%cstr_split Hc H. inversion_clear Hnz as [|?? _ Htxt].
  unfold is_digit in Hc. apply andb_true_iff in Hc as [Hc1 Hc2]. bsimpl.
  change ((c :: txt) ++ 0 :: r) with (c :: (txt ++ 0 :: r)) in *.
  apply res_bind_Ok in H as ([n l'] & Hd & [= <- <- <-]). cbn [fst snd].
  unfold strtol_l. cbn [Z.ltb Z.compare Z.eqb orb Pos.compare Pos.eqb skip_white].
  assert (is_space c = false) as ->.
  { unfold is_space. repeat bcase; cbn [orb andb]; lia || done. }
  cbn [mbind res_bind]. destruct (Z.eqb_spec c 0); [lia|].
  destruct (Z.eqb_spec c (chr "-")) as [->|_]; [by vm_compute in Hc1|].
  destruct (Z.eqb_spec c (chr "+")) as [->|_]; [by vm_compute in Hc1|]. cbn [orb].
  assert (digit_val c = c - 48) as Hdv by (by apply digit_val_digit).
  unfold number_prefix. destruct (Z.eqb_spec c (chr "0")) as [->|Hc0]; cbn [Z.eqb orb].
  - destruct txt as [|x txt]; cbn [app] in *.
    + change (toupper 0 =? chr "X") with false. cbn [mbind res_bind].
      etransitivity; [apply (strtoul_digits 8 _ _ _ n l'); [lia|by destruct r|]|].
      * assert (base_digits 8 (chr "0" :: 0 :: r) 0 = Ok (n, l')) as Hd' by (by destruct r).
        apply base_digits_first in Hd'; [simpl in *; lia|done].
      * done.
    + rewrite toupper_X. destruct (((x =? chr "x") || (x =? chr "X"))) eqn:Hx.
      * inversion_clear Htxt as [|?? Hx0 Htxt'].
        destruct (txt ++ 0 :: r) as [|h l2] eqn:E; [by destruct txt|]. cbn [mbind res_bind drop] in *.
        destruct (Z.ltb_spec (digit_val h) 16) as [Hh|Hh].
        -- etransitivity; [apply (strtoul_digits 16 _ _ _ n l'); [lia|done|]|].
           ++ apply base_digits_first in Hd; [simpl; lia|done].
           ++ do 4 f_equal. cbn [length]. lia.
        -- injection Hd as <- <-. unfold cutoff_tab, cutlim_tab. rewrite !tab_at_spec by lia.
           cbn [mbind res_bind].
           assert (strtol_loop 16 (ULONG_MAX / 16) (ULONG_MAX `mod` 16) 0 false (0 + 2) (h :: l2) =
             Ok (0, false, 0 + 2, h :: l2)) as ->.
           { cbn [strtol_loop]. destruct (h =? 0); [done|]. pose proof (digit_char_val h) as Hdc.
             destruct (digit_char h); [|done]. by destruct (Z.leb_spec 16 z); [|lia]. }
           cbn [mbind res_bind]. change (0 + 2) with 2. cbn [Z.eqb Pos.eqb].
           assert (noconv_end (chr "0" :: x :: h :: l2) 2 = 1) as ->
             by (rewrite noconv_end_0x, toupper_X, Hx; done).
           do 3 f_equal. f_equal. cbn [length]. lia.
      * assert (base_digits 8 (chr "0" :: x :: txt ++ 0 :: r) 0 = Ok (n, l')) as Hd'
          by (by destruct (txt ++ 0 :: r)).
        cbn [mbind res_bind]. etransitivity; [apply (strtoul_digits 8 _ _ _ n l'); [lia|done|]|done].
        apply base_digits_first in Hd'; [simpl in *; lia|done].
  - cbn [mbind res_bind]. etransitivity; [apply (strtoul_digits 10 _ _ _ n l'); [lia|done|]|done].
    apply base_digits_first in Hd; [simpl in *; lia|lia].
Qed.

Lemma strtoul_equiv_witness :
  strtol_l true (lit "0x1fg" ++ [0]) 0 = Ok (31, Some 4, None) ∧
  strtol_l true (lit "0x." ++ [0]) 0 = Ok (0, Some 1, None).
Proof.
  split.
  - apply (strtoul_equiv (lit "0x1fg" ++ [0]) 48 (lit "x1fg") 31 false (lit "g" ++ [0])); reflexivity.
  - apply (strtoul_equiv (lit "0x." ++ [0]) 48 (lit "x.") 0 false (lit "x." ++ [0])); reflexivity.
Defined.

(** A base outside 0, 2 .. 36 is refused before the text is looked at. *)
Theorem strtol_bad_base unsigned nptr base : base < 0 ∨ base = 1 ∨ 36 < base →
  strtol_l unsigned nptr base = Ok (0, None, Some EINVAL).
Proof.
  intros H. unfold strtol_l.
  assert ((base <? 0) || (base =? 1) || (36 <? base) = true) as ->; [|done].
  rewrite !orb_true_iff, !Z.ltb_lt, Z.eqb_eq. tauto.
Qed.

Lemma strtol_bad_base_witness : strtol_l false [] 37 = Ok (0, None, Some EINVAL).
Proof. apply (strtol_bad_base false [] 37). right; right; reflexivity. Defined.

(** ** [getenv] *)

(** The value of the first entry [name=value]. *)
Fixpoint env_lookup (name : list Z) (environ : list (list Z)) : option (list Z) :=
  match environ with
  | [] => None
  | ep :: environ' =>
      if decide ((name ++ [chr "="]) `prefix_of` ep) then Some (drop (S (length name)) ep)
      else env_lookup name environ'
  end.

(** An entry is a string of at least one character. *)
Definition env_entry (ep : list Z) : Prop :=
  bytes_ok ep ∧ ∃ c t, cstr ep = Ok (c :: t).

Lemma start16_two a b l : is_byte a → is_byte b → start16 (a :: b :: l) = Ok (a + 256 * b).
Proof. intros Ha Hb. unfold start16. rewrite lor_shift; [done|lia|exact Ha]. Qed.

Lemma env_entry_two ep : env_entry ep → ∃ a b l, ep = a :: b :: l ∧ is_byte a ∧ is_byte b ∧ a ≠ 0.
Proof.
  intros [Hb (c & t & (r & -> & Hnz)%cstr_split)]. inversion_clear Hnz as [|?? Hc Ht].
  destruct t as [|b t]; cbn [app] in *; eexists _, _, _; (split; [done|]);
    unfold bytes_ok in Hb; rewrite !Forall_cons in Hb; naive_solver.
Qed.

(** [strncmp] with the rest of the name decides the prefix. *)
Lemma ncmp_prefix t r : nz t → ∀ l s, cstr l = Ok s → ∃ d, ncmp (length t) l (t ++ r) = Ok d ∧
  (d = 0 ↔ t `prefix_of` l).
Proof.
  intros Ht. induction Ht as [|c t Hc Ht IH]; intros l s Hl.
  - exists 0. split; [done|]. split; [|done]. intros _. apply prefix_nil.
  - cbn [length ncmp app]. destruct l as [|x l]; [done|]. cbn [cstr] in Hl.
    destruct (Z.eqb_spec x 0) as [->|Hx]; cbn [orb].
    + eexists. split; [done|]. split; [lia|]. intros [k E]. by injection E as E _.
    + apply res_bind_Ok in Hl as (s' & Hl & _). destruct (Z.eqb_spec x c) as [->|Hxc]; cbn [negb].
      * destruct (IH _ _ Hl) as (d & -> & Hd). exists d. split; [done|]. rewrite Hd.
        split; [intros; by apply prefix_cons|by apply prefix_cons_inv_2].
      * eexists. split; [done|]. split; [lia|]. intros [k E]. by injection E as E _.
Qed.

Lemma prefix_app_iff (a b l : list Z) : (a ++ b) `prefix_of` l ↔ ∃ k, l = a ++ k ∧ b `prefix_of` k.
Proof.
  split.
  - intros [k ->]. exists (b ++ k). rewrite <-app_assoc. split; [done|by exists k].
  - intros (k & -> & [j ->]). exists j. by rewrite <-app_assoc.
Qed.

Lemma getenv_short_lookup c env : is_byte c → c ≠ 0 → Forall env_entry env →
  getenv_short (c + 256 * chr "=") env = Ok (env_lookup [c] env).
Proof.
  intros Hc Hc0. induction 1 as [|ep env Hep Henv IH]; [done|]. cbn [getenv_short env_lookup].
  destruct (env_entry_two ep Hep) as (a & b & l & -> & Ha & Hb & _). rewrite start16_two by done.
  cbn [mbind res_bind app length]. unfold is_byte in *. change (chr "=") with 61 in *.
  destruct (Z.eqb_spec (c + 256 * 61) (a + 256 * b)) as [E|E].
  - rewrite decide_True; [done|]. assert (a = c) as -> by lia. assert (b = 61) as -> by lia. by exists l.
  - rewrite decide_False; [done|]. intros [k Ek]. by injection Ek as -> -> _.
Qed.

Lemma getenv_long_lookup c0 c1 t r env : is_byte c0 → is_byte c1 → nz (c0 :: c1 :: t) →
  Forall env_entry env →
  getenv_long (c0 + 256 * c1) (t ++ r) (Z.of_nat (length t)) env = Ok (env_lookup (c0 :: c1 :: t) env).
Proof.
  intros H0 H1 Hnz. inversion_clear Hnz as [|?? Hc0 Hnz1]. inversion_clear Hnz1 as [|?? Hc1 Hnz].
  induction 1 as [|ep env Hep Henv IH]; [done|]. cbn [getenv_long env_lookup].
  destruct (env_entry_two ep Hep) as (a & b & l & -> & Ha & Hb & _). rewrite start16_two by done.
  cbn [mbind res_bind]. unfold is_byte in *.
  destruct (Z.eqb_spec (c0 + 256 * c1) (a + 256 * b)) as [E|E].
  2:{ rewrite decide_False; [done|]. intros [k Ek]. by injection Ek as -> -> _. }
  assert (a = c0) as -> by lia. assert (b = c1) as -> by lia. clear E.
  destruct Hep as [_ (c & s & Hs)]. cbn [cstr] in Hs.
  destruct (Z.eqb_spec c0 0); [done|]. apply res_bind_Ok in Hs as (s1 & Hs & _). cbn [cstr] in Hs.
  destruct (Z.eqb_spec c1 0); [done|]. apply res_bind_Ok in Hs as (s2 & Hs & _).
  destruct (ncmp_prefix t r Hnz l s2 Hs) as (d & Hd & Hpre).
  cbn [drop]. rewrite drop_0, STRNCMP_ncmp, Nat2Z.id, Hd by lia. cbn [mbind res_bind].
  destruct (Z.eqb_spec d 0) as [E|E].
  - apply Hpre in E as [k ->]. 
    replace (Z.to_nat (Z.of_nat (length t) + 2)) with (2 + length t)%nat by lia.
    replace (Z.to_nat (Z.of_nat (length t) + 3)) with (2 + (length t + 1))%nat by lia.
    cbn [Nat.add].
    change ((c0 :: c1 :: t ++ k) !! S (S (length t))) with ((t ++ k) !! length t).
    rewrite lookup_app_r, Nat.sub_diag by done.
    destruct k as [|x k]; [rewrite app_nil_r, cstr_full in Hs by done; done|]. cbn [lookup list_lookup].
    destruct (Z.eqb_spec x (chr "=")) as [->|Hx].
    + rewrite decide_True; [|exists k; cbn [app]; by rewrite <-app_assoc].
      cbn [length]. do 2 f_equal. cbn [drop]. f_equal. lia.
    + rewrite decide_False; [done|]. intros [j [= Ej]]. rewrite <-app_assoc in Ej.
      apply app_inv_head in Ej. by injection Ej as -> _.
  - rewrite decide_False; [done|]. intros [j [= ->]]. apply E, Hpre. rewrite <-app_assoc. by eexists.
Qed.

(** [getenv] returns the text behind the equals sign of the first entry of the
    environment with the given name, [NULL] when there is none: comparing the
    first two characters as one 16-bit number, with its special case for
    one-character names, never confuses two names. *)
Theorem getenv_first env name r : name ≠ [] → str_ok name → Forall env_entry env →
  getenv (Some env) (name ++ 0 :: r) = Ok (env_lookup name env).
Proof.
  intros Hne Hs Henv. unfold getenv. rewrite strlen_app by done. cbn [mbind res_bind].
  assert (nz name) as Hnz by (eapply Forall_impl; [exact Hs|simpl; lia]).
  destruct name as [|c0 [|c1 t]]; [done| |]; cbn [app].
  - apply Forall_cons in Hs as [Hc _]. destruct (Z.eqb_spec c0 0); [lia|]. cbn [Z.eqb].
    rewrite Z.lor_comm, lor_shift by lia. apply getenv_short_lookup; [unfold is_byte; lia|done|done].
  - unfold str_ok in Hs. rewrite !Forall_cons in Hs. destruct Hs as (Hc0 & Hc1 & _).
    destruct (Z.eqb_spec c0 0); [lia|]. destruct (Z.eqb_spec c1 0); [lia|].
    rewrite start16_two by (unfold is_byte; lia). cbn [mbind res_bind drop length].
    replace (Z.of_nat (S (S (length t))) - 2) with (Z.of_nat (length t)) by lia.
    apply getenv_long_lookup; [unfold is_byte; lia..|done|done].
Qed.

Definition sample_environ : list (list Z) :=
  [lit "HO=1" ++ [0]; lit "HOMEPAGE=x" ++ [0]; lit "H" ++ [0]; lit "HOME=/root" ++ [0]].

Lemma getenv_first_witness :
  getenv (Some sample_environ) (lit "HOME" ++ [0]) = Ok (Some (lit "/root" ++ [0])).
Proof.
  rewrite (getenv_first sample_environ (lit "HOME") []); [reflexivity|discriminate|by_decide|].
  repeat constructor; first [by_decide | eexists _, _; reflexivity].
Defined.
