(* ===== verification/MSort.v ===== *)
(** * glibc stdlib/msort.c: the merge sort behind [qsort]

    [msort_with_tmp] sorts [n] elements of an array in place with a temporary
    array of [n] elements.  The model keeps both arrays and the positions
    [b1], [b2] and [tmp] of the source; an element stands for the [s] bytes that
    every branch of the [switch] copies at once.

    The theorems: with a temporary array of [n] elements the sort never leaves
    its arrays and never runs out of its bound; the result is sorted, is a
    permutation of the input, keeps equal elements in order (so [qsort] is
    stable on this path), and leaves the rest of the array alone. *)

From Stdlib Require Import Sorted.
From S2P Require Import Prelude CString.

(** ** The source's sort *)

Section Model.
Context {A : Type} (cmp : A → A → Z).

Definition load (a : list A) (i : nat) : res A :=
  match a !! i with Some x => Ok x | None => Bad OutOfBounds end.
Definition store (a : list A) (i : nat) (x : A) : res (list A) :=
  if decide (i < length a)%nat then Ok (<[i := x]> a) else Bad OutOfBounds.

(** [memcpy] of [n] elements between arrays. *)
Definition copy (dst : list A) (doff : nat) (src : list A) (soff n : nat) : res (list A) :=
  if decide (soff + n ≤ length src ∧ doff + n ≤ length dst)%nat
  then Ok (take doff dst ++ take n (drop soff src) ++ drop (doff + n) dst)
  else Bad OutOfBounds.

(** The loop of each [case]: the new temporary array and [b1], [n1], [n2], [tmp]. *)
Fixpoint merge_loop (fuel : nat) (a t : list A) (b1 n1 b2 n2 tmp : nat)
    : res (list A * nat * nat * nat * nat) :=
  match fuel with
  | O => Ok (t, b1, n1, n2, tmp)
  | S fuel' =>
      match n1, n2 with
      | S n1', S n2' =>
          x ← load a b1;
          y ← load a b2;
          if cmp x y <=? 0 then
            t ← store t tmp x; merge_loop fuel' a t (S b1) n1' b2 n2 (S tmp)
          else
            t ← store t tmp y; merge_loop fuel' a t b1 n1 (S b2) n2' (S tmp)
      | _, _ => Ok (t, b1, n1, n2, tmp)
      end
  end.

(** [static void msort_with_tmp (const struct msort_param *p, void *b, size_t n)]:
    the array and the temporary array afterwards.  [fuel] bounds the depth. *)
Fixpoint msort_with_tmp (fuel : nat) (a t : list A) (b n : nat) : res (list A * list A) :=
  match fuel with
  | O => Ok (a, t)
  | S fuel' =>
      if decide (n ≤ 1)%nat then Ok (a, t)
      else
        let n1 := (n / 2)%nat in
        let n2 := (n - n1)%nat in
        r ← msort_with_tmp fuel' a t b n1;
        r ← msort_with_tmp fuel' r.1 r.2 (b + n1) n2;
        m ← merge_loop (n1 + n2) r.1 r.2 b n1 (b + n1) n2 0;
        let '(t, b1, n1, n2, tmp) := m in
        t ← (if decide (0 < n1)%nat then copy t tmp r.1 b1 n1 else Ok t);
        a ← copy r.1 b t 0 (n - n2);
        Ok (a, t)
  end.

(** [void qsort (void *b, size_t n, size_t s, __compar_fn_t cmp)] when the
    temporary array is available: [__qsort_r] sorts the whole array. *)
Definition qsort (a tmp : list A) : res (list A) :=
  r ← msort_with_tmp (length a) a tmp 0 (length a); Ok r.1.

(** ** Reference definitions *)

Fixpoint merge (l1 : list A) : list A → list A :=
  match l1 with
  | [] => λ l2, l2
  | x :: l1' =>
      fix inner l2 :=
        match l2 with
        | [] => l1
        | y :: l2' => if cmp x y <=? 0 then x :: merge l1' l2 else y :: inner l2'
        end
  end.

Fixpoint msort (fuel : nat) (l : list A) : list A :=
  match fuel with
  | O => l
  | S fuel' =>
      if decide (length l ≤ 1)%nat then l
      else
        let n1 := (length l / 2)%nat in
        merge (msort fuel' (take n1 l)) (msort fuel' (drop n1 l))
  end.

(** [n] elements of an array from [b]. *)
Definition slice (a : list A) (b n : nat) : list A := take n (drop b a).

End Model.

(** The comparison function of a sort: a total preorder. *)
Class Comparator {A} (cmp : A → A → Z) : Prop := {
  cmp_total : ∀ x y, cmp x y ≤ 0 ∨ cmp y x ≤ 0;
  cmp_trans : ∀ x y z, cmp x y ≤ 0 → cmp y z ≤ 0 → cmp x z ≤ 0;
}.

(** ** The reference sort *)

Section Reference.
Context {A : Type} (cmp : A → A → Z).

Lemma merge_nil_r l : merge cmp l [] = l.
Proof. by destruct l. Qed.

Lemma merge_cons x l1 y l2 :
  merge cmp (x :: l1) (y :: l2) =
  if cmp x y <=? 0 then x :: merge cmp l1 (y :: l2) else y :: merge cmp (x :: l1) l2.
Proof. done. Qed.

Lemma merge_perm l1 : ∀ l2, merge cmp l1 l2 ≡ₚ l1 ++ l2.
Proof.
  induction l1 as [|x l1 IH1]; intros l2; [done|].
  induction l2 as [|y l2 IH2]; [by rewrite merge_nil_r, app_nil_r|].
  rewrite merge_cons. destruct (cmp x y <=? 0).
  - by rewrite IH1.
  - rewrite IH2. by rewrite Permutation_middle.
Qed.

Lemma merge_length l1 l2 : length (merge cmp l1 l2) = (length l1 + length l2)%nat.
Proof. rewrite merge_perm. apply length_app. Qed.

Lemma msort_perm fuel : ∀ l, msort cmp fuel l ≡ₚ l.
Proof.
  induction fuel as [|fuel IH]; intros l; cbn [msort]; [done|]. case_decide; [done|].
  by rewrite merge_perm, !IH, take_drop.
Qed.

Lemma msort_length fuel l : length (msort cmp fuel l) = length l.
Proof. by rewrite msort_perm. Qed.

Context `{!Comparator cmp}.

Definition cle (x y : A) : Prop := cmp x y ≤ 0.

#[local] Instance cle_trans : Transitive cle.
Proof. intros x y z. apply cmp_trans. Qed.

Lemma merge_sorted l1 : ∀ l2,
  StronglySorted cle l1 → StronglySorted cle l2 → StronglySorted cle (merge cmp l1 l2).
Proof.
  induction l1 as [|x l1 IH1]; intros l2 H1 H2; [done|].
  induction l2 as [|y l2 IH2]; [by rewrite merge_nil_r|]. rewrite merge_cons.
  inversion_clear H1 as [|?? H1' Hx]. inversion_clear H2 as [|?? H2' Hy].
  destruct (Z.leb_spec (cmp x y) 0) as [Hle|Hgt].
  - constructor; [apply IH1; [done|by constructor]|].
    rewrite merge_perm. apply Forall_app. split; [done|].
    constructor; [exact Hle|]. eapply Forall_impl; [exact Hy|]. intros z. by apply cmp_trans.
  - assert (cle y x) as Hyx by (destruct (cmp_total x y); [lia|done]).
    constructor; [by apply IH2|]. rewrite merge_perm. apply Forall_app. split; [|done].
    constructor; [exact Hyx|]. eapply Forall_impl; [exact Hx|]. intros z. by apply cmp_trans.
Qed.

Lemma sorted_short (l : list A) : (length l ≤ 1)%nat → StronglySorted cle l.
Proof. destruct l as [|x [|y l]]; simpl; intros; [constructor|repeat constructor|lia]. Qed.

Lemma half_bounds n : (2 ≤ n)%nat → (1 ≤ n / 2 < n)%nat.
Proof. intros. split; [apply Nat.div_le_lower_bound; lia|apply Nat.div_lt; lia]. Qed.

Lemma msort_sorted fuel : ∀ l, (length l ≤ fuel)%nat → StronglySorted cle (msort cmp fuel l).
Proof.
  induction fuel as [|fuel IH]; intros l Hl; cbn [msort]; [apply sorted_short; lia|].
  case_decide; [by apply sorted_short|].
  destruct (half_bounds (length l)) as [??]; [lia|].
  apply merge_sorted; apply IH; len.
Qed.

(** Elements that compare equal to [x]. *)
Definition ceq (x y : A) : Prop := cmp x y ≤ 0 ∧ cmp y x ≤ 0.
#[local] Instance ceq_dec x y : Decision (ceq x y).
Proof. unfold ceq. apply _. Defined.

Lemma filter_above x y l :
  StronglySorted cle (y :: l) → ¬ cmp y x ≤ 0 → filter (ceq x) (y :: l) = [].
Proof.
  intros Hs Hn. apply StronglySorted_inv in Hs as [_ Hf].
  rewrite filter_cons_False by (by intros [_ ?]).
  induction Hf as [|z l Hz Hf IH]; [done|]. rewrite filter_cons_False; [done|].
  intros [_ Hzx]. by apply Hn, (cmp_trans y z x).
Qed.

Lemma merge_stable x l1 : ∀ l2,
  StronglySorted cle l1 → StronglySorted cle l2 →
  filter (ceq x) (merge cmp l1 l2) = filter (ceq x) l1 ++ filter (ceq x) l2.
Proof.
  induction l1 as [|a l1 IH1]; intros l2 H1 H2; [done|].
  induction l2 as [|y l2 IH2]; [by rewrite merge_nil_r, app_nil_r|].
  rewrite merge_cons. pose proof H1 as H1'. pose proof H2 as H2'.
  apply StronglySorted_inv in H1 as [H1 Ha]. apply StronglySorted_inv in H2 as [H2 Hy].
  destruct (Z.leb_spec (cmp a y) 0) as [Hle|Hgt].
  - rewrite !(filter_cons _ a), IH1 by done. by destruct (decide (ceq x a)).
  - rewrite (filter_cons _ y), IH2 by done. rewrite (filter_cons _ y).
    destruct (decide (ceq x y)) as [Hxy|]; [|done].
    rewrite (filter_above x a l1), app_nil_l; [done|done|].
    intros Hax. destruct Hxy as [Hxy _]. pose proof (cmp_trans a x y Hax Hxy). lia.
Qed.

Lemma msort_stable x fuel : ∀ l, (length l ≤ fuel)%nat →
  filter (ceq x) (msort cmp fuel l) = filter (ceq x) l.
Proof.
  induction fuel as [|fuel IH]; intros l Hl; cbn [msort]; [done|]. case_decide; [done|].
  destruct (half_bounds (length l)) as [??]; [lia|].
  rewrite merge_stable by (apply msort_sorted; len). rewrite !IH by len.
  by rewrite <-filter_app, take_drop.
Qed.

End Reference.

(** ** The source's sort computes the reference *)

Section Refinement.
Context {A : Type} (cmp : A → A → Z).

Lemma load_ok (a : list A) i x : a !! i = Some x → load a i = Ok x.
Proof. unfold load. by intros ->. Qed.

Lemma store_ok (a : list A) i x : (i < length a)%nat → store a i x = Ok (<[i := x]> a).
Proof. intros. unfold store. by rewrite decide_True. Qed.

Lemma copy_ok (dst : list A) doff src soff n :
  (soff + n ≤ length src)%nat → (doff + n ≤ length dst)%nat →
  copy dst doff src soff n = Ok (take doff dst ++ slice src soff n ++ drop (doff + n) dst).
Proof. intros. unfold copy. by rewrite decide_True. Qed.

Lemma slice_S (a : list A) b n x : a !! b = Some x → slice a b (S n) = x :: slice a (S b) n.
Proof. intros Hx. unfold slice. by rewrite (drop_S a x b Hx). Qed.

Lemma slice_length (a : list A) b n : (b + n ≤ length a)%nat → length (slice a b n) = n.
Proof. intros. unfold slice. len. Qed.

Lemma slice_full (a : list A) b n : take b a ++ slice a b n ++ drop (b + n) a = a.
Proof.
  unfold slice. rewrite <-(take_drop b a) at 4. f_equal.
  rewrite <-(take_drop n (drop b a)) at 2. by rewrite drop_drop.
Qed.

(** One element stored at the end of what the temporary array holds. *)
Lemma take_store (t : list A) tmp x :
  (tmp < length t)%nat → take (S tmp) (<[tmp := x]> t) = take tmp t ++ [x].
Proof.
  intros. rewrite (take_S_r _ _ x) by (apply list_lookup_insert_eq; done).
  by rewrite take_insert_ge by lia.
Qed.

Lemma merge_loop_spec a fuel : ∀ t b1 n1 b2 n2 tmp,
  (b1 + n1 ≤ length a)%nat → (b2 + n2 ≤ length a)%nat → (tmp + n1 + n2 ≤ length t)%nat →
  (n1 + n2 ≤ fuel)%nat →
  ∃ t' k1 k2 out,
    merge_loop cmp fuel a t b1 n1 b2 n2 tmp =
      Ok (t', (b1 + k1)%nat, (n1 - k1)%nat, (n2 - k2)%nat, (tmp + (k1 + k2))%nat) ∧
    (k1 ≤ n1)%nat ∧ (k2 ≤ n2)%nat ∧ (k1 = n1 ∨ k2 = n2) ∧
    length t' = length t ∧ length out = (k1 + k2)%nat ∧
    take (tmp + (k1 + k2)) t' = take tmp t ++ out ∧
    merge cmp (slice a b1 n1) (slice a b2 n2) =
      out ++ slice a (b1 + k1) (n1 - k1) ++ slice a (b2 + k2) (n2 - k2).
Proof.
  induction fuel as [|fuel IH]; intros t b1 n1 b2 n2 tmp H1 H2 Ht Hf.
  { assert (n1 = 0 ∧ n2 = 0)%nat as [-> ->] by lia. exists t, 0%nat, 0%nat, [].
    cbn. rewrite !Nat.add_0_r, app_nil_r. repeat split; auto. }
  destruct n1 as [|n1]; [|destruct n2 as [|n2]].
  - exists t, 0%nat, 0%nat, []. cbn. rewrite !Nat.add_0_r, Nat.sub_0_r, app_nil_r. repeat split; auto; lia.
  - exists t, 0%nat, 0%nat, []. cbn [merge_loop Nat.add Nat.sub]. rewrite !Nat.add_0_r, app_nil_r.
    change (slice a b2 0) with (@nil A). rewrite merge_nil_r, app_nil_r. repeat split; auto; lia.
  - destruct (lookup_lt_is_Some_2 a b1) as [x Hx]; [lia|].
    destruct (lookup_lt_is_Some_2 a b2) as [y Hy]; [lia|].
    cbn [merge_loop]. rewrite (load_ok _ _ _ Hx), (load_ok _ _ _ Hy). cbn [mbind res_bind].
    rewrite (slice_S a b1 n1 x Hx), (slice_S a b2 n2 y Hy), merge_cons.
    destruct (cmp x y <=? 0).
    + rewrite store_ok by lia. cbn [mbind res_bind].
      destruct (IH (<[tmp:=x]> t) (S b1) n1 b2 (S n2) (S tmp)) as
        (t' & k1 & k2 & out & E & Hk1 & Hk2 & Hor & Hl & Ho & Htk & Hm); [rewrite ?length_insert; lia..|].
      exists t', (S k1), k2, (x :: out). rewrite E.
      replace (b1 + S k1)%nat with (S b1 + k1)%nat by lia.
      replace (tmp + (S k1 + k2))%nat with (S tmp + (k1 + k2))%nat by lia.
      rewrite length_insert in Hl. rewrite take_store, <-app_assoc in Htk by lia.
      rewrite (slice_S a b2 n2 y Hy) in Hm. rewrite Hm.
      repeat split; auto; cbn; lia.
    + rewrite store_ok by lia. cbn [mbind res_bind].
      destruct (IH (<[tmp:=y]> t) b1 (S n1) (S b2) n2 (S tmp)) as
        (t' & k1 & k2 & out & E & Hk1 & Hk2 & Hor & Hl & Ho & Htk & Hm); [rewrite ?length_insert; lia..|].
      exists t', k1, (S k2), (y :: out). rewrite E.
      replace (b2 + S k2)%nat with (S b2 + k2)%nat by lia.
      replace (tmp + (k1 + S k2))%nat with (S tmp + (k1 + k2))%nat by lia.
      rewrite length_insert in Hl. rewrite take_store, <-app_assoc in Htk by lia.
      rewrite (slice_S a b1 n1 x Hx) in Hm. rewrite Hm.
      repeat split; auto; cbn; lia.
Qed.

(** The merge of two adjacent runs, copied back. *)
Lemma merge_step_spec a t b n1 n2 :
  (b + n1 + n2 ≤ length a)%nat → (n1 + n2 ≤ length t)%nat →
  ∃ t', (m ← merge_loop cmp (n1 + n2) a t b n1 (b + n1) n2 0;
         let '(t, b1, n1', n2', tmp) := m in
         t ← (if decide (0 < n1')%nat then copy t tmp a b1 n1' else Ok t);
         a ← copy a b t 0 (n1 + n2 - n2');
         Ok (a, t)) =
    Ok (take b a ++ merge cmp (slice a b n1) (slice a (b + n1) n2) ++ drop (b + (n1 + n2)) a, t') ∧
    length t' = length t.
Proof.
  intros Ha Ht.
  destruct (merge_loop_spec a (n1 + n2) t b n1 (b + n1) n2 0) as
    (t1 & k1 & k2 & out & E & Hk1 & Hk2 & Hor & Hl & Ho & Htk & Hm); [lia..|].
  rewrite E. cbn [mbind res_bind]. rewrite Nat.add_0_l in *. rewrite take_0, app_nil_l in Htk.
  set (t2 := if decide (0 < n1 - k1)%nat
             then take (k1 + k2) t1 ++ slice a (b + k1) (n1 - k1) ++ drop (k1 + k2 + (n1 - k1)) t1 else t1).
  assert ((if decide (0 < n1 - k1)%nat then copy t1 (k1 + k2) a (b + k1) (n1 - k1) else Ok t1) = Ok t2) as ->.
  { unfold t2. case_decide; [|done]. rewrite copy_ok by lia. done. }
  assert (length t2 = length t1) as Hl2.
  { unfold t2. case_decide; [|done]. rewrite !length_app, slice_length by lia. len. }
  cbn [mbind res_bind]. rewrite copy_ok by lia. cbn [mbind res_bind]. exists t2. split; [|lia].
  do 2 f_equal. rewrite Hm, <-!app_assoc. f_equal.
  assert (slice t2 0 (n1 + n2 - (n2 - k2)) = out ++ slice a (b + k1) (n1 - k1)) as ->.
  { unfold slice at 1. rewrite drop_0. replace (n1 + n2 - (n2 - k2))%nat with (k1 + k2 + (n1 - k1))%nat by lia.
    unfold t2. case_decide.
    - rewrite Htk, app_assoc, take_app_le by (rewrite length_app, slice_length by lia; lia).
      rewrite take_ge by (rewrite length_app, slice_length by lia; lia). done.
    - replace (n1 - k1)%nat with 0%nat by lia. rewrite Nat.add_0_r, Htk.
      unfold slice. by rewrite take_0, app_nil_r. }
  rewrite <-app_assoc. f_equal. unfold slice.
  replace (b + n1 + k2)%nat with (b + (n1 + n2 - (n2 - k2)))%nat by lia.
  rewrite <-(take_drop (n2 - k2) (drop (b + (n1 + n2 - (n2 - k2))) a)) at 1.
  rewrite drop_drop. do 3 f_equal. lia.
Qed.

Lemma msort_with_tmp_spec fuel : ∀ a t b n,
  (n ≤ fuel)%nat → (b + n ≤ length a)%nat → (n ≤ length t)%nat →
  ∃ t', msort_with_tmp cmp fuel a t b n =
    Ok (take b a ++ msort cmp fuel (slice a b n) ++ drop (b + n) a, t') ∧ length t' = length t.
Proof.
  induction fuel as [|fuel IH]; intros a t b n Hn Ha Ht; cbn [msort_with_tmp msort].
  { exists t. by rewrite slice_full. }
  rewrite slice_length by done. case_decide as Hc; [exists t; by rewrite slice_full|].
  destruct (half_bounds n) as [Hh1 Hh2]; [lia|]. set (n1 := (n / 2)%nat) in *.
  destruct (IH a t b n1) as (t1 & E1 & Hl1); [lia..|]. rewrite E1. cbn [mbind res_bind fst snd].
  set (s1 := msort cmp fuel (slice a b n1)). set (a1 := take b a ++ s1 ++ drop (b + n1) a).
  assert (length s1 = n1) as Hs1 by (unfold s1; rewrite msort_length, slice_length; lia).
  assert (length a1 = length a) as Ha1 by (unfold a1; len).
  destruct (IH a1 t1 (b + n1)%nat (n - n1)%nat) as (t2 & E2 & Hl2); [lia..|].
  rewrite E2. cbn [mbind res_bind fst snd].
  assert (slice a1 (b + n1) (n - n1) = drop n1 (slice a b n)) as Es2.
  { unfold slice, a1. rewrite app_assoc, drop_app_ge by (len).
    replace (b + n1 - length (take b a ++ s1))%nat with 0%nat by len. rewrite drop_0.
    rewrite <-drop_drop, take_drop_commute. do 2 f_equal. lia. }
  assert (take (b + n1) a1 = take b a ++ s1) as Et.
  { unfold a1. rewrite app_assoc, take_app_le by len. apply take_ge. len. }
  assert (drop (b + n1 + (n - n1)) a1 = drop (b + n) a) as Ed.
  { unfold a1. replace (b + n1 + (n - n1))%nat with (b + n)%nat by lia.
    rewrite app_assoc, drop_app_ge by len. rewrite drop_drop. f_equal. len. }
  rewrite Es2, Et, Ed. set (s2 := msort cmp fuel (drop n1 (slice a b n))).
  assert (length s2 = (n - n1)%nat) as Hs2 by (unfold s2; rewrite msort_length, length_drop, slice_length; lia).
  set (a2 := (take b a ++ s1) ++ s2 ++ drop (b + n) a).
  assert (length a2 = length a) as Ha2 by (unfold a2; len).
  destruct (merge_step_spec a2 t2 b n1 (n - n1)) as (t3 & E3 & Hl3); [lia..|].
  replace (n1 + (n - n1))%nat with n in E3 by lia.
  exists t3. split; [|lia]. replace (n1 + (n - n1))%nat with n by lia. etrans; [exact E3|]. do 2 f_equal.
  assert (take b a2 = take b a) as ->.
  { unfold a2. rewrite <-app_assoc, take_app_le by len. apply take_ge. len. }
  assert (drop (b + n) a2 = drop (b + n) a) as ->.
  { unfold a2. rewrite app_assoc, drop_app_ge by len.
    replace (b + n - length ((take b a ++ s1) ++ s2))%nat with 0%nat by len. done. }
  do 2 f_equal. f_equal.
  - unfold slice at 1, a2. rewrite <-app_assoc, drop_app_ge by len.
    replace (b - length (take b a))%nat with 0%nat by len. rewrite drop_0, take_app_le by lia.
    rewrite take_ge by lia. unfold s1. f_equal. unfold slice. by rewrite take_take, Nat.min_l by lia.
  - unfold slice at 1, a2. rewrite drop_app_ge by len.
    replace (b + n1 - length (take b a ++ s1))%nat with 0%nat by len. rewrite drop_0, take_app_le by lia.
    by rewrite take_ge by lia.
Qed.

End Refinement.

(** Sortedness, permutation and stability of the whole sort. *)
Lemma qsort_sorts {A} (cmp : A → A → Z) `{!Comparator cmp} (a tmp : list A) :
  (length a ≤ length tmp)%nat →
  ∃ l, qsort cmp a tmp = Ok l ∧ l ≡ₚ a ∧ StronglySorted (cle cmp) l ∧
    ∀ x, @filter _ _ _ (ceq cmp x) (λ y, ceq_dec cmp x y) l =
         @filter _ _ _ (ceq cmp x) (λ y, ceq_dec cmp x y) a.
Proof.
  intros Ht. unfold qsort.
  destruct (msort_with_tmp_spec cmp (length a) a tmp 0 (length a)) as (t' & E & _); [done..|].
  rewrite E. cbn [mbind res_bind fst]. unfold slice. rewrite !drop_0, take_0, Nat.add_0_l.
  rewrite drop_all, app_nil_r, firstn_all. cbn [app]. eexists. split; [done|].
  split; [apply msort_perm|]. split; [by apply msort_sorted|].
  intros x. by apply (msort_stable cmp).
Qed.

(** ** Theorems *)

(** [qsort] with a temporary array of [n] elements stays inside its arrays
    and sorts: the result is a sorted permutation of the input in which equal
    elements keep their order. *)
Theorem qsort_correct {A} (cmp : A → A → Z) `{!Comparator cmp} (a tmp : list A) :
  (length a ≤ length tmp)%nat →
  ∃ l, qsort cmp a tmp = Ok l ∧ l ≡ₚ a ∧ StronglySorted (cle cmp) l ∧
    ∀ x, @filter _ _ _ (ceq cmp x) (λ y, ceq_dec cmp x y) l =
         @filter _ _ _ (ceq cmp x) (λ y, ceq_dec cmp x y) a.
Proof. intros Ht. by apply (qsort_sorts cmp). Qed.

(** Sorting [n] elements from [b] never touches the rest of the array,
    whatever the comparison function answers. *)
Theorem msort_with_tmp_frame {A} (cmp : A → A → Z) fuel (a t : list A) b n :
  (n ≤ fuel)%nat → (b + n ≤ length a)%nat → (n ≤ length t)%nat →
  ∃ l t', msort_with_tmp cmp fuel a t b n = Ok (take b a ++ l ++ drop (b + n) a, t') ∧
    l ≡ₚ slice a b n.
Proof.
  intros Hn Ha Ht. destruct (msort_with_tmp_spec cmp fuel a t b n Hn Ha Ht) as (t' & E & _).
  eexists _, t'. split; [exact E|apply msort_perm].
Qed.

(** ** Witnesses *)

Lemma sub_comparator : Comparator (λ x y : Z, x - y).
Proof. split; lia. Qed.

Lemma qsort_correct_witness :
  ∃ l, qsort (λ x y : Z, x - y) [3; 1; 2; 1; 5] (zeros 5) = Ok l ∧ StronglySorted (cle (λ x y : Z, x - y)) l.
Proof.
  destruct (@qsort_correct Z (λ x y : Z, x - y) sub_comparator [3; 1; 2; 1; 5] (zeros 5)) as (l & E & _ & Hs & _).
  - vm_compute. lia.
  - exists l. split; [exact E|exact Hs].
Defined.

Lemma msort_with_tmp_frame_witness :
  ∃ l t', msort_with_tmp (λ _ _ : Z, 1) 3 [9; 3; 1; 2; 8] (zeros 3) 1 3 = Ok ([9] ++ l ++ [8], t') ∧
    l ≡ₚ [3; 1; 2].
Proof.
  destruct (msort_with_tmp_frame (λ _ _ : Z, 1) 3 [9; 3; 1; 2; 8] (zeros 3) 1 3) as (l & t' & E & Hp).
  - lia.
  - vm_compute. lia.
  - vm_compute. lia.
  - exists l, t'. split; [exact E|exact Hp].
Defined.
