(* ===== verification/QuickSort.v ===== *)
(** * glibc: the sort without temporary memory

    [_quicksort] of [glibc-2.27/stdlib/qsort.c], which [qsort] falls back on when
    memory is short: a median-of-three quicksort over an explicit stack of at
    most 64 partitions that leaves partitions of at most five elements alone,
    followed by one insertion sort.

    Arrays are lists of elements, as in MSort.v: the source moves an element
    byte by byte, and the order of those byte moves does not show.  The
    theorems: for every total preorder the result is a sorted permutation, no
    access leaves the array, the stack of partitions never exceeds its 64
    entries, and every loop ends. *)

From Stdlib Require Import Sorted.
From S2P Require Import Prelude CString MSort.

(** ** [_quicksort] *)

Section Model.
Context {A : Type} (cmp : A → A → Z).

Definition MAX_THRESH : Z := 4.
Definition STACK_SIZE : Z := 8 * 8.

Definition SWAP (a : list A) (i j : nat) : res (list A) :=
  x ← load a i;
  y ← load a j;
  a ← store a i y;
  store a j x.

(** [( *cmp) (i, j, arg) < 0] on two elements of the array *)
Definition less_at (a : list A) (i j : nat) : res bool :=
  x ← load a i;
  y ← load a j;
  Ok (cmp x y <? 0).

(** "Select median value from among LO, MID, and HI." *)
Definition median (a : list A) (lo mid hi : nat) : res (list A) :=
  b ← less_at a mid lo;
  a ← (if (b : bool) then SWAP a mid lo else Ok a);
  b ← less_at a hi mid;
  if (b : bool) then
    a ← SWAP a mid hi;
    b ← less_at a mid lo;
    if (b : bool) then SWAP a mid lo else Ok a
  else Ok a.

(** The two inner loops of the partition. *)
Fixpoint left_scan (fuel : nat) (a : list A) (mid left_ptr : nat) : res nat :=
  match fuel with
  | O => Bad Unspecified
  | S fuel' =>
      b ← less_at a left_ptr mid;
      if (b : bool) then left_scan fuel' a mid (left_ptr + 1) else Ok left_ptr
  end.
Fixpoint right_scan (fuel : nat) (a : list A) (mid right_ptr : nat) : res nat :=
  match fuel with
  | O => Bad Unspecified
  | S fuel' =>
      b ← less_at a mid right_ptr;
      if (b : bool) then
        match right_ptr with O => Bad OutOfBounds | S r => right_scan fuel' a mid r end
      else Ok right_ptr
  end.

(** "Here's the famous ``collapse the walls'' section of quicksort." *)
Fixpoint collapse (fuel : nat) (a : list A) (mid left_ptr right_ptr : nat) : res (list A * nat * nat) :=
  match fuel with
  | O => Bad Unspecified
  | S fuel' =>
      left_ptr ← left_scan (length a) a mid left_ptr;
      right_ptr ← right_scan (length a) a mid right_ptr;
      if decide (left_ptr < right_ptr)%nat then
        a ← SWAP a left_ptr right_ptr;
        let mid :=
          if decide (mid = left_ptr) then right_ptr else if decide (mid = right_ptr) then left_ptr else mid in
        let left_ptr := (left_ptr + 1)%nat in
        let right_ptr := (right_ptr - 1)%nat in
        if decide (left_ptr ≤ right_ptr)%nat then collapse fuel' a mid left_ptr right_ptr
        else Ok (a, left_ptr, right_ptr)
      else if decide (left_ptr = right_ptr) then
        match right_ptr with
        | O => Bad OutOfBounds
        | S r => Ok (a, (left_ptr + 1)%nat, r)
        end
      else Ok (a, left_ptr, right_ptr)
  end.

(** [(size_t) (p - q)], in elements. *)
Definition gap (p q : nat) : Z := uint64 (Z.of_nat p - Z.of_nat q).

(** [PUSH], which must find room in the array of [STACK_SIZE] nodes. *)
Definition PUSH (stack : list (nat * nat)) (lo hi : nat) : res (list (nat * nat)) :=
  if Z.of_nat (length stack) <? STACK_SIZE then Ok ((lo, hi) :: stack) else Bad OutOfBounds.

(** [while (STACK_NOT_EMPTY)] *)
Fixpoint quick_loop (fuel : nat) (a : list A) (lo hi : nat) (stack : list (nat * nat))
    : res (list A) :=
  match fuel with
  | O => Bad Unspecified
  | S fuel' =>
      match stack with
      | [] => Ok a
      | (plo, phi) :: below =>
          let mid := (lo + (hi - lo) / 2)%nat in
          a ← median a lo mid hi;
          match hi with
          | O => Bad OutOfBounds
          | S hi' =>
              r ← collapse (length a) a mid (lo + 1) hi';
              let '(a, left_ptr, right_ptr) := r in
              if gap right_ptr lo <=? MAX_THRESH then
                if gap hi left_ptr <=? MAX_THRESH then quick_loop fuel' a plo phi below
                else quick_loop fuel' a left_ptr hi stack
              else if gap hi left_ptr <=? MAX_THRESH then quick_loop fuel' a lo right_ptr stack
              else if Z.of_nat hi - Z.of_nat left_ptr <? Z.of_nat right_ptr - Z.of_nat lo then
                stack ← PUSH stack lo right_ptr; quick_loop fuel' a left_ptr hi stack
              else
                stack ← PUSH stack left_ptr hi; quick_loop fuel' a lo right_ptr stack
          end
      end
  end.

(** "Find smallest element in first threshold": [k] elements from [run] on. *)
Fixpoint find_smallest (k : nat) (a : list A) (run tmp : nat) : res nat :=
  match k with
  | O => Ok tmp
  | S k' =>
      b ← less_at a run tmp;
      find_smallest k' a (run + 1) (if (b : bool) then run else tmp)
  end.

(** [while (( *cmp) (run_ptr, tmp_ptr, arg) < 0) tmp_ptr -= size; tmp_ptr += size;] *)
Fixpoint insert_scan (a : list A) (run tmp : nat) : res nat :=
  b ← less_at a run tmp;
  if (b : bool) then match tmp with O => Bad OutOfBounds | S t => insert_scan a run t end
  else Ok (S tmp).

(** [for (hi = lo = trav; (lo -= size) >= tmp_ptr; hi = lo) *hi = *lo; *hi = c;] *)
Fixpoint shift_up (k : nat) (a : list A) (hi : nat) (c : A) : res (list A) :=
  match k with
  | O => store a hi c
  | S k' =>
      match hi with
      | O => Bad OutOfBounds
      | S lo => x ← load a lo; a ← store a hi x; shift_up k' a lo c
      end
  end.

(** "Insertion sort, running from left-hand-side up to right-hand-side." *)
Fixpoint insertion_loop (k : nat) (a : list A) (run : nat) : res (list A) :=
  match k with
  | O => Ok a
  | S k' =>
      tmp ← (match run with O => Bad OutOfBounds | S r => insert_scan a run r end);
      a ← (if decide (tmp ≠ run) then c ← load a run; shift_up (run - tmp) a run c else Ok a);
      insertion_loop k' a (run + 1)
  end.

Definition quicksort (a : list A) : res (list A) :=
  let total_elems := length a in
  if decide (total_elems = 0)%nat then Ok a
  else
    a ← (if MAX_THRESH <? Z.of_nat total_elems then
           stack ← PUSH [] 0 0;
           quick_loop (S total_elems) a 0 (total_elems - 1) stack
         else Ok a);
    let thresh := Nat.min (total_elems - 1) (Z.to_nat MAX_THRESH) in
    tmp ← find_smallest thresh a 1 0;
    a ← (if decide (tmp ≠ 0)%nat then SWAP a tmp 0 else Ok a);
    insertion_loop (total_elems - 2) a 2.

End Model.

Example quicksort_runs :
  quicksort (λ x y : Z, x - y)
    [9; 3; 7; 1; 8; 2; 5; 0; 6; 4; 3; 9; 1; 7; 2; 8; 11; -4; 10; 3; 5; 5; 6; 0; 12] =
  Ok [-4; 0; 0; 1; 1; 2; 2; 3; 3; 3; 4; 5; 5; 5; 6; 6; 7; 7; 8; 8; 9; 9; 10; 11; 12].
Proof. vm_compute. reflexivity. Qed.

(** A comparison function whose sign does not depend on the argument order. *)
Class SignComparator {A} (cmp : A → A → Z) : Prop := {
  sign_comparator :: Comparator cmp;
  cmp_sign : ∀ x y, cmp x y < 0 ↔ 0 < cmp y x;
}.

Section Order.
Context {A : Type} (cmp : A → A → Z) `{!SignComparator cmp}.
Abbreviation le := (cle cmp).

Lemma not_less x y : ¬ cmp x y < 0 → le y x.
Proof. intros H. unfold cle. rewrite cmp_sign in H. lia. Qed.
Lemma less_le x y : cmp x y < 0 → le x y.
Proof. unfold cle. lia. Qed.
Lemma le_not_less x y : le x y → ¬ cmp y x < 0.
Proof. unfold cle. rewrite cmp_sign. lia. Qed.
Lemma le_refl x : le x x.
Proof. apply not_less. intros H. pose proof (proj1 (cmp_sign x x) H). lia. Qed.
Lemma le_trans x y z : le x y → le y z → le x z.
Proof. apply cmp_trans. Qed.

Lemma less_at_spec (a : list A) i j x y : a !! i = Some x → a !! j = Some y →
  less_at cmp a i j = Ok (cmp x y <? 0).
Proof. intros Hi Hj. unfold less_at. by rewrite (load_ok a i x), (load_ok a j y). Qed.
End Order.

(** ** Rearranging a segment of an array *)

Section Segments.
Context {A : Type}.
Implicit Types (a b c : list A) (P : A → Prop).

(** All elements of positions [lo .. hi] satisfy [P]. *)
Definition seg P (lo hi : nat) a : Prop := ∀ i x, (lo ≤ i ≤ hi)%nat → a !! i = Some x → P x.

(** [b] is [a] with the elements of [lo .. hi] moved among themselves. *)
Record shuffle (lo hi : nat) a b : Prop := {
  sh_length : length b = length a;
  sh_perm : b ≡ₚ a;
  sh_outside : ∀ i, (i < lo ∨ hi < i)%nat → b !! i = a !! i;
  sh_inside : ∀ P, seg P lo hi a → seg P lo hi b;
}.

Lemma shuffle_refl lo hi a : shuffle lo hi a a.
Proof. by split. Qed.
Lemma shuffle_trans lo hi a b c : shuffle lo hi a b → shuffle lo hi b c → shuffle lo hi a c.
Proof.
  intros [L1 P1 O1 I1] [L2 P2 O2 I2]. split; [congruence|by rewrite P2|..|by auto].
  intros i Hi. by rewrite O2, O1.
Qed.

Lemma shuffle_seg lo hi P l h a b : shuffle lo hi a b → (l ≤ lo ∧ hi ≤ h ∨ hi < l ∨ h < lo)%nat →
  seg P l h a → seg P l h b.
Proof.
  intros [_ _ O I] Hc HP i x Hi Hx. destruct (decide (lo ≤ i ≤ hi)%nat) as [Hin|Hout].
  - eapply (I P); [|exact Hin|exact Hx]. intros j y Hj Hy. eapply HP; [|exact Hy]. lia.
  - rewrite O in Hx by lia. by eapply HP.
Qed.

Lemma shuffle_weaken lo hi l h a b : (l ≤ lo)%nat → (hi ≤ h)%nat → shuffle lo hi a b → shuffle l h a b.
Proof.
  intros Hl Hh Hs. pose proof Hs as [L P O _]. split; [done|done| |].
  - intros i Hi. apply O. lia.
  - intros Q HQ. eapply shuffle_seg; [exact Hs| |exact HQ]. by left.
Qed.

(** The state after exchanging two elements. *)
Definition swapped a i j x y : list A := <[j := x]> (<[i := y]> a).

Lemma SWAP_ok a i j x y : a !! i = Some x → a !! j = Some y → SWAP a i j = Ok (swapped a i j x y).
Proof.
  intros Hi Hj. unfold SWAP. rewrite (load_ok a i x), (load_ok a j y) by done. cbn [mbind res_bind].
  apply lookup_lt_Some in Hi, Hj. rewrite store_ok by done. cbn [mbind res_bind].
  rewrite store_ok by (by rewrite length_insert). done.
Qed.

Lemma swapped_lookup a i j x y k : a !! i = Some x → a !! j = Some y →
  swapped a i j x y !! k = if decide (k = j) then Some x else if decide (k = i) then Some y else a !! k.
Proof.
  intros Hi Hj. apply lookup_lt_Some in Hi, Hj. unfold swapped.
  case_decide as Hkj; [subst; by rewrite list_lookup_insert_eq by (by rewrite length_insert)|].
  rewrite list_lookup_insert_ne by done. case_decide; [subst; by rewrite list_lookup_insert_eq|].
  by rewrite list_lookup_insert_ne.
Qed.

Lemma swapped_perm a i j x y : a !! i = Some x → a !! j = Some y → swapped a i j x y ≡ₚ a.
Proof. intros Hi Hj. unfold swapped. by apply Permutation_insert_swap. Qed.

Lemma swapped_shuffle lo hi a i j x y : a !! i = Some x → a !! j = Some y →
  (lo ≤ i ≤ hi)%nat → (lo ≤ j ≤ hi)%nat → shuffle lo hi a (swapped a i j x y).
Proof.
  intros Hi Hj Hli Hlj. split.
  - unfold swapped. by rewrite !length_insert.
  - by apply swapped_perm.
  - intros k Hk. rewrite swapped_lookup by done. rewrite !decide_False by lia. done.
  - intros P HP k z Hk Hz. rewrite swapped_lookup in Hz by done. repeat case_decide; simplify_eq.
    + by apply (HP i).
    + by apply (HP j).
    + by apply (HP k).
Qed.
End Segments.

(** ** Partitioning *)

Section Partition.
Context {A : Type} (cmp : A → A → Z) `{!SignComparator cmp}.
Implicit Types (a b : list A).
Abbreviation le := (cle cmp).

(** One conditional exchange puts two elements in order. *)
Lemma order_two a i j x y lo hi : a !! i = Some x → a !! j = Some y → i ≠ j →
  (lo ≤ i ≤ hi)%nat → (lo ≤ j ≤ hi)%nat →
  ∃ b u v, (r ← less_at cmp a i j; if (r : bool) then SWAP a i j else Ok a) = Ok b ∧
    shuffle lo hi a b ∧ b !! j = Some u ∧ b !! i = Some v ∧ le u v ∧
    (∀ k, k ≠ i → k ≠ j → b !! k = a !! k) ∧ (∀ z, le z x → le z y → le z u) ∧
    (∀ z, le x z → le y z → le v z).
Proof.
  intros Hi Hj Hij Hli Hlj. rewrite (less_at_spec cmp a i j x y) by done. cbn [mbind res_bind].
  destruct (Z.ltb_spec (cmp x y) 0) as [Hlt|Hge].
  - rewrite (SWAP_ok a i j x y) by done. exists (swapped a i j x y), x, y.
    split; [done|]. split; [by apply swapped_shuffle|]. rewrite !swapped_lookup by done.
    rewrite decide_True by done. rewrite decide_False, decide_True by done.
    split; [done|]. split; [done|]. split; [by apply less_le|]. split; [|by auto].
    intros k Hki Hkj. rewrite swapped_lookup by done. by rewrite !decide_False.
  - exists a, y, x. split; [done|]. split; [apply shuffle_refl|]. split; [done|]. split; [done|].
    split; [apply (not_less cmp); lia|]. auto.
Qed.

Lemma median_spec a lo mid hi x y z : (lo < mid < hi)%nat →
  a !! lo = Some x → a !! mid = Some y → a !! hi = Some z →
  ∃ b u v w, median cmp a lo mid hi = Ok b ∧ shuffle lo hi a b ∧
    b !! lo = Some u ∧ b !! mid = Some v ∧ b !! hi = Some w ∧ le u v ∧ le v w.
Proof.
  intros Hm Hx Hy Hz. unfold median.
  destruct (order_two a mid lo y x lo hi) as (b & u & v & E1 & S1 & Hu & Hv & Huv & O1 & _); [done|done|lia..|].
  rewrite (less_at_spec cmp a mid lo y x) in * by done. cbn [mbind res_bind] in *. rewrite E1. cbn [mbind res_bind].
  assert (b !! hi = Some z) as Hz1 by (rewrite O1 by lia; done).
  rewrite (less_at_spec cmp b hi mid z v) by done. cbn [mbind res_bind].
  destruct (Z.ltb_spec (cmp z v) 0) as [Hlt|Hge].
  - rewrite (SWAP_ok b mid hi v z) by done. cbn [mbind res_bind].
    pose proof (swapped_lookup b mid hi v z) as Hl. set (c := swapped b mid hi v z) in *.
    assert (c !! lo = Some u ∧ c !! mid = Some z ∧ c !! hi = Some v) as (Cl & Cm & Ch).
    { rewrite !Hl by done. repeat case_decide; try lia; done. }
    assert (shuffle lo hi a c) as S2 by (eapply shuffle_trans; [exact S1|apply swapped_shuffle; done || lia]).
    destruct (order_two c mid lo z u lo hi) as (d & u' & v' & E3 & S3 & Hu' & Hv' & Huv' & O3 & _ & Hle);
      [done|done|lia..|].
    rewrite E3. exists d, u', v', v. split; [done|]. split; [by eapply shuffle_trans|].
    split; [done|]. split; [done|]. split; [rewrite O3 by lia; done|]. split; [done|].
    apply Hle; [by apply less_le|done].
  - exists b, u, v, z. split; [done|]. split; [done|]. split; [done|]. split; [done|]. split; [done|].
    split; [done|]. apply (not_less cmp). lia.
Qed.

(** The left wall stops at the first element that is not below the pivot. *)
Lemma left_scan_spec a mid v stop fuel : ∀ l, a !! mid = Some v → (l ≤ stop)%nat →
  (stop < length a)%nat → (∀ x, a !! stop = Some x → le v x) → (stop - l < fuel)%nat →
  ∃ l' x, left_scan cmp fuel a mid l = Ok l' ∧ (l ≤ l' ≤ stop)%nat ∧
    (∀ i y, (l ≤ i < l')%nat → a !! i = Some y → le y v) ∧ a !! l' = Some x ∧ le v x.
Proof.
  induction fuel as [|fuel IH]; intros l Hv Hl Hs Hx Hf; [lia|]. cbn [left_scan].
  destruct (lookup_lt_is_Some_2 a l) as [y Hy]; [lia|].
  rewrite (less_at_spec cmp a l mid y v) by done. cbn [mbind res_bind].
  destruct (Z.ltb_spec (cmp y v) 0) as [Hlt|Hge].
  - assert (l ≠ stop) as Hne by (intros ->; by apply (le_not_less cmp v y (Hx y Hy))).
    destruct (IH (l + 1)%nat) as (l' & x & E & Hr & Hb & Hx'); [done|lia|done|done|lia|].
    exists l', x. split; [done|]. split; [lia|]. split; [|done].
    intros i z Hi Hz. destruct (decide (i = l)) as [->|]; [simplify_eq; by apply less_le|].
    apply (Hb i); [lia|done].
  - exists l, y. split; [done|]. split; [lia|]. split; [lia|]. split; [done|]. apply (not_less cmp). lia.
Qed.

Lemma right_scan_spec a mid v stop fuel : ∀ r, a !! mid = Some v → (stop ≤ r)%nat →
  (r < length a)%nat → (∀ x, a !! stop = Some x → le x v) → (r - stop < fuel)%nat →
  ∃ r' x, right_scan cmp fuel a mid r = Ok r' ∧ (stop ≤ r' ≤ r)%nat ∧
    (∀ i y, (r' < i ≤ r)%nat → a !! i = Some y → le v y) ∧ a !! r' = Some x ∧ le x v.
Proof.
  induction fuel as [|fuel IH]; intros r Hv Hr Hlen Hx Hf; [lia|]. cbn [right_scan].
  destruct (lookup_lt_is_Some_2 a r) as [y Hy]; [lia|].
  rewrite (less_at_spec cmp a mid r v y) by done. cbn [mbind res_bind].
  destruct (Z.ltb_spec (cmp v y) 0) as [Hlt|Hge].
  - assert (r ≠ stop) as Hne by (intros ->; by apply (le_not_less cmp y v (Hx y Hy))).
    destruct r as [|r]; [lia|].
    destruct (IH r) as (r' & x & E & Hrr & Hb & Hx'); [done|lia|lia|done|lia|].
    exists r', x. split; [done|]. split; [lia|]. split; [|done].
    intros i z Hi Hz. destruct (decide (i = S r)) as [->|]; [simplify_eq; by apply less_le|].
    apply (Hb i); [lia|done].
  - exists r, y. split; [done|]. split; [lia|]. split; [lia|]. split; [done|]. apply (not_less cmp). lia.
Qed.

(** The walls meet: everything left of [l] is at most the pivot, everything
    right of [r] at least the pivot, and [r < l]. *)
Lemma collapse_spec lo hi v fuel : ∀ a mid lp rp, a !! mid = Some v → (lo ≤ mid ≤ hi)%nat →
  (hi < length a)%nat → (lo < lp ≤ rp)%nat → (rp < hi)%nat →
  seg (λ x, le x v) lo (lp - 1) a → seg (λ x, le v x) (rp + 1) hi a → (rp - lp < fuel)%nat →
  ∃ b l r, collapse cmp fuel a mid lp rp = Ok (b, l, r) ∧ shuffle lo hi a b ∧
    (lo ≤ r < l)%nat ∧ (l ≤ hi)%nat ∧ seg (λ x, le x v) lo (l - 1) b ∧ seg (λ x, le v x) (r + 1) hi b.
Proof.
  induction fuel as [|fuel IH]; intros a mid lp rp Hv Hm Hlen Hlr Hrh Hbelow Habove Hf; [lia|].
  cbn [collapse].
  destruct (left_scan_spec a mid v (rp + 1) (length a) lp) as (l & x & -> & Hl & Hlb & Hx & Hvx);
    [done|lia|lia|intros z Hz; apply (Habove (rp + 1)%nat); [lia|done]|lia|].
  cbn [mbind res_bind].
  assert (seg (λ z, le z v) lo (l - 1) a) as Hbelow'.
  { intros i z Hi Hz. destruct (decide (i < lp)%nat); [apply (Hbelow i); [lia|done]|apply (Hlb i); [lia|done]]. }
  destruct (right_scan_spec a mid v (l - 1) (length a) rp) as (r & y & -> & Hr & Hrb & Hy & Hyv);
    [done|lia|lia|intros z Hz; apply (Hbelow' (l - 1)%nat); [lia|done]|lia|].
  cbn [mbind res_bind].
  assert (seg (λ z, le v z) (r + 1) hi a) as Habove'.
  { intros i z Hi Hz. destruct (decide (rp < i)%nat); [apply (Habove i); [lia|done]|apply (Hrb i); [lia|done]]. }
  case_decide as Hlt.
  - rewrite (SWAP_ok a l r x y) by done. cbn [mbind res_bind].
    pose proof (swapped_lookup a l r x y) as Hsw. pose proof (swapped_shuffle lo hi a l r x y Hx Hy) as Hsh.
    set (b := swapped a l r x y) in *. specialize (Hsh ltac:(lia) ltac:(lia)).
    assert (seg (λ z, le z v) lo l b) as Hb1.
    { intros i z Hi Hz. rewrite Hsw in Hz by done. repeat case_decide; simplify_eq; [lia|done|].
      apply (Hbelow' i); [lia|done]. }
    assert (seg (λ z, le v z) r hi b) as Hb2.
    { intros i z Hi Hz. rewrite Hsw in Hz by done. repeat case_decide; simplify_eq; [done|lia|].
      apply (Habove' i); [lia|done]. }
    set (mid' := if decide (mid = l) then r else if decide (mid = r) then l else mid).
    assert (b !! mid' = Some v ∧ (lo ≤ mid' ≤ hi)%nat) as [Hv' Hm'].
    { subst mid'. repeat case_decide; subst; rewrite Hsw by done; repeat case_decide;
        simplify_eq; (split; [done|lia]). }
    case_decide as Hgo.
    + destruct (IH b mid' (l + 1)%nat (r - 1)%nat) as (c & l' & r' & E & Hc & Hr' & Hl' & H1 & H2);
        [done|done|by rewrite (sh_length _ _ _ _ Hsh)|lia|lia| | |lia|].
      * by replace (l + 1 - 1)%nat with l by lia.
      * by replace (r - 1 + 1)%nat with r by lia.
      * exists c, l', r'. split; [done|]. split; [by eapply shuffle_trans|]. done.
    + exists b, (l + 1)%nat, (r - 1)%nat. split; [done|]. split; [done|]. split; [lia|]. split; [lia|].
      replace (l + 1 - 1)%nat with l by lia. by replace (r - 1 + 1)%nat with r by lia.
  - case_decide as Heq.
    + subst r. destruct l as [|m]; [lia|]. exists a, (S m + 1)%nat, m. simplify_eq.
      split; [done|]. split; [apply shuffle_refl|]. split; [lia|]. split; [lia|]. split.
      * intros i z Hi Hz. destruct (decide (i = S m)) as [->|]; [by simplify_eq|].
        apply (Hbelow' i); [lia|done].
      * intros i z Hi Hz. destruct (decide (i = S m)) as [->|]; [by simplify_eq|].
        apply (Habove' i); [lia|done].
    + exists a, l, r. split; [done|]. split; [apply shuffle_refl|]. split; [lia|]. split; [lia|done].
Qed.

(** One round of the outer loop on a partition of at least five elements. *)
Lemma partition_spec a lo hi : (lo + 4 ≤ hi)%nat → (hi < length a)%nat →
  ∃ b c v l r, median cmp a lo (lo + (hi - lo) / 2) hi = Ok b ∧
    collapse cmp (length b) b (lo + (hi - lo) / 2) (lo + 1) (hi - 1) = Ok (c, l, r) ∧
    shuffle lo hi a c ∧ (lo ≤ r < l)%nat ∧ (l ≤ hi)%nat ∧
    seg (λ x, le x v) lo (l - 1) c ∧ seg (λ x, le v x) (r + 1) hi c.
Proof.
  intros Hs Hh. set (mid := (lo + (hi - lo) / 2)%nat).
  assert (lo < mid < hi)%nat as Hm.
  { subst mid. pose proof (Nat.div_mod (hi - lo) 2 ltac:(lia)). pose proof (Nat.mod_upper_bound (hi - lo) 2 ltac:(lia)). lia. }
  destruct (lookup_lt_is_Some_2 a lo) as [x Hx]; [lia|].
  destruct (lookup_lt_is_Some_2 a mid) as [y Hy]; [lia|].
  destruct (lookup_lt_is_Some_2 a hi) as [z Hz]; [lia|].
  destruct (median_spec a lo mid hi x y z) as (b & u & v & w & E & Hsh & Hu & Hv & Hw & Huv & Hvw);
    [done..|].
  pose proof (sh_length _ _ _ _ Hsh) as Hlen.
  destruct (collapse_spec lo hi v (length b) b mid (lo + 1) (hi - 1)) as (c & l & r & Ec & Hc & Hr & Hl & H1 & H2);
    [done|lia|lia|lia|lia| | |lia|].
  - intros i t Hi Ht. replace i with lo in Ht by lia. by simplify_eq.
  - intros i t Hi Ht. replace i with hi in Ht by lia. by simplify_eq.
  - exists b, c, v, l, r. split; [done|]. split; [done|]. split; [by eapply shuffle_trans|]. done.
Qed.
End Partition.

(** ** The stack of partitions *)

Section Stack.
Context {A : Type} (cmp : A → A → Z) `{!SignComparator cmp}.
Implicit Types (a b : list A) (p q : list (nat * nat)) (s t : nat * nat).
Abbreviation le := (cle cmp).

Definition width s : Z := Z.of_nat s.2 - Z.of_nat s.1.
Definition disjoint_segs s t : Prop := (s.2 < t.1 ∨ t.2 < s.1)%nat.

Fixpoint apart p : Prop :=
  match p with
  | [] => True
  | s :: p' => Forall (disjoint_segs s) p' ∧ apart p'
  end.

(** The entry with [d] entries below it spans at most [n / 2 ^ d]. *)
Fixpoint halving (n : Z) p : Prop :=
  match p with
  | [] => True
  | s :: p' => width s * 2 ^ Z.of_nat (length p') ≤ n ∧ halving n p'
  end.

(** The leftmost elements, up to [k], are at most all later ones; they are few,
    or still waiting, and nothing else that waits touches them. *)
Record leftmost a p (k : nat) : Prop := {
  lm_bound : (k < length a)%nat;
  lm_small : (k ≤ 4)%nat ∨ (0%nat, k) ∈ p;
  lm_apart : Forall (λ s, s = (0%nat, k) ∨ (k < s.1)%nat) p;
  lm_order : ∀ i j x y, (i ≤ k < j)%nat → a !! i = Some x → a !! j = Some y → le x y;
}.

Definition waiting n p : Prop := Forall (λ s, (s.1 + 4 ≤ s.2 < n)%nat) p ∧ apart p.

Fixpoint total p : Z := match p with [] => 0 | s :: p' => width s + total p' end.

Lemma disjoint_sub s s' t : (s.1 ≤ s'.1)%nat → (s'.2 ≤ s.2)%nat → disjoint_segs s t → disjoint_segs s' t.
Proof. unfold disjoint_segs. lia. Qed.

Lemma Forall_disjoint_sub s s' p : (s.1 ≤ s'.1)%nat → (s'.2 ≤ s.2)%nat →
  Forall (disjoint_segs s) p → Forall (disjoint_segs s') p.
Proof. intros H1 H2 H. eapply Forall_impl; [exact H|]. intros t. by apply disjoint_sub. Qed.

Lemma leftmost_step a c lo hi l r v p q k : shuffle lo hi a c → (lo ≤ r < l)%nat → (l ≤ hi)%nat →
  seg (λ x, le x v) lo (l - 1) c → seg (λ x, le v x) (r + 1) hi c →
  waiting (length a) ((lo, hi) :: p) → leftmost a ((lo, hi) :: p) k →
  Forall (λ s, s = (lo, r) ∨ s = (l, hi)) q → ((4 < r - lo)%nat → (lo, r) ∈ q) →
  ∃ k', leftmost c (q ++ p) k'.
Proof.
  intros Hsh Hr Hl Hb Ha [Hw [Hdis Hap]] [Hk Hsmall Hnot Hord] Hq Hin.
  apply Forall_cons in Hw as [Hw1 Hw]. cbn [fst snd] in Hw1.
  apply Forall_cons in Hnot as [Hcur Hnot]. pose proof (sh_length _ _ _ _ Hsh) as Hlen.
  destruct Hcur as [[= -> ->]|Hlo].
  - exists r. split; [lia| | |].
    + destruct (decide (r ≤ 4)%nat); [by left|right]. apply elem_of_app. left. apply Hin. lia.
    + apply Forall_app. split.
      * eapply Forall_impl; [exact Hq|]. intros s [->| ->]; [by left|right; simpl; lia].
      * rewrite Forall_forall in Hdis, Hw |- *. intros s Hs. right. specialize (Hdis s Hs).
        unfold disjoint_segs in Hdis. cbn [fst snd] in Hdis. lia.
    + intros i j x y Hij Hx Hy. destruct (decide (j ≤ k)%nat) as [Hj|Hj].
      * apply (le_trans cmp x v y); [apply (Hb i); [lia|done]|apply (Ha j); [lia|done]].
      * rewrite (sh_outside _ _ _ _ Hsh) in Hy by lia.
        apply (sh_inside _ _ _ _ Hsh (λ z, le z y)) with (i := i); [|lia|done].
        intros i' z Hi' Hz. apply (Hord i' j); [lia|done|done].
  - cbn [fst] in Hlo. exists k. split; [lia| | |].
    + destruct Hsmall as [|[[= -> ->]|]%elem_of_cons]; [by left|lia|right; by apply elem_of_app; right].
    + apply Forall_app. split; [|done].
      eapply Forall_impl; [exact Hq|]. intros s [->| ->]; right; simpl; lia.
    + intros i j x y Hij Hx Hy. rewrite (sh_outside _ _ _ _ Hsh) in Hx by lia.
      destruct (decide (lo ≤ j ≤ hi)%nat) as [Hj|Hj].
      * apply (sh_inside _ _ _ _ Hsh (λ z, le x z)) with (i := j); [|lia|done].
        intros j' z Hj' Hz. apply (Hord i j'); [lia|done|done].
      * rewrite (sh_outside _ _ _ _ Hsh) in Hy by lia. by apply (Hord i j).
Qed.

Definition quick_inv n a p : Prop :=
  waiting (length a) p ∧ halving n p ∧ ∃ k, leftmost a p k.

Lemma gap_small (i j : nat) : (j ≤ i)%nat → Z.of_nat i < 2 ^ 64 → gap i j = Z.of_nat i - Z.of_nat j.
Proof. intros. unfold gap, uint64. apply Z.mod_small. lia. Qed.

(** Fewer than 63 partitions wait at any time. *)
Lemma stack_depth n lo hi p : (lo + 4 ≤ hi)%nat → n < 2 ^ 64 → halving n ((lo, hi) :: p) →
  Z.of_nat (length p) < 62.
Proof.
  intros Hs Hn [H _]. unfold width in H. cbn [fst snd] in H.
  destruct (decide (Z.of_nat (length p) < 62)) as [|Hge]; [done|exfalso].
  pose proof (Z.pow_le_mono_r 2 62 (Z.of_nat (length p)) ltac:(lia) ltac:(lia)). nia.
Qed.

Lemma PUSH_ok p lo hi : Z.of_nat (length p) < 62 → PUSH (p ++ [(0, 0)]%nat) lo hi = Ok (((lo, hi) :: p) ++ [(0, 0)]%nat).
Proof.
  intros H. unfold PUSH. rewrite length_app. simpl length.
  by rewrite (proj2 (Z.ltb_lt _ _)) by (unfold STACK_SIZE; lia).
Qed.

Lemma quick_loop_done fuel a lo hi : (0 < fuel)%nat → quick_loop cmp fuel a lo hi [] = Ok a.
Proof. destruct fuel; [lia|done]. Qed.

(** The new list of waiting partitions after a round on [(lo, hi)]. *)
Lemma waiting_step n lo hi l r p q : waiting n ((lo, hi) :: p) → (lo ≤ r < l)%nat → (l ≤ hi)%nat →
  (q = [] ∨ q = [(lo, r)] ∧ (4 < r - lo)%nat ∨ q = [(l, hi)] ∧ (4 < hi - l)%nat ∨
   (q = [(lo, r); (l, hi)] ∨ q = [(l, hi); (lo, r)]) ∧ (4 < r - lo)%nat ∧ (4 < hi - l)%nat) →
  waiting n (q ++ p).
Proof.
  intros [Hw [Hdis Hap]] Hr Hl Hq. apply Forall_cons in Hw as [Hcur Hw]. cbn [fst snd] in Hcur.
  assert (Forall (disjoint_segs (lo, r)) p) as H1 by (eapply Forall_disjoint_sub; [..|exact Hdis]; simpl; lia).
  assert (Forall (disjoint_segs (l, hi)) p) as H2 by (eapply Forall_disjoint_sub; [..|exact Hdis]; simpl; lia).
  assert (disjoint_segs (lo, r) (l, hi) ∧ disjoint_segs (l, hi) (lo, r)) as [H3 H4]
    by (unfold disjoint_segs; simpl; lia).
  destruct Hq as [->|[[-> ?]|[[-> ?]|[[->| ->] [??]]]]]; 
    unfold waiting; cbn [apart app]; rewrite ?Forall_cons; cbn [fst snd]; repeat split; done || lia.
Qed.

Lemma width_le (w w' e n : Z) : 0 < e → w' ≤ w → w * e ≤ n → w' * e ≤ n.
Proof. nia. Qed.
Lemma width_half (w w' e n : Z) : 0 < e → 2 * w' ≤ w → w * e ≤ n → w' * (2 * e) ≤ n.
Proof. nia. Qed.

Lemma quick_loop_spec n fuel : ∀ a lo hi p, n < 2 ^ 64 → Z.of_nat (length a) ≤ 2 ^ 64 →
  quick_inv n a ((lo, hi) :: p) → total ((lo, hi) :: p) < Z.of_nat fuel →
  ∃ b k, quick_loop cmp (S fuel) a lo hi (p ++ [(0, 0)]%nat) = Ok b ∧ b ≡ₚ a ∧ leftmost b [] k.
Proof.
  induction fuel as [|fuel IH]; intros a lo hi p Hn Hlen (Hw & Hh & k & Hk) Ht.
  { exfalso. destruct Hw as [Hw _]. assert (∀ q, Forall (λ s, (s.1 + 4 ≤ s.2 < length a)%nat) q → 0 ≤ total q) as H0.
    { clear. induction 1 as [|s q Hs Hq IHq]; [done|]. cbn [total]. unfold width. lia. }
    specialize (H0 _ Hw). lia. }
  pose proof Hw as [[Hcur Hwp]%Forall_cons _]. cbn [fst snd] in Hcur.
  destruct (partition_spec cmp a lo hi) as (b & c & v & l & r & Em & Ec & Hsh & Hr & Hl & H1 & H2); [lia|lia|].
  pose proof (sh_length _ _ _ _ Hsh) as Hlc. pose proof (stack_depth n lo hi p ltac:(lia) Hn Hh) as Hdepth.
  assert (∀ q, Forall (λ s, s = (lo, r) ∨ s = (l, hi)) q → ((4 < r - lo)%nat → (lo, r) ∈ q) →
    waiting (length a) (q ++ p) → halving n (q ++ p) → quick_inv n c (q ++ p)) as Hinv.
  { intros q Hq Hin Hwq Hhq. split; [by rewrite Hlc|]. split; [done|].
    by eapply leftmost_step with (a := a) (lo := lo) (hi := hi) (l := l) (r := r) (v := v). }
  assert (c ≡ₚ a) as Hperm by apply Hsh.
  assert (∀ lo' hi' p', quick_inv n c ((lo', hi') :: p') → total ((lo', hi') :: p') < total ((lo, hi) :: p) →
    ∃ b' k', quick_loop cmp (S fuel) c lo' hi' (p' ++ [(0, 0)]%nat) = Ok b' ∧ b' ≡ₚ a ∧ leftmost b' [] k') as Hgo.
  { intros lo' hi' p' Hq Htot. destruct (IH c lo' hi' p') as (b' & k' & E & Hp' & Hk'); [done|by rewrite Hlc|done|lia|].
    exists b', k'. split; [done|]. split; [by rewrite Hp'|done]. }
  destruct Hh as [Hhc Hhp]. unfold width in Hhc. cbn [fst snd] in Hhc.
  assert (0 < 2 ^ Z.of_nat (length p)) as Hpow by (apply Z.pow_pos_nonneg; lia).
  assert (0 ≤ total p) as Htp.
  { clear -Hwp. induction Hwp as [|s q Hs Hq IHq]; [done|]. cbn [total]. unfold width. lia. }
  assert (∃ plo phi below, p ++ [(0, 0)]%nat = (plo, phi) :: below) as (plo & phi & below & Estk).
  { destruct p as [|[plo phi] below]; [by exists 0%nat, 0%nat, []|by eexists _, _, _]. }
  assert (0 < S fuel)%nat as Hf0 by lia. clear IH Ht. remember (S fuel) as f eqn:Ef. clear Ef.
  rewrite Estk. cbn [quick_loop]. rewrite Em. cbn [mbind res_bind].
  destruct hi as [|hi']; [lia|]. replace (S hi' - 1)%nat with hi' in Ec by lia.
  rewrite Ec. cbn [mbind res_bind]. clear Em Ec. set (hi := S hi') in *. clearbody hi. clear hi'.
  rewrite !gap_small by lia. unfold MAX_THRESH. rewrite <-Estk.
  assert (width (lo, r) = Z.of_nat r - Z.of_nat lo) as W1 by done.
  assert (width (l, hi) = Z.of_nat hi - Z.of_nat l) as W2 by done.
  assert (width (lo, hi) = Z.of_nat hi - Z.of_nat lo) as W by done.
  destruct (Z.leb_spec (Z.of_nat r - Z.of_nat lo) 4) as [Hs1|Hs1];
    destruct (Z.leb_spec (Z.of_nat hi - Z.of_nat l) 4) as [Hs2|Hs2].
  - specialize (Hinv []). cbn [app] in Hinv.
    destruct p as [|[x y] p']; cbn [app] in Estk; injection Estk as <- <- <-.
    + rewrite quick_loop_done by lia. destruct Hinv as (_ & _ & k' & Hk'); [constructor|lia|by split|done|].
      exists c, k'. done.
    + apply Hgo; [|cbn [total] in *; lia].
      apply Hinv; [constructor|lia| |exact Hhp]. apply (waiting_step _ lo hi l r _ []); auto.
  - apply Hgo; [|cbn [total] in *; lia]. apply (Hinv [(l, hi)]); [by constructor; [right|]|lia| |].
    + apply (waiting_step _ lo hi l r); auto. right; right; left. split; [done|lia].
    + split; [|done]. rewrite W2. eapply width_le; [exact Hpow| |exact Hhc]; lia.
  - apply Hgo; [|cbn [total] in *; lia]. apply (Hinv [(lo, r)]); [by constructor; [left|]|set_solver| |].
    + apply (waiting_step _ lo hi l r); auto. right; left. split; [done|lia].
    + split; [|done]. rewrite W1. eapply width_le; [exact Hpow| |exact Hhc]; lia.
  - destruct (Z.ltb_spec (Z.of_nat hi - Z.of_nat l) (Z.of_nat r - Z.of_nat lo)) as [Hc|Hc];
      rewrite PUSH_ok by done; cbn [mbind res_bind].
    + apply Hgo; [|cbn [total] in *; lia].
      apply (Hinv [(l, hi); (lo, r)]); [by constructor; [right|constructor; [left|]]|set_solver| |].
      * apply (waiting_step _ lo hi l r); auto. do 3 right. split; [by right|lia].
      * cbn [halving app length]. rewrite W1, W2, Nat2Z.inj_succ, Z.pow_succ_r by lia. 
        split; [eapply width_half; [exact Hpow| |exact Hhc]; lia|].
        split; [eapply width_le; [exact Hpow| |exact Hhc]; lia|done].
    + apply Hgo; [|cbn [total] in *; lia].
      apply (Hinv [(lo, r); (l, hi)]); [by constructor; [left|constructor; [right|]]|set_solver| |].
      * apply (waiting_step _ lo hi l r); auto. do 3 right. split; [by left|lia].
      * cbn [halving app length]. rewrite W1, W2, Nat2Z.inj_succ, Z.pow_succ_r by lia. 
        split; [eapply width_half; [exact Hpow| |exact Hhc]; lia|].
        split; [eapply width_le; [exact Hpow| |exact Hhc]; lia|done].
Qed.
End Stack.

(** ** The insertion sort *)

Section Insertion.
Context {A : Type} (cmp : A → A → Z) `{!SignComparator cmp}.
Implicit Types (a b p r : list A).
Abbreviation le := (cle cmp).

Lemma find_smallest_spec a k : ∀ run tmp v, (tmp < run)%nat → (run + k ≤ length a)%nat →
  a !! tmp = Some v → (∀ i y, (i < run)%nat → a !! i = Some y → le v y) →
  ∃ m w, find_smallest cmp k a run tmp = Ok m ∧ (m < run + k)%nat ∧ a !! m = Some w ∧
    ∀ i y, (i < run + k)%nat → a !! i = Some y → le w y.
Proof.
  induction k as [|k IH]; intros run tmp v Ht Hl Hv Hmin; cbn [find_smallest].
  { exists tmp, v. rewrite Nat.add_0_r. done. }
  destruct (lookup_lt_is_Some_2 a run) as [x Hx]; [lia|].
  rewrite (less_at_spec cmp a run tmp x v) by done. cbn [mbind res_bind].
  replace (run + S k)%nat with (run + 1 + k)%nat by lia.
  destruct (Z.ltb_spec (cmp x v) 0) as [Hlt|Hge].
  - apply (IH (run + 1)%nat run x); [lia|lia|done|]. intros i y Hi Hy.
    destruct (decide (i = run)) as [->|]; [simplify_eq; apply (le_refl cmp)|].
    apply (le_trans cmp x v y); [by apply less_le|]. apply (Hmin i); [lia|done].
  - apply (IH (run + 1)%nat tmp v); [lia|lia|done|]. intros i y Hi Hy.
    destruct (decide (i = run)) as [->|]; [simplify_eq; apply (not_less cmp); lia|].
    apply (Hmin i); [lia|done].
Qed.

Lemma insert_scan_spec a run x tmp : a !! run = Some x → (tmp < run)%nat →
  (∀ y, a !! 0%nat = Some y → le y x) →
  ∃ t y, insert_scan cmp a run tmp = Ok (S t) ∧ (t ≤ tmp)%nat ∧ a !! t = Some y ∧ le y x ∧
    ∀ i z, (t < i ≤ tmp)%nat → a !! i = Some z → le x z.
Proof.
  intros Hx. induction tmp as [|tmp IH]; intros Ht H0.
  - destruct (lookup_lt_is_Some_2 a 0) as [y Hy]; [apply lookup_lt_Some in Hx; lia|].
    cbn [insert_scan]. rewrite (less_at_spec cmp a run 0 x y) by done. cbn [mbind res_bind].
    destruct (Z.ltb_spec (cmp x y) 0) as [Hlt|]; [by apply (le_not_less cmp y x (H0 y Hy)) in Hlt|].
    exists 0%nat, y. split; [done|]. split; [lia|]. split; [done|]. split; [by apply H0|]. lia.
  - destruct (lookup_lt_is_Some_2 a (S tmp)) as [y Hy]; [apply lookup_lt_Some in Hx; lia|].
    cbn [insert_scan]. rewrite (less_at_spec cmp a run (S tmp) x y) by done. cbn [mbind res_bind].
    destruct (Z.ltb_spec (cmp x y) 0) as [Hlt|Hge].
    + destruct IH as (t & w & E & Hle & Hw & Hwx & Hb); [lia|done|].
      exists t, w. split; [done|]. split; [lia|]. split; [done|]. split; [done|]. intros i z Hi Hz.
      destruct (decide (i = S tmp)) as [->|]; [simplify_eq; by apply less_le|]. apply (Hb i); [lia|done].
    + exists (S tmp), y. split; [done|]. split; [lia|]. split; [done|]. split; [apply (not_less cmp); lia|]. lia.
Qed.

Lemma shift_up_spec (pre mid : list A) : ∀ y post c k hi, k = length mid → hi = (length pre + k)%nat →
  shift_up k (pre ++ mid ++ y :: post) hi c = Ok (pre ++ c :: mid ++ post).
Proof.
  induction mid as [|z mid IH] using rev_ind; intros y post c k hi -> ->.
  - cbn [length shift_up app]. rewrite Nat.add_0_r, store_ok by len.
    by rewrite insert_app_r_alt, Nat.sub_diag by done.
  - rewrite length_app. cbn [length]. replace (length mid + 1)%nat with (S (length mid)) by lia.
    cbn [shift_up]. replace (length pre + S (length mid))%nat with (S (length pre + length mid)) by lia.
    rewrite (load_ok _ _ z).
    2:{ rewrite lookup_app_r by lia. rewrite <-app_assoc, lookup_app_r by lia.
        by replace (length pre + length mid - length pre - length mid)%nat with 0%nat by lia. }
    cbn [mbind res_bind]. rewrite store_ok by (rewrite !length_app; simpl; lia). cbn [mbind res_bind].
    assert (<[S (length pre + length mid) := z]> (pre ++ (mid ++ [z]) ++ y :: post) =
      pre ++ mid ++ z :: z :: post) as ->.
    { rewrite insert_app_r_alt by lia. f_equal. rewrite <-app_assoc, insert_app_r_alt by lia. f_equal.
      by replace (S (length pre + length mid) - length pre - length mid)%nat with 1%nat by lia. }
    rewrite (IH z (z :: post)) by done. by rewrite <-app_assoc.
Qed.

Lemma sorted_insert (l1 l2 : list A) x : StronglySorted le (l1 ++ l2) →
  Forall (λ y, le y x) l1 → Forall (le x) l2 → StronglySorted le (l1 ++ x :: l2).
Proof.
  intros Hs H1 H2. induction H1 as [|y l1 Hy H1 IH]; cbn [app] in *; [by constructor|].
  inversion_clear Hs as [|?? Hs' Hall]. constructor; [by apply IH|].
  apply Forall_app in Hall as [Ha1 Ha2]. apply Forall_app. split; [done|by constructor].
Qed.

Lemma sorted_lookup (l : list A) i j x y : StronglySorted le l → (i ≤ j)%nat →
  l !! i = Some x → l !! j = Some y → le x y.
Proof.
  intros Hs. revert i j. induction Hs as [|z l Hs IH Hall]; intros i j Hij Hx Hy; [done|].
  destruct i as [|i], j as [|j]; try lia.
  - simpl in *. simplify_eq. apply (le_refl cmp).
  - simpl in Hx, Hy. simplify_eq. by apply (proj1 (Forall_lookup _ _) Hall j).
  - apply (IH i j); [lia|done|done].
Qed.

(** Each round grows the sorted prefix by one. *)
Lemma insertion_loop_spec r : ∀ p h, (1 < length p)%nat → head p = Some h → StronglySorted le p →
  Forall (le h) r →
  ∃ b, insertion_loop cmp (length r) (p ++ r) (length p) = Ok b ∧ b ≡ₚ p ++ r ∧ StronglySorted le b.
Proof.
  induction r as [|x r IH]; intros p h Hp Hh Hs Hmin.
  { exists p. rewrite app_nil_r. done. }
  apply Forall_cons in Hmin as [Hhx Hmin]. cbn [length insertion_loop].
  destruct (length p) as [|lp] eqn:El; [lia|].
  assert ((p ++ x :: r) !! S lp = Some x) as Hx by (rewrite <-El, lookup_app_r, Nat.sub_diag by done; done).
  destruct (insert_scan_spec (p ++ x :: r) (S lp) x lp) as (t & y & -> & Ht & Hy & Hyx & Hb); [done|lia| |].
  { intros y Hy. destruct p as [|z p]; [done|]. simpl in Hy, Hh. by simplify_eq. }
  cbn [mbind res_bind].
  assert (∀ i, (i ≤ lp)%nat → (p ++ x :: r) !! i = p !! i) as Hpre by (intros; apply lookup_app_l; lia).
  set (p' := take (S t) p ++ x :: drop (S t) p).
  assert ((if decide (S t ≠ S lp) then c ← load (p ++ x :: r) (S lp);
      shift_up (S lp - S t) (p ++ x :: r) (S lp) c else Ok (p ++ x :: r)) = Ok (p' ++ r)) as ->.
  { case_decide as Hne.
    - rewrite (load_ok _ _ x) by done. cbn [mbind res_bind].
      rewrite <-(take_drop (S t) p) at 1. rewrite <-app_assoc.
      rewrite (shift_up_spec (take (S t) p) (drop (S t) p)); [|rewrite length_drop; lia|rewrite length_take; lia].
      subst p'. by rewrite <-app_assoc.
    - subst p'. replace (S t) with (length p) by lia. rewrite firstn_all, drop_all. by rewrite <-app_assoc. }
  cbn [mbind res_bind].
  assert (length p' = S (S lp)) as El' by (subst p'; rewrite length_app, length_take; cbn [length]; rewrite length_drop; lia).
  assert (StronglySorted le p') as Hs'.
  { apply sorted_insert; [by rewrite take_drop|..]; apply Forall_lookup; intros i z Hz.
    - apply lookup_take_Some in Hz as [Hz Hi]. apply (le_trans cmp z y x); [|done].
      rewrite Hpre in Hy by lia. by apply (sorted_lookup p i t); [done|lia|..].
    - rewrite lookup_drop in Hz. apply (Hb (S t + i)%nat); [apply lookup_lt_Some in Hz; lia|].
      rewrite Hpre; [done|]. apply lookup_lt_Some in Hz; lia. }
  assert (head p' = Some h) as Hh' by (subst p'; destruct p; [done|by simpl in *]).
  destruct (IH p' h) as (b & E & Hperm & Hb'); [lia|done|done|done|].
  rewrite El' in E. replace (S lp + 1)%nat with (S (S lp)) by lia. exists b. split; [done|]. split; [|done].
  rewrite Hperm. subst p'. rewrite <-Permutation_middle, take_drop. cbn [app]. by rewrite Permutation_middle.
Qed.
End Insertion.

(** ** The whole sort *)

Section Quick.
Context {A : Type} (cmp : A → A → Z) `{!SignComparator cmp}.
Implicit Types (a b : list A).
Abbreviation le := (cle cmp).

(** After the quicksort phase the least elements are among the first five. *)
Lemma quick_phase a : (0 < length a)%nat → Z.of_nat (length a) < 2 ^ 64 →
  ∃ b k, (if MAX_THRESH <? Z.of_nat (length a) then
            stack ← PUSH [] 0 0; quick_loop cmp (S (length a)) a 0 (length a - 1) stack
          else Ok a) = Ok b ∧ b ≡ₚ a ∧ (k ≤ 4)%nat ∧
    ∀ i j x y, (i ≤ k < j)%nat → b !! i = Some x → b !! j = Some y → le x y.
Proof.
  intros H0 Hn. unfold MAX_THRESH. destruct (Z.ltb_spec 4 (Z.of_nat (length a))) as [H4|H4].
  - change (PUSH [] 0 0) with (Ok [(0, 0)]%nat : res (list (nat * nat))). cbn [mbind res_bind].
    destruct (quick_loop_spec cmp (Z.of_nat (length a)) (length a) a 0 (length a - 1) []) as (b & k & E & Hp & Hk).
    + done.
    + lia.
    + split; [split; [repeat constructor; simpl; lia|simpl; auto]|].
      split; [unfold halving, width; simpl; split; [lia|done]|].
      exists (length a - 1)%nat. split; [lia|right; set_solver|repeat constructor; by left|].
      intros i j x y Hij _ Hy%lookup_lt_Some. lia.
    + cbn [total]. unfold width. simpl. lia.
    + exists b, k. destruct Hk as [_ [Hk|Hk] _ Hord]; [done|]. by inversion Hk.
  - exists a, (length a - 1)%nat. split; [done|]. split; [done|]. split; [lia|].
    intros i j x y Hij _ Hy%lookup_lt_Some. lia.
Qed.

Lemma quicksort_spec a : Z.of_nat (length a) < 2 ^ 64 →
  ∃ b, quicksort cmp a = Ok b ∧ b ≡ₚ a ∧ StronglySorted le b.
Proof.
  intros Hn. unfold quicksort. case_decide as H0.
  { apply nil_length_inv in H0 as ->. exists []. repeat split; constructor. }
  destruct (quick_phase a) as (b & k & -> & Hb & Hk & Hord); [lia|done|]. cbn [mbind res_bind].
  apply Permutation_length in Hb as Hlen.
  destruct (lookup_lt_is_Some_2 b 0) as [z Hz]; [lia|].
  destruct (find_smallest_spec cmp b (Nat.min (length a - 1) (Z.to_nat MAX_THRESH)) 1 0 z) as
    (m & w & -> & Hm & Hw & Hmin); [lia|lia|done| |].
  { intros i y Hi Hy. replace i with 0%nat in Hy by lia. simplify_eq. apply (le_refl cmp). }
  cbn [mbind res_bind]. change (Z.to_nat MAX_THRESH) with 4%nat in *.
  assert (∀ i y, b !! i = Some y → le w y) as Hall.
  { intros i y Hy. destruct (decide (i < 1 + Nat.min (length a - 1) 4)%nat); [by apply (Hmin i)|].
    apply (le_trans cmp w z y); [apply (Hmin 0%nat); [lia|done]|].
    apply (Hord 0%nat i); [|done|done]. apply lookup_lt_Some in Hy. lia. }
  assert (∃ c, (if decide (m ≠ 0)%nat then SWAP b m 0 else Ok b) = Ok c ∧ c ≡ₚ b ∧ c !! 0%nat = Some w)
    as (c & -> & Hc & Hc0).
  { case_decide as Hm0.
    - exists (swapped b m 0 w z). split; [by apply SWAP_ok|]. split; [by apply swapped_perm|].
      rewrite swapped_lookup by done. by rewrite decide_True.
    - exists b. split; [done|]. split; [done|]. by replace m with 0%nat in Hw by lia. }
  cbn [mbind res_bind]. assert (Forall (le w) c) as Hwc.
  { rewrite Hc. apply Forall_lookup. exact Hall. }
  assert (c ≡ₚ a) as Hca by (by rewrite Hc). apply Permutation_length in Hca as Hlc. rewrite <-Hlc.
  destruct c as [|x0 [|x1 r]]; [done| |]; simpl in Hc0; simplify_eq.
  - exists [w]. split; [done|]. split; [done|]. repeat constructor.
  - replace (length (w :: x1 :: r) - 2)%nat with (length r) by (simpl; lia).
    inversion_clear Hwc as [|?? _ Hwr]. inversion_clear Hwr as [|?? Hw1 Hwr'].
    destruct (insertion_loop_spec cmp r [w; x1] w) as (d & E & Hd & Hs); [simpl; lia|done| |done|].
    + repeat constructor. done.
    + exists d. split; [exact E|]. split; [|done]. by rewrite Hd.
Qed.
End Quick.

(** [_quicksort] sorts in place every array of fewer than [2 ^ 64] elements: it ends, it
    never leaves the array nor its stack of 64 partitions, and the result is a
    sorted permutation of the input. *)
Theorem quicksort_sorts {A} (cmp : A → A → Z) `{!SignComparator cmp} (a : list A) :
  Z.of_nat (length a) < 2 ^ 64 →
  ∃ b, quicksort cmp a = Ok b ∧ b ≡ₚ a ∧ StronglySorted (cle cmp) b.
Proof. apply quicksort_spec, _. Qed.

Lemma sub_sign_comparator : SignComparator (λ x y : Z, x - y).
Proof. split; [apply sub_comparator|lia]. Qed.

Lemma quicksort_sorts_witness :
  ∃ b, quicksort (λ x y : Z, x - y) [3; 1; 2; 7; 5; 6; 4] = Ok b ∧ b ≡ₚ [3; 1; 2; 7; 5; 6; 4] ∧
    StronglySorted (cle (λ x y : Z, x - y)) b.
Proof. apply (@quicksort_sorts Z (λ x y : Z, x - y) sub_sign_comparator). reflexivity. Defined.
