(* ===== verification/QsortR.v ===== *)
(** * glibc: [qsort] and its choice of algorithm

    [__qsort_r] of [glibc-2.27/stdlib/msort.c] decides by the size of the array,
    the physical memory and [malloc] whether a temporary array is available.
    Without one it calls [_quicksort] (QuickSort.v); with one it merge sorts
    the elements (MSort.v), or, for elements of more than 32 bytes, pointers
    to them, and then moves the elements along the cycles of the permutation.

    The theorems: the in-place permutation puts every element where the table
    says and ends, and the sort is right on every path. *)

From Stdlib Require Import Sorted.
From S2P Require Import Prelude CString Machine MSort QuickSort.

(** ** [__qsort_r] *)

Section QsortR.
Context {A : Type} (cmp : A → A → Z).

(** The cycle of entry [i]: [do { ... } while (kp != ip)], pointers into the
    array being indices.  The result also has the last [j]. *)
Fixpoint cycle_loop (fuel : nat) (a : list A) (tp : list nat) (i j kp : nat)
    : res (list A * list nat * nat) :=
  match fuel with
  | O => Bad Unspecified
  | S fuel' =>
      let k := kp in
      tp ← store tp j j;
      x ← load a kp;
      a ← store a j x;
      let j := k in
      kp ← load tp k;
      if decide (kp ≠ i) then cycle_loop fuel' a tp i j kp else Ok (a, tp, j)
  end.

(** "tp[0] .. tp[n - 1] is now sorted, copy around entries of the original
    array.  Knuth vol. 3 (2nd ed.) exercise 5.2-10." *)
Fixpoint permute_loop (count : nat) (a : list A) (tp : list nat) (i : nat) : res (list A) :=
  match count with
  | O => Ok a
  | S count' =>
      kp ← load tp i;
      if decide (kp ≠ i) then
        tmp_storage ← load a i;
        r ← cycle_loop (length a) a tp i i kp;
        let '(a, tp, j) := r in
        tp ← store tp j j;
        a ← store a j tmp_storage;
        permute_loop count' a tp (i + 1)
      else permute_loop count' a tp (i + 1)
  end.

(** A pointer to an element, with the element it points to while [b] is sorted. *)
Definition pointers (a : list A) : list (nat * A) := imap pair a.

Definition indirect_sort (a : list A) (t : list (nat * A)) : res (list A) :=
  r ← msort_with_tmp (λ p q, cmp p.2 q.2) (length a) (pointers a) t 0 (length a);
  permute_loop (length a) a (fst <$> r.1) 0.

(** Whether the temporary array is available. *)
Definition tmp_available (mem : memory) (size : Z) : bool :=
  if size <? 1024 then true
  else
    let pages := if phys_pages mem =? -1 then 2 ^ 63 - 1 else phys_pages mem in
    if Z.quot pages 4 <? size / pagesize mem then false else malloc_ok mem size.

(** [t] and [pt] are the temporary memory as the allocation finds it. *)
Definition qsort_r (mem : memory) (s : Z) (a t : list A) (pt : list (nat * A)) : res (list A) :=
  let n := Z.of_nat (length a) in
  let size := if 32 <? s then uint64 (2 * n * 8 + s) else uint64 (n * s) in
  if tmp_available mem size then
    if 32 <? s then indirect_sort a pt else qsort cmp a t
  else quicksort cmp a.
End QsortR.

(** ** Carrying out a permutation along its cycles *)

(** The path from [x] through [l] to [y] along [tp]. *)
Fixpoint chain (tp : list nat) (x : nat) (l : list nat) (y : nat) : Prop :=
  match l with
  | [] => tp !! x = Some y
  | z :: l' => tp !! x = Some z ∧ chain tp z l' y
  end.

Lemma chain_app tp x l1 z l2 y : chain tp x (l1 ++ z :: l2) y ↔ chain tp x l1 z ∧ chain tp z l2 y.
Proof.
  revert x. induction l1 as [|w l1 IH]; intros x; cbn [app chain]; [done|]. rewrite IH. tauto.
Qed.

Lemma chain_last tp x l y : chain tp x l y → ∃ p, p ∈ x :: l ∧ tp !! p = Some y.
Proof.
  revert x. induction l as [|z l IH]; intros x; cbn [chain].
  - intros H. exists x. split; [by left|done].
  - intros [_ H]. destruct (IH _ H) as (p & Hp & E). exists p. split; [by right|done].
Qed.

Lemma chain_insert tp x l y j v : j ∉ x :: l → chain (<[j := v]> tp) x l y ↔ chain tp x l y.
Proof.
  revert x. induction l as [|z l IH]; intros x Hj; cbn [chain].
  - rewrite list_lookup_insert_ne; [done|set_solver].
  - rewrite IH by set_solver. rewrite list_lookup_insert_ne; [done|set_solver].
Qed.

(** A permutation of the first [n] numbers. *)
Definition permutes (n : nat) (tp : list nat) : Prop := tp ≡ₚ seq 0 n.

Lemma permutes_length n tp : permutes n tp → length tp = n.
Proof. intros H. rewrite (Permutation_length H). apply length_seq. Qed.
Lemma permutes_lt n tp x y : permutes n tp → tp !! x = Some y → (y < n)%nat.
Proof.
  intros H Hy. apply list_elem_of_lookup_2 in Hy. rewrite H in Hy. apply elem_of_seq in Hy. lia.
Qed.
Lemma permutes_inj n tp x y z : permutes n tp → tp !! x = Some z → tp !! y = Some z → x = y.
Proof.
  intros H. assert (NoDup tp) as Hnd by (rewrite H; apply NoDup_seq). by apply NoDup_lookup.
Qed.

(** A path that has not closed yet goes on to a new element. *)
Lemma chain_fresh n tp i l x : permutes n tp → NoDup (i :: l) → chain tp i l x → x ≠ i → x ∉ l.
Proof.
  intros Hp Hnd Hc Hx (l1 & l2 & ->)%list_elem_of_split.
  apply chain_app in Hc as [Hc1 Hc2].
  destruct (chain_last _ _ _ _ Hc1) as (p & Hp1 & Ep). destruct (chain_last _ _ _ _ Hc2) as (q & Hq1 & Eq).
  assert (p = q) as -> by (by eapply permutes_inj).
  rewrite app_comm_cons in Hnd. apply NoDup_app in Hnd as (_ & Hdis & _). by apply (Hdis q).
Qed.

Lemma cycle_exists n tp i : permutes n tp → (i < n)%nat → ∃ l, chain tp i l i ∧ NoDup (i :: l).
Proof.
  intros Hp Hi. assert (∀ d l x, chain tp i l x → NoDup (i :: l) → Forall (λ z, z < n)%nat l →
    (n - length l ≤ d)%nat → ∃ l', chain tp i l' i ∧ NoDup (i :: l')) as H.
  { induction d as [|d IH]; intros l x Hc Hnd Hl Hd.
    - exfalso. assert (length (i :: l) ≤ length (seq 0 n))%nat as Hle.
      { apply NoDup_incl_length; [by apply NoDup_ListNoDup|]. intros z Hz%list_elem_of_In.
        apply list_elem_of_In, elem_of_seq. rewrite Forall_forall in Hl. set_solver by lia. }
      rewrite length_seq in Hle. simpl in Hle. lia.
    - destruct (decide (x = i)) as [->|Hx]; [by exists l|].
      pose proof (chain_fresh n tp i l x Hp Hnd Hc Hx) as Hfresh.
      destruct (chain_last _ _ _ _ Hc) as (p & _ & Hpx). pose proof (permutes_lt n tp p x Hp Hpx) as Hxn.
      destruct (lookup_lt_is_Some_2 tp x) as [y Hy]; [by rewrite (permutes_length n)|].
      apply (IH (l ++ [x]) y).
      + apply chain_app. done.
      + rewrite app_comm_cons. apply NoDup_app. split; [done|]. split; [|apply NoDup_singleton]. set_solver.
      + apply Forall_app. by repeat constructor.
      + rewrite length_app. simpl. lia. }
  destruct (lookup_lt_is_Some_2 tp i) as [x Hx]; [by rewrite (permutes_length n)|].
  apply (H n [] x); [done|apply NoDup_singleton|constructor|simpl; lia].
Qed.

Section Permute.
Context {A : Type}.
Implicit Types (a b : list A) (tp l : list nat).

Lemma cycle_loop_spec l : ∀ fuel a tp i j z, (length l < fuel)%nat → length tp = length a →
  tp !! j = Some z → chain tp z l i → NoDup (j :: z :: l) → i ∉ z :: l →
  (∀ x, x ∈ j :: z :: l → (x < length a)%nat) →
  (∀ x y w, x ∈ j :: z :: l → y ∈ j :: z :: l → tp !! x = Some w → tp !! y = Some w → x = y) →
  (∀ x, x ∈ z :: l → tp !! x = Some j → j = i) →
  ∃ a' tp' jl, cycle_loop fuel a tp i j z = Ok (a', tp', jl) ∧ length a' = length a ∧
    length tp' = length tp ∧ jl ∈ z :: l ∧ tp !! jl = Some i ∧
    (∀ x, x ∉ j :: z :: l → a' !! x = a !! x ∧ tp' !! x = tp !! x) ∧
    (∀ x y, x ∈ j :: z :: l → x ≠ jl → tp !! x = Some y → a' !! x = a !! y ∧ tp' !! x = Some x).
Proof.
  induction l as [|y l IH]; intros fuel a tp i j z Hf Hlen Hj Hc Hnd Hi Hlt Hinj Hback;
    (destruct fuel as [|fuel]; [lia|]); cbn [cycle_loop].
  all: assert (j < length a)%nat as Hja by (apply Hlt; set_solver).
  all: assert (z < length a)%nat as Hza by (apply Hlt; set_solver).
  all: assert (j ≠ z) as Hjz by (inversion_clear Hnd; set_solver).
  all: rewrite store_ok by lia; cbn [mbind res_bind].
  all: destruct (lookup_lt_is_Some_2 a z Hza) as [v Hv]; rewrite (load_ok a z v) by done; cbn [mbind res_bind].
  all: rewrite store_ok by lia; cbn [mbind res_bind].
  - cbn [chain] in Hc. rewrite (load_ok _ z i) by (by rewrite list_lookup_insert_ne). cbn [mbind res_bind].
    rewrite decide_False by (intros H; by apply H).
    eexists _, _, z. split; [done|]. rewrite !length_insert. split; [done|]. split; [done|].
    split; [set_solver|]. split; [done|]. split.
    + intros x Hx. rewrite !list_lookup_insert_ne by set_solver. done.
    + intros x w Hx Hxz Hw. assert (x = j) as -> by set_solver.
      rewrite !list_lookup_insert_eq by lia. split; [congruence|done].
  - destruct Hc as [Hzy Hc]. rewrite (load_ok _ z y) by (by rewrite list_lookup_insert_ne).
    cbn [mbind res_bind]. rewrite decide_True by set_solver.
    apply NoDup_cons in Hnd as [Hnj Hnd].
    assert (∀ x, x ∈ z :: y :: l → <[j := j]> tp !! x = tp !! x) as Hsame
      by (intros x Hx; apply list_lookup_insert_ne; set_solver).
    destruct (IH fuel (<[j := v]> a) (<[j := j]> tp) i z y) as (a' & tp' & jl & E & L1 & L2 & Hjl & Hjli & Hout & Hin).
    + simpl in Hf. lia.
    + by rewrite !length_insert.
    + rewrite Hsame by set_solver. done.
    + apply chain_insert; [set_solver|done].
    + done.
    + set_solver.
    + intros x Hx. rewrite length_insert. apply Hlt. set_solver.
    + intros x x' w Hx Hx'. rewrite !Hsame by done. apply Hinj; set_solver.
    + intros x Hx. rewrite Hsame by set_solver. intros Hxz.
      assert (x = j) as -> by (apply (Hinj x j z); [set_solver..|done|done]). set_solver.
    + rewrite Hsame in Hjli by set_solver. rewrite !length_insert in *.
      exists a', tp', jl. split; [done|]. split; [done|]. split; [done|]. split; [set_solver|].
      split; [done|]. split.
      * intros x Hx. destruct (Hout x) as [-> ->]; [set_solver|].
        rewrite !list_lookup_insert_ne by set_solver. done.
      * intros x w Hx Hxjl Hw. destruct (decide (x = j)) as [->|Hxj].
        -- destruct (Hout j) as [-> ->]; [done|]. rewrite !list_lookup_insert_eq by lia.
           split; [congruence|done].
        -- assert (x ∈ z :: y :: l) as Hx' by set_solver.
           destruct (Hin x w) as [-> ->]; [done|done|by rewrite Hsame|]. split; [|done].
           apply list_lookup_insert_ne. intros <-. apply Hxjl.
           assert (j = i) as -> by (by apply (Hback x)).
           apply (Hinj x jl i); [set_solver..|done|done].
Qed.

(** An injective table of the right length is a permutation. *)
Lemma permutes_intro n tp : length tp = n → (∀ x y, tp !! x = Some y → (y < n)%nat) →
  (∀ x y z, tp !! x = Some z → tp !! y = Some z → x = y) → permutes n tp.
Proof.
  intros Hl Hlt Hinj. unfold permutes. apply submseteq_length_Permutation; [|rewrite length_seq; lia].
  apply NoDup_submseteq; [apply NoDup_alt; eauto|]. intros y [x Hx]%list_elem_of_lookup.
  apply elem_of_seq. specialize (Hlt _ _ Hx). lia.
Qed.

Lemma chain_pred tp x l y c : chain tp x l y → c ∈ l → ∃ p, p ∈ x :: l ∧ tp !! p = Some c.
Proof.
  intros Hc (l1 & l2 & ->)%list_elem_of_split. apply chain_app in Hc as [Hc _].
  destruct (chain_last _ _ _ _ Hc) as (p & Hp & E). exists p. split; [set_solver|done].
Qed.

Lemma chain_lt n tp x l y c : permutes n tp → chain tp x l y → c ∈ l → (c < n)%nat.
Proof. intros Hp Hc Hin. destruct (chain_pred _ _ _ _ _ Hc Hin) as (p & _ & E). by eapply permutes_lt. Qed.

(** Turning the entries of a cycle into fixed points leaves a permutation. *)
Lemma permutes_fix n tp tp' (c : list nat) : permutes n tp → length tp' = n →
  (∀ x, x ∈ c → (x < n)%nat) → (∀ x, x ∈ c → tp' !! x = Some x) → (∀ x, x ∉ c → tp' !! x = tp !! x) →
  (∀ x y, x ∉ c → tp !! x = Some y → y ∉ c) → permutes n tp'.
Proof.
  intros Hp Hl Hlt Hin Hout Hclosed. apply permutes_intro; [done|..].
  - intros x y Hxy. destruct (decide (x ∈ c)) as [Hx|Hx].
    + rewrite (Hin x Hx) in Hxy. simplify_eq. by apply Hlt.
    + rewrite (Hout x Hx) in Hxy. by eapply permutes_lt.
  - intros x y z Hx Hy. destruct (decide (x ∈ c)) as [Hxc|Hxc], (decide (y ∈ c)) as [Hyc|Hyc].
    + rewrite (Hin x Hxc) in Hx. rewrite (Hin y Hyc) in Hy. congruence.
    + rewrite (Hin x Hxc) in Hx. rewrite (Hout y Hyc) in Hy. simplify_eq. by destruct (Hclosed y z Hyc Hy).
    + rewrite (Hout x Hxc) in Hx. rewrite (Hin y Hyc) in Hy. simplify_eq. by destruct (Hclosed x z Hxc Hx).
    + rewrite (Hout x Hxc) in Hx. rewrite (Hout y Hyc) in Hy. by eapply permutes_inj.
Qed.

(** The body of the outer loop on an entry that is not in place. *)
Lemma cycle_body n a tp i kp v : permutes n tp → length a = n → tp !! i = Some kp → kp ≠ i →
  a !! i = Some v →
  ∃ (c : list nat) a1 tp1 j, cycle_loop (length a) a tp i i kp = Ok (a1, tp1, j) ∧ (j < length a1)%nat ∧
    length a1 = n ∧ length tp1 = n ∧ i ∈ c ∧
    (∀ x y, x ∈ c → tp !! x = Some y → <[j := v]> a1 !! x = a !! y ∧ <[j := j]> tp1 !! x = Some x) ∧
    (∀ x, x ∉ c → <[j := v]> a1 !! x = a !! x ∧ <[j := j]> tp1 !! x = tp !! x) ∧
    (∀ x, x ∈ c → (x < n)%nat) ∧ (∀ x y, x ∉ c → tp !! x = Some y → y ∉ c).
Proof.
  intros Hp Ha Hkp Hki Hv. assert (i < n)%nat as Hi by (apply lookup_lt_Some in Hv; lia).
  destruct (cycle_exists n tp i Hp Hi) as ([|z l] & Hc & Hnd); [cbn [chain] in Hc; congruence|].
  pose proof Hc as [Hz Hc']. assert (z = kp) as -> by congruence. set (c := i :: kp :: l).
  assert (∀ x, x ∈ c → (x < n)%nat) as Hlt.
  { intros x [->|Hx]%elem_of_cons; [lia|]. by eapply chain_lt. }
  assert (length tp = length a) as Hta by (rewrite (permutes_length n) by done; lia).
  destruct (cycle_loop_spec l (length a) a tp i i kp) as (a' & tp' & jl & E & L1 & L2 & Hjl & Hjli & Hout & Hin);
    [|done|done|done|done|by inversion_clear Hnd|by rewrite Ha|intros x y w _ _; by eapply permutes_inj|done|].
  { assert (length c ≤ length (seq 0 n))%nat as Hle.
    { apply submseteq_length, NoDup_submseteq; [done|]. intros x Hx. apply elem_of_seq. specialize (Hlt x Hx). lia. }
    rewrite length_seq in Hle. simpl in Hle. lia. }
  assert (jl < length a)%nat as Hjla by (rewrite Ha; apply Hlt; by right).
  exists c, a', tp', jl. split; [done|]. split; [lia|]. split; [lia|]. split; [lia|]. split; [by left|]. split; [|split; [|split; [done|]]].
  - intros x y Hx Hy. destruct (decide (x = jl)) as [->|Hne].
    + rewrite !list_lookup_insert_eq by lia. assert (y = i) as -> by congruence. done.
    + rewrite !list_lookup_insert_ne by done. by apply Hin.
  - intros x Hx. assert (jl ≠ x) by (intros ->; apply Hx; by right).
    rewrite !list_lookup_insert_ne by done. by apply Hout.
  - intros x y Hx Hy Hin'. assert (∃ p, p ∈ c ∧ tp !! p = Some y) as (p & Hp1 & Hp2).
    { apply elem_of_cons in Hin' as [->|Hin']; [by apply (chain_last tp i (kp :: l) i)|by eapply chain_pred]. }
    apply Hx. by rewrite (permutes_inj n tp x p y Hp Hy Hp2).
Qed.

(** The outer loop moves every element where the table says. *)
Lemma permute_loop_spec n count : ∀ a tp i, (i + count = n)%nat → length a = n → permutes n tp →
  (∀ x, (x < i)%nat → tp !! x = Some x) →
  ∃ b, permute_loop count a tp i = Ok b ∧ length b = n ∧ ∀ x y, tp !! x = Some y → b !! x = a !! y.
Proof.
  induction count as [|count IH]; intros a tp i Hi Ha Hp Hdone; cbn [permute_loop].
  { exists a. split; [done|]. split; [done|]. intros x y Hx. apply lookup_lt_Some in Hx as Hlt.
    rewrite (permutes_length n) in Hlt by done. rewrite Hdone in Hx by lia. by simplify_eq. }
  destruct (lookup_lt_is_Some_2 tp i) as [kp Hkp]; [rewrite (permutes_length n) by done; lia|].
  rewrite (load_ok tp i kp) by done. cbn [mbind res_bind]. case_decide as Hki.
  2:{ apply (IH a tp (i + 1)%nat); [lia|done|done|]. intros x Hx.
      destruct (decide (x = i)) as [->|]; [rewrite Hkp; f_equal; lia|apply Hdone; lia]. }
  destruct (lookup_lt_is_Some_2 a i) as [v Hv]; [lia|]. rewrite (load_ok a i v) by done. cbn [mbind res_bind].
  destruct (cycle_body n a tp i kp v) as (c & a1 & tp1 & j & -> & Hj & L1 & L2 & Hic & Hcyc & Hrest & Hlt & Hclosed);
    [done..|].
  cbn [mbind res_bind]. rewrite store_ok by lia. cbn [mbind res_bind]. rewrite store_ok by lia. cbn [mbind res_bind].
  assert (∀ x, x ∈ c → <[j := j]> tp1 !! x = Some x) as Hfix.
  { intros x Hx. destruct (lookup_lt_is_Some_2 tp x) as [y Hy].
    { rewrite (permutes_length n) by done. by apply Hlt. } by apply (Hcyc x y). }
  destruct (IH (<[j := v]> a1) (<[j := j]> tp1) (i + 1)%nat) as (b & E & Hlb & Hb);
    [lia|by rewrite length_insert| |..].
  - apply (permutes_fix n tp _ c); [done|by rewrite length_insert|done|done|by intros; apply Hrest|done].
  - intros x Hx. destruct (decide (x ∈ c)) as [Hxc|Hxc]; [by apply Hfix|].
    destruct (Hrest x Hxc) as [_ ->]. apply Hdone. assert (x ≠ i) by (by intros ->). lia.
  - exists b. split; [done|]. split; [done|]. intros x y Hxy. destruct (decide (x ∈ c)) as [Hxc|Hxc].
    + destruct (Hcyc x y Hxc Hxy) as [<- Htx]. by apply Hb.
    + destruct (Hrest x Hxc) as [_ Htx]. destruct (Hrest y (Hclosed x y Hxc Hxy)) as [<- _].
      apply Hb. congruence.
Qed.
End Permute.

(** ** [qsort] on every path *)

Section Sorts.
Context {A : Type} (cmp : A → A → Z).

#[local] Instance pointer_comparator `{!Comparator cmp} : Comparator (λ p q : nat * A, cmp p.2 q.2).
Proof. split; [intros; apply cmp_total|intros x y z; apply cmp_trans]. Qed.

Lemma pointers_lookup (a : list A) i : pointers a !! i = (λ x, (i, x)) <$> a !! i.
Proof. unfold pointers. by rewrite list_lookup_imap. Qed.

Lemma pointers_fst (a : list A) : (pointers a).*1 = seq 0 (length a).
Proof.
  apply list_eq. intros i. rewrite list_lookup_fmap, pointers_lookup.
  destruct (a !! i) as [x|] eqn:E; simpl.
  - symmetry. apply lookup_seq. apply lookup_lt_Some in E. lia.
  - symmetry. apply lookup_ge_None. rewrite length_seq. by apply lookup_ge_None.
Qed.
Lemma pointers_snd (a : list A) : (pointers a).*2 = a.
Proof.
  apply list_eq. intros i. rewrite list_lookup_fmap, pointers_lookup. by destruct (a !! i).
Qed.

Lemma sorted_snd (l : list (nat * A)) : StronglySorted (cle (λ p q, cmp p.2 q.2)) l →
  StronglySorted (cle cmp) (l.*2).
Proof. induction 1 as [|p l Hs IH Hall]; [constructor|]. constructor; [done|]. by apply Forall_fmap. Qed.

Lemma indirect_sort_spec `{!Comparator cmp} (a : list A) t : (length a ≤ length t)%nat →
  ∃ b, indirect_sort cmp a t = Ok b ∧ b ≡ₚ a ∧ StronglySorted (cle cmp) b.
Proof.
  intros Ht. unfold indirect_sort.
  assert (length (pointers a) = length a) as Hl by (unfold pointers; apply length_imap).
  destruct (qsort_sorts (λ p q : nat * A, cmp p.2 q.2) (pointers a) t) as (s & Es & Hp & Hs & _); [lia|].
  unfold qsort in Es. rewrite Hl in Es. apply res_bind_Ok in Es as ([s' t'] & -> & [= ->]).
  cbn [mbind res_bind fst].
  destruct (permute_loop_spec (length a) (length a) a s.*1 0) as (b & -> & Hlb & Hb);
    [done|done|unfold permutes; by rewrite Hp, pointers_fst|lia|].
  assert (b = s.*2) as ->.
  { apply list_eq. intros x. rewrite list_lookup_fmap. destruct (s !! x) as [[k v]|] eqn:E; cbn.
    - rewrite (Hb x k) by (by rewrite list_lookup_fmap, E).
      assert ((k, v) ∈ pointers a) as [i Hi]%list_elem_of_lookup by (rewrite <-Hp; by eapply list_elem_of_lookup_2).
      rewrite pointers_lookup in Hi. destruct (a !! i) eqn:Ei; simplify_eq/=. done.
    - apply lookup_ge_None. rewrite Hlb, <-Hl, <-(Permutation_length Hp). by apply lookup_ge_None. }
  exists (s.*2). split; [done|]. split; [by rewrite Hp, pointers_snd|by apply sorted_snd].
Qed.
End Sorts.

Lemma qsort_r_spec {A} (cmp : A → A → Z) `{!SignComparator cmp} mem s (a t : list A) pt :
  Z.of_nat (length a) < 2 ^ 64 → (length a ≤ length t)%nat → (length a ≤ length pt)%nat →
  ∃ b, qsort_r cmp mem s a t pt = Ok b ∧ b ≡ₚ a ∧ StronglySorted (cle cmp) b.
Proof.
  intros Hn Ht Hpt. unfold qsort_r. destruct (tmp_available _ _); [|by apply quicksort_spec].
  destruct (32 <? s); [by apply indirect_sort_spec; [apply _|]|].
  destruct (qsort_sorts cmp a t Ht) as (b & E & Hp & Hs & _). by exists b.
Qed.

(** C16: [__qsort_r] sorts on every path: with the temporary array on the stack or from
    [malloc], by elements or by pointers followed by the in-place
    permutation, and without it by [_quicksort]; whatever [sysconf] and
    [malloc] answer, the result is a sorted permutation of the input. *)
Theorem qsort_r_sorts {A} (cmp : A → A → Z) `{!SignComparator cmp} mem s (a t : list A) pt :
  Z.of_nat (length a) < 2 ^ 64 → (length a ≤ length t)%nat → (length a ≤ length pt)%nat →
  ∃ b, qsort_r cmp mem s a t pt = Ok b ∧ b ≡ₚ a ∧ StronglySorted (cle cmp) b.
Proof. apply qsort_r_spec. apply _. Qed.

Definition sample_memory : memory := Memory 100 4096 (λ _, true).

Lemma qsort_r_sorts_witness :
  ∃ b, qsort_r (λ x y : Z, x - y) sample_memory 40 [3; 1; 2; 7; 5] (zeros 5) (replicate 5 (0%nat, 0)) = Ok b ∧
    b ≡ₚ [3; 1; 2; 7; 5] ∧ StronglySorted (cle (λ x y : Z, x - y)) b.
Proof.
  apply (@qsort_r_sorts Z (λ x y : Z, x - y) sub_sign_comparator sample_memory 40 [3; 1; 2; 7; 5] (zeros 5)
    (replicate 5 (0%nat, 0))); [reflexivity|by_decide|by_decide].
Defined.

(** The three paths on the same input. *)
Example qsort_r_paths :
  (λ sm : Z * memory, qsort_r (λ x y : Z, x - y) sm.2 sm.1 [3; 1; 2; 7; 5; 0] (zeros 6) (replicate 6 (0%nat, 0)))
    <$> [(8, sample_memory); (40, sample_memory); (1000, Memory 0 1024 (λ _, true))] =
  replicate 3 (Ok [0; 1; 2; 3; 5; 7]).
Proof. vm_compute. reflexivity. Qed.
