(* ===== verification/ScanDir.v ===== *)
(** * glibc dirent: the rewritten [scandir]

    The repository's glibc passes two extra strings, [start] and [end], through
    [scandir] to the selection function.  [SCANDIR_TAIL] reads the directory,
    keeps copies of the selected entries in an array that grows by doubling,
    sorts them with [qsort] and gives the count; any refused allocation or
    failed read makes it free everything and return -1.

    The theorems: with a working system the result is the sorted list of the
    selected entries, whatever order the directory lists them in; otherwise the
    result is -1 and never a partial list; the array is never overrun. *)

From Stdlib Require Import Sorted.
From S2P Require Import Prelude CString Machine ConfigFile Log MSort QuickSort QsortR.

(** ** Directory entries *)

Definition DT_DIR : Z := 4.
Definition DT_REG : Z := 8.

(** [struct dirent]: [d_name] is a string, its NUL left out. *)
Record dirent := mkDirent { d_name : list Z; d_type : Z }.

#[global] Instance dirent_eq_dec : EqDecision dirent.
Proof. solve_decision. Defined.

(** The entries below the directory [p]. *)
Definition is_child (p q : path) : bool := bool_decide (q ≠ [] ∧ removelast q = p).
Definition children (w : World) (p : path) : list path :=
  filter (λ q, is_child p q = true) (elements (w_dirs w) ++ elements (dom (w_files w))).
Definition path_entry (w : World) (q : path) : dirent :=
  mkDirent (default [] (last q)) (if bool_decide (q ∈ w_dirs w) then DT_DIR else DT_REG).
Definition dots : list dirent := [mkDirent (lit ".") DT_DIR; mkDirent (lit "..") DT_DIR].

(** ** Operations *)

(** [strcmp] of two strings given without their NUL. *)
Definition scmp (a b : list Z) : Z :=
  match strcmp (a ++ [0]) (b ++ [0]) with Ok z => z | Bad _ => 0 end.

(** [int alphasort (const struct dirent **a, const struct dirent **b)]; the
    program never leaves the C locale, where [strcoll] is [strcmp]. *)
Definition alphasort (a b : dirent) : Z := scmp (d_name a) (d_name b).

Section Ops.
Context `{Env}.

(** [malloc] and [realloc] *)
Definition alloc : IO bool :=
  n ← tick;
  match env_io_fail n with
  | Some _ => set_err ENOMEM ;; mret false
  | None => mret true
  end.

(** [opendir]: the entries the directory will list, or NULL. *)
Definition opendir (s : list Z) : IO (option (list dirent)) :=
  n ← tick;
  w ← gets id;
  let p := path_of w s in
  match env_io_fail n with
  | Some e => set_err e ;; mret None
  | None =>
      if bool_decide (p ∈ w_dirs w)
      then mret (Some (dots ++ (path_entry w <$> env_dirorder p (children w p))))
      else set_err ENOENT ;; mret None
  end.

(** [readdir]: the next entry and the rest; NULL at the end and on an error,
    which sets [errno]. *)
Definition readdir (dp : list dirent) : IO (option dirent * list dirent) :=
  n ← tick;
  match env_io_fail n with
  | Some e => set_err e ;; mret (None, dp)
  | None => match dp with d :: dp' => mret (Some d, dp') | [] => mret (None, []) end
  end.

(** The capacity after a growth step. *)
Definition grow (vsize : nat) : nat := if decide (vsize = 0)%nat then 10%nat else (2 * vsize)%nat.

(** [v[c.cnt++] = copy of d], in an array of [vsize] slots. *)
Definition push (v : list dirent) (vsize : nat) (d : dirent) : res (list dirent) :=
  if decide (length v < vsize)%nat then Ok (v ++ [d]) else Bad OutOfBounds.

(** The reading loop of [SCANDIR_TAIL]; [v] are the filled slots. *)
Fixpoint scan_loop (fuel : nat) (select : dirent → IO Z) (dp : list dirent)
    (v : list dirent) (vsize : nat) : IO (list dirent) :=
  match fuel with
  | O => λ _, OutOfFuel
  | S fuel' =>
      r ← readdir dp;
      match r with
      | (None, _) => mret v
      | (Some d, dp) =>
          selected ← select d;
          set_err 0 ;;
          if selected =? 0 then scan_loop fuel' select dp v vsize
          else
            let full := bool_decide (length v = vsize) in
            ok ← (if full then alloc else mret true);
            if negb ok then mret v
            else
              let vsize := if full then grow vsize else vsize in
              ok ← alloc;
              if negb ok then mret v
              else
                v ← lift (push v vsize d);
                set_err 0 ;;
                scan_loop fuel' select dp v vsize
      end
  end.

Definition sizeof_pointer : Z := 8.

(** [int SCANDIR_TAIL (DIR *dp, .. ***namelist, .. select, start, end, cmp)]: the
    result, an [int] that gets the [size_t] count, and [*namelist]. *)
Definition SCANDIR_TAIL (dp : option (list dirent)) (select : dirent → IO Z)
    (cmp : option (dirent → dirent → Z)) : IO (Z * list dirent) :=
  match dp with
  | None => mret (-1, [])
  | Some dp =>
      save ← gets w_errno;
      set_err 0 ;;
      v ← scan_loop (S (length dp)) select dp [] 0;
      e ← gets w_errno;
      if e =? 0 then
        v ← (match cmp with
             | Some cmp =>
                 n ← gets w_nsys;
                 lift (qsort_r cmp (env_memory n) sizeof_pointer v v (pointers v))
             | None => mret v
             end);
        let result := int32 (Z.of_nat (length v)) in
        (if 0 <=? result then set_err save else mret tt) ;;
        mret (result, v)
      else mret (-1, [])
  end.

(** [int SCANDIR (const char *dir, .. )] *)
Definition SCANDIR (dir : list Z) (select : dirent → IO Z)
    (cmp : option (dirent → dirent → Z)) : IO (Z * list dirent) :=
  dp ← opendir dir;
  SCANDIR_TAIL dp select cmp.

End Ops.

(** A directory lists each entry once, in some order. *)
Class DirOrder `{Env} : Prop := dir_order : ∀ p l, env_dirorder p l ≡ₚ l.

(** The system reports a failure with a non-zero errno. *)
Class Errnos `{Env} : Prop := errno_nonzero : ∀ n e, env_io_fail n = Some e → e ≠ 0.

(** ** The order of names *)

Lemma scmp_nil_cons y b : scmp [] (y :: b) = - y.
Proof.
  unfold scmp. cbn [app strcmp]. destruct (Z.eqb_spec 0 y); cbn [negb]; [|lia].
  subst. done.
Qed.

Lemma scmp_cons x a y b :
  scmp (x :: a) (y :: b) = if x =? y then (if x =? 0 then 0 else scmp a b) else x - y.
Proof.
  unfold scmp. cbn [app strcmp]. destruct (Z.eqb_spec x y); cbn [negb]; [|done].
  by destruct (x =? 0).
Qed.

Lemma scmp_cons_nil x a : scmp (x :: a) [] = x.
Proof.
  unfold scmp. cbn [app strcmp]. destruct (Z.eqb_spec x 0); cbn [negb]; [by subst|lia].
Qed.

Lemma scmp_antisym a : ∀ b, scmp b a = - scmp a b.
Proof.
  induction a as [|x a IH]; intros [|y b]; rewrite ?scmp_nil_cons, ?scmp_cons_nil, ?scmp_cons; [done|lia..|].
  rewrite (Z.eqb_sym y x). destruct (Z.eqb_spec x y) as [->|]; [|lia]. destruct (y =? 0); [done|apply IH].
Qed.

Lemma scmp_trans a : ∀ b c, scmp a b ≤ 0 → scmp b c ≤ 0 → scmp a c ≤ 0.
Proof.
  induction a as [|x a IH]; intros [|y b] [|z c];
    rewrite ?scmp_nil_cons, ?scmp_cons_nil, ?scmp_cons; try lia; try done.
  - destruct (Z.eqb_spec y z); lia.
  - intros Hx Hz. destruct (Z.eqb_spec x z); [|lia]. destruct (Z.eqb_spec x 0); lia.
  - destruct (Z.eqb_spec x y); lia.
  - destruct (Z.eqb_spec x y) as [->|], (Z.eqb_spec y z) as [->|]; try (repeat case_match; lia).
    destruct (z =? 0); [done|]. apply IH.
Qed.

#[global] Instance alphasort_comparator : Comparator alphasort.
Proof.
  split; unfold alphasort.
  - intros x y. rewrite (scmp_antisym (d_name x) (d_name y)). lia.
  - intros x y z. apply scmp_trans.
Qed.
#[global] Instance alphasort_sign_comparator : SignComparator alphasort.
Proof.
  split; [apply _|]. intros x y. unfold alphasort. rewrite (scmp_antisym (d_name x) (d_name y)). lia.
Qed.

(** Equal strings are the same name. *)
Lemma scmp_0 a b : nz a → nz b → scmp a b = 0 → a = b.
Proof.
  intros Ha Hb. unfold scmp.
  destruct (strcmp_cstr (a ++ [0]) (b ++ [0]) a b) as (d & -> & Hd); [by apply cstr_app_ne..|].
  apply Hd.
Qed.

(** ** Reading the directory *)

Section Reading.
Context `{Env, !Errnos, !Logger} (select : dirent → IO Z) (sel : dirent → bool).

(** The selection function decides [sel] and may write log lines. *)
Definition selects : Prop := ∀ d w, log_ready w →
  ∃ z w', select d w = Ret z w' ∧ (z =? 0) = negb (sel d) ∧ log_frame w w' ∧ log_ready w'.

Context (Hsel : selects).

Definition good_from (n : nat) : Prop := ∀ k, (n ≤ k)%nat → env_io_fail k = None.

Lemma frame_err e w : log_frame w (set_errno e w).
Proof. by constructor. Qed.
Lemma ready_err e w : log_ready w → log_ready (set_errno e w).
Proof. intros Hr. eapply log_ready_stable; [exact Hr|by constructor]. Qed.
Lemma frame_tick w : log_frame w (set_nsys (S (w_nsys w)) w).
Proof. constructor; try done. cbn. lia. Qed.
Lemma ready_tick n w : log_ready w → log_ready (set_nsys n w).
Proof. intros Hr. eapply log_ready_stable; [exact Hr|by constructor]. Qed.

(** A step of the reading loop leaves a state the loop can go on from. *)
Record scan_state (w0 w : World) : Prop := {
  ss_frame : log_frame w0 w;
  ss_ready : log_ready w;
}.

Lemma alloc_spec w0 w :
  scan_state w0 w → w_errno w = 0 →
  ∃ ok w', alloc w = Ret ok w' ∧ scan_state w0 w' ∧
    (if ok then w_errno w' = 0 else w_errno w' ≠ 0) ∧ (good_from (w_nsys w) → ok = true) ∧
    (w_nsys w ≤ w_nsys w')%nat.
Proof.
  intros [Hf Hr] He. unfold alloc, tick, mbind, M_bind.
  destruct (env_io_fail (w_nsys w)) as [e|] eqn:E.
  - eexists false, _. split; [done|]. split; [|split; [done|split; [|cbn; lia]]].
    + constructor; [|by apply ready_err, ready_tick].
      etrans; [exact Hf|]. etrans; [apply frame_tick|apply frame_err].
    + intros Hg. rewrite Hg in E; [done|lia].
  - eexists true, _. split; [done|]. split; [|split; [done|split; [done|cbn; lia]]].
    constructor; [|by apply ready_tick]. etrans; [exact Hf|apply frame_tick].
Qed.

Lemma readdir_spec w0 w dp :
  scan_state w0 w → w_errno w = 0 →
  ∃ r w', readdir dp w = Ret r w' ∧ scan_state w0 w' ∧ (w_nsys w ≤ w_nsys w')%nat ∧
    ((w_errno w' = 0 ∧ r = match dp with d :: dp' => (Some d, dp') | [] => (None, []) end) ∨
     (w_errno w' ≠ 0 ∧ r = (None, dp) ∧ ¬ good_from (w_nsys w))).
Proof.
  intros [Hf Hr] He. unfold readdir, tick, mbind, M_bind.
  destruct (env_io_fail (w_nsys w)) as [e|] eqn:E.
  - eexists _, _. split; [done|]. split; [|split; [cbn; lia|]].
    + constructor; [|by apply ready_err, ready_tick].
      etrans; [exact Hf|]. etrans; [apply frame_tick|apply frame_err].
    + right. split; [by apply errno_nonzero in E|]. split; [done|].
      intros Hg. rewrite Hg in E; [done|lia].
  - exists (match dp with d :: dp' => (Some d, dp') | [] => (None, []) end), (set_nsys (S (w_nsys w)) w).
    split; [by destruct dp|]. split; [|split; [cbn; lia|by left]].
    constructor; [|by apply ready_tick]. etrans; [exact Hf|apply frame_tick].
Qed.

Lemma good_from_mono n m : (n ≤ m)%nat → good_from n → good_from m.
Proof. intros Hl Hg k Hk. apply Hg. lia. Qed.

Lemma push_ok v vsize d : (length v < vsize)%nat → push v vsize d = Ok (v ++ [d]).
Proof. intros. unfold push. by rewrite decide_True. Qed.

(** The loop collects exactly the selected entries unless a call fails. *)
Lemma scan_loop_spec w0 fuel : ∀ dp v vsize w,
  (length dp < fuel)%nat → (length v ≤ vsize)%nat → scan_state w0 w → w_errno w = 0 →
  ∃ v' w', scan_loop fuel select dp v vsize w = Ret v' w' ∧ scan_state w0 w' ∧
    (w_errno w' = 0 → v' = v ++ filter (λ d, sel d = true) dp) ∧
    (good_from (w_nsys w) → w_errno w' = 0).
Proof.
  induction fuel as [|fuel IH]; intros dp v vsize w Hl Hv Hs He; [lia|]. cbn [scan_loop].
  destruct (readdir_spec w0 w dp Hs He) as (r & w1 & E1 & Hs1 & Hn1 & Hr).
  rewrite (bind_Ret _ _ _ _ _ E1).
  destruct Hr as [[He1 ->]|(He1 & -> & Hng)].
  2: { exists v, w1. split; [done|]. split; [done|]. split; [done|]. intros Hg. by destruct Hng. }
  destruct dp as [|d dp]; [exists v, w1; split; [done|]; split; [done|]; split; [by rewrite app_nil_r|done]|].
  destruct (Hsel d w1 (ss_ready _ _ Hs1)) as (z & w2 & E2 & Hz & Hf2 & Hr2).
  rewrite (bind_Ret _ _ _ _ _ E2). rewrite bind_set_err.
  set (w3 := set_errno 0 w2).
  assert (scan_state w0 w3) as Hs3.
  { constructor; [|by apply ready_err]. etrans; [apply (ss_frame _ _ Hs1)|]. etrans; [exact Hf2|apply frame_err]. }
  assert (w_nsys w ≤ w_nsys w3)%nat as Hn3 by (pose proof (lf_nsys _ _ Hf2); cbn; lia).
  rewrite Hz. rewrite filter_cons. destruct (sel d) eqn:Ed; cbn [negb].
  2: { destruct (IH dp v vsize w3) as (v' & w' & E & Hs' & Hv' & Hg'); [simpl in Hl; lia|done..|].
       exists v', w'. split; [exact E|]. split; [done|]. split; [done|].
       intros Hg. apply Hg'. by eapply good_from_mono. }
  set (full := bool_decide (length v = vsize)). set (vs := if full then grow vsize else vsize).
  assert (length v < vs)%nat as Hvs.
  { unfold vs, full, grow. case_bool_decide; [case_decide|]; lia. }
  assert (∃ ok w4, (if full then alloc else mret true) w3 = Ret ok w4 ∧ scan_state w0 w4 ∧
    (if ok then w_errno w4 = 0 else w_errno w4 ≠ 0) ∧ (good_from (w_nsys w3) → ok = true) ∧
    (w_nsys w3 ≤ w_nsys w4)%nat) as (ok & w4 & E4 & Hs4 & He4 & Hg4 & Hn4).
  { destruct full; [by apply alloc_spec|]. exists true, w3. done. }
  rewrite (bind_Ret _ _ _ _ _ E4). destruct ok; cbn [negb].
  2: { exists v, w4. split; [done|]. split; [done|]. split; [done|].
       intros Hg. discriminate Hg4. by eapply good_from_mono. }
  destruct (alloc_spec w0 w4 Hs4 He4) as (ok & w5 & E5 & Hs5 & He5 & Hg5 & Hn5).
  rewrite (bind_Ret _ _ _ _ _ E5). destruct ok; cbn [negb].
  2: { exists v, w5. split; [done|]. split; [done|]. split; [done|].
       intros Hg. discriminate Hg5. eapply good_from_mono; [|exact Hg]. lia. }
  rewrite push_ok by done. rewrite bind_lift_Ok. rewrite bind_set_err.
  destruct (IH dp (v ++ [d]) vs (set_errno 0 w5)) as (v' & w' & E & Hs' & Hv' & Hg');
    [simpl in Hl; lia|rewrite length_app; simpl; lia| |done|].
  { destruct Hs5. constructor; [by etrans; [eassumption|apply frame_err]|by apply ready_err]. }
  exists v', w'. split; [exact E|]. split; [done|]. rewrite decide_True by done. split.
  - intros He'. rewrite Hv' by done. by rewrite <-app_assoc.
  - intros Hg. apply Hg'. eapply good_from_mono; [|exact Hg]. cbn. lia.
Qed.

Context `{!DirOrder}.

(** The entries of the directory that the caller wants. *)
Definition wanted (w : World) (p : path) : list dirent :=
  filter (λ d, sel d = true) (dots ++ (path_entry w <$> children w p)).

(** Fewer entries than an address space has bytes. *)
Definition listable (w : World) (p : path) : Prop := Z.of_nat (length (children w p)) < 2 ^ 63.

Lemma wanted_small w p : listable w p → Z.of_nat (length (wanted w p)) < 2 ^ 64.
Proof.
  unfold listable, wanted. intros Hl. rewrite filter_app, length_app.
  pose proof (length_filter (λ d, sel d = true) dots) as Hd1.
  pose proof (length_filter (λ d, sel d = true) (path_entry w <$> children w p)) as Hd2.
  rewrite length_fmap in Hd2. cbn [dots length] in Hd1. lia.
Qed.

Lemma opendir_eq s w :
  let w1 := set_nsys (S (w_nsys w)) w in
  opendir s w =
  match env_io_fail (w_nsys w) with
  | Some e => Ret None (set_errno e w1)
  | None =>
      if bool_decide (path_of w s ∈ w_dirs w)
      then Ret (Some (dots ++ (path_entry w <$> env_dirorder (path_of w s) (children w (path_of w s))))) w1
      else Ret None (set_errno ENOENT w1)
  end.
Proof.
  intros w1. unfold opendir, tick, mbind, M_bind. destruct (env_io_fail (w_nsys w)); [done|].
  unfold gets, id. change (path_of _ s) with (path_of w s).
  change (w_dirs (set_nsys _ w)) with (w_dirs w). by case_bool_decide.
Qed.

Context (cmp : dirent → dirent → Z) `{!SignComparator cmp}.

Lemma SCANDIR_spec w dir :
  log_ready w → listable w (path_of w dir) →
  ∃ r v w', SCANDIR dir select (Some cmp) w = Ret (r, v) w' ∧ log_frame w w' ∧ log_ready w' ∧
    ((r = -1 ∧ ¬ (good_from (w_nsys w) ∧ path_of w dir ∈ w_dirs w)) ∨
     (r = int32 (Z.of_nat (length v)) ∧ path_of w dir ∈ w_dirs w ∧
      v ≡ₚ wanted w (path_of w dir) ∧ StronglySorted (cle cmp) v)).
Proof.
  intros Hr Hsz. unfold SCANDIR. unfold mbind at 1, M_bind at 1. rewrite opendir_eq.
  set (w1 := set_nsys _ w).
  assert (scan_state w w1) as Hs1 by (constructor; [apply frame_tick|by apply ready_tick]).
  assert (∀ e, log_frame w (set_errno e w1) ∧ log_ready (set_errno e w1)) as Hse.
  { intros e. split; [etrans; [apply Hs1|apply frame_err]|apply ready_err, Hs1]. }
  destruct (env_io_fail (w_nsys w)) as [e|] eqn:Eio.
  { eexists _, _, _. split; [reflexivity|]. split; [apply Hse|]. split; [apply Hse|].
    left. split; [done|]. intros [Hg _]. rewrite Hg in Eio; [done|lia]. }
  case_bool_decide as Hdir.
  2: { eexists _, _, _. split; [reflexivity|]. split; [apply Hse|]. split; [apply Hse|].
       left. split; [done|]. by intros [_ ?]. }
  set (es := dots ++ _). unfold SCANDIR_TAIL. rewrite bind_gets, bind_set_err.
  destruct (scan_loop_spec w (S (length es)) es [] 0 (set_errno 0 w1)) as (v & w2 & E & Hs2 & Hv & Hg);
    [lia|done|by constructor; apply Hse|done|].
  rewrite (bind_Ret _ _ _ _ _ E). rewrite bind_gets.
  destruct (Z.eqb_spec (w_errno w2) 0) as [He|He].
  - assert (v ≡ₚ wanted w (path_of w dir)) as Hvw.
    { rewrite (Hv He). cbn [app]. unfold es, wanted. rewrite !filter_app. f_equiv.
      apply filter_Permutation. by rewrite dir_order. }
    destruct (qsort_r_spec cmp (env_memory (w_nsys w2)) sizeof_pointer v v (pointers v))
      as (l & El & Hp & Hso); [rewrite Hvw; by apply wanted_small|done|by rewrite <-(length_fmap snd), pointers_snd|].
    match goal with |- context [(?m ≫= ?k) w2] =>
      rewrite (bind_Ret m k w2 l w2) by (rewrite bind_gets, El; done) end.
    assert (∃ w3, ((if 0 <=? int32 (Z.of_nat (length l)) then set_err (w_errno w) else mret tt) : IO unit) w2 = Ret tt w3 ∧
      log_frame w w3 ∧ log_ready w3) as (w3 & E3 & Hf3 & Hr3).
    { destruct (0 <=? _); [|exists w2; split; [done|]; split; apply Hs2].
      eexists. split; [reflexivity|]. split; [etrans; [apply Hs2|apply frame_err]|apply ready_err, Hs2]. }
    cbv zeta. rewrite (bind_Ret _ _ _ _ _ E3).
    eexists _, l, w3. split; [reflexivity|]. split; [done|]. split; [done|].
    right. split; [done|]. split; [done|]. split; [by rewrite Hp|done].
  - eexists _, _, _. split; [reflexivity|]. split; [apply Hs2|]. split; [apply Hs2|].
    left. split; [done|]. intros [Hgo _]. apply He, Hg. eapply good_from_mono; [|exact Hgo]. cbn. lia.
Qed.

End Reading.

(** ** Theorems *)

Section Theorems.
Context `{Env, !Errnos, !Logger, !DirOrder} (select : dirent → IO Z) (sel : dirent → bool).
Context (cmp : dirent → dirent → Z) `{!SignComparator cmp}.

(** C17: when no call fails, [scandir] on a directory that exists stores the
    selected entries, all of them and sorted by the given comparison function (a
    total order; [alphasort] is one), independently of the order the directory
    lists them in, and returns their number converted to [int]: the number itself
    for fewer than [2 ^ 31] entries. *)
Theorem SCANDIR_complete w dir :
  selects select sel → log_ready w → listable w (path_of w dir) → good_from (w_nsys w) →
  path_of w dir ∈ w_dirs w →
  ∃ v w', SCANDIR dir select (Some cmp) w = Ret (int32 (Z.of_nat (length v)), v) w' ∧
    v ≡ₚ wanted sel w (path_of w dir) ∧ StronglySorted (cle cmp) v ∧
    (Z.of_nat (length (wanted sel w (path_of w dir))) < 2 ^ 31 → int32 (Z.of_nat (length v)) = Z.of_nat (length v)) ∧
    log_frame w w' ∧ log_ready w'.
Proof.
  intros Hsel Hr Hl Hg Hd.
  destruct (SCANDIR_spec select sel Hsel cmp w dir Hr Hl) as (r & v & w' & E & Hf & Hr' & [[-> Hn]|(-> & _ & Hp & Hs)]).
  - by destruct Hn.
  - exists v, w'. split_and!; try done. rewrite <-Hp. intros Hb. apply int32_small. lia.
Qed.

(** Whatever calls fail, [scandir] returns and never a partial list: the
    result is -1, or the complete sorted selection. *)
Theorem SCANDIR_all_or_nothing w dir :
  selects select sel → log_ready w → listable w (path_of w dir) →
  ∃ r v w', SCANDIR dir select (Some cmp) w = Ret (r, v) w' ∧ log_frame w w' ∧
    (r = -1 ∨ (r = int32 (Z.of_nat (length v)) ∧ v ≡ₚ wanted sel w (path_of w dir) ∧
               StronglySorted (cle cmp) v)).
Proof.
  intros Hsel Hr Hl.
  destruct (SCANDIR_spec select sel Hsel cmp w dir Hr Hl) as (r & v & w' & E & Hf & Hr' & [[-> Hn]|(-> & _ & Hp & Hs)]);
    eauto 10.
Qed.

End Theorems.

(** ** Witnesses *)

#[export] Instance sample_errnos : @Errnos sample_env.
Proof. intros n e. discriminate. Qed.
#[export] Instance sample_dirorder : @DirOrder sample_env.
Proof. intros p l. reflexivity. Qed.

(** A directory with two files, and the selection of all regular files. *)
Definition two_files : World :=
  boot {[ [lit "b"] := []; [lit "a"] := [] ]} {[ [] ]}.
Definition regular (d : dirent) : bool := d_type d =? DT_REG.
Definition select_regular (d : dirent) : IO Z := mret (Z.b2z (regular d)).

#[local] Existing Instance sample_env.
#[local] Instance quiet : Logger := silent_logger.

Lemma select_regular_ok : selects select_regular regular.
Proof.
  intros d w Hr. eexists _, w. split; [reflexivity|]. split; [by destruct (regular d)|]. by split.
Qed.

Lemma SCANDIR_complete_witness :
  ∃ v w', SCANDIR (lit "/") select_regular (Some alphasort) two_files = Ret (2, v) w' ∧
    v ≡ₚ [mkDirent (lit "a") DT_REG; mkDirent (lit "b") DT_REG].
Proof.
  destruct (SCANDIR_complete select_regular regular alphasort two_files (lit "/")) as (v & w' & E & Hp & _).
  - apply select_regular_ok.
  - exact I.
  - vm_compute. reflexivity.
  - intros k _. reflexivity.
  - by_decide.
  - exists v, w'. split; [apply Permutation_length in Hp; rewrite E, Hp; vm_compute; reflexivity|]. rewrite Hp.
    match goal with |- ?l ≡ₚ _ => let l' := eval vm_compute in l in change (l' ≡ₚ
      [mkDirent (lit "a") DT_REG; mkDirent (lit "b") DT_REG]) end.
    first [reflexivity|apply perm_swap].
Defined.

Lemma SCANDIR_all_or_nothing_witness :
  ∃ r v w', SCANDIR (lit "/none") select_regular (Some alphasort) two_files = Ret (r, v) w' ∧
    (r = -1 ∨ r = int32 (Z.of_nat (length v))).
Proof.
  destruct (SCANDIR_all_or_nothing select_regular regular alphasort two_files (lit "/none"))
    as (r & v & w' & E & _ & Hc).
  - apply select_regular_ok.
  - exact I.
  - vm_compute. reflexivity.
  - exists r, v, w'. split; [exact E|]. destruct Hc as [Hc|[Hc _]]; [left|right]; exact Hc.
Defined.
