(* ===== verification/ReadDir.v ===== *)
(** * glibc: reading a directory

    [opendir] and [readdir] of [glibc-2.27/sysdeps/posix].  A directory stream
    keeps a block of memory that [getdents] fills with packed records of
    different lengths; [readdir] walks through the block by [d_reclen], asks for
    the next block when it is used up, and skips records of deleted files
    ([d_ino] 0).  The records are bytes here, read back field by field at the
    offsets of [struct dirent].

    How many records each [getdents] delivers and whether it fails is up to the
    operating system (class [Getdents]).  The theorems: however the kernel cuts
    the directory into blocks, successive calls return its entries in order, each
    once, without the deleted ones, then NULL with [errno] unchanged, which is
    the list ScanDir reads; [opendir] closes the descriptor whenever it fails after
    opening it. *)

From S2P Require Import Prelude CString WordScan WordCopy Machine ScanDir.

(** ** Records *)

(** What the kernel knows of an entry. *)
Record kdirent := mkK { k_ino : Z; k_off : Z; k_type : Z; k_name : list Z }.

(** What the caller sees of one: [d_name], without its NUL, and [d_type]. *)
Definition kernel_entry (k : kdirent) : dirent := mkDirent (k_name k) (k_type k).

(** The offset of [d_name] in [struct dirent], and a record's length: the name
    with its NUL, rounded up to a multiple of 8. *)
Definition D_NAME : nat := 19.
Definition reclen (k : kdirent) : nat := 8 * ((D_NAME + length (k_name k) + 1 + 7) `div` 8).

(** The record [getdents] stores. *)
Definition pack_dirent (k : kdirent) : list Z :=
  le_bytes 8 (k_ino k) ++ le_bytes 8 (k_off k) ++ le_bytes 2 (Z.of_nat (reclen k)) ++ [k_type k] ++
  k_name k ++ replicate (reclen k - D_NAME - length (k_name k)) 0.

(** An entry that fits its record. *)
Record kdirent_ok (k : kdirent) : Prop := {
  ko_ino : 0 ≤ k_ino k < 2 ^ 64;
  ko_off : 0 ≤ k_off k < 2 ^ 64;
  ko_name : Forall (λ c, c ≠ 0) (k_name k);
  ko_len : (length (k_name k) ≤ 255)%nat;
}.

(** ** Operations *)

(** [struct __dirstream] without the descriptor and its lock, with what [getdents]
    has not delivered yet and [errno]. *)
Record DIR := mkDIR {
  dir_data : list Z;           (* data, [allocation] bytes *)
  dir_size : nat;              (* size *)
  dir_offset : nat;            (* offset *)
  dir_filepos : Z;             (* filepos *)
  dir_left : list kdirent;
  dir_calls : nat;             (* getdents calls made on it *)
  dir_errno : Z;               (* errno *)
}.

(** The answer of the [n]-th [getdents] into a block of the given size when
    these entries are left: an errno, or how many it stores. *)
Class Getdents := sys_getdents : nat → nat → list kdirent → Z + nat.

(** A [getdents] stores whole records that fit, and none only at the end. *)
Class GetdentsLaws `{Getdents} : Prop := {
  gd_bound : ∀ n max left k, sys_getdents n max left = inr k →
    (k ≤ length left)%nat ∧ (length (concat (pack_dirent <$> take k left)) ≤ max)%nat;
  gd_end : ∀ n max left, sys_getdents n max left = inr 0%nat → left = [];
}.

(** An unsigned field of [n] bytes at [off]. *)
Definition dirent_field (data : list Z) (off n : nat) : res Z :=
  if decide (off + n ≤ length data)%nat then Ok (le_word (take n (drop off data))) else Bad OutOfBounds.

Section Ops.
Context `{Getdents}.

(** Refilling the block when it is used up: false when [readdir] returns NULL. *)
Definition refill (saved_errno : Z) (d : DIR) : res (bool * DIR) :=
  match sys_getdents (dir_calls d) (length (dir_data d)) (dir_left d) with
  | inl e =>
      let bytes := if e =? ENOENT then 0 else -1 in
      Ok (false, mkDIR (dir_data d) (dir_size d) (dir_offset d) (dir_filepos d) (dir_left d) (S (dir_calls d))
                   (if bytes =? 0 then saved_errno else e))
  | inr k =>
      let block := concat (pack_dirent <$> take k (dir_left d)) in
      if decide (length block = 0%nat) then
        Ok (false, mkDIR (dir_data d) (dir_size d) (dir_offset d) (dir_filepos d) (dir_left d) (S (dir_calls d)) saved_errno)
      else
        data ← blit (dir_data d) 0 block;
        Ok (true, mkDIR data (length block) 0 (dir_filepos d) (drop k (dir_left d)) (S (dir_calls d)) (dir_errno d))
  end.

(** [struct dirent *__readdir (DIR *dirp)]: the loop; the entry the pointer it
    returns points to, [None] for NULL. *)
Fixpoint readdir_loop (fuel : nat) (saved_errno : Z) (d : DIR) : res (option dirent * DIR) :=
  match fuel with
  | O => Bad Unspecified
  | S fuel' =>
      r ← (if decide (dir_size d ≤ dir_offset d)%nat then refill saved_errno d else Ok (true, d));
      let '(ok, d) := r in
      if negb ok then Ok (None, d)
      else
        let dp := dir_offset d in
        d_reclen ← dirent_field (dir_data d) (dp + 16) 2;
        d_off ← dirent_field (dir_data d) (dp + 8) 8;
        d_ino ← dirent_field (dir_data d) dp 8;
        let d := mkDIR (dir_data d) (dir_size d) (dp + Z.to_nat d_reclen) d_off (dir_left d) (dir_calls d) (dir_errno d) in
        if d_ino =? 0 then readdir_loop fuel' saved_errno d
        else
          d_type ← dirent_field (dir_data d) (dp + 18) 1;
          d_name ← cstr (drop (dp + D_NAME) (dir_data d));
          Ok (Some (mkDirent d_name d_type), d)
  end.

Definition __readdir (d : DIR) : res (option dirent * DIR) :=
  readdir_loop (S (dir_size d + length (dir_left d))) (dir_errno d) d.

End Ops.

(** ** Reading back a record *)

Lemma le_word_bytes n : ∀ v, 0 ≤ v < 256 ^ Z.of_nat n → le_word (le_bytes n v) = v.
Proof.
  induction n as [|n IH]; intros v Hv; cbn [le_bytes le_word]; [lia|].
  rewrite Nat2Z.inj_succ, Z.pow_succ_r in Hv by lia. rewrite IH by (split; [apply Z.div_pos; lia|apply Z.div_lt_upper_bound; lia]).
  pose proof (Z.div_mod v 256 ltac:(done)). lia.
Qed.

Lemma le_bytes_count n v : length (le_bytes n v) = n.
Proof. revert v. induction n as [|n IH]; intros v; cbn [le_bytes length]; [done|]. by rewrite IH. Qed.

Lemma reclen_room k : (D_NAME + length (k_name k) < reclen k)%nat.
Proof. unfold reclen. pose proof (Nat.div_mod (D_NAME + length (k_name k) + 1 + 7) 8 ltac:(done)).
  pose proof (Nat.mod_upper_bound (D_NAME + length (k_name k) + 1 + 7) 8 ltac:(done)). lia. Qed.

Lemma reclen_max k : kdirent_ok k → (reclen k ≤ 280)%nat.
Proof.
  intros []. unfold reclen.
  pose proof (Nat.Div0.div_le_mono (D_NAME + length (k_name k) + 1 + 7) (D_NAME + 255 + 1 + 7) 8 ltac:(lia)) as Hd.
  change ((D_NAME + 255 + 1 + 7) `div` 8)%nat with 35%nat in Hd. lia.
Qed.

Lemma reclen_small k : kdirent_ok k → 0 ≤ Z.of_nat (reclen k) < 256 ^ Z.of_nat 2.
Proof. intros Hk. pose proof (reclen_max k Hk). change (256 ^ Z.of_nat 2) with 65536. lia. Qed.

Lemma pack_dirent_length k : length (pack_dirent k) = reclen k.
Proof.
  pose proof (reclen_room k). unfold pack_dirent. rewrite !length_app, !le_bytes_count, length_replicate. cbn [length].
  unfold D_NAME in *. lia.
Qed.

Lemma dirent_field_at data off pre x post : drop off data = pre ++ x ++ post → (0 < length x)%nat →
  dirent_field data (off + length pre) (length x) = Ok (le_word x).
Proof.
  intros E Hx. assert (length (drop off data) = length pre + (length x + length post))%nat as Hl by (by rewrite E, !length_app).
  rewrite length_drop in Hl. unfold dirent_field. rewrite decide_True by lia.
  by rewrite <-drop_drop, E, drop_app_length, take_app_length.
Qed.

(** The fields of the record at [off]. *)
Lemma record_fields data off k post : drop off data = pack_dirent k ++ post → kdirent_ok k →
  dirent_field data (off + 16) 2 = Ok (Z.of_nat (reclen k)) ∧ dirent_field data (off + 8) 8 = Ok (k_off k) ∧
  dirent_field data off 8 = Ok (k_ino k) ∧ dirent_field data (off + 18) 1 = Ok (k_type k) ∧
  cstr (drop (off + D_NAME) data) = Ok (k_name k).
Proof.
  intros E Hk. pose proof (reclen_room k) as Hr. pose proof (reclen_small k Hk) as Hs. destruct Hk.
  unfold pack_dirent in E. rewrite <-!app_assoc in E.
  set (b_ino := le_bytes 8 (k_ino k)) in *. set (b_off := le_bytes 8 (k_off k)) in *.
  set (b_len := le_bytes 2 (Z.of_nat (reclen k))) in *.
  assert (length b_ino = 8%nat ∧ length b_off = 8%nat ∧ length b_len = 2%nat) as (L1 & L2 & L3)
    by (split_and!; apply le_bytes_count).
  split_and!.
  - pose proof (dirent_field_at data off (b_ino ++ b_off) b_len ([k_type k] ++ k_name k ++ replicate (reclen k - D_NAME - length (k_name k)) 0 ++ post)) as F.
    rewrite length_app, L1, L2, L3 in F. change (8 + 8)%nat with 16%nat in F. rewrite F by (by rewrite <-?app_assoc || lia). f_equal. by apply le_word_bytes.
  - pose proof (dirent_field_at data off b_ino b_off _ E) as F. rewrite L1, L2 in F. rewrite F by lia. f_equal. by apply le_word_bytes.
  - pose proof (dirent_field_at data off [] b_ino _ E) as F. rewrite L1 in F. cbn [length] in F. rewrite Nat.add_0_r in F.
    rewrite F by lia. f_equal. by apply le_word_bytes.
  - pose proof (dirent_field_at data off (b_ino ++ b_off ++ b_len) [k_type k] (k_name k ++ replicate (reclen k - D_NAME - length (k_name k)) 0 ++ post)) as F.
    rewrite !length_app, L1, L2, L3 in F. cbn [length] in F. change (8 + (8 + 2))%nat with 18%nat in F. rewrite F by (by rewrite <-?app_assoc || lia). cbn [le_word]. f_equal. lia.
  - rewrite <-drop_drop, E.
    assert (drop D_NAME (b_ino ++ b_off ++ b_len ++ [k_type k] ++ k_name k ++ replicate (reclen k - D_NAME - length (k_name k)) 0 ++ post) =
      k_name k ++ replicate (reclen k - D_NAME - length (k_name k)) 0 ++ post) as ->.
    { rewrite !(app_assoc _ _ (k_name k ++ _)). apply drop_app_length'. rewrite !length_app, L1, L2, L3. done. }
    destruct (reclen k - D_NAME - length (k_name k))%nat as [|m] eqn:Em; [lia|]. cbn [replicate app]. by apply cstr_app_ne.
Qed.

(** ** Walking through the block *)

(** The longest record. *)
Definition RECORD_MAX : nat := 280.

(** The unread part of the block is these records. *)
Record dirstream_ok (d : DIR) (pend : list kdirent) : Prop := {
  do_pend : drop (dir_offset d) (take (dir_size d) (dir_data d)) = concat (pack_dirent <$> pend);
  do_size : (dir_size d ≤ length (dir_data d))%nat;
  do_offset : (dir_offset d ≤ dir_size d)%nat;
  do_entries : Forall kdirent_ok (pend ++ dir_left d);
  do_room : (RECORD_MAX ≤ length (dir_data d))%nat;
}.

(** From the first entry that was not deleted on. *)
Fixpoint skip_deleted (l : list kdirent) : list kdirent :=
  match l with
  | [] => []
  | k :: l' => if k_ino k =? 0 then skip_deleted l' else l
  end.

Definition present (l : list kdirent) : list dirent := kernel_entry <$> filter (λ k, k_ino k ≠ 0) l.

Lemma present_skip l : present l = match skip_deleted l with [] => [] | k :: l' => kernel_entry k :: present l' end.
Proof.
  unfold present. induction l as [|k l IH]; [done|]. cbn [skip_deleted]. destruct (Z.eqb_spec (k_ino k) 0) as [E|E].
  - rewrite filter_cons_False by (intros Hn; by apply Hn). exact IH.
  - by rewrite filter_cons_True.
Qed.

Lemma pending_drop d pend : dirstream_ok d pend →
  drop (dir_offset d) (dir_data d) = concat (pack_dirent <$> pend) ++ drop (dir_size d) (dir_data d).
Proof.
  intros []. rewrite <-do_pend0. rewrite <-(take_drop (dir_size d) (dir_data d)) at 1.
  by rewrite drop_app_le by (rewrite length_take; lia).
Qed.

Lemma pending_length pend : (length pend ≤ length (concat (pack_dirent <$> pend)))%nat.
Proof.
  induction pend as [|k pend IH]; cbn [fmap list_fmap concat length]; [lia|].
  rewrite length_app, pack_dirent_length. pose proof (reclen_room k). lia.
Qed.

(** [getdents] does not fail when a record fits into the block. *)
Definition getdents_reliable `{Getdents} : Prop := ∀ n max left,
  (RECORD_MAX ≤ max)%nat → Forall kdirent_ok left → ∃ k, sys_getdents n max left = inr k.

Section Walking.
Context `{GetdentsLaws}.

Lemma refill_spec saved d : getdents_reliable → dirstream_ok d [] →
  (dir_left d = [] ∧ ∃ d', refill saved d = Ok (false, d') ∧ dirstream_ok d' [] ∧ dir_left d' = [] ∧ dir_errno d' = saved) ∨
  ∃ d' k pend, refill saved d = Ok (true, d') ∧ dirstream_ok d' (k :: pend) ∧ (k :: pend) ++ dir_left d' = dir_left d ∧
    dir_errno d' = dir_errno d.
Proof.
  intros Hrel Hd. pose proof Hd as []. unfold refill.
  destruct (Hrel (dir_calls d) (length (dir_data d)) (dir_left d) do_room0 do_entries0) as [k Ek]. rewrite Ek.
  destruct (gd_bound _ _ _ _ Ek) as [Hk Hfit]. set (block := concat (pack_dirent <$> take k (dir_left d))) in *.
  pose proof (pending_length (take k (dir_left d))) as Hlen. fold block in Hlen. rewrite length_take_le in Hlen by done.
  destruct (decide (length block = 0%nat)) as [E0|E0].
  - left. assert (k = 0%nat) as -> by lia. pose proof (gd_end _ _ _ Ek) as El. split; [done|].
    eexists. split; [done|]. by split_and!.
  - right. rewrite blit_ok by lia. cbn [mbind res_bind].
    destruct (take k (dir_left d)) as [|k0 pend] eqn:Et; [done|].
    eexists _, k0, pend. split; [done|]. split_and!; cbn [dir_left dir_errno]; try done.
    + constructor; cbn [dir_data dir_size dir_offset dir_left]; try lia.
      * rewrite drop_0, take_0. cbn [app]. by rewrite take_app_length.
      * rewrite take_0, !length_app, length_drop. cbn [length]. lia.
      * rewrite <-Et, take_drop. exact do_entries0.
      * rewrite take_0, !length_app, length_drop. cbn [length]. lia.
    + by rewrite <-Et, take_drop.
Qed.

(** Consuming the first record of the block. *)
Lemma next_record d k pend : dirstream_ok d (k :: pend) →
  dirstream_ok (mkDIR (dir_data d) (dir_size d) (dir_offset d + reclen k) (k_off k) (dir_left d) (dir_calls d) (dir_errno d)) pend.
Proof.
  intros []. cbn [fmap list_fmap concat] in do_pend0.
  assert (length (pack_dirent k ++ concat (pack_dirent <$> pend)) = (dir_size d - dir_offset d)%nat) as Hl.
  { rewrite <-do_pend0, length_drop, length_take. lia. }
  rewrite length_app, pack_dirent_length in Hl.
  constructor; cbn [dir_data dir_size dir_offset dir_left]; try lia.
  - rewrite <-drop_drop, do_pend0. apply drop_app_length'. by rewrite pack_dirent_length.
  - by apply Forall_cons in do_entries0 as [_ ?].
Qed.

Lemma readdir_loop_spec fuel : ∀ saved d pend, getdents_reliable → dirstream_ok d pend →
  (length (pend ++ dir_left d) < fuel)%nat → dir_errno d = saved →
  ∃ d' pend', readdir_loop fuel saved d = Ok (kernel_entry <$> head (skip_deleted (pend ++ dir_left d)), d') ∧
    dirstream_ok d' pend' ∧ pend' ++ dir_left d' = tail (skip_deleted (pend ++ dir_left d)) ∧ dir_errno d' = saved.
Proof.
  induction fuel as [|fuel IH]; intros saved d pend Hrel Hd Hf He; [lia|]. cbn [readdir_loop].
  assert (∀ d k pend, dirstream_ok d (k :: pend) → (length ((k :: pend) ++ dir_left d) < S fuel)%nat → dir_errno d = saved →
    ∃ d' pend', (let dp := dir_offset d in
        d_reclen ← dirent_field (dir_data d) (dp + 16) 2;
        d_off ← dirent_field (dir_data d) (dp + 8) 8;
        d_ino ← dirent_field (dir_data d) dp 8;
        let d := mkDIR (dir_data d) (dir_size d) (dp + Z.to_nat d_reclen) d_off (dir_left d) (dir_calls d) (dir_errno d) in
        if d_ino =? 0 then readdir_loop fuel saved d
        else
          d_type ← dirent_field (dir_data d) (dp + 18) 1;
          d_name ← cstr (drop (dp + D_NAME) (dir_data d));
          Ok (Some (mkDirent d_name d_type), d)) =
      Ok (kernel_entry <$> head (skip_deleted ((k :: pend) ++ dir_left d)), d') ∧
    dirstream_ok d' pend' ∧ pend' ++ dir_left d' = tail (skip_deleted ((k :: pend) ++ dir_left d)) ∧ dir_errno d' = saved) as Hrec.
  { clear d pend Hd Hf He. intros d k pend Hd Hf He. cbv zeta.
    pose proof (pending_drop d _ Hd) as Ep. cbn [fmap list_fmap concat] in Ep. rewrite <-app_assoc in Ep.
    pose proof (do_entries _ _ Hd) as Hall. cbn [app] in Hall. apply Forall_cons in Hall as [Hk _].
    destruct (record_fields _ _ _ _ Ep Hk) as (F1 & F2 & F3 & F4 & F5).
    rewrite F1, F2, F3. cbn [mbind res_bind dir_data]. rewrite Nat2Z.id. pose proof (next_record d k pend Hd) as Hn.
    cbn [app skip_deleted]. destruct (Z.eqb_spec (k_ino k) 0).
    - apply (IH saved (mkDIR _ _ _ _ _ _ _) pend Hrel Hn); [|done]. cbn [app length dir_left] in *. lia.
    - rewrite F4, F5. cbn [mbind res_bind]. eexists _, pend. split; [done|]. by split_and!. }
  destruct (decide (dir_size d ≤ dir_offset d)%nat) as [Hle|Hgt].
  - assert (pend = []) as ->.
    { apply length_zero_iff_nil. pose proof (pending_length pend). pose proof (do_pend _ _ Hd) as E.
      apply (f_equal length) in E. rewrite length_drop, length_take in E. lia. }
    destruct (refill_spec saved d Hrel Hd) as [(El & d' & -> & Hd' & El' & He')|(d' & k & pend & -> & Hd' & El & He')];
      cbn [mbind res_bind negb app].
    + rewrite El. cbn [skip_deleted head tail]. exists d', []. split; [done|]. split_and!; [done|by rewrite El'|done].
    + rewrite <-El. apply Hrec; [done|rewrite El; done|congruence].
  - cbn [mbind res_bind negb]. destruct pend as [|k pend].
    { pose proof (do_pend _ _ Hd) as E. apply (f_equal length) in E. rewrite length_drop, length_take in E.
      pose proof (do_size _ _ Hd). cbn in E. lia. }
    by apply Hrec.
Qed.
End Walking.

(** ** Theorems *)

(** The stream [d] will return the entries [dp]. *)
Definition lists (d : DIR) (dp : list dirent) : Prop := ∃ pend, dirstream_ok d pend ∧ dp = present (pend ++ dir_left d).

(** C18: as long as no [getdents] fails, [readdir] over blocks of packed records refines the list of entries the
    program's [scandir] is verified against: however the kernel cuts the
    directory into blocks, each call returns the next entry that was not
    deleted, at the end NULL, and leaves [errno] alone. *)
Theorem readdir_refines `{Env} `{GetdentsLaws} d dp w :
  getdents_reliable → lists d dp → env_io_fail (w_nsys w) = None →
  ∃ d' w' dp', __readdir d = Ok (head dp, d') ∧ lists d' dp' ∧ dir_errno d' = dir_errno d ∧
    readdir dp w = Ret (head dp, dp') w' ∧ w_errno w' = w_errno w.
Proof.
  intros Hrel (pend & Hd & ->) Hw. unfold __readdir.
  destruct (readdir_loop_spec (S (dir_size d + length (dir_left d))) (dir_errno d) d pend Hrel Hd) as (d' & pend' & E & Hd' & Et & He); [|done|].
  { rewrite length_app. pose proof (pending_length pend). pose proof (do_pend _ _ Hd) as Ep.
    apply (f_equal length) in Ep. rewrite length_drop, length_take in Ep. lia. }
  exists d', (set_nsys (S (w_nsys w)) w), (present (tail (skip_deleted (pend ++ dir_left d)))).
  rewrite E. assert (head (present (pend ++ dir_left d)) = kernel_entry <$> head (skip_deleted (pend ++ dir_left d))) as ->
    by (rewrite present_skip; by destruct (skip_deleted _)).
  split; [done|]. split; [exists pend'; by rewrite Et|]. split; [done|]. split; [|done].
  unfold readdir, tick, gets, modify, mbind, M_bind, mret, M_ret. rewrite Hw, present_skip.
  by destruct (skip_deleted _).
Qed.

(** ** Opening a directory *)

(** What the operating system answers: [open], [fstat] (whether it is a
    directory and [st_blksize]), [malloc] of a number of bytes (the contents), and the
    entries [getdents] will deliver. *)
Record opening := mkOpening {
  os_open : Z + Z;
  os_fstat : Z + (bool * Z);
  os_malloc : Z → option (list Z);
  os_entries : list kdirent;
}.

Definition ENOTDIR : Z := 20.
Definition BUFSIZ : Z := 8192.
Definition MAX_DIR_BUFFER_SIZE : Z := 1048576.
Definition sizeof_dirent64 : Z := 280.

(** [DIR *__alloc_dir (int fd, bool close_fd, int flags, const struct stat64 *statp)]
    with [close_fd] set: an errno or the stream, and the descriptors closed. *)
Definition __alloc_dir (os : opening) (fd st_blksize errno : Z) : (Z + DIR) * list Z :=
  let default_allocation := if 4 * BUFSIZ <? sizeof_dirent64 then sizeof_dirent64 else 4 * BUFSIZ in
  let small_allocation := if BUFSIZ <? sizeof_dirent64 then sizeof_dirent64 else BUFSIZ in
  let allocation := Z.min (Z.max (uint64 st_blksize) default_allocation) MAX_DIR_BUFFER_SIZE in
  match os_malloc os allocation with
  | Some data => (inr (mkDIR data 0 0 0 (os_entries os) 0 errno), [])
  | None =>
      match os_malloc os small_allocation with
      | Some data => (inr (mkDIR data 0 0 0 (os_entries os) 0 errno), [])
      | None => (inl ENOMEM, [fd])
      end
  end.

(** [static DIR *opendir_tail (int fd)] *)
Definition opendir_tail (os : opening) (fd : Z + Z) (errno : Z) : (Z + DIR) * list Z :=
  match fd with
  | inl e => (inl e, [])
  | inr fd =>
      match os_fstat os with
      | inl e => (inl e, [fd])
      | inr (is_dir, st_blksize) =>
          if negb is_dir then (inl ENOTDIR, [fd]) else __alloc_dir os fd st_blksize errno
      end
  end.

(** [DIR *__opendir (const char *name)]; on Linux [O_DIRECTORY] works, so there
    is no check before the [open]. *)
Definition __opendir (os : opening) (name : list Z) (errno : Z) : (Z + DIR) * list Z :=
  match name with
  | 0 :: _ => (inl ENOENT, [])
  | _ => opendir_tail os (os_open os) errno
  end.

(** [opendir] either returns a stream at the beginning of the directory, with
    room for at least one record and [errno] as it was, or sets [errno] and leaves no
    descriptor open: the one it opened is closed. *)
Theorem opendir_all_or_nothing os name errno :
  (∀ n b, os_malloc os n = Some b → Z.of_nat (length b) = n) → Forall kdirent_ok (os_entries os) →
  match __opendir os name errno with
  | (inr d, closed) =>
      closed = [] ∧ lists d (present (os_entries os)) ∧ dir_errno d = errno ∧
      BUFSIZ ≤ Z.of_nat (length (dir_data d)) ≤ MAX_DIR_BUFFER_SIZE
  | (inl e, closed) => closed = [] ∧ (head name = Some 0 ∨ os_open os = inl e) ∨ ∃ fd, os_open os = inr fd ∧ closed = [fd]
  end.
Proof.
  intros Hm He. unfold __opendir.
  assert (∀ n b, os_malloc os n = Some b → BUFSIZ ≤ n ≤ MAX_DIR_BUFFER_SIZE →
    lists (mkDIR b 0 0 0 (os_entries os) 0 errno) (present (os_entries os)) ∧
    BUFSIZ ≤ Z.of_nat (length b) ≤ MAX_DIR_BUFFER_SIZE) as Hok.
  { intros n b Hb Hn. specialize (Hm n b Hb). split; [|lia]. exists []. split; [|done].
    unfold BUFSIZ in Hn. constructor; cbn; try done; unfold RECORD_MAX; lia. }
  destruct (decide (head name = Some 0)) as [Hz|Hz].
  { destruct name as [|c name]; [done|]. injection Hz as ->. by left; split; [|left]. }
  assert (∀ A (x y : A), match name with 0 :: _ => x | _ => y end = y) as -> by (intros A x y; by destruct name as [|[] ?]).
  unfold opendir_tail. destruct (os_open os) as [e|fd] eqn:Eo; [by left; split; [|right]|].
  destruct (os_fstat os) as [e|[[|] blk]]; cbn [negb]; [by right; exists fd| |by right; exists fd].
  unfold __alloc_dir. change (if 4 * BUFSIZ <? sizeof_dirent64 then sizeof_dirent64 else 4 * BUFSIZ) with 32768.
  change (if BUFSIZ <? sizeof_dirent64 then sizeof_dirent64 else BUFSIZ) with BUFSIZ. unfold BUFSIZ, MAX_DIR_BUFFER_SIZE in *.
  destruct (os_malloc os (Z.min _ _)) as [b|] eqn:Eb.
  { apply Hok in Eb; [|lia]. by destruct Eb. }
  destruct (os_malloc os 8192) as [b|] eqn:Eb2; [|by right; exists fd].
  apply Hok in Eb2; [|lia]. by destruct Eb2.
Qed.

(** ** Witnesses *)

(** A kernel that delivers one record at a time. *)
#[local] Instance one_record : Getdents := λ n max left,
  match left with
  | [] => inr 0%nat
  | k :: _ => if decide (reclen k ≤ max)%nat then inr 1%nat else inl 22
  end.
#[local] Instance one_record_laws : GetdentsLaws.
Proof.
  split; unfold sys_getdents, one_record.
  - intros n max left k. destruct left as [|k0 left]; [intros [= <-]; cbn; lia|].
    destruct (decide _) as [Hr|]; [|done]. intros [= <-]. cbn -[reclen pack_dirent]. rewrite app_nil_r, pack_dirent_length. lia.
  - intros n max left. destruct left as [|k0 left]; [done|]. by destruct (decide _).
Qed.
Lemma one_record_reliable : getdents_reliable.
Proof.
  intros n max left Hm Hl. unfold sys_getdents, one_record. destruct left as [|k left]; [by eexists|].
  apply Forall_cons in Hl as [Hk _]. rewrite decide_True; [by eexists|].
  pose proof (reclen_max k Hk). unfold RECORD_MAX in Hm. lia.
Qed.

Definition sample_entries : list kdirent :=
  [mkK 0 1 8 (lit "gone"); mkK 9 2 8 (lit "1700000000_000.data"); mkK 7 3 4 (lit ".")].

Lemma sample_entries_ok : Forall kdirent_ok sample_entries.
Proof. repeat constructor; vm_compute; first [discriminate|lia]. Qed.

Definition sample_dir : DIR := mkDIR (zeros 512) 0 0 0 sample_entries 0 0.

Lemma sample_dir_lists : lists sample_dir [mkDirent (lit "1700000000_000.data") 8; mkDirent (lit ".") 4].
Proof.
  exists []. split; [|reflexivity]. constructor; try done; [cbn; lia|apply sample_entries_ok|vm_compute; lia].
Qed.

#[local] Instance plain_env : Env := sample_env.

Lemma readdir_refines_witness :
  ∃ d', __readdir sample_dir = Ok (Some (mkDirent (lit "1700000000_000.data") 8), d') ∧ dir_errno d' = 0.
Proof.
  destruct (readdir_refines sample_dir [mkDirent (lit "1700000000_000.data") 8; mkDirent (lit ".") 4] (boot ∅ ∅)
    one_record_reliable sample_dir_lists) as (d' & w' & dp' & E & _ & He & _).
  - reflexivity.
  - exists d'. split; [exact E|exact He].
Defined.
