(* ===== verification/Playback.v ===== *)
(** * playback.c: replaying recorded packets to a client

    [playback_run] executes a playback command: START creates the lock file
    [./shm/<address>], scans today's directory for files of the requested
    seconds and sends their contents in name order at [speed] times the
    recorded pace; END and unknown commands remove the lock file.

    The code reads memory it does not own.  What such reads give is a parameter of
    the model:
    - [realTime] and [fileTime] have ten bytes and no NUL; [atoi] reads on into
      [stack_tail], the bytes that follow them;
    - an entry of [namelist] is read after [free]; [heap] says what the read gives,
      a value of its own or a fault, and whether a second [free] is survived.

    The theorems hold for every value of the parameters they name, so that none
    relies on what freed memory contains: which files a command selects, that names
    sort in recording order, that a playback which finishes each file in its first
    turn sends the selected files completely, in order and once each, that with
    a heap that faults on freed memory already the first file is not sent, and what
    each command does to the lock file. *)

From Stdlib Require Import Sorted.
From S2P Require Import Prelude CString Machine ConfigFile Log DataHeader RecordData MSort ScanDir.

(** ** Freed memory *)

(** [hp_read name buf]: the name read from a freed entry when the last
    allocated buffer holds [buf]; [hp_refree]: a second [free] is survived. *)
Record heap_policy := mkHeap {
  hp_read : list Z → list Z → res (list Z);
  hp_refree : bool;
}.

(** What C guarantees: nothing. *)
Definition strict_heap : heap_policy := mkHeap (λ _ _, Bad DanglingRead) false.

(** An element of [namelist]: the entry, and whether it was freed. *)
Abbreviation slot := (dirent * bool)%type.

(** ** Operations *)

Section Ops.
Context `{Env, !Logger} (heap : heap_policy) (stack_tail : list Z).

(** The string in the ten bytes of [realTime] or [fileTime], as [atoi] reads it. *)
Definition atoi10 (name : list Z) : res Z :=
  a ← strncpy (zeros 10) (name ++ [0]) 10;
  atoi (a ++ stack_tail).

(** [int filter_fn (const struct dirent *ent, char *start, char *end)] *)
Definition filter_fn (start end_ : list Z) (ent : dirent) : IO Z :=
  if d_type ent =? DT_DIR then
    LogWrite ERROR (lit "%d %s") [AInt 12; AStr (lit "scandir get dir file, skip")] ;;
    mret 0
  else
    s ← lift (atoi start);
    r ← lift (atoi10 (d_name ent));
    if s <=? r then
      e ← lift (atoi end_);
      r ← lift (atoi10 (d_name ent));
      if r <=? e then mret 1 else mret 0
    else mret 0.

(** [char shmFile[128] = {0x0}; strcat (shmFile, "./shm/"); strcat (shmFile, address)] *)
Definition shm_file (index : Z) : IO (list Z) :=
  t ← tcp_at index;
  shmFile ← lift (strcat (zeros 128) (lit "./shm/" ++ [0]));
  shmFile ← lift (strcat shmFile (address t));
  lift (cstr shmFile).

(** [namelist[i]->d_name] *)
Definition read_name (namelist : list slot) (i : nat) (buf : list Z) : res (list Z) :=
  match namelist !! i with
  | None => Bad OutOfBounds
  | Some (d, false) => Ok (d_name d)
  | Some (d, true) => hp_read heap (d_name d) buf
  end.

(** [free (namelist[i])] *)
Definition free_name (namelist : list slot) (i : nat) : res (list slot) :=
  match namelist !! i with
  | None => Bad OutOfBounds
  | Some (d, false) => Ok (<[i := (d, true)]> namelist)
  | Some (d, true) => if hp_refree heap then Ok namelist else Bad DoubleFree
  end.

(** The send of one file that is due: the next index, or the end of playback. *)
Definition play_send (index : Z) (i : nat) (realPath buffer : list Z) : IO (nat + Z) :=
  t ← tcp_at index;
  res ← send (acceptfd t) buffer;
  if EXIT_FAIL_CODE =? res then
    err ← gets w_errno;
    e ← strerror_errno;
    if (err =? EINTR) || (err =? EAGAIN) || (err =? EWOULDBLOCK) then
      LogWrite ERROR (lit "%d %s %s :%d")
        [AInt 89; AStr (lit "playback send [FAIL] to fd, but link is OK, continue"); AStr e;
         AInt (acceptfd t)] ;;
      mret (inl i)
    else
      LogWrite INFO (lit "%d %s %s :%d")
        [AInt 93; AStr (lit "playback send [FAIL] to fd, link is bad, exit playback mode"); AStr e;
         AInt (acceptfd t)] ;;
      mret (inr EXIT_FAIL_CODE)
  else if 0 <? res then
    LogWrite DEBUG (lit "%d %s :%s")
      [AInt 102; AStr (lit "playback send [SUCCESS] "); AStr realPath] ;;
    mret (inl (S i))
  else mret (inl i).

(** [realPath] for entry [i]. *)
Definition real_path (realPath path name : list Z) : res (list Z) :=
  realPath ← strcpy realPath (path ++ [0]);
  realPath ← strcpy_at realPath (length path) (lit "/" ++ [0]);
  strcpy_at realPath (length path + 1) (name ++ [0]).

(** The loop of [scanAndSend] from index [i]; [buf] is the last buffer. *)
Fixpoint play_loop (fuel : nat) (path starttime : list Z) (index speed playtime : Z)
    (namelist : list slot) (realPath buf : list Z) (i : nat) : IO Z :=
  match fuel with
  | O => λ _, OutOfFuel
  | S fuel' =>
      if decide (length namelist ≤ i)%nat then mret EXIT_SUCCESS_CODE
      else
        shmFile ← shm_file index;
        a ← access shmFile;
        if negb (a =? 0) then
          LogWrite DEBUG (lit "%d %s")
            [AInt 49; AStr (lit "lock file loss, playback get force end signal")] ;;
          mret EXIT_SUCCESS_CODE
        else
          name ← lift (read_name namelist i buf);
          realPath ← lift (real_path realPath path name);
          namelist ← lift (free_name namelist i);
          rp ← lift (cstr realPath);
          printf (lit "realPath: " ++ rp ++ [NEWLINE]) ;;
          stream ← fopen_read rp;
          match stream with
          | None =>
              LogWrite ERROR (lit "%d %s") [AInt 62; AStr (lit " scanAndSend open file get error")] ;;
              lift (Bad NullPointer)
          | Some stream =>
              let buffer := f_data stream in
              t_now ← time;
              now ← time;
              let elapse := int32 (uint32 now - playtime) in
              name ← lift (read_name namelist i buffer);
              ft ← lift (atoi10 name);
              st ← lift (atoi starttime);
              r ← (if uint32 (ft - st) <? uint32 (speed * elapse)
                   then play_send index i rp buffer else mret (inl i));
              match r with
              | inr code => mret code
              | inl i =>
                  usleep (50 * 1000) ;;
                  play_loop fuel' path starttime index speed playtime namelist realPath buffer i
              end
          end
  end.

(** The loop goes through the first [n] entries.
    [int scanAndSend (char *path, char *starttime, char *endtime, int index, unsigned int speed)] *)
Definition scanAndSend (fuel : nat) (path starttime endtime : list Z) (index speed : Z) : IO Z :=
  r ← SCANDIR path (filter_fn starttime endtime) (Some alphasort);
  let '(n, namelist) := r in
  if n <? 0 then
    LogWrite ERROR (lit "%d %s") [AInt 36; AStr (lit "scandir get error")] ;;
    mret EXIT_SUCCESS_CODE
  else
    t ← time;
    playtime ← time;
    play_loop fuel path starttime index speed (uint32 playtime)
      ((λ d, (d, false)) <$> take (Z.to_nat n) namelist) (zeros 1024) [] 0.

(** [int myscandirServe (unsigned int starttime, unsigned int endtime, int index, unsigned int speed)] *)
Definition myscandirServe (fuel : nat) (starttime endtime index speed : Z) : IO Z :=
  start_time_buffer ← lift (blit (zeros 50) 0 (show_int (int32 starttime) ++ [0]));
  end_time_buffer ← lift (blit (zeros 50) 0 (show_int (int32 endtime) ++ [0]));
  path ← config_path;
  path ← lift (cstr path);
  value ← day_dir path;
  dir ← lift (cstr value);
  a ← access dir;
  if a =? 0 then scanAndSend fuel dir start_time_buffer end_time_buffer index speed
  else
    LogWrite INFO (lit "%d %s") [AInt 154; AStr (lit "selected playback day not the today")] ;;
    mret EXIT_FAIL_CODE.

(** [remove (shmFile)] and its two messages *)
Definition remove_lock (shmFile : list Z) (fail_msg : IO unit) (line_ok : Z) : IO unit :=
  r ← remove shmFile;
  if negb (r =? 0) then fail_msg
  else LogWrite DEBUG (lit "%d %s") [AInt line_ok; AStr (lit "playback shm file remove success")] ;; mret tt.

Definition remove_failed (line : Z) : IO unit :=
  LogWrite ERROR (lit "%d %s") [AInt line; AStr (lit "playback shm file remove failed")] ;; mret tt.

(** [void playback_run (unsigned char *receive_buf, int receive_size, int index)];
    [buf] are the [receive_size] received bytes. *)
Definition playback_run (fuel : nat) (buf : list Z) (index : Z) : IO unit :=
  shmFile ← shm_file index;
  image ← lift (memcpy (zeros sizeof_Replay) 0 buf (length buf));
  let replayProtocol := Replay_of image in
  let starttime := StartTime replayProtocol in
  let endtime := EndTime replayProtocol in
  let commandtype := CommandType replayProtocol in
  let speed := Speed replayProtocol in
  printf (lit "starttime: " ++ show_int (int32 starttime) ++ [NEWLINE]) ;;
  printf (lit "endtime: " ++ show_int (int32 endtime) ++ [NEWLINE]) ;;
  printf (lit "commandtype: " ++ show_int (int32 commandtype) ++ [NEWLINE]) ;;
  printf (lit "speed: " ++ show_int (int32 speed) ++ [NEWLINE]) ;;
  if commandtype =? PLAYBACK_START then
    fd ← creat shmFile;
    if fd <? 0 then
      LogWrite ERROR (lit "%d %s") [AInt 183; AStr (lit "playback shm file create failed")] ;; mret tt
    else
      LogWrite INFO (lit "%d %s") [AInt 188; AStr (lit "playback get START signal")] ;;
      res ← myscandirServe fuel starttime endtime index speed;
      if res =? EXIT_SUCCESS_CODE then
        LogWrite INFO (lit "%d %s") [AInt 193; AStr (lit "playback send success")] ;; mret tt
      else
        LogWrite INFO (lit "%d %s") [AInt 196; AStr (lit "playback send failed")] ;;
        remove_lock shmFile
          (e ← strerror_errno;
           LogWrite ERROR (lit "%d %s: %s")
             [AInt 199; AStr (lit "playback shm file remove failed"); AStr e] ;; mret tt) 203
  else if commandtype =? PLAYBACK_END then
    LogWrite INFO (lit "%d %s") [AInt 208; AStr (lit "playback get STOP signal, now close connection")] ;;
    remove_lock shmFile (remove_failed 211) 215
  else
    LogWrite ERROR (lit "%d %s") [AInt 219; AStr (lit "Wrong playback signal get")] ;;
    remove_lock shmFile (remove_failed 222) 226.

End Ops.

(** ** The time in a file name *)

(** Somewhere after the ten-byte arrays there is a NUL. *)
Definition tail_nul (tail : list Z) : Prop := ∃ q r, tail = q ++ 0 :: r.

Lemma skip_space_total l r : ∃ l', skip_space (l ++ 0 :: r) = Ok (l' ++ 0 :: r).
Proof.
  induction l as [|c l [l' IH]]; [by exists []|]. cbn [app skip_space].
  destruct (is_space c); [by exists l'|]. by exists (c :: l).
Qed.
Lemma dec_value_total l r acc : ∃ v, dec_value (l ++ 0 :: r) acc = Ok v.
Proof.
  revert acc. induction l as [|c l IH]; intros acc; [by exists acc|]. cbn [app dec_value].
  destruct (is_digit c); [apply IH|by eexists].
Qed.
Lemma atoi_total l r : ∃ v, atoi (l ++ 0 :: r) = Ok v.
Proof.
  unfold atoi, strtol10. destruct (skip_space_total l r) as [l' ->]. cbn [mbind res_bind].
  destruct l' as [|c l']; [by eexists|]. cbn [app].
  destruct (dec_value_total l' r 0) as [v Hv]. destruct (dec_value_total (c :: l') r 0) as [v' Hv'].
  destruct (c =? chr "-"); [rewrite Hv; by eexists|].
  destruct (c =? chr "+"); [rewrite Hv; by eexists|]. cbn [app] in Hv'. rewrite Hv'. by eexists.
Qed.

Lemma strn_total n l : ∃ r, strn n (l ++ [0]) = Ok r ∧ length r = n.
Proof.
  assert (∃ r, strn n (l ++ [0]) = Ok r) as [r Hr].
  { revert n. induction l as [|c l IH]; intros [|n]; cbn [app strn]; [by eexists..| |].
    - by eexists.
    - destruct (c =? 0); [by eexists|]. destruct (IH n) as [r ->]. by eexists. }
  exists r. split; [done|]. by eapply strn_length.
Qed.

Lemma strncpy10 l : ∃ r, strncpy (zeros 10) (l ++ [0]) 10 = Ok r ∧ strn 10 (l ++ [0]) = Ok r.
Proof.
  destruct (strn_total 10 l) as (r & Hr & Hl). exists r. split; [|done].
  unfold strncpy. rewrite Hr. cbn [mbind res_bind]. rewrite blit_0 by (rewrite Hl; done).
  rewrite Hl. change (drop 10 (zeros 10)) with (@nil Z). by rewrite app_nil_r.
Qed.

Lemma atoi10_total tail name : tail_nul tail → ∃ v, atoi10 tail name = Ok v.
Proof.
  intros (q & r & ->). unfold atoi10. destruct (strncpy10 name) as (a & -> & _). cbn [mbind res_bind].
  rewrite app_assoc. apply atoi_total.
Qed.

(** The seconds a file name stands for. *)
Definition file_time (tail name : list Z) : Z :=
  match atoi10 tail name with Ok v => v | Bad _ => 0 end.

(** A ten-digit time stamp. *)
Definition ts_ok (ts : Z) : Prop := 10 ^ 9 ≤ ts < 2 ^ 31.

Lemma show_ts ts : ts_ok ts →
  length (show_int ts) = 10%nat ∧ all_digits (show_int ts) ∧
  foldl (λ a x, a * 10 + (x - 48)) 0 (show_int ts) = ts.
Proof.
  unfold ts_ok. intros Ht. unfold show_int. destruct (Z.ltb_spec ts 0); [lia|].
  pose proof (show_nat_length ts 10 ltac:(simpl; lia) ltac:(lia)) as [_ Hl].
  destruct (show_nat_spec ts) as (Hd & _ & Hv); [lia|]. split; [apply Hl; simpl; lia|done].
Qed.

Lemma data_name_eq ts u : ts_ok ts → 0 ≤ u ≤ 999 →
  data_name ts u = show_int ts ++ lit "_" ++ show_pad 3 u ++ lit ".data".
Proof.
  unfold ts_ok. intros. unfold data_name, name_text. rewrite !int32_small by lia.
  by rewrite <-!app_assoc.
Qed.

(** The first ten characters are the seconds. *)
Lemma data_name_strn ts u : ts_ok ts → 0 ≤ u ≤ 999 →
  strn 10 (data_name ts u ++ [0]) = Ok (show_int ts).
Proof.
  intros Ht Hu. rewrite data_name_eq by done. destruct (show_ts ts Ht) as (Hl & Hd & _).
  rewrite <-app_assoc, strn_exact.
  - by rewrite take_app_le, take_ge by lia.
  - rewrite length_app. lia.
  - rewrite take_app_le, take_ge by lia. by apply str_ok_nz, digits_str_ok.
Qed.

Lemma atoi10_data_name tail ts u :
  ts_ok ts → 0 ≤ u ≤ 999 → atoi10 tail (data_name ts u) = atoi (show_int ts ++ tail).
Proof.
  intros Ht Hu. unfold atoi10. destruct (strncpy10 (data_name ts u)) as (a & -> & Ha).
  rewrite data_name_strn in Ha by done. by injection Ha as <-.
Qed.

Lemma atoi_pad n z : - 2 ^ 31 ≤ z < 2 ^ 31 → (11 < n)%nat → atoi (pad_to n (show_int z)) = Ok z.
Proof.
  intros Hz Hn. destruct (show_int_length z Hz) as [Hl _].
  rewrite pad_to_split by lia. by apply atoi_show_int.
Qed.

(** ** Name order is recording order *)

Lemma digits_order a b ra rb :
  all_digits a → all_digits b → length a = length b → dvalue a < dvalue b →
  scmp (a ++ ra) (b ++ rb) < 0.
Proof.
  intros Ha. revert b. induction Ha as [|x a Hx Ha IH]; intros b Hb Hl Hv.
  { by destruct b. }
  destruct Hb as [|y b Hy Hb]; [done|]. injection Hl as Hl. rewrite !dvalue_cons, Hl in Hv.
  pose proof (dvalue_range a Ha) as Ra. pose proof (dvalue_range b Hb) as Rb. rewrite Hl in Ra.
  cbn [app]. rewrite scmp_cons. destruct (Z.eqb_spec x y) as [->|].
  - destruct (Z.eqb_spec y 0); [lia|]. apply IH; [done|done|lia].
  - destruct (Z_lt_dec x y); [lia|]. nia.
Qed.

Lemma scmp_app p a b : nz p → scmp (p ++ a) (p ++ b) = scmp a b.
Proof.
  induction 1 as [|x p Hx Hp IH]; [done|]. cbn [app]. rewrite scmp_cons, Z.eqb_refl.
  by destruct (Z.eqb_spec x 0).
Qed.

Lemma show_pad3_value u : 0 ≤ u ≤ 999 → dvalue (show_pad 3 u) = u.
Proof.
  intros Hu. unfold show_pad. rewrite Z.abs_eq by lia. destruct (Z.ltb_spec u 0); [lia|].
  destruct (show_nat_spec u) as (_ & _ & Hv); [lia|]. unfold dvalue.
  rewrite foldl_app. rewrite <-Hv at 3. f_equal.
  generalize (3 - length (show_nat u))%nat as k. induction k as [|k IH]; [done|exact IH].
Qed.

(** ** What recording and log frames have in common *)

(** Code that changes only log files, [errno], the clock and the outside world,
    and keeps the logger ready. *)
Record calm `{Logger} (w w' : World) : Prop := {
  cm_dirs : w_dirs w' = w_dirs w;
  cm_cwd : w_cwd w' = w_cwd w;
  cm_uuid : w_uuid w' = w_uuid w;
  cm_tcp : w_tcp w' = w_tcp w;
  cm_nsys : (w_nsys w ≤ w_nsys w')%nat;
  cm_files : ∀ p, ¬ is_log_file p → w_files w' !! p = w_files w !! p;
  cm_ready : log_ready w';
}.

(** The attempts to send: descriptor, data and result. *)
Definition send_of (e : event) : option (Z * list Z * Z) :=
  match e with EvSend fd d r => Some (fd, d, r) | _ => None end.
Definition sends (w : World) : list (Z * list Z * Z) := omap send_of (w_events w).

Lemma sends_acts w w' : acts w' = acts w → sends w' = sends w.
Proof.
  assert (∀ l : list event, omap send_of l = omap send_of (filter (λ e, is_act e = true) l)) as H.
  { induction l as [|e l IH]; [done|]. rewrite filter_cons.
    destruct e; cbn [is_act]; rewrite ?decide_True, ?decide_False by done; cbn; rewrite IH; done. }
  unfold acts, sends. intros E. by rewrite H, E, <-H.
Qed.

Section Calm.
Context `{Logger}.


Lemma calm_trans w1 w2 w3 : calm w1 w2 → calm w2 w3 → calm w1 w3.
Proof.
  intros [] []. constructor; try congruence; [lia|].
  intros p Hp. rewrite cm_files1, cm_files0 by done. done.
Qed.

Lemma calm_log w w' : log_frame w w' → log_ready w' → calm w w'.
Proof. intros [] Hr. by constructor. Qed.

(** Steps that touch only [errno], the call count and the recorded events. *)
Lemma calm_sys w w' :
  log_ready w → w_files w' = w_files w → w_dirs w' = w_dirs w → w_cwd w' = w_cwd w →
  w_uuid w' = w_uuid w → w_tcp w' = w_tcp w → w_logsetting w' = w_logsetting w →
  w_log_mutex w' = w_log_mutex w → (w_nsys w ≤ w_nsys w')%nat → calm w w'.
Proof.
  intros Hr Hf Hd Hc Hu Ht Hs Hm Hn. constructor; try done.
  - intros p _. by rewrite Hf.
  - eapply log_ready_stable; [exact Hr|]. constructor; try done. by rewrite Hf.
Qed.

Lemma calm_path w w' s : calm w w' → path_of w' s = path_of w s.
Proof. intros Hc. unfold path_of. by rewrite (cm_cwd _ _ Hc). Qed.

Lemma calm_exists w w' s :
  calm w w' → ¬ is_log_file (path_of w s) → path_exists w' (path_of w' s) = path_exists w (path_of w s).
Proof.
  intros Hc Hl. rewrite (calm_path w w' s Hc). unfold path_exists.
  by rewrite (cm_dirs _ _ Hc), (cm_files _ _ Hc).
Qed.

End Calm.


(** ** Selection *)

(** The window test of [filter_fn]. *)
Definition in_window (tail : list Z) (s e : Z) (d : dirent) : bool :=
  negb (d_type d =? DT_DIR) && (s <=? file_time tail (d_name d)) && (file_time tail (d_name d) <=? e).

Lemma filter_fn_selects `{Logger} tail s e :
  tail_nul tail → - 2 ^ 31 ≤ s < 2 ^ 31 → - 2 ^ 31 ≤ e < 2 ^ 31 →
  selects (filter_fn tail (pad_to 50 (show_int s)) (pad_to 50 (show_int e))) (in_window tail s e).
Proof.
  intros Ht Hs He d w Hr. unfold filter_fn, in_window. destruct (d_type d =? DT_DIR).
  - log_next Hr w' Hf Hr'. exists 0, w'. by split.
  - rewrite !atoi_pad by (done || lia). destruct (atoi10_total tail (d_name d) Ht) as [v Hv].
    unfold file_time. rewrite Hv. cbn [negb andb]. autorewrite with io.
    destruct (s <=? v); cbn [andb]; [|by exists 0, w].
    autorewrite with io. destruct (v <=? e); [by exists 1, w|by exists 0, w].
Qed.

(** With a non-digit after the ten-byte array, [filter_fn] keeps a recorded
    file exactly when its second is inside the requested window, bounds
    included, and changes nothing. *)
Theorem filter_fn_window `{Env, !Logger} c r s e ts u w :
  ts_ok ts → 0 ≤ u ≤ 999 → is_digit c = false →
  - 2 ^ 31 ≤ s < 2 ^ 31 → - 2 ^ 31 ≤ e < 2 ^ 31 →
  filter_fn (c :: r) (pad_to 50 (show_int s)) (pad_to 50 (show_int e))
    (mkDirent (data_name ts u) DT_REG) w =
  Ret (Z.b2z ((s <=? ts) && (ts <=? e))) w.
Proof.
  intros Ht Hu Hc Hs He. unfold filter_fn. change (d_type _ =? DT_DIR) with false. cbv iota.
  cbn [d_name]. rewrite !atoi_pad by (done || lia).
  rewrite !atoi10_data_name, !atoi_show_int by (unfold ts_ok in *; done || lia).
  autorewrite with io. destruct (s <=? ts); [|done]. autorewrite with io. by destruct (ts <=? e).
Qed.

(** The ten-byte copy has no NUL: when the byte after it is a digit the
    time read is ten times too large (reduced to 32 bits) plus that digit. *)
Theorem atoi10_overread c d r ts u :
  ts_ok ts → 0 ≤ u ≤ 999 → 48 ≤ c ≤ 57 → is_digit d = false →
  atoi10 (c :: d :: r) (data_name ts u) = Ok (int32 (ts * 10 + (c - 48))).
Proof.
  intros Ht Hu Hc Hd. rewrite atoi10_data_name by done. destruct (show_ts ts Ht) as (Hl & Hdg & Hv).
  unfold atoi, strtol10. destruct (show_int ts) as [|x l] eqn:E; [done|].
  assert (48 ≤ x ≤ 57) as Hx by (by inversion Hdg).
  cbn [app skip_space]. rewrite digit_not_space by done. cbn [mbind res_bind].
  destruct (Z.eqb_spec x (chr "-")) as [Hx'|_]; [vm_compute in Hx'; lia|].
  destruct (Z.eqb_spec x (chr "+")) as [Hx'|_]; [vm_compute in Hx'; lia|].
  replace (x :: l ++ c :: d :: r) with (((x :: l) ++ [c]) ++ d :: r) by (by rewrite <-app_assoc).
  rewrite dec_value_app; [|apply Forall_app; split; [done|constructor; [lia|constructor]]|done].
  rewrite foldl_app, Hv. cbn [foldl mbind res_bind]. rewrite Z.min_r by (unfold ts_ok in *; lia). done.
Qed.

(** Recorded files sort by name in the order they were recorded: by second,
    then by packet number. *)
Theorem alphasort_recording_order ts u ts' u' ty ty' :
  ts_ok ts → ts_ok ts' → 0 ≤ u ≤ 999 → 0 ≤ u' ≤ 999 →
  ts < ts' ∨ (ts = ts' ∧ u < u') →
  alphasort (mkDirent (data_name ts u) ty) (mkDirent (data_name ts' u') ty') < 0.
Proof.
  intros Ht Ht' Hu Hu' Hlt. unfold alphasort. cbn [d_name]. rewrite !data_name_eq by done.
  destruct (show_ts ts Ht) as (Hl & Hd & Hv), (show_ts ts' Ht') as (Hl' & Hd' & Hv').
  destruct Hlt as [Hlt|[<- Hlt]].
  - apply digits_order; try done; [congruence|]. unfold dvalue. by rewrite Hv, Hv'.
  - rewrite scmp_app by (by apply str_ok_nz, digits_str_ok). rewrite scmp_app by nz_lit.
    destruct (show_pad3 u Hu) as [? ?], (show_pad3 u' Hu') as [? ?].
    apply digits_order; try done; [congruence|]. by rewrite !show_pad3_value.
Qed.

(** ** Building the paths *)

(** The lock file of a client. *)
Definition shm_name (addr : list Z) : list Z := lit "./shm/" ++ addr.

(** Client [index] exists and its address is [addr]. *)
Definition client_at (w : World) (index : Z) (t : DISTRIBUTE_TCP_INFO) (addr : list Z) : Prop :=
  0 ≤ index ∧ w_tcp w !! Z.to_nat index = Some t ∧ cstr (Machine.address t) = Ok addr ∧
  (length addr < 122)%nat.

Lemma tcp_at_spec w index t :
  0 ≤ index → w_tcp w !! Z.to_nat index = Some t → tcp_at index w = Ret t w.
Proof.
  intros Hi Ht. unfold tcp_at. rewrite bind_gets, Ht. by destruct (Z.leb_spec 0 index); [|lia].
Qed.

Lemma shm_file_spec w index t addr :
  client_at w index t addr → shm_file index w = Ret (shm_name addr) w.
Proof.
  intros (Hi & Ht & Ha & Hl). unfold shm_file. rewrite (bind_Ret _ _ _ _ _ (tcp_at_spec w index t Hi Ht)).
  rewrite <-pad_to_nil, (strcat_pad 128 _ _ (lit "./shm/")); [|constructor|reflexivity|cbn; lia].
  rewrite bind_lift_Ok. rewrite app_nil_l.
  apply cstr_split in Ha as Ha'. destruct Ha' as (r & _ & Hnz).
  rewrite (strcat_pad 128 _ _ addr); [|nz_lit|exact Ha|cbn; lia]. rewrite bind_lift_Ok.
  rewrite cstr_pad; [done| |rewrite length_app; cbn; lia].
  apply Forall_app; split; [nz_lit|exact Hnz].
Qed.

Lemma real_path_spec rp path name :
  length rp = 1024%nat → nz path → nz name → (length path + length name < 1022)%nat →
  ∃ rp', real_path rp path name = Ok rp' ∧ length rp' = 1024%nat ∧
    cstr rp' = Ok (path ++ lit "/" ++ name).
Proof.
  intros Hl Hp Hn Hs. unfold real_path.
  destruct (strcpy_holds rp (path ++ [0]) path) as [-> _]; [by apply cstr_app_ne|lia|].
  cbn [mbind res_bind]. set (R := drop _ rp). assert (length R = (1023 - length path)%nat) as HR by (unfold R; len).
  unfold strcpy_at. change (cstr (lit "/" ++ [0])) with (Ok (lit "/")). cbn [mbind res_bind].
  rewrite blit_app by (cbn; lia). cbn [mbind res_bind].
  rewrite cstr_app_ne by done. cbn [mbind res_bind].
  set (R' := drop _ (0 :: R)). assert (length R' = (1022 - length path)%nat) as HR' by (unfold R'; cbn; len). clearbody R'.
  replace (path ++ (lit "/" ++ [0]) ++ R') with ((path ++ lit "/") ++ [0] ++ R') by (by rewrite <-!app_assoc).
  replace (length path + 1)%nat with (length (path ++ lit "/")) by (rewrite length_app; done).
  rewrite blit_app by (rewrite !length_app; cbn; lia).
  eexists. split; [done|]. split.
  - rewrite !length_app, length_drop, length_app, HR'. cbn. lia.
  - rewrite <-(app_assoc name), !app_assoc, <-(app_assoc _ [0]).
    apply cstr_app_ne. apply Forall_app; split; [|done]. apply Forall_app; split; [done|nz_lit].
Qed.

(** ** Playing *)



Section Playing.
Context `{Env, !Logger} (heap : heap_policy) (tail : list Z) (Htail : tail_nul tail).
Context (path : list Z) (ds : list dirent) (contents : list (list Z)).
Context (index : Z) (t : DISTRIBUTE_TCP_INFO) (addr : list Z) (st speed playtime : Z).
Context (Hst : - 2 ^ 31 ≤ st < 2 ^ 31).

(** The directory, its selected files and the lock are there. *)
Record playable (w : World) : Prop := {
  pl_client : client_at w index t addr;
  pl_lock : path_exists w (path_of w (shm_name addr)) = true;
  pl_lock_log : ¬ is_log_file (path_of w (shm_name addr));
  pl_path : nz path;
  pl_files : Forall2 (λ d c, nz (d_name d) ∧ (length path + length (d_name d) < 1022)%nat ∧
      w_files w !! path_of w (path ++ lit "/" ++ d_name d) = Some c ∧
      ¬ is_log_file (path_of w (path ++ lit "/" ++ d_name d))) ds contents;
}.

Lemma playable_calm w w' : playable w → calm w w' → playable w'.
Proof.
  intros [(H1 & H2 & H3 & H4) Hk Hkl Hp Hf] Hc. constructor; try done.
  - repeat split; try done. by rewrite (cm_tcp _ _ Hc).
  - by rewrite (calm_exists w w').
  - by rewrite (calm_path w w').
  - eapply Forall2_impl; [exact Hf|]. intros d c (Hn & Hl & Hd & Hg).
    rewrite (calm_path w w') by done. split; [done|]. split; [done|]. split; [|done].
    by rewrite (cm_files _ _ Hc).
Qed.

(** Whether the file named [name] is due when the clock is read at call [n]. *)
Definition due (name : list Z) (n : nat) : bool :=
  uint32 (file_time tail name - st) <?
  uint32 (speed * int32 (uint32 (env_clock n) - playtime)).

(** [namelist] when the first [i] entries were freed. *)
Definition slots (i : nat) : list slot :=
  ((λ d, (d, true)) <$> take i ds) ++ ((λ d, (d, false)) <$> drop i ds).

Lemma slots_length i : length (slots i) = length ds.
Proof. unfold slots. rewrite length_app, !length_fmap, <-length_app, take_drop. done. Qed.

Lemma slots_lookup i d : ds !! i = Some d → slots i !! i = Some (d, false).
Proof.
  intros Hd. pose proof (lookup_lt_Some _ _ _ Hd). unfold slots.
  rewrite lookup_app_r by (rewrite length_fmap, length_take; lia).
  rewrite length_fmap, length_take, Nat.min_l, Nat.sub_diag by lia. by rewrite (drop_S _ d).
Qed.

Lemma slots_free i d : ds !! i = Some d → <[i := (d, true)]> (slots i) = slots (S i).
Proof.
  intros Hd. pose proof (lookup_lt_Some _ _ _ Hd). unfold slots.
  rewrite (take_S_r _ _ d), fmap_app, <-app_assoc, (drop_S ds d i) by done. cbn.
  rewrite insert_app_r_alt by (rewrite length_fmap, length_take; lia).
  by rewrite length_fmap, length_take, Nat.min_l, Nat.sub_diag by lia.
Qed.

Lemma slots_freed i d : ds !! i = Some d → slots (S i) !! i = Some (d, true).
Proof.
  intros Hd. rewrite <-(slots_free i d) by done. apply list_lookup_insert_eq.
  rewrite slots_length. by eapply lookup_lt_Some.
Qed.

Lemma read_fresh i d buf : ds !! i = Some d → read_name heap (slots i) i buf = Ok (d_name d).
Proof. intros Hd. unfold read_name. by rewrite (slots_lookup i d). Qed.
Lemma read_freed i d buf : ds !! i = Some d → read_name heap (slots (S i)) i buf = hp_read heap (d_name d) buf.
Proof. intros Hd. unfold read_name. by rewrite (slots_freed i d). Qed.
Lemma free_fresh i d : ds !! i = Some d → free_name heap (slots i) i = Ok (slots (S i)).
Proof. intros Hd. unfold free_name. by rewrite (slots_lookup i d), (slots_free i d). Qed.


Abbreviation loop fuel := (play_loop heap tail fuel path (pad_to 50 (show_int st)) index speed playtime).

(** One turn of the loop for entry [i], seen for the first time: the file is read
    before the freed entry is looked at. *)
Lemma play_turn fuel w rp buf i d c :
  playable w → log_ready w → length rp = 1024%nat → ds !! i = Some d → contents !! i = Some c →
  ∃ rp' rps w1, length rp' = 1024%nat ∧ calm w w1 ∧ sends w1 = sends w ∧ w_nsys w1 = S (S (w_nsys w)) ∧
    loop (S fuel) (slots i) rp buf i w =
    match hp_read heap (d_name d) c with
    | Bad f => Crash f
    | Ok name =>
        (r ← (if due name (S (w_nsys w)) then play_send index i rps c else mret (inl i));
         match r with
         | inr code => mret code
         | inl i' => usleep (50 * 1000) ;; loop fuel (slots (S i)) rp' c i'
         end) w1
    end.
Proof.
  intros Hp Hr Hrp Hd Hc.
  destruct (Forall2_lookup_lr _ _ _ _ _ _ (pl_files w Hp) Hd Hc) as (Hnz & Hlen & Hf & Hng).
  destruct (real_path_spec rp path (d_name d)) as (rp' & Erp & Hrp' & Ecs); [done|apply Hp|done|done|].
  set (rps := path ++ lit "/" ++ d_name d) in *.
  set (w0 := set_events (w_events w ++ [EvPrint (lit "realPath: " ++ rps ++ [NEWLINE])]) w).
  exists rp', rps, (set_nsys (S (S (w_nsys w))) w0). split; [done|].
  split; [apply calm_sys; try done; cbn; lia|].
  split; [unfold sends, w0; cbn [w_events set_nsys set_events]; rewrite omap_app; cbn; by rewrite app_nil_r|].
  split; [done|]. cbn [play_loop].
  rewrite decide_False by (rewrite slots_length; pose proof (lookup_lt_Some _ _ _ Hd); lia).
  rewrite (bind_Ret _ _ _ _ _ (shm_file_spec w index t addr (pl_client w Hp))).
  assert (access (shm_name addr) w = Ret 0 w) as Eacc by (by rewrite access_eq, (pl_lock w Hp)).
  rewrite (bind_Ret _ _ _ _ _ Eacc). change (negb (0 =? 0)) with false. cbv iota.
  rewrite (read_fresh i d buf Hd), bind_lift_Ok, Erp, bind_lift_Ok, (free_fresh i d Hd), bind_lift_Ok, Ecs, bind_lift_Ok, bind_printf.
  assert (fopen_read rps w0 = Ret (Some (mkFILE c 0)) w0) as Efo.
  { unfold fopen_read. rewrite bind_gets. change (w_files w0 !! path_of w0 rps) with (w_files w !! path_of w rps).
    by rewrite Hf. }
  rewrite (bind_Ret _ _ _ _ _ Efo). cbn [f_data]. rewrite !bind_time.
  rewrite (read_freed i d c Hd).
  destruct (hp_read heap (d_name d) c) as [name|f]; [rewrite bind_lift_Ok|done].
  destruct (atoi10_total tail name Htail) as [v Hv]. rewrite Hv, bind_lift_Ok, atoi_pad, bind_lift_Ok by (done || lia).
  assert (due name (S (w_nsys w)) = (uint32 (v - st) <? uint32 (speed * int32 (uint32 (env_clock (S (w_nsys w))) - playtime)))) as ->
    by (unfold due, file_time; by rewrite Hv). done.
Qed.






End Playing.

(** ** The files of a directory *)

Lemma split_on_nil c s : split_on c s ≠ [].
Proof. destruct s as [|x s]; cbn; [done|]. destruct (x =? c); [done|]. by destruct (split_on c s). Qed.

(** A plain name below a directory. *)
Lemma resolve_child cwd dir name :
  dir ≠ [] → plain_name name → resolve cwd (dir ++ lit "/" ++ name) = resolve cwd dir ++ [name].
Proof.
  intros Hd (Hs & He & H1 & H2). change (lit "/" ++ name) with (chr "/" :: name).
  destruct dir as [|c dir]; [done|]. unfold resolve. cbn [app].
  rewrite app_comm_cons, split_on_app, (split_on_none _ name) by done. rewrite foldl_app. cbn [foldl].
  unfold path_step at 1. apply beq_false in He, H1, H2. by rewrite He, H1, H2.
Qed.

(** The directory has fewer entries than an [int] counts, and every file directly
    below it has a usable name and is no log file. *)
Definition dir_ok (w : World) (dir : list Z) : Prop :=
  dir ≠ [] ∧ nz dir ∧ (length dir < 512)%nat ∧
  Z.of_nat (length (children w (path_of w dir))) < 2 ^ 31 - 2 ∧
  ∀ q, is_Some (w_files w !! q) → is_child (path_of w dir) q = true →
    ∃ name, q = path_of w dir ++ [name] ∧ plain_name name ∧ nz name ∧ (length name < 256)%nat ∧
      ¬ is_log_file q.

(** The contents of an entry. *)
Definition entry_data (w : World) (dir : list Z) (d : dirent) : list Z :=
  default [] (w_files w !! path_of w (dir ++ lit "/" ++ d_name d)).

Lemma wanted_regular tail s e w p d :
  d ∈ wanted (in_window tail s e) w p →
  in_window tail s e d = true ∧
  ∃ q, is_Some (w_files w !! q) ∧ is_child p q = true ∧ d = mkDirent (default [] (last q)) DT_REG.
Proof.
  unfold wanted. intros [Hw Hin]%list_elem_of_filter. split; [done|].
  assert (d_type d ≠ DT_DIR) as Hty.
  { unfold in_window in Hw. bsimpl. done. }
  apply elem_of_app in Hin as [Hin|Hin].
  { destruct Hty. revert Hin. unfold dots. rewrite !elem_of_cons, elem_of_nil. by intros [->|[->|[]]]. }
  apply list_elem_of_fmap in Hin as (q & -> & Hq). unfold children in Hq.
  apply list_elem_of_filter in Hq as [Hc Hq]. unfold path_entry in *. cbn [d_type] in Hty.
  case_bool_decide as Hd; [done|]. exists q. split; [|done].
  apply elem_of_app in Hq as [Hq|Hq]; [by apply elem_of_elements in Hq|].
  by apply elem_of_elements, elem_of_dom in Hq.
Qed.

Lemma wanted_files tail s e w dir d :
  dir_ok w dir → d ∈ wanted (in_window tail s e) w (path_of w dir) →
  nz (d_name d) ∧ (length dir + length (d_name d) < 1022)%nat ∧
  w_files w !! path_of w (dir ++ lit "/" ++ d_name d) = Some (entry_data w dir d) ∧
  ¬ is_log_file (path_of w (dir ++ lit "/" ++ d_name d)).
Proof.
  intros (Hne & Hz & Hl & _ & Hq) (_ & q & Hs & Hc & ->)%wanted_regular.
  destruct (Hq q Hs Hc) as (name & -> & Hpl & Hn & Hnl & Hlog). rewrite last_snoc.
  unfold entry_data. cbn [d_name default from_option id].
  assert (path_of w (dir ++ lit "/" ++ name) = path_of w dir ++ [name]) as ->
    by (by apply resolve_child).
  destruct Hs as [c Hc']. rewrite Hc'. split; [done|]. split; [lia|]. done.
Qed.

(** ** Replaying a directory *)

Section Replaying.
Context `{Env, !Errnos, !Logger, !DirOrder} (tail : list Z).

(** The lock of the client is in place. *)
Definition lock_held (w : World) (addr : list Z) : Prop :=
  path_exists w (path_of w (shm_name addr)) = true ∧ ¬ is_log_file (path_of w (shm_name addr)).

(** The state in which the loop starts is playable for the scanned entries. *)
Lemma scan_playable w w' dir v s e index t addr :
  calm w w' → dir_ok w dir → client_at w index t addr → lock_held w addr →
  v ≡ₚ wanted (in_window tail s e) w (path_of w dir) →
  playable dir v (entry_data w dir <$> v) index t addr w'.
Proof.
  intros Hcm Hd Hcl [Hk Hkl] Hv. apply (playable_calm _ _ _ _ _ _ w w'); [|done]. constructor; try done.
  - apply Hd.
  - apply Forall2_fmap_r, Forall_Forall2_diag, Forall_forall. intros d Hin. rewrite Hv in Hin.
    by eapply wanted_files.
Qed.

(** Reading the clock twice. *)
Lemma clock_calm w n : log_ready w → (w_nsys w ≤ n)%nat → calm w (set_nsys n w).
Proof. intros. by apply calm_sys. Qed.

(** The number of the call that reads the start time of the playback. *)
Definition start_call (w : World) (dir : list Z) (s e : Z) : nat :=
  match SCANDIR dir (filter_fn tail (pad_to 50 (show_int s)) (pad_to 50 (show_int e)))
          (Some alphasort) w with
  | Ret _ w0 => S (w_nsys w0)
  | _ => 0%nat
  end.

(** The part of [scanAndSend] before its loop. *)
Lemma scanAndSend_scan w dir s e index speed :
  tail_nul tail → - 2 ^ 31 ≤ s < 2 ^ 31 → - 2 ^ 31 ≤ e < 2 ^ 31 →
  log_ready w → dir_ok w dir → good_from (w_nsys w) → path_of w dir ∈ w_dirs w →
  let m := start_call w dir s e in
  ∃ v w1, v ≡ₚ wanted (in_window tail s e) w (path_of w dir) ∧ StronglySorted (cle alphasort) v ∧
    calm w w1 ∧ sends w1 = sends w ∧ w_nsys w1 = S m ∧ ∀ heap fuel,
    scanAndSend heap tail fuel dir (pad_to 50 (show_int s)) (pad_to 50 (show_int e)) index speed w =
    play_loop heap tail fuel dir (pad_to 50 (show_int s)) index speed (uint32 (env_clock m))
      (slots v 0) (zeros 1024) [] 0 w1.
Proof.
  intros Ht Hs He Hr (_ & _ & _ & Hsz & _) Hg Hdir. unfold scanAndSend.
  destruct (SCANDIR_spec _ _ (filter_fn_selects tail s e Ht Hs He) alphasort w dir Hr)
    as (r & v & w0 & E & Hf & Hr0 & [[-> Hn]|(-> & _ & Hp & Hso)]); [unfold listable; lia|by destruct Hn|].
  unfold start_call. rewrite E.
  eexists v, (set_nsys (S (S (w_nsys w0))) w0). split; [done|]. split; [done|].
  pose proof (lf_nsys _ _ Hf) as Hns. split; [|split; [|split]].
  - eapply calm_trans; [by apply calm_log|]. apply calm_sys; try done. cbn. lia.
  - exact (sends_acts w w0 (lf_acts _ _ Hf)).
  - done.
  - intros heap fuel. rewrite (bind_Ret _ _ _ _ _ E). unfold slots.
    assert (Z.of_nat (length v) < 2 ^ 31) as Hv.
    { rewrite Hp. unfold wanted. pose proof (length_filter (λ d, in_window tail s e d = true) (dots ++ (path_entry w <$> children w (path_of w dir)))) as Hl.
      rewrite length_app, length_fmap in Hl. cbn [dots length] in Hl. lia. }
    rewrite int32_small by lia. destruct (Z.ltb_spec (Z.of_nat (length v)) 0); [lia|].
    rewrite Nat2Z.id, take_ge by lia. by rewrite !bind_time.
Qed.


(** C gives no value to a name read after [free]: under a strict heap every
    playback that selects at least one file faults at its first file. *)
Theorem scanAndSend_strict_faults w dir s e index speed t addr fuel :
  tail_nul tail → - 2 ^ 31 ≤ s < 2 ^ 31 → - 2 ^ 31 ≤ e < 2 ^ 31 →
  log_ready w → good_from (w_nsys w) → path_of w dir ∈ w_dirs w → dir_ok w dir →
  client_at w index t addr → lock_held w addr →
  wanted (in_window tail s e) w (path_of w dir) ≠ [] →
  scanAndSend strict_heap tail (S fuel) dir (pad_to 50 (show_int s)) (pad_to 50 (show_int e))
    index speed w = Crash DanglingRead.
Proof.
  intros Ht Hs He Hr Hg Hdir Hok Hcl Hlk Hne.
  destruct (scanAndSend_scan w dir s e index speed) as (v & w1 & Hv & Hso & Hc & Hss & Hm & E); try done.
  rewrite E. destruct v as [|d v]; [by apply Permutation_nil_l in Hv|].
  edestruct (play_turn strict_heap tail Ht dir (d :: v) (entry_data w dir <$> (d :: v)) index t addr s speed
    (uint32 (env_clock (start_call w dir s e))) Hs fuel w1 (zeros 1024) [] 0 d)
    as (rp' & rps & w2 & _ & _ & _ & _ & El); [by eapply scan_playable|apply Hc|done|done|done|exact El].
Qed.

End Replaying.

(** ** Commands and the lock file *)

Section Commands.
Context `{Env, !Logger} (heap : heap_policy) (tail : list Z).

(** The lock is a file of its own. *)
Definition lock_path_ok (w : World) (addr : list Z) : Prop :=
  ¬ is_log_file (path_of w (shm_name addr)) ∧
  path_of w (shm_name addr) ≠ path_of w (conf_file w) ∧
  path_of w (shm_name addr) ∉ w_dirs w.

Lemma lock_path_calm w w' addr : lock_path_ok w addr → calm w w' → lock_path_ok w' addr.
Proof.
  intros (H1 & H2 & H3) Hc. unfold lock_path_ok, conf_file.
  rewrite !(calm_path w w') by done. by rewrite (cm_cwd _ _ Hc), (cm_dirs _ _ Hc).
Qed.

(** Changing the lock file leaves the logger ready. *)
Lemma ready_lock w addr f n :
  log_ready w → lock_path_ok w addr →
  log_ready (set_files (partial_alter f (path_of w (shm_name addr)) (w_files w)) (set_nsys n w)).
Proof.
  intros Hr (_ & Hne & _). eapply log_ready_stable; [exact Hr|]. constructor; try done.
  cbn. by apply lookup_partial_alter_ne.
Qed.

(** What taking away the lock does. *)
Record unlocked (w : World) (addr : list Z) (w' : World) : Prop := {
  ul_lock : path_exists w' (path_of w' (shm_name addr)) = false;
  ul_files : ∀ p, ¬ is_log_file p → p ≠ path_of w (shm_name addr) → w_files w' !! p = w_files w !! p;
  ul_dirs : w_dirs w' = w_dirs w;
  ul_cwd : w_cwd w' = w_cwd w;
  ul_tcp : w_tcp w' = w_tcp w;
  ul_sends : sends w' = sends w;
  ul_ready : log_ready w';
}.

Lemma remove_lock_spec w addr fail line c :
  log_ready w → good_from (w_nsys w) → lock_path_ok w addr →
  w_files w !! path_of w (shm_name addr) = Some c →
  ∃ w', remove_lock (shm_name addr) fail line w = Ret tt w' ∧ unlocked w addr w'.
Proof.
  intros Hr Hg Hok Hc. unfold remove_lock. set (lk := path_of w (shm_name addr)) in *.
  set (w1 := set_files (delete lk (w_files w)) (set_nsys (S (w_nsys w)) w)).
  assert (remove (shm_name addr) w = Ret 0 w1) as E.
  { unfold remove, tick, gets, mbind, M_bind. rewrite (Hg (w_nsys w)) by lia. unfold id.
    change (path_of (set_nsys (S (w_nsys w)) w) (shm_name addr)) with lk. cbn [w_files set_nsys].
    rewrite Hc. by rewrite bool_decide_true by by eexists. }
  rewrite (bind_Ret _ _ _ _ _ E). change (negb (0 =? 0)) with false. cbv iota.
  assert (log_ready w1) as Hr1 by (by apply ready_lock).
  log_next Hr1 w2 Hf2 Hr2. eexists. split; [done|].
  pose proof (lf_cwd _ _ Hf2) as Hcwd. destruct Hok as (Hnl & _ & Hnd).
  assert (path_of w2 (shm_name addr) = lk) as Ep by (unfold path_of; by rewrite Hcwd).
  constructor; try apply Hf2; try done.
  - rewrite Ep. unfold path_exists. rewrite (lf_dirs _ _ Hf2), (lf_files _ _ Hf2) by done.
    cbn [w_files w_dirs set_files set_nsys w1]. rewrite lookup_delete_eq.
    rewrite bool_decide_false by done. rewrite bool_decide_false; [done|]. by intros [].
  - intros p Hp Hne. rewrite (lf_files _ _ Hf2) by done. cbn. by rewrite lookup_delete_ne by (intros <-; by apply Hne).
  - exact (sends_acts w1 w2 (lf_acts _ _ Hf2)).
Qed.

(** The common start of every command: the four lines it prints. *)
Lemma playback_run_head fuel buf index t addr w :
  client_at w index t addr → length buf = sizeof_Replay → log_ready w →
  ∃ w1, calm w w1 ∧ sends w1 = sends w ∧ w_files w1 = w_files w ∧ w_nsys w1 = w_nsys w ∧
  let cmd := CommandType (Replay_of buf) in
  playback_run heap tail fuel buf index w =
  (if cmd =? PLAYBACK_START then
    fd ← creat (shm_name addr);
    if fd <? 0 then
      LogWrite ERROR (lit "%d %s") [AInt 183; AStr (lit "playback shm file create failed")] ;; mret tt
    else
      LogWrite INFO (lit "%d %s") [AInt 188; AStr (lit "playback get START signal")] ;;
      res ← myscandirServe heap tail fuel (StartTime (Replay_of buf)) (EndTime (Replay_of buf)) index
              (Speed (Replay_of buf));
      if res =? EXIT_SUCCESS_CODE then
        LogWrite INFO (lit "%d %s") [AInt 193; AStr (lit "playback send success")] ;; mret tt
      else
        LogWrite INFO (lit "%d %s") [AInt 196; AStr (lit "playback send failed")] ;;
        remove_lock (shm_name addr)
          (e ← strerror_errno;
           LogWrite ERROR (lit "%d %s: %s")
             [AInt 199; AStr (lit "playback shm file remove failed"); AStr e] ;; mret tt) 203
  else if cmd =? PLAYBACK_END then
    LogWrite INFO (lit "%d %s") [AInt 208; AStr (lit "playback get STOP signal, now close connection")] ;;
    remove_lock (shm_name addr) (remove_failed 211) 215
  else
    LogWrite ERROR (lit "%d %s") [AInt 219; AStr (lit "Wrong playback signal get")] ;;
    remove_lock (shm_name addr) (remove_failed 222) 226) w1.
Proof.
  intros Hcl Hl Hr. unfold playback_run. rewrite (bind_Ret _ _ _ _ _ (shm_file_spec w index t addr Hcl)).
  rewrite Hl, memcpy_all by done. rewrite bind_lift_Ok, !bind_printf.
  eexists. split; [|split; [|split; [|split; [|reflexivity]]]]; [by apply calm_sys| |done|done].
  unfold sends. cbn [w_events set_events]. rewrite !omap_app. cbn. by rewrite !app_nil_r.
Qed.

Lemma good_calm w w' : good_from (w_nsys w) → calm w w' → good_from (w_nsys w').
Proof. intros Hg Hc. eapply good_from_mono; [apply Hc|done]. Qed.

(** [unlocked] after steps that change nothing of interest. *)
Lemma unlocked_calm w w1 addr w' :
  calm w w1 → sends w1 = sends w → unlocked w1 addr w' → unlocked w addr w'.
Proof.
  intros Hc Hs []. constructor; try done.
  - intros p Hp Hne. rewrite ul_files0; [by apply Hc|done|by rewrite (calm_path w w1)].
  - by rewrite ul_dirs0, (cm_dirs _ _ Hc).
  - by rewrite ul_cwd0, (cm_cwd _ _ Hc).
  - by rewrite ul_tcp0, (cm_tcp _ _ Hc).
  - by rewrite ul_sends0.
Qed.

(** A command other than START (END or an unknown one) removes the lock
    file of the client and sends nothing, so forwarding to the client resumes;
    no other file but the log changes. *)
Theorem playback_end_unlocks fuel buf index t addr w c :
  log_ready w → good_from (w_nsys w) → client_at w index t addr →
  length buf = sizeof_Replay → CommandType (Replay_of buf) ≠ PLAYBACK_START →
  lock_path_ok w addr → w_files w !! path_of w (shm_name addr) = Some c →
  ∃ w', playback_run heap tail fuel buf index w = Ret tt w' ∧ unlocked w addr w'.
Proof.
  intros Hr Hg Hcl Hl Hcmd Hok Hc.
  destruct (playback_run_head fuel buf index t addr w Hcl Hl Hr) as (w1 & Hc1 & Hs1 & Hf1 & _ & E).
  rewrite E. apply Z.eqb_neq in Hcmd. rewrite Hcmd. pose proof (cm_ready _ _ Hc1) as Hr1.
  assert (∀ w2 fail line, log_frame w1 w2 → log_ready w2 →
    ∃ w', remove_lock (shm_name addr) fail line w2 = Ret tt w' ∧ unlocked w addr w') as Hrm.
  { intros w2 fail line Hf2 Hr2. assert (calm w w2) as Hc2 by (eapply calm_trans; [exact Hc1|by apply calm_log]).
    destruct (remove_lock_spec w2 addr fail line c) as (w' & Ew & Hu); [done|by eapply good_calm| |..].
    - by eapply lock_path_calm.
    - rewrite (calm_path w w2), (cm_files _ _ Hc2) by (done || apply Hok). done.
    - exists w'. split; [done|]. eapply unlocked_calm; [exact Hc2| |exact Hu].
      by rewrite (sends_acts w1 w2), Hs1 by apply Hf2. }
  destruct (CommandType (Replay_of buf) =? PLAYBACK_END); log_next Hr1 w2 Hf2 Hr2; by apply Hrm.
Qed.

(** A packet longer than the 14-byte command is copied whole into the
    command structure: playback of such a packet overruns it. *)
Theorem playback_run_oversize fuel buf index t addr w :
  client_at w index t addr → (sizeof_Replay < length buf)%nat →
  playback_run heap tail fuel buf index w = Crash OutOfBounds.
Proof.
  intros Hcl Hl. unfold playback_run. rewrite (bind_Ret _ _ _ _ _ (shm_file_spec w index t addr Hcl)).
  assert (memcpy (zeros sizeof_Replay) 0 buf (length buf) = Bad OutOfBounds) as ->; [|done].
  unfold memcpy. rewrite decide_True, firstn_all by done. apply blit_over. done.
Qed.

(** The state right after the lock was created. *)
Definition locked (w : World) (addr : list Z) : World :=
  set_files (<[path_of w (shm_name addr) := []]> (w_files w)) w.

Lemma creat_lock w addr :
  good_from (w_nsys w) → can_create w (path_of w (shm_name addr)) = true →
  creat (shm_name addr) w = Ret 3 (set_nsys (S (w_nsys w)) (locked w addr)).
Proof.
  intros Hg Hc. unfold creat, mbind, M_bind. rewrite open_write_eq. unfold open_ok.
  by rewrite (Hg (w_nsys w)), Hc by lia.
Qed.

Lemma lock_held_calm w w' addr c :
  lock_path_ok w addr → calm w w' → w_files w !! path_of w (shm_name addr) = Some c → lock_held w' addr.
Proof.
  intros (Hnl & _) Hc Hf. unfold lock_held. rewrite (calm_path w w') by done. split; [|done].
  unfold path_exists. rewrite (cm_files _ _ Hc), Hf by done.
  by rewrite (bool_decide_true (is_Some _)), orb_true_r by by eexists.
Qed.

(** How START treats the lock. *)
Lemma start_lock fuel buf index t addr w :
  log_ready w → good_from (w_nsys w) → client_at w index t addr →
  length buf = sizeof_Replay → CommandType (Replay_of buf) = PLAYBACK_START →
  lock_path_ok w addr → can_create w (path_of w (shm_name addr)) = true →
  ∃ w2, calm (locked w addr) w2 ∧ sends w2 = sends w ∧
    ∀ code w3,
      myscandirServe heap tail fuel (StartTime (Replay_of buf)) (EndTime (Replay_of buf)) index
        (Speed (Replay_of buf)) w2 = Ret code w3 → calm w2 w3 →
      ∃ w', playback_run heap tail fuel buf index w = Ret tt w' ∧ sends w' = sends w3 ∧
        if code =? 0 then lock_held w' addr
        else path_exists w' (path_of w' (shm_name addr)) = false.
Proof.
  intros Hr Hg Hcl Hl Hcmd Hok Hcr.
  destruct (playback_run_head fuel buf index t addr w Hcl Hl Hr) as (w1 & Hc1 & Hs1 & Hf1 & Hn1 & E).
  rewrite E, Hcmd. change (PLAYBACK_START =? PLAYBACK_START) with true. cbv iota. clear E.
  pose proof (lock_path_calm w w1 addr Hok Hc1) as Hok1. pose proof (cm_ready _ _ Hc1) as Hr1.
  assert (can_create w1 (path_of w1 (shm_name addr)) = true) as Hcr1.
  { rewrite (calm_path w w1) by done. unfold can_create. by rewrite (cm_dirs _ _ Hc1). }
  rewrite (bind_Ret _ _ _ _ _ (creat_lock w1 addr (good_calm w w1 Hg Hc1) Hcr1)).
  change (3 <? 0) with false. cbv iota. set (w1' := set_nsys _ (locked w1 addr)).
  assert (calm (locked w addr) w1') as Hcl1.
  { constructor; try apply Hc1; [cbn; lia| |by apply ready_lock].
    intros p Hp. unfold w1', locked. cbn [w_files set_files set_nsys]. by rewrite (calm_path w w1), Hf1 by done. }
  assert (sends w1' = sends w) as Hs1' by exact Hs1.
  pose proof (cm_ready _ _ Hcl1) as Hr1'. log_next Hr1' w2 Hf2 Hr2.
  assert (calm (locked w addr) w2) as Hcl2 by (eapply calm_trans; [exact Hcl1|by apply calm_log]).
  exists w2. split; [done|]. split; [by rewrite (sends_acts w1' w2) by apply Hf2|].
  intros code w3 Em Hc3. rewrite (bind_Ret _ _ _ _ _ Em).
  assert (lock_path_ok (locked w addr) addr) as HokL by exact Hok.
  assert (calm (locked w addr) w3) as Hcl3 by (by eapply calm_trans).
  assert (w_files (locked w addr) !! path_of (locked w addr) (shm_name addr) = Some []) as HfL
    by (cbn; apply lookup_insert_eq).
  pose proof (cm_ready _ _ Hc3) as Hr3. unfold EXIT_SUCCESS_CODE.
  destruct (code =? 0); log_next Hr3 w4 Hf4 Hr4;
    assert (calm (locked w addr) w4) as Hcl4 by (eapply calm_trans; [exact Hcl3|by apply calm_log]);
    pose proof (sends_acts w3 w4 (lf_acts _ _ Hf4)) as Hs4.
  - exists w4. split; [done|]. split; [done|]. by eapply lock_held_calm.
  - edestruct (remove_lock_spec w4 addr) as (w' & Er & Hu); [exact Hr4| | | |].
    + eapply good_calm; [|exact Hcl4]. exact Hg.
    + by eapply lock_path_calm.
    + rewrite (calm_path (locked w addr) w4), (cm_files _ _ Hcl4); [exact HfL|apply Hok|done].
    + exists w'. split; [exact Er|]. split; [by rewrite (ul_sends _ _ _ Hu)|apply Hu].
Qed.

(** START creates the lock before anything is sent.  When the scan and send
    succeed the lock is still there afterwards (forwarding to the client stays
    stopped until an END); when they fail it is removed. *)
Theorem playback_start_lock fuel buf index t addr w :
  log_ready w → good_from (w_nsys w) → client_at w index t addr →
  length buf = sizeof_Replay → CommandType (Replay_of buf) = PLAYBACK_START →
  lock_path_ok w addr → can_create w (path_of w (shm_name addr)) = true →
  ∃ w2, calm (locked w addr) w2 ∧ sends w2 = sends w ∧
    ∀ code w3,
      myscandirServe heap tail fuel (StartTime (Replay_of buf)) (EndTime (Replay_of buf)) index
        (Speed (Replay_of buf)) w2 = Ret code w3 → calm w2 w3 →
      ∃ w', playback_run heap tail fuel buf index w = Ret tt w' ∧ sends w' = sends w3 ∧
        if code =? 0 then lock_held w' addr
        else path_exists w' (path_of w' (shm_name addr)) = false.
Proof. apply start_lock. Qed.

Context `{!Calendar}.

Lemma data_conf_calm w w' dp :
  data_conf w dp → calm w w' → data_conf w' dp.
Proof.
  intros [(data & Hf & Hok & Ha) [Hz Hl]] Hc. split; [|by rewrite (cm_cwd _ _ Hc)].
  exists data. unfold conf_file. rewrite (calm_path w w'), (cm_cwd _ _ Hc) by done.
  rewrite (cm_files _ _ Hc); [by split|]. apply conf_not_log.
Qed.

(** Without today's directory nothing is played. *)
Lemma myscandirServe_no_day fuel w dp s e index speed :
  log_ready w → data_conf w dp → path_exists w (path_of w (today dp w)) = false →
  ∃ w', myscandirServe heap tail fuel s e index speed w = Ret (-1) w' ∧ calm w w' ∧ sends w' = sends w.
Proof.
  intros Hr Hd Hno. pose proof Hd as (_ & Hz & Hl). unfold myscandirServe.
  assert (∀ z, ∃ a, blit (zeros 50) 0 (show_int (int32 z) ++ [0]) = Ok a) as Hb.
  { intros z. destruct (show_int_length (int32 z) (int32_range z)) as [Hlz _].
    eexists. apply blit_0. rewrite length_app. unfold zeros. rewrite length_replicate. cbn. lia. }
  destruct (Hb s) as [a ->], (Hb e) as [b ->]. rewrite !bind_lift_Ok.
  rewrite (bind_Ret _ _ _ _ _ (config_path_spec w Hz Hl)).
  rewrite cstr_pad; [|by apply conf_file_nz|rewrite conf_file_length; lia]. rewrite bind_lift_Ok.
  rewrite (bind_Ret _ _ _ _ _ (day_dir_spec w dp Hd)).
  destruct (data_conf_path w dp Hd) as [Hdz Hdl]. destruct (today_ok dp w Hdz) as [Htz Htl].
  rewrite cstr_pad by first [assumption|lia]. rewrite bind_lift_Ok.
  unfold mbind at 1, M_bind at 1. rewrite access_eq.
  change (path_exists _ (path_of _ _)) with (path_exists w (path_of w (today dp w))). rewrite Hno.
  change (-1 =? 0) with false. cbv iota. set (w1 := set_errno _ _).
  assert (calm w w1) as Hc1 by (apply calm_sys; try done; cbn; lia).
  pose proof (cm_ready _ _ Hc1) as Hr1. log_next Hr1 w2 Hf2 Hr2.
  exists w2. split; [done|]. split; [eapply calm_trans; [exact Hc1|by apply calm_log]|].
  exact (sends_acts w1 w2 (lf_acts _ _ Hf2)).
Qed.

Lemma today_not_log dp w : ¬ is_log_file (path_of w (today dp w)).
Proof.
  intros (d & name & E & [x ->]).
  destruct (daydir_text_ok _ (cal_ok (w_nsys w))) as [Hl Hd].
  unfold today in E. set (day := daydir_text _) in *.
  destruct (resolve_last (w_cwd w) dp day) as [d' Hd'].
  { split; [|split; [|split]]; [|by intros E'; rewrite E' in Hl..].
    intros Hin. eapply Forall_forall in Hd; [|exact Hin]. change (chr "/") with 47 in Hd. lia. }
  unfold path_of in E. change (dp ++ lit "/" ++ day) with (dp ++ chr "/" :: day) in E.
  rewrite Hd' in E. apply app_inj_tail in E as [_ E]. rewrite E in Hd.
  apply Forall_app in Hd as [_ Hd]. apply Forall_inv in Hd. change (48 ≤ 46 ≤ 57) in Hd. lia.
Qed.

(** A START on a day without recordings fails cleanly: nothing is sent and
    the lock is gone again when the command returns. *)
Theorem playback_start_wrong_day fuel buf index t addr w dp :
  log_ready w → good_from (w_nsys w) → client_at w index t addr →
  length buf = sizeof_Replay → CommandType (Replay_of buf) = PLAYBACK_START →
  lock_path_ok w addr → can_create w (path_of w (shm_name addr)) = true → data_conf w dp →
  (∀ n, let day := path_of w (dp ++ lit "/" ++ daydir_text (env_localtime (env_clock n))) in
        path_exists w day = false ∧ day ≠ path_of w (shm_name addr)) →
  ∃ w', playback_run heap tail fuel buf index w = Ret tt w' ∧ sends w' = sends w ∧
    path_exists w' (path_of w' (shm_name addr)) = false.
Proof.
  intros Hr Hg Hcl Hl Hcmd Hok Hcr Hd Hno.
  destruct (start_lock fuel buf index t addr w) as (w2 & Hc2 & Hs2 & Hgo); try done.
  assert (data_conf (locked w addr) dp) as HdL.
  { destruct Hd as [(data & Hf & Hdok & Ha) [Hz Hcw]]. split; [|done]. exists data. split; [|done].
    cbn. rewrite lookup_insert_ne; [done|]. apply Hok. }
  destruct (myscandirServe_no_day fuel w2 dp (StartTime (Replay_of buf)) (EndTime (Replay_of buf)) index
    (Speed (Replay_of buf))) as (w3 & Em & Hc3 & Hs3).
  - apply Hc2.
  - by eapply data_conf_calm.
  - destruct (Hno (w_nsys w2)) as [Hn Hne]. fold (today dp w2) in Hn, Hne.
    unfold path_exists in *. rewrite (calm_path (locked w addr) w2) by done.
    change (path_of (locked w addr)) with (path_of w) in *.
    rewrite (cm_dirs _ _ Hc2), (cm_files _ _ Hc2).
    + unfold locked. cbn [w_files w_dirs set_files]. rewrite lookup_insert_ne; [exact Hn|]. intros E. by apply Hne.
    + exact (today_not_log dp (set_nsys (w_nsys w2) w)).
  - destruct (Hgo (-1) w3 Em Hc3) as (w' & Er & Hs' & Hlk). exists w'. split; [done|].
    split; [by rewrite Hs', Hs3|exact Hlk].
Qed.

End Commands.

(** ** Witnesses *)

(** A system whose clock jumps a minute ahead after [k] calls. *)
Definition jump_env (k : nat) : Env := {|
  env_clock n := if decide (n ≤ k)%nat then 1667750400 else 1667750460;
  env_localtime _ := mkTm 0 30 10 6 10 122;
  env_home := Some (lit "/root");
  env_strerror _ := lit "error";
  env_io_fail _ := None;
  env_dirorder _ l := l;
  env_socket n := 5 + Z.of_nat n;
  env_setsockopt _ := 0;
  env_bind _ := 0;
  env_listen _ := 0;
  env_accept n := mkConn (100 + Z.of_nat n) (192, 168, 30, 153) 40000;
  env_connect _ := 0;
  env_send _ d := (Z.of_nat (length d), 0);
  env_recv _ := inr [];
  env_fork _ := 1;
  env_pthread_create _ := 0;
  env_memory _ := Memory 262144 4096 (λ _, true);
|}.
#[export] Instance jump_calendar k : @Calendar (jump_env k).
Proof. intros n. unfold tm_ok. cbn. lia. Qed.

(** A process with one client, its lock and two recorded packets. *)
Definition play_addr : list Z := lit "192.168.30.153".
Definition play_dir : list Z := lit "./data/20221106".
Definition play_tcp : DISTRIBUTE_TCP_INFO :=
  mkTCP (pad_to INFO_LENGTH play_addr) (zeros INFO_LENGTH) 9999 7 0 0.
Definition play_master : DISTRIBUTE_TCP_INFO :=
  mkTCP (pad_to INFO_LENGTH (lit "192.168.30.3")) (zeros INFO_LENGTH) 60003 4 1 0.
Definition play_conf : list Z :=
  render [Entry (lit "log-path") (lit "./log"); Entry (lit "log-level") (lit "ALL");
          Entry (lit "data-path") (lit "./data")].
Definition lock_file : path := [lit "srv"; lit "shm"; play_addr].
Definition packet_file (name : list Z) : path := [lit "srv"; lit "data"; lit "20221106"; name].
Definition play_world : World :=
  set_tcp [play_master; play_tcp]
    (boot (<[ [lit "srv"; lit "engine.conf"] := play_conf ]>
           (<[ lock_file := [] ]>
            (<[ packet_file (data_name 1667750412 1) := [235; 3] ]>
             (<[ packet_file (data_name 1667750405 0) := [235; 1; 2] ]> ∅))))
       {[ []; [lit "srv"]; [lit "srv"; lit "log"]; [lit "srv"; lit "shm"];
          [lit "srv"; lit "data"]; [lit "srv"; lit "data"; lit "20221106"] ]}).

Lemma play_client : client_at play_world 1 play_tcp play_addr.
Proof. repeat split; vm_compute; [discriminate|lia]. Qed.

Lemma play_name_ok ts u :
  ts_ok ts → 0 ≤ u ≤ 999 →
  plain_name (data_name ts u) ∧ nz (data_name ts u) ∧ (length (data_name ts u) < 256)%nat ∧
  ¬ is_log_file (packet_file (data_name ts u)).
Proof.
  intros Ht Hu. split; [by apply data_name_plain|].
  destruct (name_text_ok ts u Hu) as [Hz Hl]. split; [|split].
  - apply Forall_app; split; [assumption|nz_lit].
  - unfold data_name. rewrite length_app. cbn. lia.
  - apply data_not_log. exists [lit "srv"; lit "data"; lit "20221106"], (data_name ts u).
    split; [done|]. by eexists.
Qed.

Lemma play_dir_ok : dir_ok play_world play_dir.
Proof.
  split; [done|]. split; [by_decide|]. split; [vm_compute; lia|]. split; [vm_compute; reflexivity|].
  assert (path_of play_world play_dir = [lit "srv"; lit "data"; lit "20221106"]) as -> by (vm_compute; reflexivity).
  intros q [c Hq] Hc. unfold play_world in Hq. cbn [w_files set_tcp boot] in Hq.
  apply lookup_insert_Some in Hq as [[<- _]|[_ Hq]]; [by vm_compute in Hc|].
  apply lookup_insert_Some in Hq as [[<- _]|[_ Hq]]; [by vm_compute in Hc|].
  apply lookup_insert_Some in Hq as [[<- _]|[_ Hq]];
    [|apply lookup_insert_Some in Hq as [[<- _]|[_ Hq]]; [|done]].
  - exists (data_name 1667750412 1). split; [done|]. apply play_name_ok; [unfold ts_ok|]; lia.
  - exists (data_name 1667750405 0). split; [done|]. apply play_name_ok; [unfold ts_ok|]; lia.
Qed.

Lemma play_lock_not_log : ¬ is_log_file (path_of play_world (shm_name play_addr)).
Proof.
  assert (path_of play_world (shm_name play_addr) = lock_file) as -> by (vm_compute; reflexivity).
  intros (d & n & E & [x ->]). apply (app_inj_tail [lit "srv"; lit "shm"] d) in E as [_ E].
  apply (f_equal (λ l, last l)) in E. rewrite last_app in E. by vm_compute in E.
Qed.

Lemma play_lock : lock_held play_world play_addr.
Proof. split; [vm_compute; reflexivity|apply play_lock_not_log]. Qed.

Section Witness.
#[local] Existing Instance sample_env.
#[local] Instance quiet_log : Logger := silent_logger.

Lemma filter_fn_window_witness :
  filter_fn [0] (pad_to 50 (show_int 1667750400)) (pad_to 50 (show_int 1667754000))
    (mkDirent (data_name 1667750405 0) DT_REG) play_world = Ret 1 play_world.
Proof.
  apply (filter_fn_window 0 [] 1667750400 1667754000 1667750405 0 play_world);
    first [reflexivity|unfold ts_ok; lia].
Defined.

Lemma atoi10_overread_witness :
  atoi10 [53; 0] (data_name 1667750405 0) = Ok (-502365129) ∧ (-502365129 < 1667750400).
Proof.
  split; [|lia]. apply (atoi10_overread 53 0 [] 1667750405 0); first [reflexivity|unfold ts_ok; lia].
Defined.

Lemma alphasort_recording_order_witness :
  alphasort (mkDirent (data_name 1667750405 999) DT_REG) (mkDirent (data_name 1667750406 0) DT_REG) < 0.
Proof. apply alphasort_recording_order; unfold ts_ok; lia. Defined.

Lemma scanAndSend_strict_faults_witness :
  scanAndSend strict_heap [0] 1 play_dir (pad_to 50 (show_int 1667750400))
    (pad_to 50 (show_int 1667754000)) 1 5 play_world = Crash DanglingRead.
Proof.
  apply (scanAndSend_strict_faults [0] play_world play_dir 1667750400 1667754000 1 5 play_tcp play_addr 0).
  - by exists [], [].
  - lia.
  - lia.
  - exact I.
  - intros k _. reflexivity.
  - by_decide.
  - apply play_dir_ok.
  - apply play_client.
  - apply play_lock.
  - vm_compute. discriminate.
Defined.

Definition play_command (cmd : Z) : list Z :=
  Replay_image (mkReplay PLAYBACKHEADER cmd 1667750400 1667754000 5).

Lemma play_lock_path : lock_path_ok play_world play_addr.
Proof. split; [apply play_lock_not_log|]. split; by_decide. Qed.

Lemma playback_end_unlocks_witness :
  ∃ w', playback_run strict_heap [] 0 (play_command PLAYBACK_END) 1 play_world = Ret tt w' ∧
    path_exists w' (path_of w' (shm_name play_addr)) = false.
Proof.
  destruct (playback_end_unlocks strict_heap [] 0 (play_command PLAYBACK_END) 1 play_tcp play_addr
    play_world []) as (w' & E & Hu).
  - exact I.
  - intros k _. reflexivity.
  - apply play_client.
  - vm_compute. reflexivity.
  - vm_compute. discriminate.
  - apply play_lock_path.
  - vm_compute. reflexivity.
  - exists w'. split; [exact E|apply Hu].
Defined.

Lemma playback_run_oversize_witness :
  playback_run strict_heap [] 0 (play_command PLAYBACK_START ++ [0]) 1 play_world = Crash OutOfBounds.
Proof.
  apply (playback_run_oversize strict_heap [] 0 _ 1 play_tcp play_addr); [apply play_client|vm_compute; lia].
Defined.

Lemma playback_start_lock_witness :
  ∃ w2, calm (locked play_world play_addr) w2 ∧ sends w2 = [].
Proof.
  destruct (playback_start_lock strict_heap [0] 9 (play_command PLAYBACK_START) 1 play_tcp play_addr play_world)
    as (w2 & Hc & Hs & _).
  - exact I.
  - intros k _. reflexivity.
  - apply play_client.
  - vm_compute. reflexivity.
  - vm_compute. reflexivity.
  - apply play_lock_path.
  - vm_compute. reflexivity.
  - exists w2. split; [exact Hc|exact Hs].
Defined.

(** The same process before anything was recorded. *)
Definition empty_day_world : World :=
  set_dirs {[ []; [lit "srv"]; [lit "srv"; lit "log"]; [lit "srv"; lit "shm"]; [lit "srv"; lit "data"] ]}
    play_world.

Lemma playback_start_wrong_day_witness :
  ∃ w', playback_run strict_heap [0] 9 (play_command PLAYBACK_START) 1 empty_day_world = Ret tt w' ∧
    path_exists w' (path_of w' (shm_name play_addr)) = false.
Proof.
  destruct (playback_start_wrong_day strict_heap [0] 9 (play_command PLAYBACK_START) 1 play_tcp play_addr
    empty_day_world (lit "./data")) as (w' & E & _ & Hu).
  - exact I.
  - intros k _. reflexivity.
  - apply play_client.
  - vm_compute. reflexivity.
  - vm_compute. reflexivity.
  - split; [apply play_lock_not_log|split; by_decide].
  - vm_compute. reflexivity.
  - split; [|split; [by_decide|vm_compute; lia]]. exists play_conf.
    split; [vm_compute; reflexivity|]. split; [unfold conf_ok; by_decide|vm_compute; reflexivity].
  - intros n. split; vm_compute; [reflexivity|discriminate].
  - exists w'. split; [exact E|exact Hu].
Defined.

End Witness.






