(* ===== verification/Distribute.v ===== *)
(** * util.c: receiving packets and forwarding them to the clients

    [parseFile_distributeTcpInfo] builds the table of peers from engine.conf;
    [distribute_server] accepts connections and forks; [distribute_receive]
    reads packets and classifies them; [distribute_run] records a forwarded
    packet and runs one thread per client; [distribute_client_send] connects to
    its client, executes a playback command from that client, and forwards the
    packet unless the client's lock file exists.

    Here the client threads run one after the other, which is what the mutex
    [mute] enforces (ClientThreads shows it for every interleaving). *)

From S2P Require Import Prelude CString Machine ConfigFile Log DataHeader RecordData Inet MSort ScanDir Playback.

Definition MAX_QUEUED_REQUESTS : Z := 5.
Definition MAX_BUFFER_SIZE : Z := 4096000.
Definition PLAYBACK : Z := 2.
Definition DISTRIBUTE : Z := 1.

(** ** The table of peers *)

Definition set_flag (f : Z) (t : DISTRIBUTE_TCP_INFO) : DISTRIBUTE_TCP_INFO :=
  mkTCP (Machine.address t) (acceptedAddress t) (port t) (acceptfd t) (clientNum t) f.
Definition set_acceptfd (fd : Z) (t : DISTRIBUTE_TCP_INFO) : DISTRIBUTE_TCP_INFO :=
  mkTCP (Machine.address t) (acceptedAddress t) (port t) fd (clientNum t) (flag t).
Definition set_accepted (a : list Z) (t : DISTRIBUTE_TCP_INFO) : DISTRIBUTE_TCP_INFO :=
  mkTCP (Machine.address t) a (port t) (acceptfd t) (clientNum t) (flag t).

Definition zero_TCP : DISTRIBUTE_TCP_INFO :=
  mkTCP (zeros INFO_LENGTH) (zeros INFO_LENGTH) 0 0 0 0.

Section Ops.
Context `{Env, !Logger} (heap : heap_policy) (stack_tail : list Z).

(** [LogWrite] as a statement *)
Definition log_ (level : Z) (format : list Z) (args : list arg) : IO unit :=
  LogWrite level format args ;; mret tt.

(** The keys of client [i]: ["client<i>-address"] and ["client<i>-port"], built
    in arrays of 20 bytes from a number printed into 5. *)
Definition client_keys (i : Z) : res (list Z * list Z * list Z) :=
  baseName ← strncpy (zeros 20) (lit "client" ++ [0]) 6;
  charValue ← blit (zeros 5) 0 (show_int i ++ [0]);
  baseName ← strcat baseName charValue;
  baseAddressName ← strcpy (zeros 20) baseName;
  baseAddressName ← strcat baseAddressName (lit "-address" ++ [0]);
  basePortName ← strcpy (zeros 20) baseName;
  basePortName ← strcat basePortName (lit "-port" ++ [0]);
  Ok (baseName, baseAddressName, basePortName).

(** One round of the loop: the entry of client [i]. *)
Definition parse_client (info : list ConfigInfo) (lines i : Z) : IO DISTRIBUTE_TCP_INFO :=
  keys ← lift (client_keys i);
  let '(baseName, baseAddressName, basePortName) := (keys : list Z * list Z * list Z) in
  ka ← lift (cstr baseAddressName);
  a ← getInfo_ConfigFile ka info lines;
  addr ← lift (strcpy_ptr (zeros INFO_LENGTH) a);
  kp ← lift (cstr basePortName);
  p ← getInfo_ConfigFile kp info lines;
  pt ← lift (atoi_ptr p);
  name ← lift (cstr baseName);
  s ← lift (cstr addr);
  log_ DEBUG (lit "%d %s %s :%s") [AInt 373; AStr name; AStr (lit "address is"); AStr s] ;;
  log_ DEBUG (lit "%d %s %s :%d") [AInt 374; AStr name; AStr (lit "port is"); AInt pt] ;;
  mret (mkTCP addr (zeros INFO_LENGTH) pt 0 0 0).

Fixpoint parse_clients (info : list ConfigInfo) (lines i : Z) (n : nat) : IO (list DISTRIBUTE_TCP_INFO) :=
  match n with
  | O => mret []
  | S n' =>
      c ← parse_client info lines i;
      cs ← parse_clients info lines (i + 1) n';
      mret (c :: cs)
  end.

(** [void parseFile_distributeTcpInfo (DISTRIBUTE_TCP_INFO **distributeTcpInfo)] *)
Definition parseFile_distributeTcpInfo : IO unit :=
  path ← config_path;
  path ← lift (cstr path);
  ci ← read_config path;
  cn ← getInfo_ConfigFile (lit "client-num") ci.1 ci.2;
  clientNum ← lift (atoi_ptr cn);
  log_ INFO (lit "%d %s :%d") [AInt 332; AStr (lit "client number is"); AInt clientNum] ;;
  lift (if int32 (clientNum + 1) <? 0 then Bad NullPointer else Ok tt) ;;
  a ← getInfo_ConfigFile (lit "distribute-address") ci.1 ci.2;
  addr ← lift (strcpy_ptr (zeros INFO_LENGTH) a);
  p ← getInfo_ConfigFile (lit "distribute-port") ci.1 ci.2;
  pt ← lift (atoi_ptr p);
  lift (if clientNum + 1 =? 0 then Bad OutOfBounds else Ok tt) ;;
  s ← lift (cstr addr);
  log_ DEBUG (lit "%d %s :%s") [AInt 344; AStr (lit "distribute address is"); AStr s] ;;
  log_ DEBUG (lit "%d %s :%d") [AInt 346; AStr (lit "distribute port is"); AInt pt] ;;
  log_ DEBUG (lit "%d %s :%d")
    [AInt 348; AStr (lit "distribute connected clients number are"); AInt clientNum] ;;
  cs ← parse_clients ci.1 ci.2 1 (Z.to_nat clientNum);
  modify (set_tcp (mkTCP addr (zeros INFO_LENGTH) pt 0 clientNum 0 :: cs)).

(** ** Talking to a client *)

(** [int distribute_client_socket (int index)] *)
Definition distribute_client_socket (index : Z) : IO Z :=
  socketfd ← socket;
  if EXIT_FAIL_CODE =? socketfd then
    e ← strerror_errno;
    log_ ERROR (lit "%d %s :%s") [AInt 103; AStr (lit "master-client socket failed"); AStr e] ;;
    mret EXIT_FAIL_CODE
  else
    res ← setsockopt socketfd;
    if res =? EXIT_FAIL_CODE then
      e ← strerror_errno;
      log_ ERROR (lit "%d %s :%s") [AInt 112; AStr (lit "distribute-client setsockopt failed"); AStr e] ;;
      close socketfd ;;
      mret EXIT_FAIL_CODE
    else
      t ← tcp_at index;
      s_addr ← lift (inet_addr (Machine.address t));
      res ← connect socketfd s_addr (htons (uint16 (port t)));
      if EXIT_FAIL_CODE =? res then
        s ← lift (cstr (Machine.address t));
        log_ ERROR (lit "%d %s :%s") [AInt 125; AStr (lit "master-client connect failed"); AStr s] ;;
        close socketfd ;;
        mret EXIT_FAIL_CODE
      else
        tcp_set index (set_acceptfd socketfd t) ;;
        mret socketfd.

(** The forwarding step of [distribute_client_send]: send unless locked. *)
Definition forward (socketfd index : Z) (buf : list Z) : IO unit :=
  shmFile ← shm_file index;
  a ← access shmFile;
  if negb (a =? 0) then
    t ← tcp_at index;
    s ← lift (cstr (Machine.address t));
    res ← send socketfd buf;
    if EXIT_FAIL_CODE =? res then
      e ← strerror_errno;
      log_ ERROR (lit "%d %s %s :%s:%d")
        [AInt 295; AStr (lit "send [FAIL] to"); AStr e; AStr s; AInt (port t)]
    else if 0 <? res then
      log_ DEBUG (lit "%d %s %s:%d") [AInt 300; AStr (lit "send [SUCCESS] to"); AStr s; AInt (port t)]
    else mret tt
  else mret tt.

(** The packet is a playback command of this very client. *)
Definition wants_playback (index : Z) (buf : list Z) : IO bool :=
  t ← tcp_at index;
  m ← tcp_at 0;
  if PacketHead (Replay_of (buf_bytes sizeof_Replay buf)) =? PLAYBACKHEADER then
    d ← lift (strcmp (Machine.address t) (acceptedAddress m));
    mret (d =? 0)
  else mret false.

(** [void *distribute_client_send (void *pth_arg)], up to the release of
    [mute]: [buf] are the [bufSize] bytes of the packet, [index] is
    [clientIndex]. *)
Definition distribute_client_send (fuel : nat) (buf : list Z) (index : Z) : IO unit :=
  log_ DEBUG (lit "%d %s:%d") [AInt 253; AStr (lit "thread locked by client"); AInt index] ;;
  log_ DEBUG (lit "%d %s") [AInt 258; AStr (lit "distribute client socket creating")] ;;
  socketfd ← distribute_client_socket index;
  t ← tcp_at index;
  s ← lift (cstr (Machine.address t));
  (if socketfd =? EXIT_FAIL_CODE then
     log_ ERROR (lit "%d %s :%s:%d")
       [AInt 261; AStr (lit "distribute-client socket failed, only record"); AStr s; AInt (port t)]
   else
     log_ DEBUG (lit "%d %s :%s:%d %d")
       [AInt 266; AStr (lit "distribute-client socket created"); AStr s; AInt (port t); AInt socketfd] ;;
     log_ DEBUG (lit "%d %s :%d")
       [AInt 270; AStr (lit "distribute-client thread created and acceptfd"); AInt socketfd] ;;
     play ← wants_playback index buf;
     (if (play : bool) then
        log_ INFO (lit "%d %s")
          [AInt 279; AStr (lit "distribute-client accepted, and get playback signal, start execute playback")] ;;
        playback_run heap stack_tail fuel buf index
      else mret tt) ;;
     forward socketfd index buf ;;
     close socketfd) ;;
  log_ DEBUG (lit "%d %s:%d") [AInt 308; AStr (lit "thread unlocked by client"); AInt index].

(** ** One packet *)

(** The thread loop of [distribute_run] for clients [i + 1, ..]; [held] is the
    state of [mute], [created] which threads exist. *)
Fixpoint run_clients (fuel : nat) (buf : list Z) (i : Z) (n : nat) (held : bool) : IO (list bool) :=
  match n with
  | O => mret []
  | S n' =>
      if held then λ _, Blocked
      else
        k ← tick;
        let ret := env_pthread_create k in
        (if ret =? 0 then distribute_client_send fuel buf (i + 1)
         else if EXIT_FAIL_CODE =? ret then
           e ← strerror_errno;
           log_ ERROR (lit "%d %s :%s")
             [AInt 237; AStr (lit "distribute-client thread create failed"); AStr e] ;;
           m ← tcp_at 0;
           close (acceptfd m)
         else mret tt) ;;
        rest ← run_clients fuel buf (i + 1) n' (negb (ret =? 0));
        mret ((ret =? 0) :: rest)
  end.

(** [void distribute_run (unsigned char *receive_buf, int receive_size)] *)
Definition distribute_run (fuel : nat) (buf : list Z) : IO unit :=
  m ← tcp_at 0;
  file ← (if flag m =? DISTRIBUTE then
            f ← initDataRecord;
            match f with
            | None =>
                log_ ERROR (lit "%d %s:") [AInt 216; AStr (lit "distribute initDataRecord failed")] ;;
                mret None
            | Some p => fwrite p buf ;; mret (Some tt)
            end
          else mret (Some tt));
  match file with
  | None => mret tt
  | Some _ =>
      log_ DEBUG (lit "%d %s") [AInt 230; AStr (lit "distribute-client thread mutex init")] ;;
      created ← run_clients fuel buf 0 (Z.to_nat (clientNum m)) false;
      (* joining a thread that was never created reads an uninitialised id *)
      lift (if forallb id created then Ok tt else Bad Unspecified) ;;
      log_ DEBUG (lit "%d %s") [AInt 246; AStr (lit "distribute-client thread mutex destroy")]
  end.

(** ** A connection *)

(** What a packet of each kind gets. *)
Definition handle_packet (pfuel : nat) (data : list Z) : IO unit :=
  match packet_kind data with
  | KDistribute =>
      m ← tcp_at 0; tcp_set 0 (set_flag DISTRIBUTE m) ;; distribute_run pfuel data
  | KPlayback =>
      log_ INFO (lit "%d %s")
        [AInt 181; AStr (lit "distribute received playback signal, not record")] ;;
      m ← tcp_at 0; tcp_set 0 (set_flag PLAYBACK m) ;; distribute_run pfuel data
  | KUseless =>
      log_ INFO (lit "%d %s")
        [AInt 186; AStr (lit "distribute received useless message, discard")]
  end.

(** The loop of [distribute_receive]; [fuel] bounds the packets read. *)
Fixpoint receive_loop (fuel pfuel : nat) : IO unit :=
  match fuel with
  | O => λ _, OutOfFuel
  | S fuel' =>
      m ← tcp_at 0;
      r ← recv (acceptfd m) MAX_BUFFER_SIZE;
      let '(receive_size, data) := (r : Z * list Z) in
      if EXIT_FAIL_CODE =? receive_size then
        e ← strerror_errno;
        log_ ERROR (lit "%d %s :%s") [AInt 165; AStr (lit "distribute receive failed"); AStr e]
      else if 0 <? receive_size then
        log_ INFO (lit "%d %s") [AInt 170; AStr (lit "distribute received message")] ;;
        handle_packet pfuel data ;;
        receive_loop fuel' pfuel
      else mret tt
  end.

(** [void distribute_receive (threadpool_t *thp)] *)
Definition distribute_receive (fuel pfuel : nat) : IO unit :=
  receive_loop fuel pfuel ;;
  log_ INFO (lit "%d %s") [AInt 193; AStr (lit "distribute all done")] ;;
  m ← tcp_at 0;
  close (acceptfd m).

(** ** The server *)

(** A failed start-up call: message, optional close, [_exit (-1)]. *)
Definition server_fail {A} (line : Z) (msg : list Z) (fd : option Z) : IO A :=
  e ← strerror_errno;
  log_ ERROR (lit "%d %s :%s") [AInt line; AStr msg; AStr e] ;;
  (match fd with Some fd => close fd | None => mret tt end) ;;
  exit_with EXIT_FAIL_CODE.

(** The accept loop of [distribute_server]; it follows the process that [fork]
    says we are: after [distribute_receive] the child goes on accepting. *)
Fixpoint accept_loop (fuel rfuel pfuel : nat) (sockfd : Z) : IO unit :=
  match fuel with
  | O => λ _, OutOfFuel
  | S fuel' =>
      c ← accept sockfd;
      if EXIT_FAIL_CODE =? c_fd c then server_fail 64 (lit "distribute accept failed") None
      else
        m ← tcp_at 0;
        a ← lift (strcpy (acceptedAddress m) (inet_ntoa (c_addr c) ++ [0]));
        tcp_set 0 (set_acceptfd (c_fd c) (set_accepted a m)) ;;
        log_ INFO (lit "%d %s") [AInt 69; AStr (lit "distribute connection ok")] ;;
        log_ DEBUG (lit "%d %s: %d") [AInt 71; AStr (lit "distribute accept fd get"); AInt (c_fd c)] ;;
        log_ INFO (lit "%d %s%d %s%s")
          [AInt 74; AStr (lit "distribute cport="); AInt (c_port c);
           AStr (lit "distribute caddr="); AStr (inet_ntoa (c_addr c))] ;;
        pid ← fork;
        if pid =? EXIT_FAIL_CODE then
          e ← strerror_errno;
          log_ ERROR (lit "%d %s :%s") [AInt 81; AStr (lit "distribute fork error"); AStr e] ;;
          m ← tcp_at 0;
          close (acceptfd m)
        else
          (if pid =? 0 then
             log_ DEBUG (lit "%d %s") [AInt 89; AStr (lit "distribute-client receive process created")] ;;
             distribute_receive rfuel pfuel
           else mret tt) ;;
          accept_loop fuel' rfuel pfuel sockfd
  end.

(** [void distribute_server (threadpool_t *thp)] *)
Definition distribute_server (fuel rfuel pfuel : nat) : IO unit :=
  fd ← socket;
  if EXIT_FAIL_CODE =? fd then server_fail 17 (lit "distribute socket failed") None
  else
    res ← setsockopt fd;
    if res =? EXIT_FAIL_CODE then server_fail 25 (lit "distribute setsockopt failed") (Some fd)
    else
      log_ DEBUG (lit "%d %s") [AInt 31; AStr (lit "distribute socket created")] ;;
      m ← tcp_at 0;
      s_addr ← lift (inet_addr (Machine.address m));
      res ← bind_ fd s_addr (htons (uint16 (port m)));
      if EXIT_FAIL_CODE =? res then server_fail 40 (lit "distribute bind failed") (Some fd)
      else
        log_ DEBUG (lit "%d %s") [AInt 45; AStr (lit "distribute socket bind")] ;;
        res ← listen fd MAX_QUEUED_REQUESTS;
        if EXIT_FAIL_CODE =? res then server_fail 49 (lit "distribute listen failed") (Some fd)
        else
          log_ DEBUG (lit "%d %s") [AInt 54; AStr (lit "distribute socket listening")] ;;
          accept_loop fuel rfuel pfuel fd.

(** [void server_start (threadpool_t *thp)] *)
Definition server_start (fuel rfuel pfuel : nat) : IO unit := distribute_server fuel rfuel pfuel.

End Ops.

(** ** Steps that leave the peers alone *)

(** Two entries of the same peer: only the descriptor may differ. *)
Definition same_peer (t t' : DISTRIBUTE_TCP_INFO) : Prop :=
  Machine.address t' = Machine.address t ∧ acceptedAddress t' = acceptedAddress t ∧
  port t' = port t ∧ clientNum t' = clientNum t ∧ flag t' = flag t.

#[export] Instance same_peer_refl : Reflexive same_peer.
Proof. done. Qed.
#[export] Instance same_peer_trans : Transitive same_peer.
Proof. intros a b c (?&?&?&?&?) (?&?&?&?&?). repeat split; congruence. Qed.

(** Code that changes only log files, descriptors, [errno], the clock and the
    outside world, and keeps the logger ready. *)
Record steady `{Logger} (w w' : World) : Prop := {
  st_dirs : w_dirs w' = w_dirs w;
  st_cwd : w_cwd w' = w_cwd w;
  st_uuid : w_uuid w' = w_uuid w;
  st_tcp : Forall2 same_peer (w_tcp w) (w_tcp w');
  st_master : w_tcp w' !! 0%nat = w_tcp w !! 0%nat;
  st_nsys : (w_nsys w ≤ w_nsys w')%nat;
  st_files : ∀ p, ¬ is_log_file p → w_files w' !! p = w_files w !! p;
  st_ready : log_ready w';
}.

Section Steady.
Context `{Logger}.

Lemma steady_refl w : log_ready w → steady w w.
Proof. constructor; done. Qed.

Lemma steady_trans w1 w2 w3 : steady w1 w2 → steady w2 w3 → steady w1 w3.
Proof.
  intros [] []. constructor; try congruence; [by etrans|lia|].
  intros p Hp. rewrite st_files1, st_files0 by done. done.
Qed.

Lemma steady_calm w w' : calm w w' → steady w w'.
Proof. intros []. constructor; try done; by rewrite cm_tcp. Qed.

Lemma steady_log w w' : log_frame w w' → log_ready w' → steady w w'.
Proof. intros. by apply steady_calm, calm_log. Qed.

Lemma steady_path w w' s : steady w w' → path_of w' s = path_of w s.
Proof. intros Hc. unfold path_of. by rewrite (st_cwd _ _ Hc). Qed.

Lemma steady_exists w w' s :
  steady w w' → ¬ is_log_file (path_of w s) → path_exists w' (path_of w' s) = path_exists w (path_of w s).
Proof.
  intros Hc Hl. rewrite (steady_path w w' s Hc). unfold path_exists.
  by rewrite (st_dirs _ _ Hc), (st_files _ _ Hc).
Qed.

Lemma client_at_steady w w' index t addr :
  client_at w index t addr → steady w w' →
  ∃ t', client_at w' index t' addr ∧ same_peer t t'.
Proof.
  intros (Hi & Ht & Ha & Hl) Hs.
  destruct (Forall2_lookup_l _ _ _ _ _ (st_tcp _ _ Hs) Ht) as (t' & Ht' & Hp).
  exists t'. split; [|done]. split; [done|]. split; [done|]. split; [|done].
  destruct Hp as (-> & _). done.
Qed.

(** A message as a statement. *)
Lemma log_stmt {B} level format args (k : unit → IO B) w :
  log_ready w → 1 ≤ level ≤ 4 → is_Some (fmt_render format args) →
  ∃ w', (log_ level format args ≫= k) w = k tt w' ∧ log_frame w w' ∧ log_ready w'.
Proof.
  intros Hr Hl Hm. unfold log_. rewrite bind_assoc.
  destruct (log_step level format args (λ _, (mret tt : IO unit) ≫= k) w Hr Hl Hm) as (r & w' & E & Hf).
  exists w'. split; [exact E|done].
Qed.
Lemma log_last level format args w :
  log_ready w → 1 ≤ level ≤ 4 → is_Some (fmt_render format args) →
  ∃ w', log_ level format args w = Ret tt w' ∧ log_frame w w' ∧ log_ready w'.
Proof.
  intros Hr Hl Hm. unfold log_.
  destruct (log_step level format args (λ _, (mret tt : IO unit)) w Hr Hl Hm) as (r & w' & E & Hf).
  exists w'. split; [exact E|done].
Qed.

(** Network actions, in the order they happened. *)
Lemma acts_frame w w' : log_frame w w' → acts w' = acts w.
Proof. apply lf_acts. Qed.

Lemma acts_emit e w : is_act e = true → acts (set_events (w_events w ++ [e]) w) = acts w ++ [e].
Proof. intros He. unfold acts. cbn [w_events set_events]. rewrite filter_app. f_equal. by rewrite filter_cons_True. Qed.

Lemma steady_sys w w' :
  log_ready w → w_files w' = w_files w → w_dirs w' = w_dirs w → w_cwd w' = w_cwd w →
  w_uuid w' = w_uuid w → w_tcp w' = w_tcp w → w_logsetting w' = w_logsetting w →
  w_log_mutex w' = w_log_mutex w → (w_nsys w ≤ w_nsys w')%nat → steady w w'.
Proof. intros. apply steady_calm. by apply calm_sys. Qed.

End Steady.

(** Step over a message statement at the head of the goal. *)
Ltac log_skip Hr w' Hf Hr' :=
  match goal with
  | |- context [(log_ ?l ?f ?a ≫= ?k) ?w] =>
      let E := fresh "E" in
      destruct (log_stmt l f a k w Hr) as (w' & E & Hf & Hr');
      [vm_compute; split; discriminate | by eexists |]; rewrite E; clear E
  | |- context [log_ ?l ?f ?a ?w] =>
      let E := fresh "E" in
      destruct (log_last l f a w Hr) as (w' & E & Hf & Hr');
      [vm_compute; split; discriminate | by eexists |]; rewrite E; clear E
  end.

(** ** Connecting to a client *)

(** The word and port a peer is dialled at. *)
Definition peer_word (t : DISTRIBUTE_TCP_INFO) : Z :=
  match inet_addr (Machine.address t) with Ok a => a | Bad _ => 0 end.
Definition peer_port (t : DISTRIBUTE_TCP_INFO) : Z := htons (uint16 (port t)).

(** The actions of one attempt to connect, and the descriptor it yields. *)
Inductive dialled (t : DISTRIBUTE_TCP_INFO) : option Z → list event → Prop :=
| dl_socket : dialled t None [EvSocket (-1)]
| dl_option fd : fd ≠ -1 → dialled t None [EvSocket fd; EvClose fd]
| dl_refused fd : fd ≠ -1 →
    dialled t None [EvSocket fd; EvConnect fd (peer_word t) (peer_port t) (-1); EvClose fd]
| dl_ok fd r : fd ≠ -1 → r ≠ -1 →
    dialled t (Some fd) [EvSocket fd; EvConnect fd (peer_word t) (peer_port t) r].

(** Every socket call succeeds. *)
Definition net_up `{Env} : Prop :=
  ∀ n, env_socket n ≠ -1 ∧ env_setsockopt n ≠ -1 ∧ env_connect n ≠ -1.

Section Connecting.
Context `{Env, !Logger}.

Lemma client_socket_spec w index t addr :
  log_ready w → client_at w index t addr → 0 < index →
  ∃ o w' evs, distribute_client_socket index w = Ret (default (-1) o) w' ∧ steady w w' ∧
    acts w' = acts w ++ evs ∧ dialled t o evs ∧ (net_up → is_Some o).
Proof.
  intros Hr (Hi & Ht & Ha & Hl) Hpos. unfold distribute_client_socket.
  set (fd := env_socket (w_nsys w)).
  set (w1 := set_events (w_events w ++ [EvSocket fd]) (set_nsys (S (w_nsys w)) w)).
  assert (socket w = Ret fd w1) as E1 by done. rewrite (bind_Ret _ _ _ _ _ E1).
  assert (steady w w1) as Hs1 by (apply steady_sys; try done; cbn; lia).
  assert (acts w1 = acts w ++ [EvSocket fd]) as Ha1
    by exact (acts_emit (EvSocket fd) (set_nsys (S (w_nsys w)) w) eq_refl).
  pose proof (st_ready _ _ Hs1) as Hr1.
  destruct (Z.eqb_spec EXIT_FAIL_CODE fd) as [Efd|Nfd].
  { unfold strerror_errno. autorewrite with io. log_skip Hr1 w2 Hf2 Hr2.
    exists None, w2, [EvSocket (-1)]. split; [done|].
    split; [eapply steady_trans; [exact Hs1|by apply steady_log]|].
    split; [rewrite (acts_frame _ _ Hf2), Ha1, <-Efd; done|]. split; [constructor|].
    intros Hn. destruct (Hn (w_nsys w)) as [Hn' _]. by destruct Hn'. }
  unfold setsockopt, tick. unfold mbind at 1, M_bind at 1. unfold mbind at 1, M_bind at 1.
  set (w2 := set_nsys (S (w_nsys w1)) w1). cbn [mret M_ret].
  assert (steady w w2) as Hs2 by (eapply steady_trans; [exact Hs1|apply steady_sys; try done; cbn; lia]).
  pose proof (st_ready _ _ Hs2) as Hr2.
  destruct (Z.eqb_spec (env_setsockopt (w_nsys w1)) EXIT_FAIL_CODE) as [Eo|No].
  { unfold strerror_errno. autorewrite with io. log_skip Hr2 w3 Hf3 Hr3.
    eexists None, _, [EvSocket fd; EvClose fd]. split; [reflexivity|]. split; [|split; [|split]].
    - eapply steady_trans; [exact Hs2|]. eapply steady_trans; [by apply steady_log|].
      by apply steady_sys.
    - rewrite acts_emit by done. rewrite (acts_frame _ _ Hf3).
      change (acts w2) with (acts w1). by rewrite Ha1, <-app_assoc.
    - constructor. intros E. by destruct Nfd.
    - intros Hn. destruct (Hn (w_nsys w1)) as (_ & Hn' & _). by destruct Hn'. }
  rewrite (bind_Ret _ _ _ _ _ (tcp_at_spec w2 index t Hi Ht)).
  destruct (inet_addr_total _ _ Ha) as [a Ea]. rewrite Ea, bind_lift_Ok.
  assert (peer_word t = a) as Epw by (unfold peer_word; by rewrite Ea).
  set (r := env_connect (w_nsys w2)). fold (peer_port t).
  set (w3 := set_events (w_events w2 ++ [EvConnect fd a (peer_port t) r]) (set_nsys (S (w_nsys w2)) w2)).
  assert (connect fd a (peer_port t) w2 = Ret r w3) as E3 by done. rewrite (bind_Ret _ _ _ _ _ E3).
  assert (steady w w3) as Hs3 by (eapply steady_trans; [exact Hs2|apply steady_sys; try done; cbn; lia]).
  assert (acts w3 = acts w ++ [EvSocket fd; EvConnect fd a (peer_port t) r]) as Ha3.
  { etrans; [exact (acts_emit (EvConnect fd a (peer_port t) r) (set_nsys (S (w_nsys w2)) w2) eq_refl)|].
    change (acts (set_nsys (S (w_nsys w2)) w2)) with (acts w1). by rewrite Ha1, <-app_assoc. }
  pose proof (st_ready _ _ Hs3) as Hr3.
  destruct (Z.eqb_spec EXIT_FAIL_CODE r) as [Er|Nr].
  - rewrite Ha, bind_lift_Ok. log_skip Hr3 w4 Hf4 Hr4.
    eexists None, _, [EvSocket fd; EvConnect fd a (peer_port t) (-1); EvClose fd].
    split; [reflexivity|]. split; [|split; [|split]].
    + eapply steady_trans; [exact Hs3|]. eapply steady_trans; [by apply steady_log|].
      by apply steady_sys.
    + rewrite acts_emit by done. rewrite (acts_frame _ _ Hf4), Ha3, <-app_assoc. unfold EXIT_FAIL_CODE in Er.
      by rewrite <-Er.
    + rewrite <-Epw. constructor. intros E. by destruct Nfd.
    + intros Hn. destruct (Hn (w_nsys w2)) as (_ & _ & Hn'). by destruct Hn'.
  - eexists (Some fd), _, [EvSocket fd; EvConnect fd a (peer_port t) r].
    split; [reflexivity|]. split; [|split; [exact Ha3|split]].
    + eapply steady_trans; [exact Hs3|]. constructor; try done.
      * cbn [w_tcp set_tcp]. change (w_tcp w3) with (w_tcp w).
        rewrite <-(list_insert_id (w_tcp w) (Z.to_nat index) t Ht) at 1.
        apply Forall2_insert; [reflexivity|done].
      * cbn [w_tcp set_tcp]. change (w_tcp w3) with (w_tcp w). apply list_lookup_insert_ne. lia.
      * eapply log_ready_stable; [exact Hr3|]. by constructor.
    + rewrite <-Epw. constructor; [intros E; by destruct Nfd|intros E; by destruct Nr].
    + by eexists.
Qed.

End Connecting.

(** ** Forwarding one packet to one client *)

(** The client's lock file exists. *)
Definition lock_exists (w : World) (addr : list Z) : bool := path_exists w (path_of w (shm_name addr)).

(** The actions of one forwarding: the client is dialled; once connected the
    packet is sent unless the client is locked; the connection is closed. *)
Inductive forwarded (t : DISTRIBUTE_TCP_INFO) (data : list Z) (locked : bool) : list event → Prop :=
| fw_unreached evs : dialled t None evs → forwarded t data locked evs
| fw_locked fd evs : dialled t (Some fd) evs → locked = true →
    forwarded t data locked (evs ++ [EvClose fd])
| fw_sent fd evs r : dialled t (Some fd) evs → locked = false →
    forwarded t data locked (evs ++ [EvSend fd data r; EvClose fd]).

(** The bytes a list of actions hands to the network. *)
Definition sent_data (evs : list event) : list (list Z) :=
  omap (λ e, match e with EvSend _ d _ => Some d | _ => None end) evs.

Section Forwarding.
Context `{Env, !Logger} (heap : heap_policy) (tail : list Z).

Lemma forward_spec w fd index t addr data :
  log_ready w → client_at w index t addr →
  ∃ w' evs, forward fd index data w = Ret tt w' ∧ steady w w' ∧ acts w' = acts w ++ evs ∧
    if lock_exists w addr then evs = [] else ∃ r, evs = [EvSend fd data r].
Proof.
  intros Hr Hcl. pose proof Hcl as (Hi & Ht & Ha & _). unfold forward.
  rewrite (bind_Ret _ _ _ _ _ (shm_file_spec w index t addr Hcl)).
  unfold mbind at 1, M_bind at 1. rewrite access_eq. unfold lock_exists.
  destruct (path_exists w (path_of w (shm_name addr))).
  { exists w, []. rewrite app_nil_r. split; [done|]. split; [by apply steady_refl|done]. }
  change (negb (-1 =? 0)) with true. cbv iota. set (w1 := set_errno ENOENT w).
  assert (steady w w1) as Hs1 by (by apply steady_sys). pose proof (st_ready _ _ Hs1) as Hr1.
  rewrite (bind_Ret _ _ _ _ _ (tcp_at_spec w1 index t Hi Ht)). rewrite Ha, bind_lift_Ok.
  destruct (env_send (w_nsys w1) data) as [r e] eqn:Es.
  set (w2 := set_events (w_events w1 ++ [EvSend fd data r]) (set_nsys (S (w_nsys w1)) w1)).
  set (w3 := if r =? -1 then set_errno e w2 else w2).
  assert (send fd data w1 = Ret r w3) as E1.
  { unfold send, tick, mbind, M_bind. rewrite Es. cbn [fst snd]. unfold w3. by destruct (r =? -1). }
  rewrite (bind_Ret _ _ _ _ _ E1).
  assert (steady w1 w3) as Hs3 by (unfold w3; destruct (r =? -1); apply steady_sys; try done; cbn; lia).
  assert (steady w w3) as Hs by (by eapply steady_trans).
  assert (acts w3 = acts w ++ [EvSend fd data r]) as Ha3.
  { unfold w3. destruct (r =? -1); exact (acts_emit (EvSend fd data r) (set_nsys (S (w_nsys w1)) w1) eq_refl). }
  pose proof (st_ready _ _ Hs3) as Hr3. destruct (EXIT_FAIL_CODE =? r).
  - unfold strerror_errno. autorewrite with io. log_skip Hr3 w4 Hf4 Hr4.
    exists w4, [EvSend fd data r]. split; [done|].
    split; [eapply steady_trans; [exact Hs|by apply steady_log]|].
    split; [by rewrite (acts_frame _ _ Hf4)|by exists r].
  - destruct (0 <? r).
    + log_skip Hr3 w4 Hf4 Hr4. exists w4, [EvSend fd data r]. split; [done|].
      split; [eapply steady_trans; [exact Hs|by apply steady_log]|].
      split; [by rewrite (acts_frame _ _ Hf4)|by exists r].
    + exists w3, [EvSend fd data r]. split; [done|]. split; [done|]. split; [done|by exists r].
Qed.

(** The packet starts no playback for this client: it is no command, or the
    connection it came from has another address. *)
Definition no_playback (data : list Z) (t t0 : DISTRIBUTE_TCP_INFO) : Prop :=
  PacketHead (Replay_of (buf_bytes sizeof_Replay data)) ≠ PLAYBACKHEADER ∨
  ∃ d, strcmp (Machine.address t) (acceptedAddress t0) = Ok d ∧ d ≠ 0.

Lemma no_playback_same data t t0 t' t0' :
  no_playback data t t0 → same_peer t t' → same_peer t0 t0' → no_playback data t' t0'.
Proof.
  intros [Hh|(d & Hd & Hn)] (Ha & _) (_ & Hb & _); [by left|]. right. exists d. by rewrite Ha, Hb.
Qed.

Lemma wants_playback_no w index t addr t0 data :
  client_at w index t addr → w_tcp w !! 0%nat = Some t0 → no_playback data t t0 →
  wants_playback index data w = Ret false w.
Proof.
  intros (Hi & Ht & _) Ht0 Hh. unfold wants_playback.
  rewrite (bind_Ret _ _ _ _ _ (tcp_at_spec w index t Hi Ht)).
  rewrite (bind_Ret _ _ _ _ _ (tcp_at_spec w 0 t0 ltac:(lia) Ht0)).
  destruct (Z.eqb_spec (PacketHead (Replay_of (buf_bytes sizeof_Replay data))) PLAYBACKHEADER) as [E|]; [|done].
  destruct Hh as [Hh|(d & -> & Hn)]; [done|]. rewrite bind_lift_Ok. by destruct (Z.eqb_spec d 0).
Qed.

Lemma steady_close w w' fd : steady w w' →
  let w1 := set_events (w_events w' ++ [EvClose fd]) w' in
  steady w w1 ∧ acts w1 = acts w' ++ [EvClose fd].
Proof.
  intros Hs w1. split; [|by apply acts_emit].
  eapply steady_trans; [exact Hs|]. by apply steady_sys; [apply Hs|..].
Qed.

Lemma dialled_sent t o evs : dialled t o evs → sent_data evs = [].
Proof. by destruct 1. Qed.

Lemma client_send_spec fuel w index t t0 addr data :
  log_ready w → client_at w index t addr → 0 < index → w_tcp w !! 0%nat = Some t0 → no_playback data t t0 →
  ¬ is_log_file (path_of w (shm_name addr)) →
  ∃ w' evs, distribute_client_send heap tail fuel data index w = Ret tt w' ∧ steady w w' ∧
    acts w' = acts w ++ evs ∧ forwarded t data (lock_exists w addr) evs ∧
    (net_up → sent_data evs = if lock_exists w addr then [] else [data]).
Proof.
  intros Hr Hcl Hpos Ht0 Hpl Hnl. unfold distribute_client_send.
  log_skip Hr w1 Hf1 Hr1. log_skip Hr1 w2 Hf2 Hr2.
  assert (steady w w2) as Hs2 by (eapply steady_trans; apply steady_log; eassumption).
  assert (acts w2 = acts w) as Ha2 by (by rewrite (acts_frame _ _ Hf2), (acts_frame _ _ Hf1)).
  assert (client_at w2 index t addr) as Hcl2.
  { destruct Hcl as (?&?&?&?). repeat split; try done. by rewrite (lf_tcp _ _ Hf2), (lf_tcp _ _ Hf1). }
  destruct (client_socket_spec w2 index t addr Hr2 Hcl2 Hpos) as (o & w3 & evs & E3 & Hs23 & Ha3 & Hd & Hup).
  rewrite (bind_Ret _ _ _ _ _ E3). assert (steady w w3) as Hs3 by (by eapply steady_trans).
  destruct (client_at_steady w w3 index t addr Hcl Hs3) as (t' & Hcl3 & Hsp).
  pose proof Hcl3 as (Hi & Ht' & Ha' & _). pose proof (st_ready _ _ Hs3) as Hr3. rewrite Ha2 in Ha3.
  rewrite (bind_Ret _ _ _ _ _ (tcp_at_spec w3 index t' Hi Ht')). rewrite Ha', bind_lift_Ok.
  destruct (Z.eqb_spec (default (-1) o) EXIT_FAIL_CODE) as [Eo|No].
  { assert (o = None) as ->. { destruct o as [fd|]; [|done]. inversion Hd; subst. by cbn in Eo. }
    log_skip Hr3 w4 Hf4 Hr4. log_skip Hr4 w5 Hf5 Hr5. exists w5, evs. split; [done|].
    split; [do 2 (eapply steady_trans; [|by apply steady_log]); exact Hs3|].
    split; [by rewrite (acts_frame _ _ Hf5), (acts_frame _ _ Hf4)|]. split; [by constructor|].
    intros Hn. by destruct (Hup Hn). }
  destruct o as [fd|]; [|done]. cbn [default from_option id] in *.
  rewrite bind_assoc. log_skip Hr3 w4 Hf4 Hr4. rewrite bind_assoc. log_skip Hr4 w5 Hf5 Hr5.
  assert (steady w w5) as Hs5 by (do 2 (eapply steady_trans; [|by apply steady_log]); exact Hs3).
  assert (acts w5 = acts w ++ evs) as Ha5 by (by rewrite (acts_frame _ _ Hf5), (acts_frame _ _ Hf4)).
  destruct (client_at_steady w w5 index t addr Hcl Hs5) as (t5 & Hcl5 & Hsp5).
  destruct (Forall2_lookup_l _ _ _ _ _ (st_tcp _ _ Hs5) Ht0) as (t05 & Ht05 & Hsp05).
  pose proof (no_playback_same _ _ _ _ _ Hpl Hsp5 Hsp05) as Hpl5.
  rewrite !bind_assoc. rewrite (bind_Ret _ _ _ _ _ (wants_playback_no w5 index t5 addr t05 data Hcl5 Ht05 Hpl5)).
  rewrite !bind_assoc, bind_mret.
  destruct (forward_spec w5 fd index t5 addr data Hr5 Hcl5) as (w6 & evs6 & E6 & Hs56 & Ha6 & Hev).
  rewrite !bind_assoc, (bind_Ret _ _ _ _ _ E6).
  assert (steady w w6) as Hs6 by (by eapply steady_trans).
  destruct (steady_close w w6 fd Hs6) as [Hs7 Ha7].
  unfold close, emit. unfold mbind at 1, M_bind at 1. set (w7 := set_events _ w6) in *.
  pose proof (st_ready _ _ Hs7) as Hr7. log_skip Hr7 w8 Hf8 Hr8.
  exists w8, (evs ++ evs6 ++ [EvClose fd]). split; [done|].
  split; [eapply steady_trans; [exact Hs7|by apply steady_log]|].
  split; [by rewrite (acts_frame _ _ Hf8), Ha7, Ha6, Ha5, <-!app_assoc|].
  assert (lock_exists w5 addr = lock_exists w addr) as Elk by (by apply steady_exists).
  rewrite Elk in Hev. destruct (lock_exists w addr) eqn:El.
  - subst evs6. split; [by apply fw_locked|]. intros _. unfold sent_data. rewrite omap_app.
    fold (sent_data evs). by rewrite (dialled_sent _ _ _ Hd).
  - destruct Hev as [r ->]. split; [by apply fw_sent|]. intros _. unfold sent_data. rewrite omap_app.
    fold (sent_data evs). by rewrite (dialled_sent _ _ _ Hd).
Qed.

(** ** Forwarding one packet to all clients *)

Lemma dialled_same t t' o evs : same_peer t t' → dialled t' o evs → dialled t o evs.
Proof.
  intros (Ha & _ & Hp & _) Hd.
  assert (peer_word t' = peer_word t) as Ew by (unfold peer_word; by rewrite Ha).
  assert (peer_port t' = peer_port t) as Ep by (unfold peer_port; by rewrite Hp).
  destruct Hd; rewrite ?Ew, ?Ep; by constructor.
Qed.

Lemma forwarded_same t t' data lk evs : same_peer t t' → forwarded t' data lk evs → forwarded t data lk evs.
Proof.
  intros Hs Hf. destruct Hf as [evs Hd|fd evs Hd Hl|fd evs r Hd Hl];
    (eapply dialled_same in Hd; [|exact Hs]); [by constructor|by apply fw_locked|by apply fw_sent].
Qed.

(** A client entry with the address [addr], whose lock is no log file. *)
Definition client_ok (w : World) (t : DISTRIBUTE_TCP_INFO) (addr : list Z) : Prop :=
  cstr (Machine.address t) = Ok addr ∧ (length addr < 122)%nat ∧
  ¬ is_log_file (path_of w (shm_name addr)).

(** [forwarded] for each client. *)
Definition all_forwarded (w : World) (data : list Z) (cs : list DISTRIBUTE_TCP_INFO)
    (addrs : list (list Z)) (evss : list (list event)) : Prop :=
  Forall3 (λ t lk evs, forwarded t data lk evs) cs (lock_exists w <$> addrs) evss.

(** The clients that are not locked. *)
Definition free_clients (w : World) (addrs : list (list Z)) : list (list Z) :=
  filter (λ a, lock_exists w a = false) addrs.

Lemma free_clients_ext w w' addrs :
  (∀ a, a ∈ addrs → lock_exists w' a = lock_exists w a) → free_clients w' addrs = free_clients w addrs.
Proof.
  unfold free_clients. induction addrs as [|a addrs IH]; intros Hl; [done|].
  rewrite !filter_cons, (Hl a) by left. rewrite IH; [done|]. intros b Hb. apply Hl. by right.
Qed.

Context (threads_ok : ∀ n, env_pthread_create n = 0).

Lemma lock_steady w w' addr :
  steady w w' → ¬ is_log_file (path_of w (shm_name addr)) → lock_exists w' addr = lock_exists w addr.
Proof. apply steady_exists. Qed.

Lemma client_ok_steady w w' t addr : steady w w' → client_ok w t addr → client_ok w' t addr.
Proof. intros Hs (H1 & H2 & H3). split; [done|]. split; [done|]. by rewrite (steady_path w w'). Qed.

Lemma run_clients_spec fuel data t0 : ∀ rest addrs i w,
  log_ready w → (∃ t0', w_tcp w !! 0%nat = Some t0' ∧ same_peer t0 t0') →
  (∀ k t, rest !! k = Some t → ∃ t', w_tcp w !! (S (i + k)) = Some t' ∧ same_peer t t') →
  Forall2 (client_ok w) rest addrs → Forall (λ t, no_playback data t t0) rest →
  ∃ w' evss, run_clients heap tail fuel data (Z.of_nat i) (length rest) false w =
      Ret (replicate (length rest) true) w' ∧ steady w w' ∧ acts w' = acts w ++ concat evss ∧
    all_forwarded w data rest addrs evss ∧
    (net_up → sent_data (concat evss) = (λ _, data) <$> free_clients w addrs).
Proof.
  induction rest as [|t rest IH]; intros addrs i w Hr Ht0 Htab Hok Hnp.
  { exists w, []. cbn. apply Forall2_nil_inv_l in Hok as ->. rewrite app_nil_r.
    split; [done|]. split; [by apply steady_refl|]. split; [done|]. split; [constructor|done]. }
  apply Forall2_cons_inv_l in Hok as (addr & addrs' & Hc & Hok & ->).
  apply Forall_cons in Hnp as [Hnp1 Hnp]. cbn [length run_clients replicate].
  unfold tick. unfold mbind at 1, M_bind at 1. rewrite threads_ok. cbn [Z.eqb].
  set (w1 := set_nsys (S (w_nsys w)) w).
  assert (steady w w1) as Hs1 by (apply steady_sys; try done; cbn; lia).
  destruct (Htab 0%nat t eq_refl) as (t' & Ht' & Hsp). rewrite Nat.add_0_r in Ht'.
  destruct Ht0 as (t0' & Ht0' & Hsp0).
  destruct Hc as (Hca & Hcl & Hcn).
  destruct (client_send_spec fuel w1 (Z.of_nat i + 1) t' t0' addr data) as
    (w2 & evs & E2 & Hs12 & Ha2 & Hfw & Hup).
  - apply Hs1.
  - split; [lia|]. split; [by replace (Z.to_nat (Z.of_nat i + 1)) with (S i) by lia|].
    destruct Hsp as (-> & _). done.
  - lia.
  - done.
  - by eapply no_playback_same.
  - done.
  - rewrite (bind_Ret _ _ _ _ _ E2). assert (steady w w2) as Hs2 by (by eapply steady_trans).
    replace (Z.of_nat i + 1) with (Z.of_nat (S i)) by lia.
    destruct (IH addrs' (S i) w2) as (w3 & evss & E3 & Hs23 & Ha3 & Hall & Hup3).
    + apply Hs2.
    + destruct (Forall2_lookup_l _ _ _ _ _ (st_tcp _ _ Hs2) Ht0') as (t0'' & ? & ?).
      exists t0''. split; [done|]. by etrans.
    + intros k u Hu. destruct (Htab (S k) u Hu) as (u' & Hu' & Hspu).
      destruct (Forall2_lookup_l _ _ _ _ _ (st_tcp _ _ Hs2) Hu') as (u'' & ? & ?).
      exists u''. split; [by replace (S (S i + k)) with (S (i + S k)) by lia|]. by etrans.
    + eapply Forall2_impl; [exact Hok|]. intros. by eapply client_ok_steady.
    + done.
    + cbn [negb]. rewrite (bind_Ret _ _ _ _ _ E3). exists w3, (evs :: evss). split; [done|].
      split; [by eapply steady_trans|]. split; [by rewrite Ha3, Ha2, <-app_assoc|].
      assert (∀ a, a ∈ addrs' → lock_exists w2 a = lock_exists w a) as Hlk.
      { intros a Ha. apply lock_steady; [done|].
        destruct (list_elem_of_lookup_1 _ _ Ha) as [k Hk].
        destruct (Forall2_lookup_r _ _ _ _ _ Hok Hk) as (u & _ & _ & _ & Hu). done. }
      assert (lock_exists w1 addr = lock_exists w addr) as Elk by done. rewrite Elk in *. split.
      * unfold all_forwarded in *. rewrite fmap_cons. constructor; [by eapply forwarded_same|].
        erewrite <-list_fmap_ext; [exact Hall|].
        intros k a Ha. apply Hlk. by eapply list_elem_of_lookup_2.
      * intros Hn. unfold sent_data in *. cbn [concat]. rewrite omap_app, (Hup Hn), (Hup3 Hn).
        rewrite (free_clients_ext w w2) by done. unfold free_clients. rewrite filter_cons.
        by destruct (lock_exists w addr).
Qed.

(** The part of [distribute_run] after recording. *)
Lemma run_tail_spec fuel data w m cs addrs :
  log_ready w → w_tcp w = m :: cs → clientNum m = Z.of_nat (length cs) →
  Forall2 (client_ok w) cs addrs → Forall (λ t, no_playback data t m) cs →
  ∃ w' evss,
    (log_ DEBUG (lit "%d %s") [AInt 230; AStr (lit "distribute-client thread mutex init")] ;;
     created ← run_clients heap tail fuel data 0 (Z.to_nat (clientNum m)) false;
     lift (if forallb id created then Ok tt else Bad Unspecified) ;;
     log_ DEBUG (lit "%d %s") [AInt 246; AStr (lit "distribute-client thread mutex destroy")]) w =
      Ret tt w' ∧ steady w w' ∧ acts w' = acts w ++ concat evss ∧
    all_forwarded w' data cs addrs evss ∧
    (net_up → sent_data (concat evss) = (λ _, data) <$> free_clients w' addrs).
Proof.
  intros Hr Ht Hn Hok Hnp. log_skip Hr w1 Hf1 Hr1. rewrite Hn, Nat2Z.id.
  pose proof (steady_log _ _ Hf1 Hr1) as Hs1. pose proof (lf_tcp _ _ Hf1) as Ht1. rewrite Ht in Ht1.
  destruct (run_clients_spec fuel data m cs addrs 0 w1) as (w2 & evss & E & Hs2 & Ha2 & Hall & Hup).
  - done.
  - exists m. by rewrite Ht1.
  - intros k t Hk. exists t. by rewrite Ht1.
  - eapply Forall2_impl; [exact Hok|]. intros. by eapply client_ok_steady.
  - done.
  - change (Z.of_nat 0) with 0 in E. rewrite (bind_Ret _ _ _ _ _ E).
    assert (∀ k, forallb id (replicate k true) = true) as -> by (induction k; done).
    rewrite bind_lift_Ok. pose proof (st_ready _ _ Hs2) as Hr2. log_skip Hr2 w3 Hf3 Hr3.
    assert (steady w1 w3) as Hs13 by (eapply steady_trans; [exact Hs2|by apply steady_log]).
    exists w3, evss. split; [done|]. split; [by eapply steady_trans|].
    split; [by rewrite (acts_frame _ _ Hf3), Ha2, (acts_frame _ _ Hf1)|].
    assert (∀ a, a ∈ addrs → lock_exists w1 a = lock_exists w3 a) as Hlk.
    { intros a Ha. symmetry. apply lock_steady; [done|].
      destruct (list_elem_of_lookup_1 _ _ Ha) as [k Hk].
      destruct (Forall2_lookup_r _ _ _ _ _ Hok Hk) as (u & _ & _ & _ & Hu).
      by rewrite (steady_path w w1). }
    split.
    + unfold all_forwarded in *. erewrite <-list_fmap_ext; [exact Hall|].
      intros k a Ha. apply Hlk. by eapply list_elem_of_lookup_2.
    + intros Hup'. rewrite (Hup Hup'). f_equal. by apply free_clients_ext.
Qed.

(** ** Recording and forwarding *)

Context `{!Calendar}.

(** The effect of a packet to forward, by the result [r] of [initDataRecord]:
    without a file nothing happens; otherwise the file holds the packet, no other
    file but logs changes, and every client is dealt with in order. *)
Definition packet_effect (data : list Z) (r : option path) (cs : list DISTRIBUTE_TCP_INFO)
    (addrs : list (list Z)) (w w' : World) (evs : list event) : Prop :=
  match r with
  | None => evs = [] ∧ ∀ q, ¬ is_log_file q → w_files w' !! q = w_files w !! q
  | Some p =>
      is_data_file p ∧ w_files w' !! p = Some data ∧
      (∀ q, ¬ is_log_file q → q ≠ p → w_files w' !! q = w_files w !! q) ∧
      (∃ evss, evs = concat evss ∧ all_forwarded w' data cs addrs evss) ∧
      (net_up → sent_data evs = (λ _, data) <$> free_clients w' addrs)
  end.

(** What [distribute_run] does with a packet to forward. *)
Lemma distribute_run_spec fuel data w m cs addrs dp :
  log_ready w → data_conf w dp → 0 ≤ w_uuid w ≤ 999 →
  w_tcp w = m :: cs → flag m = DISTRIBUTE → clientNum m = Z.of_nat (length cs) →
  Forall2 (client_ok w) cs addrs → Forall (λ t, no_playback data t m) cs →
  ∃ r w' evs, distribute_run heap tail fuel data w = Ret tt w' ∧ log_ready w' ∧ 0 ≤ w_uuid w' ≤ 999 ∧
    Forall2 same_peer (w_tcp w) (w_tcp w') ∧ w_tcp w' !! 0%nat = w_tcp w !! 0%nat ∧ w_cwd w' = w_cwd w ∧ (w_nsys w ≤ w_nsys w')%nat ∧
    (∃ w1, initDataRecord w = Ret r w1) ∧ acts w' = acts w ++ evs ∧ packet_effect data r cs addrs w w' evs.
Proof.
  intros Hr Hd Hu Ht Hfl Hn Hok Hnp. unfold distribute_run.
  rewrite (bind_Ret _ _ _ _ _ (tcp_at_spec w 0 m ltac:(lia) ltac:(by rewrite Ht))). rewrite Hfl. cbn [Z.eqb].
  change (DISTRIBUTE =? DISTRIBUTE) with true. cbv iota.
  destruct (initDataRecord_frame w dp Hr Hd Hu) as (r & w1 & E1 & []). rewrite bind_assoc.
  rewrite (bind_Ret _ _ _ _ _ E1). destruct r as [p|].
  - rewrite bind_assoc, bind_fwrite, bind_mret. set (w2 := append_file p data w1).
    destruct (rf_new p eq_refl) as [Hp Hnew].
    assert (log_ready w2) as Hr2.
    { eapply log_ready_stable; [exact rf_ready|]. constructor; try done.
      cbn. apply lookup_insert_ne. intros E. by apply (data_not_conf p w1) in Hp. }
    destruct (run_tail_spec fuel data w2 m cs addrs) as (w3 & evss & E3 & Hs3 & Ha3 & Hall & Hup); try done.
    + cbn. by rewrite rf_tcp.
    + eapply Forall2_impl; [exact Hok|]. intros t a (Ha & Hl & Hlog). split; [done|]. split; [done|].
      unfold path_of in *. cbn [w_cwd w2 append_file set_files]. by rewrite rf_cwd.
    + exists (Some p), w3, (concat evss). rewrite E3. split; [done|]. split; [apply Hs3|]. split; [by rewrite (st_uuid _ _ Hs3)|].
      split; [by rewrite <-rf_tcp; apply Hs3|]. split; [by rewrite <-rf_tcp; apply Hs3|]. split; [by rewrite (st_cwd _ _ Hs3)|].
      split; [etrans; [exact rf_nsys|apply (st_nsys _ _ Hs3)]|].
      split; [by exists w1|]. split; [rewrite Ha3; f_equal; exact rf_acts|].
      split; [done|]. split; [|split; [|split; [by exists evss|done]]].
      * rewrite (st_files _ _ Hs3) by (by apply data_not_log). cbn. rewrite lookup_insert_eq, Hnew. done.
      * intros q Hq Hne. rewrite (st_files _ _ Hs3) by done. cbn. rewrite lookup_insert_ne by congruence.
        apply rf_files; [done|congruence].
  - rewrite bind_assoc. log_skip rf_ready w2 Hf2 Hr2. rewrite bind_mret.
    exists None, w2, []. split; [done|]. split; [done|]. split; [by rewrite (lf_uuid _ _ Hf2)|].
    split; [by rewrite (lf_tcp _ _ Hf2), rf_tcp|]. split; [by rewrite (lf_tcp _ _ Hf2), rf_tcp|]. split; [by rewrite (lf_cwd _ _ Hf2)|].
    split; [etrans; [exact rf_nsys|apply (lf_nsys _ _ Hf2)]|].
    split; [by exists w1|]. split; [by rewrite (acts_frame _ _ Hf2), app_nil_r|]. split; [done|].
    intros q Hq. rewrite (lf_files _ _ Hf2) by done. by apply rf_files.
Qed.

End Forwarding.

(** ** The table of peers *)

(** The text and the number a configuration gives for a key. *)
Definition conf_text (data k : list Z) : list Z := default [] (assoc k (entries data)).
Definition conf_int (data k : list Z) : Z :=
  match atoi (pad_to VAL_LEN (conf_text data k)) with Ok v => v | Bad _ => 0 end.
Definition has_key (data k : list Z) : Prop := is_Some (assoc k (entries data)).

Definition address_key (i : Z) : list Z := lit "client" ++ show_int i ++ lit "-address".
Definition port_key (i : Z) : list Z := lit "client" ++ show_int i ++ lit "-port".

(** The entry of client [i], and the whole table. *)
Definition client_entry (data : list Z) (i : Z) : DISTRIBUTE_TCP_INFO :=
  mkTCP (pad_to INFO_LENGTH (conf_text data (address_key i))) (zeros INFO_LENGTH)
        (conf_int data (port_key i)) 0 0 0.
Definition peer_table (data : list Z) : list DISTRIBUTE_TCP_INFO :=
  let n := conf_int data (lit "client-num") in
  mkTCP (pad_to INFO_LENGTH (conf_text data (lit "distribute-address"))) (zeros INFO_LENGTH)
        (conf_int data (lit "distribute-port")) 0 n 0 ::
  (client_entry data <$> (Z.of_nat <$> seq 1 (Z.to_nat n))).

Lemma show_client i : 1 ≤ i ≤ 9999 → (length (show_int i) ≤ 4)%nat ∧ nz (show_int i).
Proof.
  intros Hi. split; [|apply str_ok_nz, show_int_str_ok; lia].
  unfold show_int. destruct (Z.ltb_spec i 0); [lia|].
  by pose proof (show_nat_length i 4 ltac:(simpl; lia) ltac:(lia)) as [[??] _].
Qed.

Lemma client_keys_spec i : 1 ≤ i ≤ 9999 →
  client_keys i = Ok (pad_to 20 (lit "client" ++ show_int i), pad_to 20 (address_key i), pad_to 20 (port_key i)).
Proof.
  intros Hi. destruct (show_client i Hi) as [Hl Hz]. unfold client_keys.
  assert (strncpy (zeros 20) (lit "client" ++ [0]) 6 = Ok (pad_to 20 (lit "client"))) as -> by (vm_compute; reflexivity).
  assert (blit (zeros 5) 0 (show_int i ++ [0]) = Ok (pad_to 5 (show_int i))) as ->.
  { pose proof (strcpy_zeros 5 (show_int i ++ [0]) (show_int i) (cstr_app_ne _ _ Hz) ltac:(lia)) as Hs.
    unfold strcpy, strcpy_at in Hs. by rewrite cstr_app_ne in Hs. }
  cbn [mbind res_bind].
  assert (nz (lit "client" ++ show_int i)) as Hb by (apply Forall_app; split; [nz_lit|assumption]).
  rewrite (strcat_pad 20 _ _ (show_int i)); [|nz_lit|apply cstr_pad; [assumption|lia]|cbn; lia].
  cbn [mbind res_bind].
  assert (length (lit "client" ++ show_int i) ≤ 10)%nat as Hbl by (rewrite length_app; cbn; lia).
  rewrite !(strcpy_zeros 20 _ (lit "client" ++ show_int i)) by first [lia|apply cstr_pad; [assumption|lia]].
  cbn [mbind res_bind].
  rewrite (strcat_pad 20 _ (lit "-address" ++ [0]) (lit "-address")); [|assumption|reflexivity|change (length (lit "-address")) with 8%nat; lia].
  cbn [mbind res_bind].
  rewrite (strcat_pad 20 _ (lit "-port" ++ [0]) (lit "-port")); [|assumption|reflexivity|change (length (lit "-port")) with 5%nat; lia].
  cbn [mbind res_bind]. unfold address_key, port_key. by rewrite <-!app_assoc.
Qed.

Lemma key_ok i : 1 ≤ i ≤ 9999 →
  nz (address_key i) ∧ nz (port_key i) ∧ (length (address_key i) < 20)%nat ∧ (length (port_key i) < 20)%nat.
Proof.
  intros Hi. destruct (show_client i Hi) as [Hl Hz]. unfold address_key, port_key. repeat split.
  1-2: apply Forall_app; split; [nz_lit|apply Forall_app; split; [assumption|nz_lit]].
  all: rewrite !length_app; cbn; lia.
Qed.

Section Parsing.
Context `{Env, !Logger}.

Lemma conf_value data k v :
  conf_ok data → assoc k (entries data) = Some v →
  conf_text data k = v ∧ nz v ∧ (length v < 128)%nat ∧
  strcpy_ptr (zeros INFO_LENGTH) (Some (pad_to VAL_LEN v)) = Ok (pad_to INFO_LENGTH v) ∧
  atoi_ptr (Some (pad_to VAL_LEN v)) = Ok (conf_int data k).
Proof.
  intros Hc Hk. destruct (assoc_value _ _ _ Hc Hk) as [Hz Hl]. unfold VAL_LEN in Hl.
  assert (conf_text data k = v) as Et by (unfold conf_text; by rewrite Hk).
  split; [done|]. split; [done|]. split; [done|]. split.
  - cbn [strcpy_ptr]. apply strcpy_zeros; [by apply cstr_pad|done].
  - cbn [atoi_ptr]. unfold conf_int. rewrite Et, pad_to_split by done.
    by destruct (atoi_total v (replicate (VAL_LEN - S (length v)) 0)) as [z ->].
Qed.

Lemma parse_client_spec w data i :
  log_ready w → conf_ok data → 1 ≤ i ≤ 9999 → has_key data (address_key i) → has_key data (port_key i) →
  ∃ w', parse_client (info_of <$> entries data) (Z.of_nat (length (entries data))) i w =
    Ret (client_entry data i) w' ∧ log_frame w w' ∧ log_ready w'.
Proof.
  intros Hr Hc Hi [a Ha] [p Hp]. destruct (key_ok i Hi) as (Hz1 & Hz2 & Hl1 & Hl2).
  destruct (conf_value _ _ _ Hc Ha) as (Ea & Haz & Hal & Has & _).
  destruct (conf_value _ _ _ Hc Hp) as (_ & _ & _ & _ & Hpi).
  unfold parse_client. rewrite client_keys_spec, bind_lift_Ok by done.
  cbv beta iota. rewrite (cstr_pad 20 (address_key i)), bind_lift_Ok by done.
  rewrite (bind_Ret _ _ _ _ _ (getInfo_ok _ data w Hc Hz1)), Ha. cbn [fmap option_fmap option_map].
  rewrite Has, bind_lift_Ok. rewrite (cstr_pad 20 (port_key i)), bind_lift_Ok by done.
  rewrite (bind_Ret _ _ _ _ _ (getInfo_ok _ data w Hc Hz2)), Hp. cbn [fmap option_fmap option_map].
  rewrite Hpi, bind_lift_Ok. destruct (show_client i Hi) as [Hsl Hsz].
  rewrite (cstr_pad 20 (lit "client" ++ _)), bind_lift_Ok;
    [|apply Forall_app; split; [nz_lit|assumption]|rewrite length_app; cbn; lia].
  rewrite (cstr_pad INFO_LENGTH a), bind_lift_Ok by done.
  log_skip Hr w1 Hf1 Hr1. log_skip Hr1 w2 Hf2 Hr2. exists w2. split; [|split; [by etrans|done]].
  unfold client_entry. by rewrite Ea.
Qed.

Lemma parse_clients_spec data n : ∀ i w,
  log_ready w → conf_ok data → (1 ≤ i)%nat → Z.of_nat (i + n) ≤ 10000 →
  (∀ k, (i ≤ k < i + n)%nat → has_key data (address_key (Z.of_nat k)) ∧ has_key data (port_key (Z.of_nat k))) →
  ∃ w', parse_clients (info_of <$> entries data) (Z.of_nat (length (entries data))) (Z.of_nat i) n w =
    Ret (client_entry data <$> (Z.of_nat <$> seq i n)) w' ∧ log_frame w w' ∧ log_ready w'.
Proof.
  induction n as [|n IH]; intros i w Hr Hc Hi Hn Hk; cbn [parse_clients].
  { by exists w. }
  destruct (Hk i) as [Ha Hp]; [lia|].
  destruct (parse_client_spec w data (Z.of_nat i)) as (w1 & E1 & Hf1 & Hr1); [done|done|lia|done|done|].
  rewrite (bind_Ret _ _ _ _ _ E1). replace (Z.of_nat i + 1) with (Z.of_nat (S i)) by lia.
  destruct (IH (S i) w1) as (w2 & E2 & Hf2 & Hr2); [done|done|lia|lia|intros; apply Hk; lia|].
  rewrite (bind_Ret _ _ _ _ _ E2). exists w2. split; [done|]. split; [by etrans|done].
Qed.

(** The configuration has every key the table needs, for at most 9999 clients. *)
Definition peers_conf (w : World) (data : list Z) : Prop :=
  w_files w !! path_of w (conf_file w) = Some data ∧ conf_ok data ∧
  nz (w_cwd w) ∧ (length (w_cwd w) < 500)%nat ∧
  has_key data (lit "client-num") ∧ has_key data (lit "distribute-address") ∧
  has_key data (lit "distribute-port") ∧ 0 ≤ conf_int data (lit "client-num") ≤ 9999 ∧
  ∀ k, (1 ≤ k ≤ Z.to_nat (conf_int data (lit "client-num")))%nat →
    has_key data (address_key (Z.of_nat k)) ∧ has_key data (port_key (Z.of_nat k)).

(** The table of a complete configuration. *)
Lemma parse_peers_spec w data :
  log_ready w → peers_conf w data →
  ∃ w1, parseFile_distributeTcpInfo w = Ret tt (set_tcp (peer_table data) w1) ∧ log_frame w w1 ∧ log_ready w1 ∧
    length (peer_table data) = S (Z.to_nat (conf_int data (lit "client-num"))).
Proof.
  intros Hr (Hf & Hc & Hz & Hl & [cn Hcn] & [a Ha] & [p Hp] & Hn & Hk).
  destruct (conf_value _ _ _ Hc Hcn) as (_ & _ & _ & _ & Hcni).
  destruct (conf_value _ _ _ Hc Ha) as (Ea & Haz & Hal & Has & _).
  destruct (conf_value _ _ _ Hc Hp) as (_ & _ & _ & _ & Hpi).
  unfold parseFile_distributeTcpInfo. rewrite (bind_Ret _ _ _ _ _ (config_path_spec w Hz Hl)).
  rewrite cstr_pad, bind_lift_Ok; [|by apply conf_file_nz|rewrite conf_file_length; lia].
  rewrite (bind_Ret _ _ _ _ _ (read_config_ok _ w data Hf Hc)). cbn [fst snd].
  rewrite (bind_Ret _ _ _ _ _ (getInfo_ok (lit "client-num") data w Hc ltac:(nz_lit))), Hcn.
  cbn [fmap option_fmap option_map]. rewrite Hcni, bind_lift_Ok.
  log_skip Hr w1 Hf1 Hr1. set (n := conf_int data (lit "client-num")) in *.
  rewrite int32_small by lia. destruct (Z.ltb_spec (n + 1) 0); [lia|]. rewrite bind_lift_Ok.
  rewrite (bind_Ret _ _ _ _ _ (getInfo_ok (lit "distribute-address") data w1 Hc ltac:(nz_lit))), Ha.
  cbn [fmap option_fmap option_map]. rewrite Has, bind_lift_Ok.
  rewrite (bind_Ret _ _ _ _ _ (getInfo_ok (lit "distribute-port") data w1 Hc ltac:(nz_lit))), Hp.
  cbn [fmap option_fmap option_map]. rewrite Hpi, bind_lift_Ok.
  destruct (Z.eqb_spec (n + 1) 0); [lia|]. rewrite bind_lift_Ok.
  rewrite (cstr_pad INFO_LENGTH a), bind_lift_Ok by done.
  log_skip Hr1 w2 Hf2 Hr2. log_skip Hr2 w3 Hf3 Hr3. log_skip Hr3 w4 Hf4 Hr4.
  destruct (parse_clients_spec data (Z.to_nat n) 1 w4) as (w5 & E5 & Hf5 & Hr5); [done|done|lia|lia| |].
  { intros k Hk'. apply Hk. lia. }
  change (Z.of_nat 1) with 1 in E5. rewrite (bind_Ret _ _ _ _ _ E5).
  exists w5. split; [|split; [|split; [done|]]].
  - unfold modify, peer_table. fold n. by rewrite Ea.
  - etrans; [exact Hf1|]. etrans; [exact Hf2|]. etrans; [exact Hf3|]. by etrans.
  - unfold peer_table. cbn [length]. by rewrite !length_fmap, length_seq.
Qed.

(** C40: from a complete configuration [parseFile_distributeTcpInfo] builds the
    table with the server's own entry first and the address and port of client
    [i] in slot [i], and touches nothing else but the log. *)
Theorem parse_peers w data :
  log_ready w → peers_conf w data →
  ∃ w1, parseFile_distributeTcpInfo w = Ret tt (set_tcp (peer_table data) w1) ∧ log_frame w w1 ∧ log_ready w1 ∧
    length (peer_table data) = S (Z.to_nat (conf_int data (lit "client-num"))).
Proof. apply parse_peers_spec. Qed.

(** A configuration without the address of an announced client makes the
    start-up dereference NULL. *)
Theorem parse_client_missing w data i :
  conf_ok data → 1 ≤ i ≤ 9999 → assoc (address_key i) (entries data) = None →
  parse_client (info_of <$> entries data) (Z.of_nat (length (entries data))) i w = Crash NullPointer.
Proof.
  intros Hc Hi Ha. destruct (key_ok i Hi) as (Hz1 & _ & Hl1 & _).
  unfold parse_client. rewrite client_keys_spec, bind_lift_Ok by done.
  cbv beta iota. rewrite (cstr_pad 20 (address_key i)), bind_lift_Ok by done.
  by rewrite (bind_Ret _ _ _ _ _ (getInfo_ok _ data w Hc Hz1)), Ha.
Qed.

End Parsing.

(** ** Theorems *)

(** A forwarded packet is no playback command. *)
Lemma distribute_no_playback data t t0 :
  bytes_ok data → packet_kind data = KDistribute → no_playback data t t0.
Proof.
  intros Hb Hk. left. intros Hh. rewrite packet_kind_eq in Hk by done.
  assert ([0x88; 0x88; 0x88; 0x88] `prefix_of` data) as [r ->].
  { apply Z.eqb_eq in Hh. unfold Replay_of in Hh. cbn [PacketHead] in Hh.
    rewrite (head_field data _ PLAYBACKHEADER [0x88; 0x88; 0x88; 0x88]) in Hh;
      [by apply bool_decide_eq_true in Hh|done|vm_compute; lia|done|repeat constructor; vm_compute; congruence..]. }
  do 2 (rewrite bool_decide_false in Hk by (intros [r' [=]])). cbn [orb] in Hk. by case_bool_decide.
Qed.

Section Theorems.
Context `{Env, !Calendar, !Logger} (heap : heap_policy) (tail : list Z).

(** C1: one received, many sent.  When [initDataRecord] opens a file for the
    packet, that file holds exactly the packet and every client of the table is
    dealt with in order, each forwarding obeying the client's lock; with a working
    network every client without a lock is sent exactly the packet, once.  When
    it opens none the packet is dropped with no effect but log lines.  In both
    cases the table, the packet number and the logger stay in order.  Every
    [pthread_create] is taken to succeed, and the write to the opened file, whose
    result the code does not look at, to be complete. *)
Theorem distribute_run_forwards fuel data w m cs addrs dp :
  (∀ n, env_pthread_create n = 0) → bytes_ok data → packet_kind data = KDistribute →
  log_ready w → data_conf w dp → 0 ≤ w_uuid w ≤ 999 →
  w_tcp w = m :: cs → flag m = DISTRIBUTE → clientNum m = Z.of_nat (length cs) →
  Forall2 (client_ok w) cs addrs →
  ∃ r w' evs, distribute_run heap tail fuel data w = Ret tt w' ∧ log_ready w' ∧ 0 ≤ w_uuid w' ≤ 999 ∧
    Forall2 same_peer (w_tcp w) (w_tcp w') ∧ w_tcp w' !! 0%nat = w_tcp w !! 0%nat ∧ w_cwd w' = w_cwd w ∧ (w_nsys w ≤ w_nsys w')%nat ∧
    (∃ w1, initDataRecord w = Ret r w1) ∧ acts w' = acts w ++ evs ∧ packet_effect data r cs addrs w w' evs.
Proof.
  intros Hth Hb Hk Hr Hd Hu Ht Hfl Hn Hok.
  apply (distribute_run_spec heap tail Hth fuel data w m cs addrs dp); try done.
  apply Forall_forall. intros t _. by apply distribute_no_playback.
Qed.

(** [distribute_client_send] forwards a packet exactly when the client's
    lock file does not exist: with a working network the data handed to the
    connection is the packet, once, or nothing for a locked client; the thread
    changes no file but the log and no table entry but descriptors. *)
Theorem client_send_obeys_lock fuel w index t t0 addr data :
  log_ready w → client_at w index t addr → 0 < index → w_tcp w !! 0%nat = Some t0 → no_playback data t t0 →
  ¬ is_log_file (path_of w (shm_name addr)) → net_up →
  ∃ w' evs, distribute_client_send heap tail fuel data index w = Ret tt w' ∧ steady w w' ∧
    acts w' = acts w ++ evs ∧ forwarded t data (lock_exists w addr) evs ∧
    sent_data evs = if lock_exists w addr then [] else [data].
Proof.
  intros Hr Hcl Hpos Ht0 Hnp Hlog Hup.
  destruct (client_send_spec heap tail fuel w index t t0 addr data) as (w' & evs & E & Hs & Ha & Hf & Hsd); try done.
  exists w', evs. split; [done|]. split; [done|]. split; [done|]. split; [done|by apply Hsd].
Qed.

(** A playback command that arrives from one client is not dropped by the
    threads of the others: each of them forwards the command itself to its own
    client (when that client has no lock). *)
Theorem foreign_command_forwarded fuel w index t t0 addr data d :
  log_ready w → client_at w index t addr → 0 < index → w_tcp w !! 0%nat = Some t0 →
  packet_kind data = KPlayback → strcmp (Machine.address t) (acceptedAddress t0) = Ok d → d ≠ 0 →
  ¬ is_log_file (path_of w (shm_name addr)) → lock_exists w addr = false → net_up →
  ∃ w' evs, distribute_client_send heap tail fuel data index w = Ret tt w' ∧
    acts w' = acts w ++ evs ∧ sent_data evs = [data].
Proof.
  intros Hr Hcl Hpos Ht0 Hk Hd Hne Hlog Hlk Hup.
  destruct (client_send_spec heap tail fuel w index t t0 addr data) as (w' & evs & E & Hs & Ha & Hf & Hsd); try done.
  - right. by exists d.
  - exists w', evs. split; [done|]. split; [done|]. by rewrite (Hsd Hup), Hlk.
Qed.

(** [pthread_create] reports an error as a positive number, which the test
    against -1 misses: the mutex stays locked and the loop waits forever at the
    next client. *)
Theorem thread_failure_deadlocks fuel data i n w :
  0 < env_pthread_create (w_nsys w) →
  run_clients heap tail fuel data i (S (S n)) false w = Blocked.
Proof.
  intros Hc. cbn [run_clients]. unfold tick. unfold mbind at 1, M_bind at 1.
  destruct (Z.eqb_spec (env_pthread_create (w_nsys w)) 0); [lia|].
  destruct (Z.eqb_spec EXIT_FAIL_CODE (env_pthread_create (w_nsys w))) as [E|_];
    [unfold EXIT_FAIL_CODE in E; lia|]. done.
Qed.

End Theorems.

(** ** Witnesses *)

(** A maritime packet. *)
Definition sea_packet : list Z :=
  Sea_image (mkSea SEACOMMHEADER 2 1 0 1667750400 113 22 7 1) ++ [17; 34].

Lemma play_data_conf : data_conf play_world (lit "./data").
Proof.
  split; [|split; [by_decide|vm_compute; lia]]. exists play_conf.
  split; [vm_compute; reflexivity|]. split; [unfold conf_ok; by_decide|vm_compute; reflexivity].
Qed.
Lemma play_client_ok : client_ok play_world play_tcp play_addr.
Proof. split; [vm_compute; reflexivity|]. split; [vm_compute; lia|apply play_lock_not_log]. Qed.

(** The process with no lock, about to forward. *)
Definition open_world : World :=
  set_tcp [set_flag DISTRIBUTE play_master; play_tcp]
    (set_files (delete lock_file (w_files play_world)) play_world).

(** A configuration with one client. *)
Definition peer_conf : list Z :=
  render [Entry (lit "distribute-address") (lit "192.168.30.3"); Entry (lit "distribute-port") (lit "60003");
          Entry (lit "client-num") (lit "1"); Entry (lit "client1-address") (lit "192.168.30.153");
          Entry (lit "client1-port") (lit "9999")].
Definition peer_world : World := boot {[ [lit "srv"; lit "engine.conf"] := peer_conf ]} {[ []; [lit "srv"] ]}.

(** A system on which no thread can be created. *)
Definition threadless_env : Env := {|
  env_clock n := 1667750400 + Z.of_nat n;
  env_localtime _ := mkTm 0 30 10 6 10 122;
  env_home := None;
  env_strerror _ := lit "error";
  env_io_fail _ := None;
  env_dirorder _ l := l;
  env_socket n := 5 + Z.of_nat n;
  env_setsockopt _ := 0;
  env_bind _ := 0;
  env_listen _ := 0;
  env_accept n := mkConn (100 + Z.of_nat n) (192, 168, 30, 153) 40000;
  env_connect _ := 0;
  env_send _ d := (Z.of_nat (length d), 0);
  env_recv _ := inr [];
  env_fork _ := 1;
  env_pthread_create _ := EAGAIN;
  env_memory _ := Memory 262144 4096 (λ _, true);
|}.

Lemma thread_failure_deadlocks_witness :
  run_clients (H := threadless_env) (H0 := @silent_logger threadless_env) strict_heap [0] 0 sea_packet 0 2 false
    open_world = Blocked.
Proof.
  apply (thread_failure_deadlocks (H := threadless_env) (H1 := @silent_logger threadless_env)
    strict_heap [0] 0 sea_packet 0 0 open_world). reflexivity.
Defined.

Section Witness.
#[local] Existing Instance sample_env.
#[local] Instance quiet_log : Logger := silent_logger.

Lemma sample_net_up : net_up.
Proof. intros n. cbn. lia. Qed.

Lemma parse_peers_witness :
  ∃ w1, parseFile_distributeTcpInfo peer_world = Ret tt (set_tcp (peer_table peer_conf) w1) ∧
    nth_error (peer_table peer_conf) 1 = Some (mkTCP (pad_to INFO_LENGTH play_addr) (zeros INFO_LENGTH) 9999 0 0 0).
Proof.
  destruct (parse_peers peer_world peer_conf) as (w1 & E & _).
  - exact I.
  - split; [vm_compute; reflexivity|]. split; [unfold conf_ok; by_decide|]. split; [by_decide|].
    split; [vm_compute; lia|]. do 3 (split; [vm_compute; eexists; reflexivity|]).
    split; [vm_compute; intuition discriminate|].
    assert (Z.to_nat (conf_int peer_conf (lit "client-num")) = 1%nat) as -> by (vm_compute; reflexivity).
    intros k Hk. assert (k = 1%nat) as -> by lia. split; vm_compute; eexists; reflexivity.
  - exists w1. split; [exact E|]. vm_compute. reflexivity.
Defined.

Lemma parse_client_missing_witness :
  parse_client (info_of <$> entries peer_conf) (Z.of_nat (length (entries peer_conf))) 2 peer_world =
  Crash NullPointer.
Proof.
  apply parse_client_missing; [unfold conf_ok; by_decide|lia|vm_compute; reflexivity].
Defined.

Lemma client_send_obeys_lock_witness :
  ∃ w' evs, distribute_client_send strict_heap [0] 0 sea_packet 1 play_world = Ret tt w' ∧
    acts w' = evs ∧ sent_data evs = [].
Proof.
  destruct (client_send_obeys_lock strict_heap [0] 0 play_world 1 play_tcp play_master play_addr sea_packet)
    as (w' & evs & E & _ & Ha & _ & Hs).
  - exact I.
  - apply play_client.
  - lia.
  - reflexivity.
  - left. vm_compute. discriminate.
  - apply play_lock_not_log.
  - apply sample_net_up.
  - exists w', evs. split; [exact E|]. split; [exact Ha|]. exact Hs.
Defined.

Lemma open_client_ok : client_ok open_world play_tcp play_addr.
Proof. exact play_client_ok. Qed.

Lemma foreign_command_forwarded_witness :
  ∃ w' evs, distribute_client_send strict_heap [0] 0 (play_command PLAYBACK_START) 1 open_world = Ret tt w' ∧
    sent_data evs = [play_command PLAYBACK_START].
Proof.
  destruct (foreign_command_forwarded strict_heap [0] 0 open_world 1 play_tcp
    (set_flag DISTRIBUTE play_master) play_addr (play_command PLAYBACK_START) 49) as (w' & evs & E & _ & Hs).
  - exact I.
  - repeat split; vm_compute; [discriminate|lia].
  - lia.
  - reflexivity.
  - vm_compute. reflexivity.
  - vm_compute. reflexivity.
  - discriminate.
  - exact play_lock_not_log.
  - vm_compute. reflexivity.
  - apply sample_net_up.
  - exists w', evs. split; [exact E|exact Hs].
Defined.

Lemma distribute_run_forwards_witness :
  ∃ w', distribute_run strict_heap [0] 0 sea_packet open_world = Ret tt w' ∧ 0 ≤ w_uuid w' ≤ 999.
Proof.
  destruct (distribute_run_forwards strict_heap [0] 0 sea_packet open_world (set_flag DISTRIBUTE play_master)
    [play_tcp] [play_addr] (lit "./data")) as (r & w' & evs & E & _ & Hu & _).
  - reflexivity.
  - vm_compute. repeat constructor; discriminate.
  - vm_compute. reflexivity.
  - exact I.
  - split; [|split; [by_decide|vm_compute; lia]]. exists play_conf.
    split; [vm_compute; reflexivity|]. split; [unfold conf_ok; by_decide|vm_compute; reflexivity].
  - vm_compute. intuition discriminate.
  - reflexivity.
  - reflexivity.
  - reflexivity.
  - constructor; [apply open_client_ok|constructor].
  - exists w'. split; [exact E|exact Hu].
Defined.

End Witness.
