(* ===== verification/Session.v ===== *)
(** * util.c: a connection and the server around it

    The loops of [distribute_receive] and [distribute_server] (defined in
    Distribute) as sessions: the state the server keeps between packets, what
    one packet does to it, that a connection is served until the peer closes
    it, and how the server starts, fails to start, and goes on accepting. *)

From S2P Require Import Prelude CString Machine ConfigFile Log DataHeader RecordData Inet MSort ScanDir Playback Distribute.

Section Serving.
Context `{Env, !Calendar, !Logger} (heap : heap_policy) (tail : list Z).

(** The state between two packets: the logger works, the configuration names
    the data directory, and the table lists the clients [addrs]. *)
Record serving (dp : list Z) (addrs : list (list Z)) (w : World) : Prop := {
  sv_ready : log_ready w;
  sv_conf : data_conf w dp;
  sv_uuid : 0 ≤ w_uuid w ≤ 999;
  sv_table : ∃ m cs, w_tcp w = m :: cs ∧ clientNum m = Z.of_nat (length cs) ∧
    length (acceptedAddress m) = INFO_LENGTH ∧ Forall2 (client_ok w) cs addrs;
}.

(** The bytes [recv] stores when the operating system answers call [n]. *)
Definition arrived (n : nat) : list Z :=
  match env_recv n with
  | inl _ => []
  | inr d => if decide (Z.of_nat (length d) ≤ MAX_BUFFER_SIZE) then d else take (Z.to_nat MAX_BUFFER_SIZE) d
  end.

(** Files other than logs and recordings. *)
Definition other_files_kept (w w' : World) : Prop :=
  ∀ q, ¬ is_log_file q → ¬ is_data_file q → w_files w' !! q = w_files w !! q.

(** What serving packets may do: the sends are all packets of [from]. *)
Record served (from : list Z → Prop) (w w' : World) (evs : list event) : Prop := {
  se_acts : acts w' = acts w ++ evs;
  se_sent : Forall from (sent_data evs);
  se_files : other_files_kept w w';
  se_nsys : (w_nsys w ≤ w_nsys w')%nat;
  se_cwd : w_cwd w' = w_cwd w;
  se_fd : acceptfd <$> w_tcp w' !! 0%nat = acceptfd <$> w_tcp w !! 0%nat;
}.

Lemma served_trans from w1 w2 w3 e1 e2 :
  served from w1 w2 e1 → served from w2 w3 e2 → served from w1 w3 (e1 ++ e2).
Proof.
  intros [] []. constructor; try congruence; [|..|lia].
  - by rewrite se_acts1, se_acts0, <-app_assoc.
  - unfold sent_data. rewrite omap_app. by apply Forall_app.
  - intros q Hq Hq'. rewrite se_files1, se_files0 by done. done.
Qed.

Lemma served_weaken (P Q : list Z → Prop) w w' evs :
  (∀ d, P d → Q d) → served P w w' evs → served Q w w' evs.
Proof. intros HPQ []. constructor; try done. by eapply Forall_impl. Qed.

Lemma conf_kept w w' dp :
  data_conf w dp → w_cwd w' = w_cwd w →
  w_files w' !! path_of w (conf_file w) = w_files w !! path_of w (conf_file w) → data_conf w' dp.
Proof.
  intros [(d & Hf & Hd) [Hz Hl]] Hc Hk. unfold data_conf.
  assert (path_of w' (conf_file w') = path_of w (conf_file w)) as -> by (unfold path_of, conf_file; by rewrite Hc).
  rewrite Hc. split; [|done]. exists d. by rewrite Hk.
Qed.

Lemma clients_kept w w' cs addrs :
  w_cwd w' = w_cwd w → Forall2 (client_ok w) cs addrs → Forall2 (client_ok w') cs addrs.
Proof.
  intros Hc Hok. eapply Forall2_impl; [exact Hok|]. intros t a (? & ? & Hl).
  split; [done|]. split; [done|]. unfold path_of. by rewrite Hc.
Qed.

Lemma conf_not_data w : ¬ is_data_file (path_of w (conf_file w)).
Proof. intros Hd. by apply (data_not_conf _ w) in Hd. Qed.

(** A frame of the logger keeps the state. *)
Lemma serving_log dp addrs w w' :
  serving dp addrs w → log_frame w w' → log_ready w' → serving dp addrs w' ∧ ∀ P, served P w w' [].
Proof.
  intros [Hr Hd Hu (m & cs & Ht & Hn & Hla & Hok)] [] Hr'. split.
  - constructor; [done|..].
    + eapply conf_kept; [exact Hd|done|]. apply lf_files, conf_not_log.
    + by rewrite lf_uuid.
    + exists m, cs. rewrite lf_tcp. split; [done|]. split; [done|]. split; [done|]. by eapply clients_kept.
  - intros P. constructor; [by rewrite lf_acts, app_nil_r|constructor| |done|done|by rewrite lf_tcp].
    intros q Hq _. by apply lf_files.
Qed.

(** Counting a system call keeps it. *)
Lemma serving_sys dp addrs w e n :
  serving dp addrs w → (w_nsys w ≤ n)%nat →
  serving dp addrs (set_errno e (set_nsys n w)) ∧ ∀ P, served P w (set_errno e (set_nsys n w)) [].
Proof.
  intros Hs Hn. apply serving_log; [done|by apply log_frame_sys|apply log_ready_sys, Hs].
Qed.

(** So does code that leaves the peers alone. *)
Lemma same_peers_ok w cs cs' addrs :
  Forall2 same_peer cs cs' → Forall2 (client_ok w) cs addrs → Forall2 (client_ok w) cs' addrs.
Proof.
  intros Hcs. revert addrs. induction Hcs as [|t t' cs cs' Ht _ IH]; intros addrs Hok.
  - by apply Forall2_nil_inv_l in Hok as ->.
  - apply Forall2_cons_inv_l in Hok as (a & as' & Hc & Hok & ->). constructor; [|by apply IH].
    destruct Ht as (Ha & _). unfold client_ok. by rewrite Ha.
Qed.

Lemma serving_steady dp addrs w w' : serving dp addrs w → steady w w' → serving dp addrs w'.
Proof.
  intros [Hr Hd Hu (m & cs & Ht & Hn & Hla & Hok)] []. constructor; [done|..].
  - eapply conf_kept; [exact Hd|done|]. apply st_files, conf_not_log.
  - by rewrite st_uuid.
  - rewrite Ht in st_tcp. apply Forall2_cons_inv_l in st_tcp as (m' & cs' & Hm & Hcs & ->).
    exists m', cs'. split; [done|]. destruct Hm as (_ & -> & _ & -> & _).
    split; [by rewrite <-(Forall2_length _ _ _ Hcs)|]. split; [done|].
    eapply clients_kept; [exact st_cwd|]. by eapply same_peers_ok.
Qed.

(** ** One packet *)

Lemma forwarded_sent t data lk evs : forwarded t data lk evs → Forall (eq data) (sent_data evs).
Proof.
  unfold sent_data. destruct 1 as [evs Hd|fd evs Hd _|fd evs r Hd _]; rewrite ?omap_app;
    fold (sent_data evs); rewrite (dialled_sent _ _ _ Hd); repeat constructor.
Qed.
Lemma all_forwarded_sent w data cs addrs evss :
  all_forwarded w data cs addrs evss → Forall (eq data) (sent_data (concat evss)).
Proof.
  unfold all_forwarded. generalize (lock_exists w <$> addrs). intros lks.
  induction 1 as [|t lk evs cs' lks' evss' Hf _ IH]; cbn [concat]; [constructor|].
  unfold sent_data in *. rewrite omap_app. apply Forall_app; split; [by eapply forwarded_sent|done].
Qed.

Context (threads_ok : ∀ n, env_pthread_create n = 0).

(** A packet is dealt with: one to forward is recorded and forwarded as
    [initDataRecord] decides, in the state whose first entry is marked for
    forwarding; a useless one leaves only log lines. *)
Definition packet_done (addrs : list (list Z)) (data : list Z) (w w' : World) (evs : list event) : Prop :=
  match packet_kind data with
  | KDistribute =>
      ∃ m cs r w1, w_tcp w = m :: cs ∧
        initDataRecord (set_tcp (set_flag DISTRIBUTE m :: cs) w) = Ret r w1 ∧
        packet_effect data r cs addrs w w' evs
  | KUseless => evs = [] ∧ log_frame w w'
  | KPlayback => False
  end.

(** A packet to forward, in a served state. *)
Lemma handle_distribute pf data w dp addrs :
  serving dp addrs w → bytes_ok data → packet_kind data = KDistribute →
  ∃ w' evs, handle_packet heap tail pf data w = Ret tt w' ∧ serving dp addrs w' ∧
    served (eq data) w w' evs ∧ packet_done addrs data w w' evs.
Proof.
  intros [Hr Hd Hu (m & cs & Ht & Hn & Hla & Hok)] Hb Hk. unfold handle_packet. rewrite Hk.
  rewrite (bind_Ret _ _ _ _ _ (tcp_at_spec w 0 m ltac:(lia) ltac:(by rewrite Ht))).
  set (m1 := set_flag DISTRIBUTE m). set (w1 := set_tcp (m1 :: cs) w).
  assert (tcp_set 0 m1 w = Ret tt w1) as E1.
  { unfold tcp_set, modify. change (Z.to_nat 0) with 0%nat. by rewrite Ht. }
  rewrite (bind_Ret _ _ _ _ _ E1).
  assert (log_ready w1) as Hr1 by (eapply log_ready_stable; [exact Hr|]; by constructor).
  destruct (distribute_run_spec heap tail threads_ok pf data w1 m1 cs addrs dp)
    as (r & w' & evs & E & Hr' & Hu' & Htab & H0' & Hcwd & Hns & [w2 Hi] & Ha & Hwhat); try done.
  { apply Forall_forall. intros t _. by apply distribute_no_playback. }
  rewrite E.
  assert (other_files_kept w w' ∧ Forall (eq data) (sent_data evs)) as [Ho Hsent].
  { destruct r as [p|].
    - destruct Hwhat as (Hp & _ & Hf & (evss & -> & Hall) & _). split; [|by eapply all_forwarded_sent].
      intros q Hq Hq'. apply Hf; [done|]. by intros ->.
    - destruct Hwhat as [-> Hf]. split; [|constructor]. intros q Hq _. by apply Hf. }
  exists w', evs. split; [done|]. split; [|split].
  - constructor; [done| |done|].
    + eapply conf_kept; [exact Hd|done|]. apply Ho; [apply conf_not_log|apply conf_not_data].
    + apply Forall2_cons_inv_l in Htab as (m' & cs' & Hm & Hcs & ->).
      exists m', cs'. split; [done|]. split; [|split].
      * destruct Hm as (_ & _ & _ & -> & _). by rewrite <-(Forall2_length _ _ _ Hcs).
      * by destruct Hm as (_ & -> & _).
      * eapply clients_kept; [exact Hcwd|]. by eapply same_peers_ok.
  - constructor; try done. by rewrite H0', Ht.
  - unfold packet_done. rewrite Hk. exists m, cs, r, w2. split; [done|]. by split.
Qed.

(** Any packet that is no playback command. *)
Lemma handle_spec pf data w dp addrs :
  serving dp addrs w → bytes_ok data → packet_kind data ≠ KPlayback →
  ∃ w' evs, handle_packet heap tail pf data w = Ret tt w' ∧ serving dp addrs w' ∧
    served (λ d, d = data ∧ packet_kind data = KDistribute) w w' evs ∧ packet_done addrs data w w' evs.
Proof.
  intros Hs Hb Hk. destruct (packet_kind data) eqn:E; [| |].
  all: try (destruct (handle_distribute pf data w dp addrs Hs Hb E) as (w' & evs & Eh & Hs' & Hse & Hd);
    exists w', evs; split; [done|]; split; [done|]; split; [|done];
    eapply served_weaken; [|exact Hse]; by intros d <-).
  - done.
  - unfold handle_packet. rewrite E. pose proof (sv_ready _ _ _ Hs) as Hr. log_skip Hr w1 Hf1 Hr1.
    destruct (serving_log _ _ _ _ Hs Hf1 Hr1) as [Hs1 Hse]. exists w1, [].
    split; [done|]. split; [done|]. split; [done|]. unfold packet_done. by rewrite E.
Qed.

(** ** One connection *)

(** A packet to forward that arrived on the connection. *)
Definition from_wire (d : list Z) : Prop := ∃ n, arrived n = d ∧ packet_kind d = KDistribute.

Lemma recv_spec fd w :
  recv fd MAX_BUFFER_SIZE w =
  match env_recv (w_nsys w) with
  | inl e => Ret (-1, []) (set_errno e (set_nsys (S (w_nsys w)) w))
  | inr _ => Ret (Z.of_nat (length (arrived (w_nsys w))), arrived (w_nsys w)) (set_nsys (S (w_nsys w)) w)
  end.
Proof.
  unfold recv, tick, arrived. unfold mbind at 1, M_bind at 1. by destruct (env_recv (w_nsys w)).
Qed.

(** A conversation: each packet [recv] delivers is dealt with before the next
    call, until a call delivers nothing. *)
Inductive conversation (addrs : list (list Z)) : World → list (list Z) → list event → World → Prop :=
| cv_end w w' : arrived (w_nsys w) = [] → log_frame w w' → conversation addrs w [] [] w'
| cv_packet w w1 w2 w' packets evs evs' :
    arrived (w_nsys w) ≠ [] → log_frame w w1 → packet_done addrs (arrived (w_nsys w)) w1 w2 evs →
    conversation addrs w2 packets evs' w' →
    conversation addrs w (arrived (w_nsys w) :: packets) (evs ++ evs') w'.

Lemma conversation_log addrs w packets evs w1 w2 :
  conversation addrs w packets evs w1 → log_frame w1 w2 → conversation addrs w packets evs w2.
Proof. intros Hc Hf. induction Hc; econstructor; try done; [by etrans|by apply IHHc]. Qed.

(** From call [limit] on the peer has closed the connection. *)
Context (pf limit : nat) (closed : ∀ n, (limit ≤ n)%nat → env_recv n = inr []).
Context (clean : ∀ n, bytes_ok (arrived n) ∧ packet_kind (arrived n) ≠ KPlayback).

Lemma receive_loop_spec dp addrs fuel : ∀ w,
  serving dp addrs w → (limit - w_nsys w < fuel)%nat →
  ∃ w' packets evs, receive_loop heap tail fuel pf w = Ret tt w' ∧ serving dp addrs w' ∧
    served from_wire w w' evs ∧ conversation addrs w packets evs w'.
Proof.
  induction fuel as [|fuel IH]; intros w Hs Hf; [lia|]. cbn [receive_loop].
  destruct (sv_table _ _ _ Hs) as (m & cs & Ht & _).
  rewrite (bind_Ret _ _ _ _ _ (tcp_at_spec w 0 m ltac:(lia) ltac:(by rewrite Ht))).
  unfold mbind at 1, M_bind at 1. rewrite recv_spec.
  destruct (env_recv (w_nsys w)) as [e|d] eqn:Er.
  - change (EXIT_FAIL_CODE =? -1) with true. cbv iota. unfold strerror_errno. autorewrite with io.
    destruct (serving_sys dp addrs w e (S (w_nsys w)) Hs) as [Hs1 Hse1]; [lia|].
    pose proof (sv_ready _ _ _ Hs1) as Hr1. log_skip Hr1 w2 Hf2 Hr2.
    destruct (serving_log _ _ _ _ Hs1 Hf2 Hr2) as [Hs2 Hse2].
    exists w2, [], ([] ++ []). split; [done|]. split; [done|]. split; [by eapply served_trans|].
    constructor; [unfold arrived; by rewrite Er|]. etrans; [|exact Hf2]. apply log_frame_sys. lia.
  - set (w1 := set_nsys (S (w_nsys w)) w).
    destruct (serving_sys dp addrs w (w_errno w) (S (w_nsys w)) Hs) as [Hs1 Hse1]; [lia|].
    change (set_errno (w_errno w) (set_nsys (S (w_nsys w)) w)) with w1 in *.
    set (data := arrived (w_nsys w)). destruct (clean (w_nsys w)) as [Hb Hk]. fold data in Hb, Hk.
    destruct (Z.eqb_spec EXIT_FAIL_CODE (Z.of_nat (length data))) as [E|_]; [unfold EXIT_FAIL_CODE in E; lia|].
    destruct (Z.ltb_spec 0 (Z.of_nat (length data))) as [Hpos|Hzero].
    2: { exists w1, [], []. split; [done|]. split; [done|]. split; [done|].
         constructor; [|by apply (log_frame_sys (w_errno w)); lia].
         apply nil_length_inv. fold data. lia. }
    pose proof (sv_ready _ _ _ Hs1) as Hr1. log_skip Hr1 w2 Hf2 Hr2.
    destruct (serving_log _ _ _ _ Hs1 Hf2 Hr2) as [Hs2 Hse2].
    destruct (handle_spec pf data w2 dp addrs Hs2 Hb Hk) as (w3 & evs3 & E3 & Hs3 & Hse3 & Hdone).
    rewrite (bind_Ret _ _ _ _ _ E3).
    assert (w_nsys w < limit)%nat as Hlt.
    { destruct (decide (limit ≤ w_nsys w)%nat) as [Hle|]; [|lia]. exfalso.
      unfold data, arrived in Hpos. rewrite (closed _ Hle) in Hpos. by vm_compute in Hpos. }
    pose proof (lf_nsys _ _ Hf2). pose proof (se_nsys _ _ _ _ Hse3).
    change (w_nsys w1) with (S (w_nsys w)) in *.
    destruct (IH w3 Hs3) as (w4 & packets & evs4 & E4 & Hs4 & Hse4 & Hcv); [lia|].
    exists w4, (data :: packets), ([] ++ ([] ++ (evs3 ++ evs4))). split; [done|]. split; [done|]. split.
    2: { apply (cv_packet addrs w w2 w3 w4 packets evs3 evs4); [| |exact Hdone|exact Hcv].
         - fold data. intros Hnil. by rewrite Hnil in Hpos.
         - etrans; [|exact Hf2]. apply (log_frame_sys (w_errno w)). lia. }
    eapply served_trans; [apply Hse1|]. eapply served_trans; [apply Hse2|].
    eapply served_trans; [|exact Hse4]. eapply served_weaken; [|exact Hse3].
    intros x [-> Hx]. by exists (w_nsys w).
Qed.

Lemma receive_spec dp addrs fuel w m :
  serving dp addrs w → w_tcp w !! 0%nat = Some m → (limit - w_nsys w < fuel)%nat →
  ∃ w1 w' packets evs, distribute_receive heap tail fuel pf w = Ret tt w' ∧ serving dp addrs w' ∧
    served from_wire w w' (evs ++ [EvClose (acceptfd m)]) ∧
    conversation addrs w packets evs w1 ∧ w' = set_events (w_events w1 ++ [EvClose (acceptfd m)]) w1.
Proof.
  intros Hs Hm Hf. unfold distribute_receive.
  destruct (receive_loop_spec dp addrs fuel w Hs Hf) as (w1 & packets & evs & E1 & Hs1 & Hse1 & Hcv).
  rewrite (bind_Ret _ _ _ _ _ E1). pose proof (sv_ready _ _ _ Hs1) as Hr1. log_skip Hr1 w2 Hf2 Hr2.
  destruct (serving_log _ _ _ _ Hs1 Hf2 Hr2) as [Hs2 Hse2].
  assert (acceptfd <$> w_tcp w2 !! 0%nat = Some (acceptfd m)) as Hfd.
  { by rewrite (lf_tcp _ _ Hf2), (se_fd _ _ _ _ Hse1), Hm. }
  destruct (w_tcp w2 !! 0%nat) as [m2|] eqn:Hm2; [|done]. injection Hfd as Hfd.
  rewrite (bind_Ret _ _ _ _ _ (tcp_at_spec w2 0 m2 ltac:(lia) Hm2)). rewrite Hfd.
  set (w3 := set_events (w_events w2 ++ [EvClose (acceptfd m)]) w2).
  exists w2, w3, packets, evs. split; [done|].
  assert (acts w3 = acts w2 ++ [EvClose (acceptfd m)]) as Ha by (by apply acts_emit).
  split; [|split; [|split; [by eapply conversation_log|done]]].
  - destruct Hs2 as [? ? ? (m' & cs' & ? & ? & ? & Hok)]. constructor; [|done|done|by exists m', cs'].
    eapply log_ready_stable; [exact Hr2|]. by constructor.
  - eapply (served_trans _ w w2 w3).
    + rewrite <-(app_nil_r evs). eapply served_trans; [exact Hse1|apply Hse2].
    + by constructor.
Qed.

(** ** Accepting connections *)

(** A connection the operating system hands over. *)
Definition conn_ok (c : conn) : Prop := c_fd c ≠ -1 ∧ addr_ok (c_addr c).

Context (conns_ok : ∀ n, conn_ok (env_accept n)) (forks_ok : ∀ n, env_fork n ≠ -1).

Lemma serving_tcp dp addrs w m cs m' :
  serving dp addrs w → w_tcp w = m :: cs → clientNum m' = clientNum m →
  length (acceptedAddress m') = INFO_LENGTH → serving dp addrs (set_tcp (m' :: cs) w).
Proof.
  intros [Hr Hd Hu (m0 & cs0 & Ht & Hn & Hla & Hok)] Ht' Hc Hl. rewrite Ht in Ht'. injection Ht' as -> ->.
  constructor; [|done|done|].
  - eapply log_ready_stable; [exact Hr|]. by constructor.
  - exists m', cs. split; [done|]. split; [congruence|]. done.
Qed.

Lemma accept_spec rf dp addrs sock fuel : ∀ w,
  (limit < rf)%nat → serving dp addrs w → accept_loop heap tail fuel rf pf sock w = OutOfFuel.
Proof.
  induction fuel as [|fuel IH]; intros w Hrf Hs; [done|]. cbn [accept_loop].
  set (w1 := set_nsys (S (w_nsys w)) w). set (c := env_accept (w_nsys w)).
  destruct (serving_sys dp addrs w (w_errno w) (S (w_nsys w)) Hs) as [Hs1 _]; [lia|].
  change (set_errno (w_errno w) (set_nsys (S (w_nsys w)) w)) with w1 in *.
  assert (accept sock w = Ret c w1) as E1 by done. rewrite (bind_Ret _ _ _ _ _ E1).
  destruct (conns_ok (w_nsys w)) as [Hfd Haddr]. fold c in Hfd, Haddr.
  destruct (Z.eqb_spec EXIT_FAIL_CODE (c_fd c)) as [E|_]; [by destruct Hfd|].
  destruct (sv_table _ _ _ Hs1) as (m & cs & Ht & _ & Hla & _).
  rewrite (bind_Ret _ _ _ _ _ (tcp_at_spec w1 0 m ltac:(lia) ltac:(by rewrite Ht))).
  destruct (inet_ntoa_text _ Haddr) as [Hl Hz].
  destruct (strcpy_holds (acceptedAddress m) (inet_ntoa (c_addr c) ++ [0]) (inet_ntoa (c_addr c))) as [-> _];
    [by apply cstr_app_ne|rewrite Hla; unfold INFO_LENGTH; lia|]. rewrite bind_lift_Ok.
  set (m2 := set_acceptfd _ _). set (w2 := set_tcp (m2 :: cs) w1).
  assert (tcp_set 0 m2 w1 = Ret tt w2) as E2.
  { unfold tcp_set, modify. change (Z.to_nat 0) with 0%nat. by rewrite Ht. }
  rewrite (bind_Ret _ _ _ _ _ E2).
  assert (serving dp addrs w2) as Hs2.
  { eapply serving_tcp; [exact Hs1|exact Ht|done|]. cbn [acceptedAddress m2 set_acceptfd set_accepted].
    rewrite length_app. cbn [length]. rewrite length_drop, Hla. unfold INFO_LENGTH. lia. }
  pose proof (sv_ready _ _ _ Hs2) as Hr2. log_skip Hr2 w3 Hf3 Hr3.
  log_skip Hr3 w4 Hf4 Hr4. log_skip Hr4 w5 Hf5 Hr5.
  assert (serving dp addrs w5) as Hs5.
  { eapply serving_log; [exact Hs2| |done]. etrans; [exact Hf3|]. by etrans. }
  set (w6 := set_nsys (S (w_nsys w5)) w5). set (pid := env_fork (w_nsys w5)).
  destruct (serving_sys dp addrs w5 (w_errno w5) (S (w_nsys w5)) Hs5) as [Hs6 _]; [lia|].
  change (set_errno (w_errno w5) (set_nsys (S (w_nsys w5)) w5)) with w6 in *.
  assert (fork w5 = Ret pid w6) as E6 by done. rewrite (bind_Ret _ _ _ _ _ E6).
  destruct (Z.eqb_spec pid EXIT_FAIL_CODE) as [E|_]; [by destruct (forks_ok (w_nsys w5))|].
  destruct (Z.eqb_spec pid 0) as [_|_]; [|by apply IH].
  pose proof (sv_ready _ _ _ Hs6) as Hr6. rewrite bind_assoc. log_skip Hr6 w7 Hf7 Hr7.
  destruct (serving_log _ _ _ _ Hs6 Hf7 Hr7) as [Hs7 _].
  destruct (sv_table _ _ _ Hs7) as (m7 & cs7 & Ht7 & _).
  destruct (receive_spec dp addrs rf w7 m7 Hs7) as (_ & w8 & _ & evs & E8 & Hs8 & _); [by rewrite Ht7|lia|].
  rewrite (bind_Ret _ _ _ _ _ E8). by apply IH.
Qed.

End Serving.

(** ** Starting the server *)

(** The actions of starting the server on its own entry [m], and the listening
    descriptor they yield; every failure after [socket] closes it. *)
Inductive startup `{Env} (m : DISTRIBUTE_TCP_INFO) : option Z → list event → Prop :=
| su_socket : startup m None [EvSocket (-1)]
| su_option fd n : fd ≠ -1 → env_setsockopt n = -1 → startup m None [EvSocket fd; EvClose fd]
| su_bind fd : fd ≠ -1 →
    startup m None [EvSocket fd; EvBind fd (peer_word m) (peer_port m) (-1); EvClose fd]
| su_listen fd r : fd ≠ -1 → r ≠ -1 →
    startup m None [EvSocket fd; EvBind fd (peer_word m) (peer_port m) r;
                    EvListen fd MAX_QUEUED_REQUESTS (-1); EvClose fd]
| su_ok fd r r' : fd ≠ -1 → r ≠ -1 → r' ≠ -1 →
    startup m (Some fd) [EvSocket fd; EvBind fd (peer_word m) (peer_port m) r;
                         EvListen fd MAX_QUEUED_REQUESTS r'].

Section Startup.
Context `{Env, !Logger} (heap : heap_policy) (tail : list Z).

(** A system call that is recorded. *)
Lemma steady_call w0 w e evs :
  steady w0 w → acts w = acts w0 ++ evs → is_act e = true →
  let w1 := set_events (w_events w ++ [e]) (set_nsys (S (w_nsys w)) w) in
  steady w0 w1 ∧ acts w1 = acts w0 ++ (evs ++ [e]).
Proof.
  intros Hs Ha He w1. split.
  - eapply steady_trans; [exact Hs|]. apply steady_sys; try done; [apply Hs|cbn; lia].
  - rewrite app_assoc, <-Ha. exact (acts_emit e (set_nsys (S (w_nsys w)) w) He).
Qed.

Lemma steady_stmt w0 w w' evs :
  steady w0 w → acts w = acts w0 ++ evs → log_frame w w' → log_ready w' →
  steady w0 w' ∧ acts w' = acts w0 ++ evs.
Proof.
  intros Hs Ha Hf Hr. split; [eapply steady_trans; [exact Hs|by apply steady_log]|].
  by rewrite (acts_frame _ _ Hf).
Qed.

(** A failed start: the socket, if any, is closed, and the process exits. *)
Lemma server_fail_spec {A} w0 w evs line msg fd :
  steady w0 w → acts w = acts w0 ++ evs →
  ∃ w', server_fail (A := A) line msg fd w = Exit EXIT_FAIL_CODE w' ∧ steady w0 w' ∧
    acts w' = acts w0 ++ (evs ++ match fd with Some f => [EvClose f] | None => [] end).
Proof.
  intros Hs Ha. unfold server_fail, strerror_errno. autorewrite with io.
  pose proof (st_ready _ _ Hs) as Hr. log_skip Hr w1 Hf1 Hr1.
  destruct (steady_stmt _ _ _ _ Hs Ha Hf1 Hr1) as [Hs1 Ha1].
  destruct fd as [fd|].
  - destruct (steady_close w0 w1 fd Hs1) as [Hs2 Ha2]. eexists. split; [reflexivity|].
    split; [exact Hs2|]. by rewrite Ha2, Ha1, <-app_assoc.
  - exists w1. rewrite app_nil_r. by split_and!.
Qed.

Lemma startup_spec fuel rf pf w m a :
  log_ready w → w_tcp w !! 0%nat = Some m → cstr (Machine.address m) = Ok a →
  ∃ o evs w', startup m o evs ∧ steady w w' ∧ acts w' = acts w ++ evs ∧
    distribute_server heap tail fuel rf pf w =
      match o with
      | Some fd => accept_loop heap tail fuel rf pf fd w'
      | None => Exit EXIT_FAIL_CODE w'
      end.
Proof.
  intros Hr Hm Ha. unfold distribute_server. set (fd := env_socket (w_nsys w)).
  destruct (steady_call w w (EvSocket fd) []) as [Hs1 Ha1]; [by apply steady_refl|by rewrite app_nil_r|done|].
  set (w1 := set_events _ _) in Hs1, Ha1.
  assert (socket w = Ret fd w1) as E1 by done. rewrite (bind_Ret _ _ _ _ _ E1).
  destruct (Z.eqb_spec EXIT_FAIL_CODE fd) as [Efd|Nfd].
  { destruct (server_fail_spec (A := unit) w w1 _ 17 (lit "distribute socket failed") None Hs1 Ha1)
      as (w' & E & Hs' & Ha'). exists None, [EvSocket (-1)], w'. split; [constructor|].
    unfold EXIT_FAIL_CODE in Efd. rewrite <-Efd in Ha'. by split_and!. }
  assert (fd ≠ -1) as Nfd' by (unfold EXIT_FAIL_CODE in Nfd; congruence).
  set (w2 := set_nsys (S (w_nsys w1)) w1).
  assert (setsockopt fd w1 = Ret (env_setsockopt (w_nsys w1)) w2) as E2 by done. rewrite (bind_Ret _ _ _ _ _ E2).
  assert (steady w w2) as Hs2.
  { eapply steady_trans; [exact Hs1|]. apply steady_sys; try done; [apply Hs1|cbn; lia]. }
  destruct (Z.eqb_spec (env_setsockopt (w_nsys w1)) EXIT_FAIL_CODE) as [Eo|No].
  { destruct (server_fail_spec (A := unit) w w2 _ 25 (lit "distribute setsockopt failed") (Some fd) Hs2 Ha1)
      as (w' & E & Hs' & Ha'). eexists None, _, w'. split; [|by split_and!]. by eapply su_option. }
  pose proof (st_ready _ _ Hs2) as Hr2. log_skip Hr2 w3 Hf3 Hr3.
  destruct (steady_stmt _ _ _ _ Hs2 Ha1 Hf3 Hr3) as [Hs3 Ha3].
  assert (w_tcp w3 !! 0%nat = Some m) as Hm3 by (by rewrite (st_master _ _ Hs3)).
  rewrite (bind_Ret _ _ _ _ _ (tcp_at_spec w3 0 m ltac:(lia) Hm3)).
  destruct (inet_addr_total _ _ Ha) as [ip Eip]. rewrite Eip, bind_lift_Ok. fold (peer_port m).
  assert (peer_word m = ip) as Epw by (unfold peer_word; by rewrite Eip). rewrite <-Epw.
  set (r := env_bind (w_nsys w3)).
  destruct (steady_call w w3 (EvBind fd (peer_word m) (peer_port m) r) _ Hs3 Ha3 eq_refl) as [Hs4 Ha4].
  set (w4 := set_events _ _) in Hs4, Ha4.
  assert (bind_ fd (peer_word m) (peer_port m) w3 = Ret r w4) as E4 by done. rewrite (bind_Ret _ _ _ _ _ E4).
  destruct (Z.eqb_spec EXIT_FAIL_CODE r) as [Er|Nr].
  { destruct (server_fail_spec (A := unit) w w4 _ 40 (lit "distribute bind failed") (Some fd) Hs4 Ha4)
      as (w' & E & Hs' & Ha'). eexists None, _, w'. split; [|by split_and!].
    rewrite <-Er. by constructor. }
  assert (r ≠ -1) as Nr' by (unfold EXIT_FAIL_CODE in Nr; congruence).
  pose proof (st_ready _ _ Hs4) as Hr4. log_skip Hr4 w5 Hf5 Hr5.
  destruct (steady_stmt _ _ _ _ Hs4 Ha4 Hf5 Hr5) as [Hs5 Ha5]. set (r' := env_listen (w_nsys w5)).
  destruct (steady_call w w5 (EvListen fd MAX_QUEUED_REQUESTS r') _ Hs5 Ha5 eq_refl) as [Hs6 Ha6].
  set (w6 := set_events _ _) in Hs6, Ha6.
  assert (listen fd MAX_QUEUED_REQUESTS w5 = Ret r' w6) as E6 by done. rewrite (bind_Ret _ _ _ _ _ E6).
  destruct (Z.eqb_spec EXIT_FAIL_CODE r') as [Er'|Nr2].
  { destruct (server_fail_spec (A := unit) w w6 _ 49 (lit "distribute listen failed") (Some fd) Hs6 Ha6)
      as (w' & E & Hs' & Ha'). eexists None, _, w'. split; [|by split_and!].
    rewrite <-Er'. by constructor. }
  pose proof (st_ready _ _ Hs6) as Hr6. log_skip Hr6 w7 Hf7 Hr7.
  destruct (steady_stmt _ _ _ _ Hs6 Ha6 Hf7 Hr7) as [Hs7 Ha7].
  eexists (Some fd), _, w7. split; [|by split_and!]. constructor; [done..|].
  unfold EXIT_FAIL_CODE in Nr2. congruence.
Qed.

End Startup.

(** ** Theorems *)

Section Theorems.
Context `{Env, !Calendar, !Logger} (heap : heap_policy) (tail : list Z).

(** C2: a connection on which no playback command arrives is served until the
    peer closes it or [recv] fails: with one more round than calls left before
    the close, [distribute_receive] returns; the packets that arrived were dealt
    with one after the other, each recorded and forwarded or discarded before
    the next was read, up to the call that delivered nothing; the
    actions are those of the packets with the close of the connection last;
    everything sent arrived on the connection; and the server is again in the
    state to serve the next one.  Every [pthread_create] is taken to succeed, and
    writes to opened files to be complete. *)
Theorem session_served fuel pf limit w m dp addrs :
  (∀ n, env_pthread_create n = 0) → (∀ n, (limit ≤ n)%nat → env_recv n = inr []) →
  (∀ n, bytes_ok (arrived n) ∧ packet_kind (arrived n) ≠ KPlayback) →
  serving dp addrs w → w_tcp w !! 0%nat = Some m → (limit - w_nsys w < fuel)%nat →
  ∃ w1 w' packets evs, distribute_receive heap tail fuel pf w = Ret tt w' ∧
    conversation addrs w packets evs w1 ∧ w' = set_events (w_events w1 ++ [EvClose (acceptfd m)]) w1 ∧
    acts w' = acts w ++ evs ++ [EvClose (acceptfd m)] ∧ Forall from_wire (sent_data evs) ∧
    other_files_kept w w' ∧ serving dp addrs w'.
Proof.
  intros Ht Hc Hcl Hs Hm Hf.
  destruct (receive_spec heap tail Ht pf limit Hc Hcl dp addrs fuel w m Hs Hm Hf)
    as (w1 & w' & packets & evs & E & Hs' & [] & Hcv & Hw').
  exists w1, w', packets, evs. split; [done|]. split; [done|]. split; [done|]. split; [done|]. split; [|done].
  unfold sent_data in *. rewrite omap_app in se_sent0. by apply Forall_app in se_sent0 as [? _].
Qed.

(** A message that carries none of the headers is discarded: nothing but a
    log line comes of it. *)
Theorem useless_discarded pf data w :
  log_ready w → packet_kind data = KUseless →
  ∃ w', handle_packet heap tail pf data w = Ret tt w' ∧ log_frame w w' ∧ log_ready w'.
Proof.
  intros Hr Hk. unfold handle_packet. rewrite Hk. log_skip Hr w1 Hf1 Hr1. by exists w1.
Qed.

(** [distribute_server] binds and listens at the address and port of the
    configuration before it accepts; a call that fails ends the process with
    status -1 after closing the socket, and nothing else was done. *)
Theorem server_startup fuel rf pf w m a :
  log_ready w → w_tcp w !! 0%nat = Some m → cstr (Machine.address m) = Ok a →
  ∃ o evs w', startup m o evs ∧ steady w w' ∧ acts w' = acts w ++ evs ∧
    distribute_server heap tail fuel rf pf w =
      match o with
      | Some fd => accept_loop heap tail fuel rf pf fd w'
      | None => Exit EXIT_FAIL_CODE w'
      end.
Proof. apply startup_spec. Qed.

(** While [accept] and [fork] succeed the accept loop never ends, in the
    parent and in the children alike: a child that has served its connection
    does not exit but goes on accepting on the listening socket. *)
Theorem accept_never_stops fuel rf pf limit sock w dp addrs :
  (∀ n, env_pthread_create n = 0) → (∀ n, (limit ≤ n)%nat → env_recv n = inr []) →
  (∀ n, bytes_ok (arrived n) ∧ packet_kind (arrived n) ≠ KPlayback) →
  (∀ n, conn_ok (env_accept n)) → (∀ n, env_fork n ≠ -1) → (limit < rf)%nat →
  serving dp addrs w → accept_loop heap tail fuel rf pf sock w = OutOfFuel.
Proof. intros Ht Hc Hcl Hco Hfk Hl Hs. by eapply accept_spec. Qed.

End Theorems.

(** ** Witnesses *)

(** One packet arrives, then the peer closes; [fork] says we are the child. *)
Definition wire_env : Env := {|
  env_clock n := 1667750400 + Z.of_nat n;
  env_localtime _ := mkTm 0 30 10 6 10 122;
  env_home := Some (lit "/root");
  env_strerror _ := lit "error";
  env_io_fail _ := None;
  env_dirorder _ l := l;
  env_socket n := 5 + Z.of_nat n;
  env_setsockopt _ := 0;
  env_bind _ := 0;
  env_listen _ := 0;
  env_accept n := mkConn (100 + Z.of_nat n) (192, 168, 30, 153) 40000;
  env_connect _ := 0;
  env_send _ d := (Z.of_nat (length d), 0);
  env_recv n := inr (if decide (n = 0)%nat then sea_packet else []);
  env_fork _ := 0;
  env_pthread_create _ := 0;
  env_memory _ := Memory 262144 4096 (λ _, true);
|}.

Section Witness.
#[local] Existing Instance wire_env.
#[local] Instance wire_calendar : Calendar.
Proof. intros n. unfold tm_ok. cbn. lia. Qed.
#[local] Instance quiet_log : Logger := silent_logger.

Lemma wire_closed n : (1 ≤ n)%nat → env_recv n = inr [].
Proof. intros Hn. cbn. by rewrite decide_False by lia. Qed.
Lemma wire_clean n : bytes_ok (arrived n) ∧ packet_kind (arrived n) ≠ KPlayback.
Proof.
  unfold arrived. cbn [env_recv wire_env]. destruct (decide (n = 0%nat)).
  - split; [vm_compute; repeat constructor; discriminate|vm_compute; discriminate].
  - split; [constructor|vm_compute; discriminate].
Qed.

Lemma play_serving : serving (lit "./data") [play_addr] play_world.
Proof.
  constructor; [exact I|apply play_data_conf|vm_compute; intuition discriminate|].
  exists play_master, [play_tcp]. split; [reflexivity|]. split; [reflexivity|]. split; [reflexivity|].
  constructor; [apply play_client_ok|constructor].
Qed.

Lemma session_served_witness :
  ∃ w1 w' packets evs, distribute_receive strict_heap [0] 3 0 play_world = Ret tt w' ∧
    conversation [play_addr] play_world packets evs w1 ∧
    acts w' = evs ++ [EvClose 4] ∧ Forall from_wire (sent_data evs).
Proof.
  destruct (session_served strict_heap [0] 3 0 1 play_world play_master (lit "./data") [play_addr])
    as (w1 & w' & packets & evs & E & Hcv & _ & Ha & Hs & _).
  - reflexivity.
  - apply wire_closed.
  - apply wire_clean.
  - apply play_serving.
  - reflexivity.
  - vm_compute. lia.
  - exists w1, w', packets, evs. split; [exact E|]. split; [exact Hcv|]. split; [exact Ha|exact Hs].
Defined.

Lemma useless_discarded_witness :
  ∃ w', handle_packet strict_heap [0] 0 (lit "hello") play_world = Ret tt w' ∧ log_frame play_world w'.
Proof.
  destruct (useless_discarded strict_heap [0] 0 (lit "hello") play_world) as (w' & E & Hf & _).
  - exact I.
  - vm_compute. reflexivity.
  - exists w'. split; [exact E|exact Hf].
Defined.

Lemma server_startup_witness :
  ∃ o evs w', startup play_master o evs ∧ steady play_world w' ∧ acts w' = evs.
Proof.
  destruct (server_startup strict_heap [0] 1 3 0 play_world play_master (lit "192.168.30.3"))
    as (o & evs & w' & Hst & Hs & Ha & _).
  - exact I.
  - reflexivity.
  - vm_compute. reflexivity.
  - exists o, evs, w'. split; [exact Hst|]. split; [exact Hs|exact Ha].
Defined.

Lemma accept_never_stops_witness :
  accept_loop strict_heap [0] 2 3 0 6 play_world = OutOfFuel.
Proof.
  apply (accept_never_stops strict_heap [0] 2 3 0 1 6 play_world (lit "./data") [play_addr]).
  - reflexivity.
  - apply wire_closed.
  - apply wire_clean.
  - intros n. split; [cbn; lia|vm_compute; intuition discriminate].
  - intros n. cbn. discriminate.
  - lia.
  - apply play_serving.
Defined.

End Witness.
