(* ===== verification/ClientThreads.v ===== *)
(** * util.c: the client threads of [distribute_run], interleaved

    [distribute_run] starts one thread per client and hands all of them a
    pointer to the same [THREAD_PARAM]; the mutex [mute] is locked by the main
    thread before it writes [clientIndex] and unlocked by the client thread at
    its end.  Here main thread and client threads take their steps in any
    order, every step of a client thread reads [clientIndex] from the shared
    structure, and [mute] is a flag anyone may clear.

    Distribute's [run_clients] runs the threads one after the other; the
    refinement theorem says every interleaving computes exactly that. *)

From S2P Require Import Prelude CString Machine ConfigFile Log DataHeader RecordData Inet MSort ScanDir Playback Distribute.

(** ** The code of a client thread, cut into steps *)

(** A step gets the thread's local [socketfd] and the value it reads from
    [thread_param->clientIndex]. *)
Abbreviation segment := (Z → Z → IO Z).

Section Segments.
Context `{Env, !Logger} (heap : heap_policy) (stack_tail : list Z) (fuel : nat) (buf : list Z).

(** Code of the branch [socketfd != EXIT_FAIL_CODE]. *)
Definition connected (m : Z → Z → IO unit) : segment := λ fd index,
  (if fd =? EXIT_FAIL_CODE then mret tt else m fd index) ;; mret fd.

Definition client_segments : list segment := [
  (λ fd index, log_ DEBUG (lit "%d %s:%d") [AInt 253; AStr (lit "thread locked by client"); AInt index] ;; mret fd);
  (λ fd _, log_ DEBUG (lit "%d %s") [AInt 258; AStr (lit "distribute client socket creating")] ;; mret fd);
  (λ _ index, distribute_client_socket index);
  (λ fd index,
     t ← tcp_at index; s ← lift (cstr (Machine.address t));
     (if fd =? EXIT_FAIL_CODE then
        log_ ERROR (lit "%d %s :%s:%d")
          [AInt 261; AStr (lit "distribute-client socket failed, only record"); AStr s; AInt (port t)]
      else
        log_ DEBUG (lit "%d %s :%s:%d %d")
          [AInt 266; AStr (lit "distribute-client socket created"); AStr s; AInt (port t); AInt fd]) ;;
     mret fd);
  connected (λ fd _, log_ DEBUG (lit "%d %s :%d")
    [AInt 270; AStr (lit "distribute-client thread created and acceptfd"); AInt fd]);
  connected (λ fd index,
    play ← wants_playback index buf;
    if (play : bool) then
      log_ INFO (lit "%d %s")
        [AInt 279; AStr (lit "distribute-client accepted, and get playback signal, start execute playback")] ;;
      playback_run heap stack_tail fuel buf index
    else mret tt);
  connected (λ fd index, forward fd index buf);
  connected (λ fd _, close fd);
  (λ fd index, log_ DEBUG (lit "%d %s:%d") [AInt 308; AStr (lit "thread unlocked by client"); AInt index] ;; mret fd)].

(** The steps run without interference. *)
Fixpoint run_segments (segs : list segment) (fd index : Z) : IO Z :=
  match segs with
  | [] => mret fd
  | s :: segs' => fd' ← s fd index; run_segments segs' fd' index
  end.

End Segments.

(** ** The threads *)

(** A client thread: before step [k], after the unlock, after its return. *)
Inductive tstate := TRun (k : nat) (socketfd : Z) | TUnlocked | TExited | TNone.

(** The main thread in the two loops of [distribute_run]: at the loop test and
    [pthread_mutex_lock], at the assignment of [clientIndex], at
    [pthread_create], at [pthread_join], past the loops. *)
Inductive mstate := MLock (i : nat) | MWrite (i : nat) | MCreate (i : nat) | MJoin (i : nat) | MEnd.

#[global] Instance tstate_eq_dec : EqDecision tstate.
Proof. solve_decision. Defined.
#[global] Instance mstate_eq_dec : EqDecision mstate.
Proof. solve_decision. Defined.

Record config := mkConfig {
  c_main : mstate;
  c_held : bool;              (* mute is locked *)
  c_index : Z;                (* thread_param.clientIndex *)
  c_threads : list tstate;    (* the threads created so far, by tids[] *)
  c_world : World;
}.

(** The failure of code that does not return. *)
Definition failed {S A} (B : Type) (o : outcome S A) : option (outcome S B) :=
  match o with
  | Ret _ _ => None
  | Crash f => Some (Crash f)
  | Exit c s => Some (Exit c s)
  | Blocked => Some Blocked
  | OutOfFuel => Some OutOfFuel
  end.

Lemma bind_failed {S A B} (m : M S A) (f : A → M S B) s o : failed B (m s) = Some o → (m ≫= f) s = o.
Proof. unfold mbind, M_bind. by destruct (m s); intros [= <-]. Qed.
Lemma failed_bind {S A B C} (m : M S A) (f : A → M S B) s o :
  failed C (m s) = Some o → failed C ((m ≫= f) s) = Some o.
Proof. unfold mbind, M_bind. by destruct (m s). Qed.
Lemma failed_cast {S A} B C (o : outcome S A) o' :
  failed C o = Some o' → ∃ o'', failed B o = Some o'' ∧ failed C o'' = Some o'.
Proof. destruct o; intros [= <-]; eexists; done. Qed.

Section Threads.
Context `{Env, !Logger} (segs : list segment) (n : nat).

(** [pthread_create] and its error test: whether there is a thread. *)
Definition create_thread : IO bool :=
  k ← tick;
  let ret := env_pthread_create k in
  (if ret =? 0 then mret tt
   else if EXIT_FAIL_CODE =? ret then
     e ← strerror_errno;
     log_ ERROR (lit "%d %s :%s")
       [AInt 237; AStr (lit "distribute-client thread create failed"); AStr e] ;;
     m ← tcp_at 0;
     close (acceptfd m)
   else mret tt) ;;
  mret (ret =? 0).

(** One step of one of the threads. *)
Inductive step : config → config → Prop :=
| s_lock i idx ts w : (i < n)%nat →
    step (mkConfig (MLock i) false idx ts w) (mkConfig (MWrite i) true idx ts w)
| s_write i h idx ts w :
    step (mkConfig (MWrite i) h idx ts w) (mkConfig (MCreate i) h (Z.of_nat i + 1) ts w)
| s_create i h idx ts w b w' : create_thread w = Ret b w' →
    step (mkConfig (MCreate i) h idx ts w)
         (mkConfig (MLock (S i)) h idx (ts ++ [if b then TRun 0 0 else TNone]) w')
| s_loop_end h idx ts w :
    step (mkConfig (MLock n) h idx ts w) (mkConfig (MJoin 0) h idx ts w)
| s_join i h idx ts w : ts !! i = Some TExited →
    step (mkConfig (MJoin i) h idx ts w) (mkConfig (MJoin (S i)) h idx ts w)
| s_join_end h idx ts w :
    step (mkConfig (MJoin n) h idx ts w) (mkConfig MEnd h idx ts w)
| s_segment m h idx ts w j k fd (s : segment) fd' w' :
    ts !! j = Some (TRun k fd) → segs !! k = Some s → s fd idx w = Ret fd' w' →
    step (mkConfig m h idx ts w) (mkConfig m h idx (<[j := TRun (S k) fd']> ts) w')
| s_unlock m h idx ts w j fd : ts !! j = Some (TRun (length segs) fd) →
    step (mkConfig m h idx ts w) (mkConfig m false idx (<[j := TUnlocked]> ts) w)
| s_return m h idx ts w j : ts !! j = Some TUnlocked →
    step (mkConfig m h idx ts w) (mkConfig m h idx (<[j := TExited]> ts) w).

(** A step of a thread does not return: it faults, ends the process, waits for
    something that does not come, or does not stop within its fuel; [o] says which. *)
Inductive aborts : config → outcome World (list bool) → Prop :=
| a_segment m h idx ts w j k fd (s : segment) o :
    ts !! j = Some (TRun k fd) → segs !! k = Some s → failed _ (s fd idx w) = Some o →
    aborts (mkConfig m h idx ts w) o
| a_create i h idx ts w o : failed _ (create_thread w) = Some o →
    aborts (mkConfig (MCreate i) h idx ts w) o.

Definition initial (idx : Z) (w : World) : config := mkConfig (MLock 0) false idx [] w.
Definition reachable (idx : Z) (w : World) (c : config) : Prop := rtc step (initial idx w) c.

End Threads.

(** ** The sequential program *)

Lemma bind_ext {S A B} (m : M S A) (f g : A → M S B) s :
  (∀ a s', f a s' = g a s') → (m ≫= f) s = (m ≫= g) s.
Proof. intros E. unfold mbind, M_bind. destruct (m s); auto. Qed.

Lemma bind_unit_r {S} (m : M S unit) s : (m ≫= λ _, mret tt) s = m s.
Proof. unfold mbind, M_bind. by destruct (m s) as [[] ?| | | |]. Qed.

Section Sequential.
Context `{Env, !Logger} (heap : heap_policy) (tail : list Z) (fuel : nat) (buf : list Z).
Context (threads_ok : ∀ n, env_pthread_create n = 0).

Abbreviation segs := (client_segments heap tail fuel buf).
Abbreviation send_to := (distribute_client_send heap tail fuel buf).
Abbreviation clients := (run_clients heap tail fuel buf).

(** The steps of a thread are the code of [distribute_client_send]. *)
Lemma segments_are_send index w : (run_segments segs 0 index ;; mret tt) w = send_to index w.
Proof.
  unfold distribute_client_send, client_segments, connected. cbn [run_segments].
  rewrite !bind_assoc. apply bind_ext; intros [] w1. rewrite bind_mret, !bind_assoc.
  apply bind_ext; intros [] w2. rewrite bind_mret, !bind_assoc.
  apply bind_ext; intros fd w3. rewrite !bind_assoc.
  apply bind_ext; intros t w4. rewrite !bind_assoc.
  apply bind_ext; intros a w5. destruct (fd =? EXIT_FAIL_CODE) eqn:Efd.
  - rewrite !bind_assoc. apply bind_ext; intros [] w6.
    do 4 (rewrite !bind_mret, !bind_assoc, Efd). rewrite !bind_mret, !bind_assoc.
    exact (bind_unit_r _ _).
  - rewrite !bind_assoc. apply bind_ext; intros [] w6. rewrite !bind_mret, !bind_assoc, Efd.
    apply bind_ext; intros [] w7. rewrite !bind_mret, !bind_assoc, Efd, ?bind_assoc.
    apply bind_ext; intros play w8. rewrite !bind_assoc.
    apply bind_ext; intros [] w9. rewrite !bind_mret, !bind_assoc, Efd, ?bind_assoc.
    apply bind_ext; intros [] w10. rewrite !bind_mret, !bind_assoc, Efd, ?bind_assoc.
    apply bind_ext; intros [] w11. rewrite !bind_mret, !bind_assoc. exact (bind_unit_r _ _).
Qed.

(** The world after [pthread_create]. *)
Definition ticked (w : World) : World := set_nsys (S (w_nsys w)) w.

Lemma create_ok w : create_thread w = Ret true (ticked w).
Proof. unfold create_thread, tick. unfold mbind at 1, M_bind at 1. by rewrite threads_ok. Qed.

Lemma clients_S i n w :
  clients i (S n) false w =
  (send_to (i + 1) ≫= λ _, clients (i + 1) n false ≫= λ r, mret (true :: r)) (ticked w).
Proof. cbn [run_clients]. unfold tick. unfold mbind at 1, M_bind at 1. rewrite threads_ok. done. Qed.

Lemma clients_app k m : ∀ i w0 w,
  clients i k false w0 = Ret (replicate k true) w →
  clients i (k + m) false w0 =
  (clients (i + Z.of_nat k) m false ≫= λ r, mret (replicate k true ++ r)) w.
Proof.
  induction k as [|k IH]; intros i w0 w Hk.
  { cbn in Hk. injection Hk as <-. rewrite Z.add_0_r. cbn [Nat.add replicate].
    unfold mbind, M_bind. by destruct (clients i m false w0). }
  rewrite clients_S in Hk. change (S k + m)%nat with (S (k + m)). rewrite clients_S.
  apply bind_Ret_inv in Hk as ([] & w1 & E1 & Hk). apply bind_Ret_inv in Hk as (r & w2 & E2 & Hk).
  cbn [mret M_ret replicate] in Hk. injection Hk as -> <-.
  rewrite (bind_Ret _ _ _ _ _ E1). unfold mbind at 1, M_bind at 1. rewrite (IH _ _ _ E2).
  replace (i + 1 + Z.of_nat k) with (i + Z.of_nat (S k)) by lia. unfold mbind, M_bind.
  by destruct (clients (i + Z.of_nat (S k)) m false w2).
Qed.

(** The first [i] clients have been served, from [w0], and left [w]. *)
Definition done_upto (w0 : World) (i : nat) (w : World) : Prop :=
  clients 0 i false w0 = Ret (replicate i true) w.

(** Client [i + 1] is served up to step [k] of its thread. *)
Definition partway (w0 : World) (i k : nat) (fd : Z) (w : World) : Prop :=
  ∃ w1, done_upto w0 i w1 ∧ run_segments (take k segs) 0 (Z.of_nat i + 1) (ticked w1) = Ret fd w.

Lemma run_segments_app a b : ∀ fd index w,
  run_segments (a ++ b) fd index w = (run_segments a fd index ≫= λ fd', run_segments b fd' index) w.
Proof.
  induction a as [|s a IH]; intros fd index w; [done|]. cbn [app run_segments]. rewrite bind_assoc.
  apply bind_ext. intros. apply IH.
Qed.

Lemma partway_next w0 i k fd (s : segment) fd' w w' :
  partway w0 i k fd w → segs !! k = Some s → s fd (Z.of_nat i + 1) w = Ret fd' w' →
  partway w0 i (S k) fd' w'.
Proof.
  intros (w1 & Hd & Hp) Hs Hr. exists w1. split; [done|].
  rewrite (take_S_r _ _ _ Hs), run_segments_app, (bind_Ret _ _ _ _ _ Hp). cbn [run_segments].
  by rewrite (bind_Ret _ _ _ _ _ Hr).
Qed.

Lemma partway_end w0 i fd w : partway w0 i (length segs) fd w → done_upto w0 (S i) w.
Proof.
  intros (w1 & Hd & Hp). rewrite take_ge in Hp by lia. unfold done_upto.
  replace (S i) with (i + 1)%nat by lia. rewrite (clients_app i 1 _ _ _ Hd).
  unfold mbind at 1, M_bind at 1. rewrite clients_S. unfold mbind at 1, M_bind at 1.
  rewrite <-segments_are_send. change (0 + Z.of_nat i) with (Z.of_nat i).
  rewrite (bind_Ret _ _ _ _ _ Hp). cbn. do 2 f_equal. by rewrite replicate_add.
Qed.

Lemma partway_abort w0 i k fd (s : segment) w n o :
  partway w0 i k fd w → segs !! k = Some s → failed _ (s fd (Z.of_nat i + 1) w) = Some o → (i < n)%nat →
  clients 0 n false w0 = o.
Proof.
  intros (w1 & Hd & Hp) Hs Ho Hn.
  replace n with (i + S (n - S i))%nat by lia. rewrite (clients_app i _ _ _ _ Hd).
  apply bind_failed. change (0 + Z.of_nat i) with (Z.of_nat i). rewrite clients_S. apply failed_bind.
  rewrite <-segments_are_send. apply failed_bind.
  rewrite <-(take_drop_middle _ _ _ Hs), run_segments_app.
  rewrite (bind_Ret _ _ _ _ _ Hp). cbn [run_segments]. by apply failed_bind.
Qed.

(** ** The invariant of the interleavings *)

Context (n : nat) (w0 : World).

(** A client thread that has released the mutex. *)
Definition finished (t : tstate) : Prop := t = TUnlocked ∨ t = TExited.

(** The main thread while no client thread is in its body; [i] are done. *)
Inductive main_idle (i : nat) : mstate → bool → Z → Prop :=
| mi_lock idx : main_idle i (MLock i) false idx
| mi_write idx : (i < n)%nat → main_idle i (MWrite i) true idx
| mi_create : (i < n)%nat → main_idle i (MCreate i) true (Z.of_nat i + 1)
| mi_join j h idx : i = n → (j ≤ n)%nat → main_idle i (MJoin j) h idx
| mi_end h idx : i = n → main_idle i MEnd h idx.

(** The main thread while client thread [i] is in its body. *)
Inductive main_waits (i : nat) : mstate → Prop :=
| mw_lock : main_waits i (MLock (S i))
| mw_join j : S i = n → (j ≤ i)%nat → main_waits i (MJoin j).

Inductive inv : config → Prop :=
| inv_idle m h idx ts w :
    done_upto w0 (length ts) w → Forall finished ts → (length ts ≤ n)%nat →
    main_idle (length ts) m h idx → inv (mkConfig m h idx ts w)
| inv_run k fd m ts w :
    partway w0 (length ts) k fd w → Forall finished ts → (length ts < n)%nat →
    (k ≤ length segs)%nat → main_waits (length ts) m →
    inv (mkConfig m true (Z.of_nat (length ts) + 1) (ts ++ [TRun k fd]) w).

Lemma finished_not_run ts j k fd : Forall finished ts → ts !! j = Some (TRun k fd) → False.
Proof. intros Hf Hj. eapply Forall_lookup_1 in Hf; [|exact Hj]. by destruct Hf. Qed.

Lemma lookup_run ts j k fd k' fd' :
  Forall finished ts → (ts ++ [TRun k fd]) !! j = Some (TRun k' fd') → j = length ts ∧ k' = k ∧ fd' = fd.
Proof.
  intros Hf [Hj|[Hl Hj]]%lookup_app_Some; [by apply (finished_not_run _ _ _ _ Hf) in Hj|].
  apply list_lookup_singleton_Some in Hj as [Hj [= <- <-]]. split_and!; [lia|done..].
Qed.

Lemma lookup_finished ts j k fd t :
  finished t → (ts ++ [TRun k fd]) !! j = Some t → ts !! j = Some t ∧ (j < length ts)%nat.
Proof.
  intros Ht [Hj|[Hl Hj]]%lookup_app_Some; [by apply lookup_lt_Some in Hj as ?|].
  apply list_lookup_singleton_Some in Hj as [_ <-]. by destruct Ht.
Qed.

Lemma finished_insert ts j t : Forall finished ts → finished t → Forall finished (<[j := t]> ts).
Proof. intros Hf Ht. by apply Forall_insert. Qed.

Lemma inv_initial idx : inv (initial idx w0).
Proof. apply inv_idle; [done|done|cbn; lia|apply mi_lock]. Qed.

Lemma inv_idle_step m h idx ts w c' :
  done_upto w0 (length ts) w → Forall finished ts → (length ts ≤ n)%nat → main_idle (length ts) m h idx →
  step segs n (mkConfig m h idx ts w) c' → inv c'.
Proof.
  intros Hd Hf Hn Hm Hst. inversion Hst; subst.
  - inversion Hm; subst. apply inv_idle; try done. by apply mi_write.
  - inversion Hm; subst. apply inv_idle; try done. by apply mi_create.
  - inversion Hm; subst. rewrite create_ok in *. simplify_eq.
    apply inv_run; try done; [|lia|constructor]. by exists w.
  - inversion Hm as [? E| | | |]; subst. apply inv_idle; try done. apply mi_join; [done|lia].
  - inversion Hm; subst. apply inv_idle; try done. apply mi_join; [done|].
    match goal with E : ts !! _ = Some TExited |- _ => apply lookup_lt_Some in E; lia end.
  - inversion Hm; subst. apply inv_idle; try done. by apply mi_end.
  - exfalso. by eapply finished_not_run.
  - exfalso. by eapply finished_not_run.
  - apply inv_idle; rewrite ?length_insert; try done. apply finished_insert; [done|by right].
Qed.

Lemma inv_run_step k fd m ts w c' :
  partway w0 (length ts) k fd w → Forall finished ts → (length ts < n)%nat →
  (k ≤ length segs)%nat → main_waits (length ts) m →
  step segs n (mkConfig m true (Z.of_nat (length ts) + 1) (ts ++ [TRun k fd]) w) c' → inv c'.
Proof.
  intros Hp Hf Hn Hk Hm Hst. inversion Hst; subst; try (by inversion Hm).
  - apply inv_run; try done. inversion Hm; subst. apply mw_join; lia.
  - destruct (lookup_finished ts i k fd TExited) as [_ Hl]; [by right|done|].
    inversion Hm; subst. apply inv_run; try done. apply mw_join; lia.
  - inversion Hm; lia.
  - match goal with E : (ts ++ _) !! _ = Some _ |- _ => apply lookup_run in E as (-> & -> & ->); [|done] end.
    match goal with E : segs !! _ = Some _ |- _ => pose proof (lookup_lt_Some _ _ _ E) end.
    replace (length ts) with (length ts + 0)%nat at 2 by lia. rewrite insert_app_r. cbn.
    apply inv_run; try done. by eapply partway_next.
  - match goal with E : (ts ++ _) !! _ = Some _ |- _ => apply lookup_run in E as (-> & <- & ->); [|done] end.
    replace (length ts) with (length ts + 0)%nat at 2 by lia. rewrite insert_app_r. cbn.
    apply inv_idle.
    + rewrite length_app, Nat.add_1_r. by eapply partway_end.
    + apply Forall_app; split; [done|]. constructor; [by left|constructor].
    + rewrite length_app. cbn. lia.
    + rewrite length_app, Nat.add_1_r. inversion Hm; subst; [apply mi_lock|apply mi_join; lia].
  - match goal with E : (ts ++ _) !! _ = Some _ |- _ =>
      apply lookup_finished in E as [E Hl]; [|by left] end.
    rewrite insert_app_l by done.
    rewrite <-(length_insert ts j TExited). rewrite <-(length_insert ts j TExited) in Hp, Hn, Hm.
    apply inv_run; try done. apply finished_insert; [done|by right].
Qed.

Lemma inv_step c c' : inv c → step segs n c c' → inv c'.
Proof.
  intros [m h idx ts w Hd Hf Hn Hm|k fd m ts w Hp Hf Hn Hk Hm] Hst;
    [by eapply inv_idle_step|by eapply inv_run_step].
Qed.

Lemma inv_reachable idx c : reachable segs n idx w0 c → inv c.
Proof.
  intros Hr. assert (∀ a b, rtc (step segs n) a b → inv a → inv b) as Hp.
  { induction 1; [done|]. intros Hi. by apply IHrtc, (inv_step x y). }
  eapply Hp; [exact Hr|apply inv_initial].
Qed.

(** ** Progress and termination *)

Lemma idle_progress m h idx ts w :
  Forall finished ts → main_idle (length ts) m h idx → (length ts ≤ n)%nat → m ≠ MEnd →
  ∃ c', step segs n (mkConfig m h idx ts w) c'.
Proof.
  intros Hf Hm Hn Hne. destruct Hm as [idx|idx Hi|Hi|j h idx Hi Hj|]; [| | | |done].
  - destruct (decide (length ts = n)) as [Heq|]; [|eexists; apply s_lock; lia].
    rewrite Heq. eexists. apply s_loop_end.
  - eexists. apply s_write.
  - eexists. apply s_create, create_ok.
  - destruct (decide (j = n)) as [->|]; [eexists; apply s_join_end|].
    destruct (lookup_lt_is_Some_2 ts j) as [t Ht]; [lia|].
    destruct (Forall_lookup_1 _ _ _ _ Hf Ht) as [->| ->]; eexists; [by eapply s_return|by eapply s_join].
Qed.

Lemma inv_progress c : inv c → c_main c ≠ MEnd → (∃ c', step segs n c c') ∨ (∃ o, aborts segs c o).
Proof.
  intros [m h idx ts w Hd Hf Hn Hm|k fd m ts w Hp Hf Hn Hk Hm] Hne; [left; by eapply idle_progress|].
  assert ((ts ++ [TRun k fd]) !! length ts = Some (TRun k fd)) as Hj by (by rewrite lookup_app_r, Nat.sub_diag by lia).
  destruct (decide (k = length segs)) as [->|]; [left; eexists; by eapply s_unlock|].
  destruct (lookup_lt_is_Some_2 segs k) as [s Hs]; [lia|].
  destruct (s fd (Z.of_nat (length ts) + 1) w) as [fd' w'|f|z w'| |] eqn:E.
  1: left; eexists; by eapply s_segment.
  all: right; eexists; eapply a_segment; [exact Hj|exact Hs|]; by rewrite E.
Qed.

(** Steps left to a thread and to the main thread. *)
Definition thread_left (t : tstate) : nat :=
  match t with TRun k _ => length segs + 2 - k | TUnlocked => 1 | TExited | TNone => 0 end.
Definition main_left (m : mstate) : nat :=
  let round := (length segs + 6)%nat in
  match m with
  | MLock i => (n - i) * round + n + 2
  | MWrite i => (n - i) * round + n + 1
  | MCreate i => (n - i) * round + n
  | MJoin i => n + 1 - i
  | MEnd => 0
  end.
Definition left_of (c : config) : nat := main_left (c_main c) + sum_list_with thread_left (c_threads c).

Lemma sum_insert ts j t t' :
  ts !! j = Some t → (thread_left t' < thread_left t)%nat →
  (sum_list_with thread_left (<[j := t']> ts) < sum_list_with thread_left ts)%nat.
Proof.
  revert j. induction ts as [|u ts IH]; intros [|j] Hj Hl; [done|done|..]; cbn [insert list_insert sum_list_with].
  - injection Hj as ->. lia.
  - apply Nat.add_lt_mono_l, (IH j Hj Hl).
Qed.

Lemma step_left c c' : inv c → step segs n c c' → (left_of c' < left_of c)%nat.
Proof.
  intros Hi Hst. unfold left_of. destruct Hst; cbn [c_main c_threads].
  - cbn [main_left]. lia.
  - cbn [main_left]. lia.
  - assert (i < n)%nat as Hn.
    { inversion Hi as [????? _ _ _ Hm|]; subst; [by inversion Hm|].
      match goal with Hm : main_waits _ _ |- _ => inversion Hm end. }
    rewrite create_ok in *. simplify_eq. rewrite sum_list_with_app.
    cbn [main_left sum_list_with thread_left].
    replace (n - i)%nat with (S (n - S i)) by lia. cbn [Nat.mul]. lia.
  - cbn [main_left]. lia.
  - cbn [main_left]. assert (i < n)%nat; [|lia].
    assert (length ts ≤ n)%nat by (inversion Hi; subst; rewrite ?length_app; cbn in *; lia).
    match goal with E : ts !! i = Some _ |- _ => apply lookup_lt_Some in E; lia end.
  - cbn [main_left]. lia.
  - apply Nat.add_lt_mono_l. eapply sum_insert; [done|]. cbn [thread_left].
    match goal with E : segs !! _ = Some _ |- _ => apply lookup_lt_Some in E; lia end.
  - apply Nat.add_lt_mono_l. eapply sum_insert; [done|]. cbn [thread_left]. lia.
  - apply Nat.add_lt_mono_l. eapply sum_insert; [done|]. cbn [thread_left]. lia.
Qed.

(** A step that does not return is the end of the sequential program, too. *)
Lemma inv_aborts c o : inv c → aborts segs c o → clients 0 n false w0 = o.
Proof.
  intros [m h i ts w Hd Hf Hn Hi|k fd m ts w Hp Hf Hn Hk Hw] Ha; inversion Ha; subst.
  - exfalso. by eapply finished_not_run.
  - by rewrite create_ok in *.
  - match goal with E : (ts ++ _) !! _ = Some _ |- _ => apply lookup_run in E as (-> & -> & ->); [|done] end.
    by eapply partway_abort.
  - inversion Hw.
Qed.

Lemma inv_end c : inv c → c_main c = MEnd → done_upto w0 n (c_world c) ∧ Forall finished (c_threads c).
Proof.
  intros [m h i ts w Hd Hf Hn Hi|k fd m ts w Hp Hf Hn Hk Hw] Hm; cbn in Hm; subst m.
  - inversion Hi as [| | | |h' i' E]. rewrite E in Hd. by split.
  - inversion Hw.
Qed.

(** When the sequential program returns, every step does, and only the end is
    without a next step. *)
Lemma inv_moves c r w1 : inv c → clients 0 n false w0 = Ret r w1 → c_main c ≠ MEnd → ∃ c', step segs n c c'.
Proof.
  intros Hi Hs Hne. destruct (inv_progress c Hi Hne) as [Hc|[o Ho]]; [done|].
  pose proof (inv_aborts c o Hi Ho) as E. rewrite Hs in E. subst o. exfalso.
  inversion Ho; subst; match goal with E : failed _ ?x = _ |- _ => by destruct x end.
Qed.

Lemma inv_stops c r w1 : inv c → clients 0 n false w0 = Ret r w1 → (∀ c', ¬ step segs n c c') →
  c_main c = MEnd ∧ c_world c = w1 ∧ Forall (λ t, t = TExited) (c_threads c).
Proof.
  intros Hi Hs Hstop. assert (c_main c = MEnd) as Hm.
  { destruct (decide (c_main c = MEnd)) as [|Hne]; [done|]. destruct (inv_moves c r w1 Hi Hs Hne) as [c' Hc]. by destruct (Hstop c'). }
  destruct (inv_end c Hi Hm) as [Hd Hf]. split; [done|]. split.
  - unfold done_upto in Hd. rewrite Hs in Hd. by injection Hd.
  - apply Forall_lookup. intros j t Hj. destruct (Forall_lookup_1 _ _ _ _ Hf Hj) as [-> |]; [|done].
    destruct c as [m h idx ts w]. exfalso. eapply Hstop, s_return, Hj.
Qed.

Lemma steps_left k c c' : inv c → nsteps (step segs n) k c c' → (k + left_of c' ≤ left_of c)%nat.
Proof.
  intros Hi Hs. induction Hs as [|k x y z Hxy Hyz IH]; [lia|].
  pose proof (step_left x y Hi Hxy). specialize (IH (inv_step x y Hi Hxy)). lia.
Qed.

Lemma inv_reaches_end c r w1 : inv c → clients 0 n false w0 = Ret r w1 →
  ∃ c', rtc (step segs n) c c' ∧ c_main c' = MEnd ∧ c_world c' = w1.
Proof.
  intros Hi Hs. remember (left_of c) as m eqn:Em. revert c Em Hi. induction m as [m IH] using lt_wf_ind. intros c -> Hi.
  destruct (decide (c_main c = MEnd)) as [Hm|Hm].
  - exists c. destruct (inv_end c Hi Hm) as [Hd _]. unfold done_upto in Hd. rewrite Hs in Hd. by injection Hd.
  - destruct (inv_moves c r w1 Hi Hs Hm) as [c1 H1].
    destruct (IH (left_of c1) (step_left c c1 Hi H1) c1 eq_refl (inv_step c c1 Hi H1)) as (c' & Hr & He).
    exists c'. split; [by eapply rtc_l|done].
Qed.

End Sequential.

(** ** Theorems *)

Section Theorems.
Context `{Env, !Logger} (heap : heap_policy) (tail : list Z) (fuel : nat) (buf : list Z).

Abbreviation segs := (client_segments heap tail fuel buf).

(** C3: when every [pthread_create] succeeds, every interleaving of the main
    thread and the client threads computes what the threads compute one after the other: a run that ends ends in the
    state of the sequential program, and a run that faults or exits in the
    middle of a thread does so with the fault or exit of the sequential one. *)
Theorem threads_refine_sequence n idx w0 c :
  (∀ k, env_pthread_create k = 0) → reachable segs n idx w0 c →
  (c_main c = MEnd → run_clients heap tail fuel buf 0 n false w0 = Ret (replicate n true) (c_world c)) ∧
  (∀ o, aborts segs c o → run_clients heap tail fuel buf 0 n false w0 = o).
Proof.
  intros Hth Hr. apply (inv_reachable heap tail fuel buf Hth) in Hr. split.
  - intros Hm. by eapply inv_end.
  - intros o Ha. by eapply (inv_aborts heap tail fuel buf Hth).
Qed.

(** C22: when every [pthread_create] succeeds, at most one client thread is in its
    body at any time, and while it is there the shared [clientIndex] holds its own number. *)
Theorem threads_mutual_exclusion n idx w0 c i j k fd k' fd' :
  (∀ k, env_pthread_create k = 0) → reachable segs n idx w0 c →
  c_threads c !! i = Some (TRun k fd) → c_threads c !! j = Some (TRun k' fd') →
  i = j ∧ c_index c = Z.of_nat i + 1 ∧ c_held c = true.
Proof.
  intros Hth Hr Hi Hj. apply (inv_reachable heap tail fuel buf Hth) in Hr.
  destruct Hr as [m h x ts w Hd Hf Hn Hm|k0 fd0 m ts w Hp Hf Hn Hk Hw]; cbn in *.
  - exfalso. by eapply finished_not_run.
  - apply lookup_run in Hi as (-> & _ & _); [|done]. by apply lookup_run in Hj as (-> & _ & _).
Qed.

(** C21: when every [pthread_create] succeeds and the clients served one after the other are served to the end (no
    step faults, exits, waits for ever or runs out of fuel), the threads never
    deadlock: until the main thread is past its joins some thread can take a
    step, no execution has more than [16 * n + 2] steps, an execution stops
    only with the main thread past its joins, every client thread ended and the
    state of the sequential program, and from every reachable state this end is
    reached. *)
Theorem threads_terminate n idx w0 r w1 :
  (∀ k, env_pthread_create k = 0) → run_clients heap tail fuel buf 0 n false w0 = Ret r w1 →
  (∀ c, reachable segs n idx w0 c → c_main c ≠ MEnd → ∃ c', step segs n c c') ∧
  (∀ k c, nsteps (step segs n) k (initial idx w0) c → (k ≤ 16 * n + 2)%nat) ∧
  (∀ c, reachable segs n idx w0 c → (∀ c', ¬ step segs n c c') →
     c_main c = MEnd ∧ c_world c = w1 ∧ Forall (λ t, t = TExited) (c_threads c)) ∧
  (∀ c, reachable segs n idx w0 c → ∃ c', rtc (step segs n) c c' ∧ c_main c' = MEnd ∧ c_world c' = w1).
Proof.
  intros Hth Hs. split_and!.
  - intros c Hr Hne. apply (inv_reachable heap tail fuel buf Hth) in Hr. by eapply (inv_moves heap tail fuel buf Hth).
  - intros k c Hk. apply (steps_left heap tail fuel buf Hth n w0) in Hk; [|apply inv_initial].
    unfold left_of, initial, main_left in Hk. cbn [c_main c_threads sum_list_with] in Hk.
    change (length segs + 6)%nat with 15%nat in Hk. lia.
  - intros c Hr Hstop. apply (inv_reachable heap tail fuel buf Hth) in Hr. by eapply (inv_stops heap tail fuel buf Hth).
  - intros c Hr. apply (inv_reachable heap tail fuel buf Hth) in Hr. by eapply (inv_reaches_end heap tail fuel buf Hth).
Qed.

End Theorems.

(** ** Witnesses *)

Definition is_run (t : tstate) : bool := match t with TRun _ _ => true | _ => false end.
Definition is_unlocked (t : tstate) : bool := match t with TUnlocked => true | _ => false end.

(** A scheduler: the running thread first, then returning ones, then main. *)
Definition next `{Env, !Logger} (segs : list segment) (n : nat) (c : config) : option config :=
  let '(mkConfig m h idx ts w) := c in
  match list_find (λ t, is_run t = true) ts with
  | Some (j, TRun k fd) =>
      match segs !! k with
      | Some s => match s fd idx w with
                  | Ret fd' w' => Some (mkConfig m h idx (<[j := TRun (S k) fd']> ts) w')
                  | _ => None
                  end
      | None => if decide (k = length segs) then Some (mkConfig m false idx (<[j := TUnlocked]> ts) w) else None
      end
  | Some _ => None
  | None =>
      match list_find (λ t, is_unlocked t = true) ts with
      | Some (j, TUnlocked) => Some (mkConfig m h idx (<[j := TExited]> ts) w)
      | Some _ => None
      | None =>
          match m with
          | MLock i => if decide (i = n) then Some (mkConfig (MJoin 0) h idx ts w)
                       else if decide (i < n)%nat then if h then None else Some (mkConfig (MWrite i) true idx ts w)
                       else None
          | MWrite i => Some (mkConfig (MCreate i) h (Z.of_nat i + 1) ts w)
          | MCreate i =>
              match create_thread w with
              | Ret b w' => Some (mkConfig (MLock (S i)) h idx (ts ++ [if b then TRun 0 0 else TNone]) w')
              | _ => None
              end
          | MJoin i => if decide (i = n) then Some (mkConfig MEnd h idx ts w)
                       else match ts !! i with
                            | Some TExited => Some (mkConfig (MJoin (S i)) h idx ts w)
                            | _ => None
                            end
          | MEnd => None
          end
      end
  end.

Lemma next_step `{Env, !Logger} segs n c c' : next segs n c = Some c' → step segs n c c'.
Proof.
  destruct c as [m h idx ts w]. cbn [next].
  destruct (list_find _ ts) as [[j t]|] eqn:Ef.
  { apply list_find_Some in Ef as (Hj & _ & _). destruct t as [k fd| | |]; [|done..].
    destruct (segs !! k) as [s|] eqn:Es.
    - destruct (s fd idx w) eqn:Er; intros [= <-]. by eapply s_segment.
    - case_decide; intros [= <-]. subst. by eapply s_unlock. }
  clear Ef. destruct (list_find _ ts) as [[j t]|] eqn:Ef.
  { apply list_find_Some in Ef as (Hj & _ & _). destruct t; [done| |done..]. intros [= <-]. by eapply s_return. }
  destruct m as [i|i|i|i|].
  - case_decide; [subst; intros [= <-]; apply s_loop_end|]. case_decide; [|done]. destruct h; [done|].
    intros [= <-]. by apply s_lock.
  - intros [= <-]. apply s_write.
  - destruct (create_thread w) eqn:Ec; intros [= <-]. by apply s_create.
  - case_decide; [subst; intros [= <-]; apply s_join_end|].
    destruct (ts !! i) as [[]|] eqn:Ei; intros [= <-]. by apply s_join.
  - done.
Qed.

Fixpoint schedule `{Env, !Logger} (segs : list segment) (n fuel : nat) (c : config) : config :=
  match fuel with
  | O => c
  | S fuel' => match next segs n c with Some c' => schedule segs n fuel' c' | None => c end
  end.

Lemma schedule_reachable `{Env, !Logger} segs n fuel : ∀ c, rtc (step segs n) c (schedule segs n fuel c).
Proof.
  induction fuel as [|fuel IH]; intros c; cbn [schedule]; [done|].
  destruct (next segs n c) as [c'|] eqn:E; [|done]. eapply rtc_l; [by apply next_step|apply IH].
Qed.

Section Witness.
#[local] Existing Instance sample_env.
#[local] Instance quiet_log : Logger := silent_logger.

Abbreviation steps_of := (client_segments strict_heap [] 0 sea_packet).

(** One client served to the end. *)
Definition finished_run : config := schedule steps_of 1 30 (initial 0 open_world).

Lemma threads_refine_sequence_witness :
  run_clients strict_heap [] 0 sea_packet 0 1 false open_world = Ret [true] (c_world finished_run).
Proof.
  destruct (threads_refine_sequence strict_heap [] 0 sea_packet 1 0 open_world finished_run) as [Hend _].
  - reflexivity.
  - apply schedule_reachable.
  - apply Hend. vm_compute. reflexivity.
Defined.

(** The state after the first thread was started, before its first step. *)
Definition started : config := mkConfig (MLock 1) true 1 [TRun 0 0] (ticked open_world).

Lemma threads_mutual_exclusion_witness : c_index started = 1.
Proof.
  apply (threads_mutual_exclusion strict_heap [] 0 sea_packet 1 0 open_world started 0 0 0 0 0 0).
  - reflexivity.
  - exact (schedule_reachable steps_of 1 3 (initial 0 open_world)).
  - reflexivity.
  - reflexivity.
Defined.

(** The state in which the client is served without threads. *)
Definition served_world : World :=
  match run_clients strict_heap [] 0 sea_packet 0 1 false open_world with Ret _ w => w | _ => open_world end.

Lemma sea_served : run_clients strict_heap [] 0 sea_packet 0 1 false open_world = Ret [true] served_world.
Proof.
  assert (match run_clients strict_heap [] 0 sea_packet 0 1 false open_world with Ret r _ => r = [true] | _ => False end) as Hr
    by (vm_compute; reflexivity).
  unfold served_world. destruct (run_clients _ _ _ _ _ _ _ _); [by rewrite Hr|done..].
Qed.

Lemma threads_terminate_witness :
  ∃ c', rtc (step steps_of 1) started c' ∧ c_main c' = MEnd ∧ c_world c' = served_world.
Proof.
  destruct (threads_terminate strict_heap [] 0 sea_packet 1 0 open_world [true] served_world)
    as (_ & _ & _ & Hend).
  - reflexivity.
  - apply sea_served.
  - apply Hend. exact (schedule_reachable steps_of 1 3 (initial 0 open_world)).
Defined.

End Witness.
