(* ===== verification/Mutex.v ===== *)
(** * glibc: the mutex

    [pthread_mutex_lock], [pthread_mutex_trylock] and [pthread_mutex_unlock] for the
    mutex the program uses (the default type), and the pair with which
    [pthread_cond_wait] gives it up and takes it back: [glibc-2.27/nptl/]
    pthread_mutex_lock.c, pthread_mutex_cond_lock.c, pthread_mutex_trylock.c,
    pthread_mutex_unlock.c, lowlevellock.c and [sysdeps/nptl/lowlevellock.h].  The
    lock is one word, 0 free, 1 taken, 2 taken and perhaps waited for; threads
    sleep in the kernel on the word 2.  A step is one atomic operation on the
    word, one access to the other fields, or one entry to the kernel; steps of
    different threads interleave, one after the other as seen by all.

    The kernel's part is what futex(2) says: [FUTEX_WAIT] puts the thread to sleep
    if the word still has the given value, in one step, and returns at once
    otherwise; [FUTEX_WAKE] with 1 wakes one sleeping thread if there is one;
    a sleeping thread may also wake for no reason.

    The theorems are about threads that unlock what they locked, as log.c and
    threadpool.c do: at most one thread is between lock and unlock, and the fields
    say who; no wake-up is lost, so that a set of threads that lock and unlock
    comes to its end.  The mutex of util.c, which one thread locks and another
    unlocks, is the subject of [HandOver], with the operations defined here. *)

From S2P Require Import Prelude.

(** ** The mutex and its threads *)

(** The fields of [pthread_mutex_t] the default type uses. *)
Record mutex := mkMutex {
  __lock : Z;
  __owner : Z;
  __nusers : Z;
}.

Definition unlocked : mutex := mkMutex 0 0 0.

(** Where a thread is. *)
Inductive pc :=
| Idle                       (* not using the mutex *)
| LockCas                    (* __lll_lock: the compare and exchange *)
| CondXchg                   (* __lll_cond_lock: the exchange *)
| TryCas                     (* lll_trylock *)
| WaitRead                   (* __lll_lock_wait: before the first test *)
| FutexWait                  (* before lll_futex_wait *)
| Asleep                     (* in the kernel *)
| WaitXchg                   (* before the exchange of the loop *)
| Assert                     (* LLL_MUTEX_LOCK is done *)
| SetOwner                   (* before the owner is recorded *)
| Critical                   (* the mutex is locked *)
| Clear                      (* unlock: before the owner is reset *)
| Release                    (* __lll_unlock: before the exchange *)
| FutexWake                  (* before lll_futex_wake *)
| CondWait                   (* waiting for a condition, the mutex given up *)
| Aborted.                   (* the assertion failed *)

#[global] Instance pc_eq_dec : EqDecision pc.
Proof. solve_decision. Defined.

(** One use of the mutex: how it is taken, and how often the thread waits for a
    condition before it unlocks. *)
Inductive call := Lock (waits : nat) | TryLock (waits : nat).

Record thread := mkThread {
  t_pc : pc;
  t_cond : bool;              (* inside pthread_cond_wait *)
  t_waits : nat;              (* condition waits left before the unlock *)
  t_calls : list call;        (* uses left *)
}.

Definition at_pc (p : pc) (t : thread) : thread := mkThread p (t_cond t) (t_waits t) (t_calls t).

(** ** Operations *)

(** The operations on the word: the next place in the code and the new word. *)

(** [__lll_lock]: [atomic_compare_and_exchange_bool_acq (__futex, 1, 0)] *)
Definition __lll_lock (w : Z) : pc * Z := if w =? 0 then (Assert, 1) else (WaitRead, w).

(** [__lll_cond_lock]: [atomic_exchange_acq (__futex, 2) != 0] *)
Definition __lll_cond_lock (w : Z) : pc * Z := (if negb (w =? 0) then WaitRead else Assert, 2).

(** [lll_trylock]; when it fails [pthread_mutex_trylock] returns [EBUSY]. *)
Definition lll_trylock (w : Z) : pc * Z := if w =? 0 then (SetOwner, 1) else (Idle, w).

(** [__lll_lock_wait], from each of its places; entering the kernel compares the
    word with 2 once more. *)
Definition __lll_lock_wait (p : pc) (w : Z) : pc * Z :=
  match p with
  | WaitRead => (if w =? 2 then FutexWait else WaitXchg, w)
  | FutexWait => (if w =? 2 then Asleep else WaitXchg, w)
  | WaitXchg => (if negb (w =? 0) then FutexWait else Assert, 2)
  | p => (p, w)
  end.

(** What comes after the unlock: the wait of [pthread_cond_wait], or the caller. *)
Definition unlock_done (t : thread) : thread := at_pc (if t_cond t then CondWait else Idle) t.

(** [__lll_unlock]: [atomic_exchange_rel (__futex, 0)]; a thread that saw a value
    above 1 wakes another one. *)
Definition __lll_unlock (w : Z) (t : thread) : thread * Z :=
  (if 1 <? w then at_pc FutexWake t else unlock_done t, 0).

Definition set_lock (w : Z) (m : mutex) : mutex := mkMutex w (__owner m) (__nusers m).

(** [__pthread_mutex_lock] after [LLL_MUTEX_LOCK]: the assertion, then the owner
    and, unless it is [__pthread_mutex_cond_lock], the number of users. *)
Definition assert_no_owner (m : mutex) (t : thread) : mutex * thread :=
  (m, at_pc (if __owner m =? 0 then SetOwner else Aborted) t).

Definition record_owner (id : Z) (m : mutex) (t : thread) : mutex * thread :=
  (mkMutex (__lock m) id (if t_cond t then __nusers m else uint32 (__nusers m + 1)),
   mkThread Critical false (t_waits t) (t_calls t)).

(** [__pthread_mutex_unlock_usercnt (mutex, decr)] before [lll_unlock]; [decr] is 0
    when [pthread_cond_wait] calls it. *)
Definition clear_owner (m : mutex) (t : thread) : mutex * thread :=
  (mkMutex (__lock m) 0 (if t_cond t then __nusers m else uint32 (__nusers m - 1)), at_pc Release t).

(** The next step of a thread; [None] when it sleeps, has ended or depends on
    which thread the kernel wakes. *)
Definition advance (id : Z) (m : mutex) (t : thread) : option (mutex * thread) :=
  let word r := Some (set_lock r.2 m, at_pc r.1 t) in
  match t_pc t with
  | Idle =>
      match t_calls t with
      | [] => None
      | Lock n :: cs => Some (m, mkThread LockCas false n cs)
      | TryLock n :: cs => Some (m, mkThread TryCas false n cs)
      end
  | LockCas => word (__lll_lock (__lock m))
  | CondXchg => word (__lll_cond_lock (__lock m))
  | TryCas => word (lll_trylock (__lock m))
  | WaitRead | FutexWait | WaitXchg => word (__lll_lock_wait (t_pc t) (__lock m))
  | Assert => Some (assert_no_owner m t)
  | SetOwner => Some (record_owner id m t)
  | Critical =>
      match t_waits t with
      | O => Some (m, mkThread Clear false 0 (t_calls t))
      | S n => Some (m, mkThread Clear true n (t_calls t))
      end
  | Clear => Some (clear_owner m t)
  | Release => let '(t', w) := __lll_unlock (__lock m) t in Some (set_lock w m, t')
  | CondWait => Some (m, at_pc CondXchg t)
  | Asleep | FutexWake | Aborted => None
  end.

(** A mutex and the threads that use it; the id of a thread is its number plus
    one, and not 0. *)
Record system := mkSystem { s_mutex : mutex; s_threads : list thread }.

Definition tid (j : nat) : Z := Z.of_nat j + 1.

Definition thread_at (s : system) (j : nat) (t : thread) : Prop := s_threads s !! j = Some t.

(** A step of the code or of the kernel on behalf of it. *)
Inductive mutex_move : system → system → Prop :=
| m_advance m ts j t m' t' : ts !! j = Some t → advance (tid j) m t = Some (m', t') →
    mutex_move (mkSystem m ts) (mkSystem m' (<[j := t']> ts))
| m_wake m ts j t k u : ts !! j = Some t → t_pc t = FutexWake → ts !! k = Some u → t_pc u = Asleep →
    mutex_move (mkSystem m ts) (mkSystem m (<[k := at_pc WaitXchg u]> (<[j := unlock_done t]> ts)))
| m_wake_none m ts j t : ts !! j = Some t → t_pc t = FutexWake → Forall (λ u, t_pc u ≠ Asleep) ts →
    mutex_move (mkSystem m ts) (mkSystem m (<[j := unlock_done t]> ts)).

(** A sleeping thread wakes for no reason (a signal, say). *)
Inductive spurious_wake : system → system → Prop :=
| sp_wake m ts j t : ts !! j = Some t → t_pc t = Asleep →
    spurious_wake (mkSystem m ts) (mkSystem m (<[j := at_pc WaitXchg t]> ts)).

Definition mutex_step (s s' : system) : Prop := mutex_move s s' ∨ spurious_wake s s'.

(** Threads that have not begun, each with the uses it will make. *)
Definition start (programs : list (list call)) : system :=
  mkSystem unlocked (mkThread Idle false 0 <$> programs).

(** ** The invariant *)

(** The holder of the lock, apart from the time in which it is the recorded
    owner; the recorded owner; a user of the mutex; a thread that will look at
    the word again or wake somebody. *)
Definition holds_word (t : thread) : nat :=
  match t_pc t with Assert | SetOwner | Release => 1 | _ => 0 end.
Definition is_owner (t : thread) : nat :=
  match t_pc t with Critical | Clear => 1 | _ => 0 end.
Definition is_user (t : thread) : nat :=
  if t_cond t then 1 else is_owner t.
Definition asleep (t : thread) : nat :=
  match t_pc t with Asleep => 1 | _ => 0 end.
Definition alert (t : thread) : nat :=
  match t_pc t with WaitXchg | FutexWake => 1 | _ => 0 end.

(** Places a thread inside [pthread_cond_wait] is at, and places outside it. *)
Definition cond_ok (t : thread) : Prop :=
  match t_pc t with
  | Idle | LockCas | TryCas | Critical => t_cond t = false
  | CondXchg | CondWait => t_cond t = true
  | Aborted => False
  | _ => True
  end.

Definition locked (w : Z) : nat := if w =? 0 then 0 else 1.

Record mutex_inv (s : system) : Prop := {
  mi_word : (__lock (s_mutex s) = 0 ∨ __lock (s_mutex s) = 1 ∨ __lock (s_mutex s) = 2);
  mi_holder : (total holds_word (s_threads s) + total is_owner (s_threads s) = locked (__lock (s_mutex s)))%nat;
  mi_owner : ∀ j t, thread_at s j t → is_owner t = 1%nat → __owner (s_mutex s) = tid j;
  mi_no_owner : total is_owner (s_threads s) = 0%nat → __owner (s_mutex s) = 0;
  mi_users : __nusers (s_mutex s) = Z.of_nat (total is_user (s_threads s));
  mi_places : Forall cond_ok (s_threads s);
  mi_many : Z.of_nat (length (s_threads s)) < 2 ^ 32;
  mi_wakes : (0 < total asleep (s_threads s))%nat → __lock (s_mutex s) = 2 ∨ (0 < total alert (s_threads s))%nat;
}.

Lemma total_le_length {A} (f : A → nat) l : (∀ x, f x ≤ 1)%nat → (total f l ≤ length l)%nat.
Proof. intros Hf. induction l as [|x l IH]; cbn; [lia|]. pose proof (Hf x). lia. Qed.

Lemma user_le_1 t : (is_user t ≤ 1)%nat.
Proof. unfold is_user, is_owner. destruct (t_cond t), (t_pc t); lia. Qed.

(** One thread changes: what the invariant asks of the change. *)
Lemma mutex_inv_change m ts j t m' t' : mutex_inv (mkSystem m ts) → ts !! j = Some t → cond_ok t' →
  (__lock m' = 0 ∨ __lock m' = 1 ∨ __lock m' = 2) →
  (holds_word t' + is_owner t' + locked (__lock m) = holds_word t + is_owner t + locked (__lock m'))%nat →
  (if Nat.eqb (is_owner t') 1 then __owner m' = tid j ∧ (is_owner t = 0 → holds_word t = 1)%nat
   else if Nat.eqb (is_owner t) 1 then __owner m' = 0 else __owner m' = __owner m) →
  (__nusers m' = uint32 (__nusers m + Z.of_nat (is_user t') - Z.of_nat (is_user t))) →
  __lock m' = 2 ∨ alert t' = 1%nat ∨ (alert t < total alert ts)%nat ∨
    (total asleep ts = 0 ∧ asleep t' = 0)%nat ∨
    (asleep t' ≤ asleep t ∧ alert t ≤ alert t')%nat ∧ (__lock m = 2 → __lock m' = 2) →
  mutex_inv (mkSystem m' (<[j := t']> ts)).
Proof.
  intros [] Hj Hp Hw Hh Ho Hu Ha. cbn [s_mutex s_threads] in *. pose proof (lookup_lt_Some _ _ _ Hj) as Hlt.
  pose proof (total_insert holds_word _ j _ t' Hj) as T1. pose proof (total_insert is_owner _ j _ t' Hj) as T2.
  pose proof (total_insert is_user _ j _ t' Hj) as T3. pose proof (total_insert asleep _ j _ t' Hj) as T4.
  pose proof (total_insert alert _ j _ t' Hj) as T5.
  pose proof (total_pos holds_word _ _ _ Hj) as P1. pose proof (total_pos is_owner _ _ _ Hj) as P2.
  pose proof (total_pos alert _ _ _ Hj) as P5.
  assert (is_owner t ≤ 1 ∧ is_owner t' ≤ 1)%nat as [L1 L2] by (unfold is_owner; split; by destruct (t_pc _); lia).
  assert (total holds_word ts + total is_owner ts ≤ 1)%nat as H1 by (rewrite mi_holder0; unfold locked; destruct (_ =? 0); lia).
  constructor; cbn [s_mutex s_threads]; [done|lia|..].
  - intros i u Hi Hui. unfold thread_at in Hi. cbn [s_threads] in Hi.
    destruct (decide (i = j)) as [->|Hne].
    + rewrite list_lookup_insert_eq in Hi by done. injection Hi as <-. rewrite Hui in Ho. by destruct Ho.
    + rewrite list_lookup_insert_ne in Hi by done. pose proof (total_pos is_owner _ _ _ Hi) as Pi.
      assert (is_owner u + is_owner t ≤ total is_owner ts)%nat as Hsum.
      { pose proof (total_insert is_owner _ j _ (mkThread Idle false 0 []) Hj) as T. cbn in T.
        assert (<[j := mkThread Idle false 0 []]> ts !! i = Some u) as Hi' by (by rewrite list_lookup_insert_ne).
        pose proof (total_pos is_owner _ _ _ Hi'). lia. }
      destruct (Nat.eqb_spec (is_owner t') 1) as [E|E].
      * destruct Ho as [_ Ho]. assert (is_owner t = 0)%nat as E0 by lia. specialize (Ho E0). lia.
      * destruct (Nat.eqb_spec (is_owner t) 1); [lia|]. rewrite Ho. by eapply mi_owner0.
  - intros H0. destruct (Nat.eqb_spec (is_owner t') 1); [lia|]. destruct (Nat.eqb_spec (is_owner t) 1); [done|].
    rewrite Ho. apply mi_no_owner0. lia.
  - rewrite Hu, mi_users0, uint32_small; [lia|].
    pose proof (total_le_length is_user (<[j := t']> ts) user_le_1) as Hl. rewrite length_insert in Hl. lia.
  - by apply Forall_insert.
  - by rewrite length_insert.
  - intros H0. destruct Ha as [Ha|[Ha|[Ha|[Ha|[[A1 A2] Ha]]]]]; [by left|right; lia|right; lia|lia|].
    destruct mi_wakes0 as [Hl|Hl]; [lia|left; auto|right; lia].
Qed.

(** ** Every step keeps it *)

Lemma advance_inv m ts j t m' t' : mutex_inv (mkSystem m ts) → ts !! j = Some t → advance (tid j) m t = Some (m', t') →
  mutex_inv (mkSystem m' (<[j := t']> ts)).
Proof.
  intros Hi Hj E. pose proof (mi_word _ Hi) as Hw. cbn [s_mutex] in Hw.
  assert (cond_ok t) as Hc by (eapply Forall_lookup_1; [exact (mi_places _ Hi)|exact Hj]).
  pose proof (mi_holder _ Hi) as Hh. cbn [s_mutex s_threads] in Hh.
  pose proof (total_pos holds_word _ _ _ Hj) as P1. pose proof (total_pos is_owner _ _ _ Hj) as P2.
  assert (holds_word t = 1%nat → __owner m = 0) as Hno.
  { intros H1. apply (mi_no_owner _ Hi). cbn. unfold locked in Hh. destruct (_ =? 0); lia. }
  assert (is_owner t = 1%nat → __owner m = tid j) as Hown by (by apply (mi_owner _ Hi)).
  assert (uint32 (__nusers m) = __nusers m) as Hu.
  { pose proof (mi_users _ Hi) as Hn. pose proof (mi_many _ Hi) as Hm. cbn [s_mutex s_threads] in *. rewrite Hn.
    pose proof (total_le_length is_user ts user_le_1) as Hl. apply uint32_small. lia. }
  assert (holds_word t + is_owner t ≤ locked (__lock m))%nat as Hk by lia. clear Hh P1 P2.
  destruct m as [w o u], t as [p c n cs]. cbn [__lock __owner __nusers] in *.
  unfold advance, assert_no_owner, record_owner, clear_owner, __lll_unlock, unlock_done in E.
  destruct Hw as [Hw|[Hw|Hw]]; subst w; destruct p; cbn in Hk; try (exfalso; lia);
    destruct c; cbn in E, Hc, Hno, Hown; try done;
    repeat case_match; simplify_eq; (eapply mutex_inv_change; [exact Hi|exact Hj|..]); cbn; try done.
  all: try (by left). all: try (by right; left). all: try lia.
  all: try (etrans; [symmetry; exact Hu|f_equal; lia]). all: try (f_equal; lia).
  all: split; [by apply Hown|lia].
Qed.

(** Changes that leave the mutex alone and do not make a thread hold it. *)
Lemma place_inv m ts j t p : mutex_inv (mkSystem m ts) → ts !! j = Some t → cond_ok (at_pc p t) →
  holds_word (at_pc p t) = holds_word t → is_owner (at_pc p t) = 0%nat → is_owner t = 0%nat →
  alert (at_pc p t) = 1%nat ∨ (alert t < total alert ts)%nat ∨ (total asleep ts = 0 ∧ asleep (at_pc p t) = 0)%nat →
  mutex_inv (mkSystem m (<[j := at_pc p t]> ts)).
Proof.
  intros Hi Hj Hc Hh Ho' Ho Ha. eapply mutex_inv_change; [exact Hi|exact Hj|exact Hc|exact (mi_word _ Hi)|lia| | |].
  - by rewrite Ho', Ho.
  - assert (is_user (at_pc p t) = is_user t) as -> by (unfold is_user; cbn [t_cond at_pc]; by destruct (t_cond t); rewrite ?Ho', ?Ho).
    pose proof (mi_users _ Hi) as Hu. pose proof (mi_many _ Hi) as Hn. cbn [s_mutex s_threads] in *.
    pose proof (total_le_length is_user ts user_le_1). rewrite uint32_small; lia.
  - destruct Ha as [Ha|[Ha|Ha]]; auto.
Qed.

Lemma woken_inv m ts k u : mutex_inv (mkSystem m ts) → ts !! k = Some u → t_pc u = Asleep →
  mutex_inv (mkSystem m (<[k := at_pc WaitXchg u]> ts)).
Proof.
  intros Hi Hk Hu. eapply place_inv; [done|done| | | | |by left]; unfold cond_ok, holds_word, is_owner; by rewrite ?Hu.
Qed.

Lemma unlock_done_cond t : t_pc t = FutexWake → cond_ok (unlock_done t).
Proof. unfold unlock_done, cond_ok, at_pc. by destruct (t_cond t) eqn:E; cbn. Qed.

Lemma mutex_move_inv s s' : mutex_inv s → mutex_move s s' → mutex_inv s'.
Proof.
  intros Hi Hm. destruct Hm as [m ts j t m' t' Hj E|m ts j t k u Hj Ht Hk Hu|m ts j t Hj Ht Hf].
  - by eapply advance_inv.
  - assert (j ≠ k) as Hne by (intros ->; congruence). rewrite list_insert_insert_ne by done.
    assert (<[k := at_pc WaitXchg u]> ts !! j = Some t) as Hj' by (by rewrite list_lookup_insert_ne).
    eapply place_inv; [by apply woken_inv|exact Hj'|by apply unlock_done_cond|..].
    1-3: unfold holds_word, is_owner; rewrite ?Ht; by destruct (t_cond t).
    right; left. pose proof (total_insert alert _ j _ (at_pc Idle t) Hj') as T.
    assert (<[j := at_pc Idle t]> (<[k := at_pc WaitXchg u]> ts) !! k = Some (at_pc WaitXchg u)) as Hk'.
    { rewrite list_lookup_insert_ne by done. apply list_lookup_insert_eq. by eapply lookup_lt_Some. }
    pose proof (total_pos alert _ _ _ Hk') as P. unfold alert at 1 in P. unfold alert at 4 in T. cbn in P, T. lia.
  - eapply place_inv; [done|exact Hj|by apply unlock_done_cond|..].
    1-3: unfold holds_word, is_owner; rewrite ?Ht; by destruct (t_cond t).
    right; right. split; [|unfold asleep; by destruct (t_cond t)].
    clear -Hf. induction Hf as [|u ts Hu Hf IH]; [done|]. cbn. rewrite IH. unfold asleep. by destruct (t_pc u).
Qed.

Lemma mutex_step_inv s s' : mutex_inv s → mutex_step s s' → mutex_inv s'.
Proof. intros Hi [Hm|Hm]; [by eapply mutex_move_inv|]. destruct Hm. by apply woken_inv. Qed.

Lemma start_total f programs : (∀ cs, f (mkThread Idle false 0 cs) = 0%nat) →
  total f (s_threads (start programs)) = 0%nat.
Proof. intros Hf. cbn. induction programs as [|cs l IH]; [done|]. cbn. by rewrite Hf, IH. Qed.

Lemma start_inv programs : Z.of_nat (length programs) < 2 ^ 32 → mutex_inv (start programs).
Proof.
  intros Hn. constructor; rewrite ?start_total by done; try done; cbn [s_mutex s_threads start __lock unlocked]; auto.
  - intros j t Hj Ht. unfold thread_at in Hj. cbn in Hj. rewrite list_lookup_fmap in Hj.
    destruct (programs !! j) as [cs|]; [|done]. injection Hj as <-. discriminate Ht.
  - apply Forall_forall. intros t (cs & -> & _)%list_elem_of_fmap. done.
  - by rewrite length_fmap.
Qed.

Lemma mutex_reachable_inv programs s : Z.of_nat (length programs) < 2 ^ 32 → rtc mutex_step (start programs) s → mutex_inv s.
Proof. intros Hn Hr. pose proof (start_inv programs Hn) as Hi. induction Hr; [done|]. eauto using mutex_step_inv. Qed.

(** ** The holder *)

(** A thread between taking and releasing the word. *)
Definition holding (t : thread) : Prop := (holds_word t + is_owner t = 1)%nat.
#[global] Instance holding_dec t : Decision (holding t).
Proof. unfold holding. apply _. Defined.

(** Which thread has the lock. *)
Definition lock_holder (s : system) : option nat := fst <$> list_find holding (s_threads s).

Lemma holding_le_1 t : (holds_word t + is_owner t ≤ 1)%nat.
Proof. unfold holds_word, is_owner. destruct (t_pc t); cbn; lia. Qed.

Lemma total_add {A} (f g : A → nat) l : total (λ x, f x + g x)%nat l = (total f l + total g l)%nat.
Proof. induction l as [|x l IH]; cbn; [done|]. rewrite IH. lia. Qed.

Lemma total_unique {A} (f : A → nat) l i j x y : (total f l ≤ 1)%nat → l !! i = Some x → l !! j = Some y →
  f x = 1%nat → f y = 1%nat → i = j.
Proof.
  revert i j. induction l as [|z l IH]; intros i j Ht Hi Hj Hx Hy; [done|]. cbn in Ht.
  destruct i as [|i], j as [|j]; cbn in Hi, Hj; [done|..]; simplify_eq.
  - pose proof (total_pos f _ _ _ Hj). lia.
  - pose proof (total_pos f _ _ _ Hi). lia.
  - f_equal. apply IH; [lia|done..].
Qed.

Lemma one_holder s i j t u : mutex_inv s → thread_at s i t → thread_at s j u → holding t → holding u → i = j.
Proof.
  intros Hi. apply (total_unique (λ t, holds_word t + is_owner t)%nat). rewrite total_add, (mi_holder _ Hi).
  unfold locked. destruct (_ =? 0); lia.
Qed.

Lemma lock_holder_Some s j t : mutex_inv s → thread_at s j t → holding t → lock_holder s = Some j.
Proof.
  intros Hi Hj Ht. unfold lock_holder. destruct (list_find_elem_of holding (s_threads s) t) as [[k u] E]; [by eapply list_elem_of_lookup_2|done|].
  rewrite E. apply list_find_Some in E as (Hk & Hu & _). cbn. f_equal. by eapply one_holder.
Qed.

Lemma lock_holder_None s : mutex_inv s → lock_holder s = None ↔ __lock (s_mutex s) = 0.
Proof.
  intros Hi. pose proof (mi_holder _ Hi) as Hh. unfold locked in Hh. rewrite <-total_add in Hh. split.
  - intros E. unfold lock_holder in E. apply fmap_None, list_find_None in E.
    destruct (Z.eqb_spec (__lock (s_mutex s)) 0); [done|].
    destruct (total_exists (λ t, holds_word t + is_owner t)%nat (s_threads s)) as (j & t & Hj & Ht); [rewrite Hh; lia|].
    eapply Forall_lookup_1 in E; [|exact Hj]. exfalso. apply E. unfold holding. pose proof (holding_le_1 t). lia.
  - intros E. rewrite E in Hh. cbn in Hh. unfold lock_holder. apply fmap_None, list_find_None.
    apply Forall_forall. intros t [j Hj]%list_elem_of_lookup_1 Ht.
    pose proof (total_pos (λ t, holds_word t + is_owner t)%nat _ _ _ Hj) as P. unfold holding in Ht. cbn beta in P. lia.
Qed.

(** ** The work left *)

(** How many steps a thread can still make among [n] threads, a wake-up of
    another one included; a thread before [lll_futex_wait] goes round once more if
    the word is not 2 any more. *)
Definition round (n : nat) : nat := 2 * n + 9.

Definition place_work (n : nat) (w : Z) (p : pc) : nat :=
  match p with
  | Idle | Aborted => 0
  | FutexWake => 3
  | Release => 2 * n + 5
  | Clear => 2 * n + 6
  | Critical => 2 * n + 7
  | SetOwner => 2 * n + 8
  | Assert => round n
  | Asleep => round n + 1
  | FutexWait => if w =? 2 then round n + 2 else round n + 4
  | WaitXchg => round n + 3
  | WaitRead => round n + 5
  | LockCas | CondXchg | TryCas => round n + 6
  | CondWait => round n + 7
  end.

(** Giving the mutex up for a condition, it will have to be taken once more. *)
Definition again_work (n : nat) (t : thread) : nat :=
  match t_pc t with
  | Clear | Release | FutexWake => if t_cond t then round n + 8 else 0
  | _ => 0
  end.

Definition call_work (n : nat) (c : call) : nat :=
  match c with Lock k | TryLock k => round n + 7 + k * (round n + 8) end.

Definition thread_work (n : nat) (w : Z) (t : thread) : nat :=
  place_work n w (t_pc t) + again_work n t + t_waits t * (round n + 8) + total (call_work n) (t_calls t).

Definition work (s : system) : nat :=
  total (thread_work (length (s_threads s)) (__lock (s_mutex s))) (s_threads s).

(** The change of the word costs at most two steps for each other thread. *)
Definition word_cost (n : nat) (w w' : Z) : nat := if (w =? 2) && negb (w' =? 2) then 2 * n else 0.

Lemma thread_work_word n w w' t : (thread_work n w' t ≤ thread_work n w t + word_cost 1 w w')%nat.
Proof.
  unfold word_cost, thread_work, place_work. destruct (t_pc t); try lia. destruct (w' =? 2), (w =? 2); cbn; lia.
Qed.

Lemma total_work_word n w w' ts :
  (total (thread_work n w') ts ≤ total (thread_work n w) ts + word_cost (length ts) w w')%nat.
Proof.
  induction ts as [|t ts IH]; cbn [sum_list_with length]; [lia|].
  pose proof (thread_work_word n w w' t). unfold word_cost in *. destruct (_ && _); lia.
Qed.

Lemma advance_work n id m t m' t' : advance id m t = Some (m', t') →
  (__lock m = 0 ∨ __lock m = 1 ∨ __lock m = 2) → cond_ok t → (holds_word t + is_owner t ≤ locked (__lock m))%nat →
  thread_work n (__lock m') t = thread_work n (__lock m) t ∧
  (thread_work n (__lock m') t' + word_cost n (__lock m) (__lock m') < thread_work n (__lock m) t)%nat.
Proof.
  destruct m as [w o u], t as [p c k cs]. intros E Hw Hc Hk. cbn [__lock] in *.
  unfold advance, assert_no_owner, record_owner, clear_owner, __lll_unlock, unlock_done in E.
  assert (round n = 2 * n + 9)%nat as Hr by done. set (v := (round n + 8)%nat). assert (v = 2 * n + 17)%nat as Hv by (unfold v; lia).
  destruct Hw as [Hw|[Hw|Hw]]; subst w; destruct p; cbn in Hk; try (exfalso; lia);
    destruct c; cbn in E, Hc; try done;
    repeat match type of E with context [match ?x with _ => _ end] => destruct x end; try discriminate E;
    injection E as <- <-; unfold thread_work, word_cost, again_work, at_pc, set_lock;
    cbn [t_pc t_cond t_waits t_calls place_work __lock sum_list_with call_work]; fold v;
    cbn [Z.eqb Pos.eqb negb andb]; rewrite ?Nat.mul_succ_l; (split; [reflexivity|]).
  all: lia.
Qed.

Lemma unlock_done_work n w t : t_pc t = FutexWake → (thread_work n w (unlock_done t) + 3 ≤ thread_work n w t)%nat.
Proof.
  intros Ht. unfold thread_work, again_work, unlock_done. rewrite Ht.
  destruct (t_cond t) eqn:Ec; cbn [at_pc t_pc t_waits t_calls place_work]; rewrite ?Ec; lia.
Qed.

Lemma move_work s s' : mutex_inv s → mutex_move s s' → (work s' < work s)%nat.
Proof.
  intros Hi Hm. unfold work. destruct Hm as [m ts j t m' t' Hj E|m ts j t k u Hj Ht Hk Hu|m ts j t Hj Ht Hf];
    cbn [s_threads s_mutex]; rewrite !length_insert; set (n := length ts).
  - pose proof (mi_holder _ Hi) as Hh. cbn [s_mutex s_threads] in Hh.
    pose proof (total_pos holds_word _ _ _ Hj) as P1. pose proof (total_pos is_owner _ _ _ Hj) as P2.
    destruct (advance_work n _ _ _ _ _ E (mi_word _ Hi)) as [E1 E2]; [|lia|].
    { eapply Forall_lookup_1; [exact (mi_places _ Hi)|exact Hj]. }
    pose proof (total_insert (thread_work n (__lock m')) _ _ _ t' Hj) as T.
    pose proof (total_work_word n (__lock m) (__lock m') ts) as Hc. fold n in Hc. lia.
  - assert (j ≠ k) as Hne by (intros ->; congruence). set (f := thread_work n (__lock m)).
    pose proof (total_insert f _ _ _ (unlock_done t) Hj) as T1.
    assert (<[j := unlock_done t]> ts !! k = Some u) as Hk' by (by rewrite list_lookup_insert_ne).
    pose proof (total_insert f _ _ _ (at_pc WaitXchg u) Hk') as T2.
    assert (f (at_pc WaitXchg u) = f u + 2)%nat as E1 by (unfold f, thread_work, again_work; rewrite Hu; cbn [at_pc t_pc t_waits t_calls t_cond place_work]; lia).
    pose proof (unlock_done_work n (__lock m) t Ht) as E2. fold f in E2.
    lia.
  - set (f := thread_work n (__lock m)). pose proof (total_insert f _ _ _ (unlock_done t) Hj) as T1.
    pose proof (unlock_done_work n (__lock m) t Ht) as E2. fold f in E2.
    lia.
Qed.

(** ** The end *)

(** Every use is made, and the mutex is as it was. *)
Definition is_done (t : thread) : Prop := t_pc t = Idle ∧ t_calls t = [].
#[global] Instance is_done_dec t : Decision (is_done t).
Proof. unfold is_done. destruct (t_calls t); [|right; by intros [_ ?]]. destruct (decide (t_pc t = Idle)); [by left|right; by intros [? _]]. Defined.

Definition finished (s : system) : Prop := Forall is_done (s_threads s) ∧ s_mutex s = unlocked.

(** A thread that is not asleep and has something left to do can go on. *)
Lemma thread_moves s j t : mutex_inv s → thread_at s j t → t_pc t ≠ Asleep → ¬ is_done t → ∃ s', mutex_move s s'.
Proof.
  intros Hi Hj Ha Hd. destruct s as [m ts].
  assert (cond_ok t) as Hc by (eapply Forall_lookup_1; [exact (mi_places _ Hi)|exact Hj]).
  destruct (advance (tid j) m t) as [[m' t']|] eqn:E; [by eexists; eapply m_advance|].
  unfold advance, cond_ok, is_done in *. destruct (t_pc t) eqn:Ep; try discriminate E; try congruence; try contradiction.
  - destruct (t_calls t) as [|[]]; [by destruct Hd|discriminate E..].
  - destruct (t_waits t); discriminate E.
  - destruct (decide (Forall (λ u, t_pc u ≠ Asleep) ts)) as [Hf|Hf]; [by eexists; eapply m_wake_none|].
    apply not_Forall_Exists, Exists_exists in Hf as (u & [k Hk]%list_elem_of_lookup & Hu); [|apply _].
    eexists. eapply (m_wake m ts j t k u); [done..|]. by apply dec_stable.
Qed.

Lemma all_zero {A} (P : A → Prop) (f : A → nat) l : Forall P l → (∀ x, P x → f x = 0%nat) → total f l = 0%nat.
Proof. intros Hl Hf. induction Hl as [|x l Hx Hl IH]; [done|]. cbn. by rewrite Hf, IH. Qed.

(** A set of threads that is not finished can go on. *)
Lemma move_or_finished s : mutex_inv s → (∃ s', mutex_move s s') ∨ finished s.
Proof.
  intros Hi. set (P := λ t, t_pc t = Asleep ∨ is_done t).
  destruct (decide (Forall P (s_threads s))) as [Hst|Hst].
  2:{ left. apply not_Forall_Exists, Exists_exists in Hst as (t & [j Hj]%list_elem_of_lookup & Ht); [|apply _].
      eapply (thread_moves s j t); [done|done|by intros E; apply Ht; left|by intros E; apply Ht; right]. }
  right.
  assert (∀ f : thread → nat, (∀ t, t_pc t = Asleep ∨ t_pc t = Idle → f t = 0%nat) → total f (s_threads s) = 0%nat) as H0.
  { intros f Hf. eapply all_zero; [exact Hst|]. intros t [E|[E _]]; auto. }
  assert (total holds_word (s_threads s) = 0%nat) as Z1 by (apply H0; unfold holds_word; by intros t [-> | ->]).
  assert (total is_owner (s_threads s) = 0%nat) as Z2 by (apply H0; unfold is_owner; by intros t [-> | ->]).
  assert (total alert (s_threads s) = 0%nat) as Z3 by (apply H0; unfold alert; by intros t [-> | ->]).
  pose proof (mi_holder _ Hi) as Hh. rewrite Z1, Z2 in Hh. unfold locked in Hh.
  destruct (Z.eqb_spec (__lock (s_mutex s)) 0) as [Hw|Hw]; [|done].
  assert (Forall is_done (s_threads s)) as Hid.
  { apply Forall_lookup. intros j t Hj. destruct (Forall_lookup_1 _ _ _ _ Hst Hj) as [E|E]; [|done].
    destruct (mi_wakes _ Hi) as [Hp|Hp]; [|congruence|lia].
    pose proof (total_pos asleep _ _ _ Hj) as P1. unfold asleep at 1 in P1. rewrite E in P1. lia. }
  split; [done|]. pose proof (mi_no_owner _ Hi Z2) as Ho. pose proof (mi_users _ Hi) as Hu.
  rewrite (all_zero (λ t, is_done t ∧ cond_ok t)) in Hu.
  - destruct (s_mutex s) as [w o u]. cbn in Hw, Ho, Hu. by subst.
  - apply Forall_and. split; [done|exact (mi_places _ Hi)].
  - intros t [[E _] Hc]. unfold cond_ok in Hc. rewrite E in Hc. unfold is_user, is_owner. by rewrite Hc, E.
Qed.

Lemma moves_work k s s' : mutex_inv s → nsteps mutex_move k s s' → (k + work s' ≤ work s)%nat.
Proof.
  intros Hi Hk. revert Hi. induction Hk as [s|k s s1 s' Hm Hk IH]; intros Hi; [lia|].
  pose proof (move_work _ _ Hi Hm). specialize (IH (mutex_move_inv _ _ Hi Hm)). lia.
Qed.

Lemma moves_finish s : mutex_inv s → ∃ s', rtc mutex_move s s' ∧ finished s'.
Proof.
  remember (work s) as n eqn:En. revert s En. induction n as [n IH] using lt_wf_ind. intros s -> Hi.
  destruct (move_or_finished s Hi) as [[s1 Hm]|Hf]; [|by exists s].
  destruct (IH (work s1) (move_work _ _ Hi Hm) s1 eq_refl (mutex_move_inv _ _ Hi Hm)) as (s' & Hr & Hf). exists s'. split; [by eapply rtc_l|done].
Qed.

(** ** Theorems *)

(** C7: In every reachable state, wake-ups for no reason included: at most one
    thread is between taking the lock and releasing it; a thread in its critical
    section is the recorded owner; the assertion that there is no owner never
    fails; [__nusers] counts the threads that have the mutex or will take it back
    after a condition wait; and when a thread sleeps, the word says so or some
    thread is about to look at it again or to wake one. *)
Theorem mutex_safe programs s : Z.of_nat (length programs) < 2 ^ 32 → rtc mutex_step (start programs) s →
  (∀ i j t u, thread_at s i t → thread_at s j u → holding t → holding u → i = j) ∧
  (∀ j t, thread_at s j t → t_pc t ≠ Aborted ∧
    (t_pc t = Critical → __lock (s_mutex s) ≠ 0 ∧ __owner (s_mutex s) = tid j)) ∧
  __nusers (s_mutex s) = Z.of_nat (total is_user (s_threads s)) ∧
  (∀ j t, thread_at s j t → t_pc t = Asleep → __lock (s_mutex s) = 2 ∨
    ∃ i u, thread_at s i u ∧ (t_pc u = WaitXchg ∨ t_pc u = FutexWake)).
Proof.
  intros Hn Hr. pose proof (mutex_reachable_inv _ _ Hn Hr) as Hi. split_and!.
  - intros i j t u. by apply one_holder.
  - intros j t Hj. split.
    + intros E. pose proof (Forall_lookup_1 _ _ _ _ (mi_places _ Hi) Hj) as Hc. unfold cond_ok in Hc. by rewrite E in Hc.
    + intros E. assert (is_owner t = 1%nat) as Ho by (unfold is_owner; by rewrite E). split; [|by eapply (mi_owner _ Hi)].
      intros H0. apply (lock_holder_None s Hi) in H0.
      rewrite (lock_holder_Some s j t Hi Hj) in H0; [done|]. unfold holding, holds_word. rewrite Ho, E. done.
  - exact (mi_users _ Hi).
  - intros j t Hj E. destruct (mi_wakes _ Hi) as [Hw|Hw]; [|by left|].
    + pose proof (total_pos asleep _ _ _ Hj) as P. unfold asleep at 1 in P. rewrite E in P. lia.
    + right. apply total_exists in Hw as (i & u & Hu & Ha). exists i, u. split; [done|].
      unfold alert in Ha. destruct (t_pc u); try lia; auto.
Qed.

(** C6: No wake-up is lost: from every reachable state the threads make at most
    [work s] further steps (not counting wake-ups for no reason and what they lead
    to), they stop only when each has made all its uses of the mutex and it is
    free again, and this state is reached. *)
Theorem mutex_terminates programs s : Z.of_nat (length programs) < 2 ^ 32 → rtc mutex_step (start programs) s →
  (∀ k s', nsteps mutex_move k s s' → (k ≤ work s)%nat) ∧
  (∀ s', rtc mutex_move s s' → (∀ s'', ¬ mutex_move s' s'') → finished s') ∧
  ∃ s', rtc mutex_move s s' ∧ finished s'.
Proof.
  intros Hn Hr. pose proof (mutex_reachable_inv _ _ Hn Hr) as Hi. clear Hr. split_and!.
  - intros k s' Hk. pose proof (moves_work _ _ _ Hi Hk). lia.
  - intros s' Hs Hstop. assert (mutex_inv s') as Hi' by (clear Hstop; induction Hs; eauto using mutex_move_inv).
    destruct (move_or_finished s' Hi') as [[s'' Hm]|Hf]; [by destruct (Hstop s'')|done].
  - by apply moves_finish.
Qed.

(** The word 1 does not mean that nobody waits: between the release of a lock that
    is waited for and the wake-up, another thread can take it with the word 1
    while a thread still sleeps. *)
Theorem word_one_with_sleeper : ∃ s j t, rtc mutex_step (start [[Lock 0]; [Lock 0]; [Lock 0]]) s ∧
  __lock (s_mutex s) = 1 ∧ thread_at s j t ∧ t_pc t = Asleep.
Proof.
  exists (mkSystem (mkMutex 1 0 0)
    [mkThread FutexWake false 0 []; mkThread Asleep false 0 []; mkThread Assert false 0 []]), 1%nat, (mkThread Asleep false 0 []).
  split; [|done].
  do 4 (eapply rtc_l; [left; eapply (m_advance _ _ 0); reflexivity|]).
  do 5 (eapply rtc_l; [left; eapply (m_advance _ _ 1); reflexivity|]).
  do 3 (eapply rtc_l; [left; eapply (m_advance _ _ 0); reflexivity|]).
  do 2 (eapply rtc_l; [left; eapply (m_advance _ _ 2); reflexivity|]).
  apply rtc_refl.
Qed.

(** ** Witnesses *)

(** Two threads contend: the first locks, the second finds the word 1, sets it to
    2 and sleeps. *)
Definition two_threads : list (list call) := [[Lock 1]; [Lock 0; TryLock 0]].

Definition contended : system :=
  mkSystem (mkMutex 2 1 1)
    [mkThread Critical false 1 []; mkThread Asleep false 0 [TryLock 0]].

Lemma contended_reachable : rtc mutex_step (start two_threads) contended.
Proof.
  do 4 (eapply rtc_l; [left; eapply (m_advance _ _ 0); reflexivity|]).
  do 5 (eapply rtc_l; [left; eapply (m_advance _ _ 1); reflexivity|]).
  apply rtc_refl.
Qed.

Lemma mutex_safe_witness : __lock (s_mutex contended) = 2 ∧ __owner (s_mutex contended) = 1 ∧
  ∃ t, thread_at contended 1 t ∧ t_pc t = Asleep.
Proof.
  destruct (mutex_safe two_threads contended) as (_ & H1 & _ & H2); [reflexivity|apply contended_reachable|].
  split; [destruct (H2 1%nat _ eq_refl eq_refl) as [E|_]; reflexivity|]. split; [|eexists; split; reflexivity].
  destruct (H1 0%nat _ eq_refl) as [_ Hc]. exact (proj2 (Hc eq_refl)).
Defined.

Lemma mutex_terminates_witness : ∃ s', rtc mutex_move contended s' ∧ finished s'.
Proof.
  destruct (mutex_terminates two_threads contended) as (_ & _ & H); [reflexivity|apply contended_reachable|]. exact H.
Defined.
