(* ===== verification/HandOver.v ===== *)
(** * util.c: the mutex that changes hands

    [distribute_run] locks [mute] in the main thread (util.c:233) and each client
    thread unlocks it (util.c:310), a use that glibc's default mutex permits
    because its unlock does not look at the owner.  [ClientThreads] verifies the
    threads with a flag for the mutex; here the same threads run on the mutex
    itself: the calls of [pthread_mutex_lock] and [pthread_mutex_unlock] are the
    steps of [Mutex] on the word, the owner and the user count, with sleeping and
    waking in the kernel, and they interleave with everything else.

    The theorems: every step of these threads is a step of [ClientThreads] or
    changes nothing there, so that the flag is a correct account of the mutex and
    all that is proved with it holds of the futex protocol; the assertion on the
    owner holds although the owner does not unlock; and no wake-up is lost between
    main thread and client threads, so that they come to their end. *)

From S2P Require Import Prelude CString Machine ConfigFile Log DataHeader RecordData Inet MSort ScanDir Playback Distribute.
From S2P Require Import ClientThreads Mutex.

(** ** The threads on the mutex *)

(** The shared state and the threads; the main thread is thread 0 of the mutex,
    client thread [j] is thread [j + 1]. *)
Record fine := mkFine {
  f_mutex : mutex;                      (* mute *)
  f_main : mstate;                      (* main, as in ClientThreads ... *)
  f_place : pc;                         (* ... and its place in pthread_mutex_lock *)
  f_index : Z;                          (* thread_param.clientIndex *)
  f_threads : list (tstate * pc);       (* clients, and places in pthread_mutex_unlock *)
  f_world : World;
}.

(** A thread inside a call of the mutex functions, for [advance]. *)
Definition calling (p : pc) : thread := mkThread p false 0 [].

(** Places of [pthread_mutex_lock] at which a step is the main thread's own. *)
Definition lock_place (p : pc) : Prop := p ∈ [LockCas; WaitRead; FutexWait; WaitXchg; Assert; SetOwner].

Section Fine.
Context `{Env, !Logger} (segs : list segment) (n : nat).

Inductive fine_step : fine → fine → Prop :=
(* main: pthread_mutex_lock (&mute) *)
| f_call_lock m i idx ts w : (i < n)%nat →
    fine_step (mkFine m (MLock i) Idle idx ts w) (mkFine m (MLock i) LockCas idx ts w)
| f_lock m i p idx ts w m' t' : lock_place p → advance (tid 0) m (calling p) = Some (m', t') →
    fine_step (mkFine m (MLock i) p idx ts w) (mkFine m' (MLock i) (t_pc t') idx ts w)
| f_locked m i idx ts w :
    fine_step (mkFine m (MLock i) Critical idx ts w) (mkFine m (MWrite i) Idle idx ts w)
(* main: the rest of the two loops *)
| f_write m i p idx ts w :
    fine_step (mkFine m (MWrite i) p idx ts w) (mkFine m (MCreate i) p (Z.of_nat i + 1) ts w)
| f_create m i p idx ts w b w' : create_thread w = Ret b w' →
    fine_step (mkFine m (MCreate i) p idx ts w)
      (mkFine m (MLock (S i)) p idx (ts ++ [(if b then TRun 0 0 else TNone, Idle)]) w')
| f_loop_end m idx ts w :
    fine_step (mkFine m (MLock n) Idle idx ts w) (mkFine m (MJoin 0) Idle idx ts w)
| f_join m i p idx ts w : fst <$> ts !! i = Some TExited →
    fine_step (mkFine m (MJoin i) p idx ts w) (mkFine m (MJoin (S i)) p idx ts w)
| f_join_end m p idx ts w :
    fine_step (mkFine m (MJoin n) p idx ts w) (mkFine m MEnd p idx ts w)
(* client thread j: the body *)
| f_segment m mn p idx ts w j k fd (s : segment) fd' w' :
    ts !! j = Some (TRun k fd, Idle) → segs !! k = Some s → s fd idx w = Ret fd' w' →
    fine_step (mkFine m mn p idx ts w) (mkFine m mn p idx (<[j := (TRun (S k) fd', Idle)]> ts) w')
(* client thread j: pthread_mutex_unlock (&mute); the exchange gives the mutex up *)
| f_call_unlock m mn p idx ts w j fd : ts !! j = Some (TRun (length segs) fd, Idle) →
    fine_step (mkFine m mn p idx ts w) (mkFine m mn p idx (<[j := (TRun (length segs) fd, Clear)]> ts) w)
| f_clear m mn p idx ts w j st m' t' : ts !! j = Some (st, Clear) →
    advance (tid (S j)) m (calling Clear) = Some (m', t') →
    fine_step (mkFine m mn p idx ts w) (mkFine m' mn p idx (<[j := (st, t_pc t')]> ts) w)
| f_release m mn p idx ts w j st m' t' : ts !! j = Some (st, Release) →
    advance (tid (S j)) m (calling Release) = Some (m', t') →
    fine_step (mkFine m mn p idx ts w) (mkFine m' mn p idx (<[j := (TUnlocked, t_pc t')]> ts) w)
(* client thread j: the wake-up, for which only the main thread can be waiting *)
| f_wake m mn idx ts w j st : ts !! j = Some (st, FutexWake) →
    fine_step (mkFine m mn Asleep idx ts w) (mkFine m mn WaitXchg idx (<[j := (st, Idle)]> ts) w)
| f_wake_none m mn p idx ts w j st : ts !! j = Some (st, FutexWake) → p ≠ Asleep →
    fine_step (mkFine m mn p idx ts w) (mkFine m mn p idx (<[j := (st, Idle)]> ts) w)
| f_return m mn p idx ts w j : ts !! j = Some (TUnlocked, Idle) →
    fine_step (mkFine m mn p idx ts w) (mkFine m mn p idx (<[j := (TExited, Idle)]> ts) w).

(** The main thread wakes for no reason. *)
Inductive fine_spurious : fine → fine → Prop :=
| f_spurious m mn idx ts w : fine_spurious (mkFine m mn Asleep idx ts w) (mkFine m mn WaitXchg idx ts w).

Definition fine_move (f f' : fine) : Prop := fine_step f f' ∨ fine_spurious f f'.

(** Right after [pthread_mutex_init]. *)
Definition fine_initial (idx : Z) (w : World) : fine := mkFine unlocked (MLock 0) Idle idx [] w.
Definition fine_reachable (idx : Z) (w : World) (f : fine) : Prop := rtc fine_move (fine_initial idx w) f.

End Fine.

(** ** What [ClientThreads] sees of it *)

(** The main thread has the mutex from the exchange on that took it. *)
Definition has_word (p : pc) : bool := match p with Assert | SetOwner | Critical => true | _ => false end.

Definition main_seen (mn : mstate) (p : pc) : mstate :=
  match mn with MLock i => if has_word p then MWrite i else MLock i | _ => mn end.

Definition held (m : mutex) : bool := negb (__lock m =? 0).

Definition seen (f : fine) : config :=
  mkConfig (main_seen (f_main f) (f_place f)) (held (f_mutex f)) (f_index f) (fst <$> f_threads f) (f_world f).

(** ** The invariant *)

Definition place_ok (mn : mstate) (p : pc) : Prop :=
  match mn with
  | MLock _ => p ∈ [Idle; LockCas; WaitRead; FutexWait; Asleep; WaitXchg; Assert; SetOwner; Critical]
  | _ => p = Idle
  end.

Section Invariant.
Context `{Env, !Logger} (heap : heap_policy) (tail : list Z) (fuel : nat) (buf : list Z).
Context (threads_ok : ∀ n, env_pthread_create n = 0).
Context (n : nat) (idx0 : Z) (w0 : World).

Abbreviation segs := (client_segments heap tail fuel buf).

Definition client_ok (x : tstate * pc) : Prop :=
  match x with
  | (TRun k _, p) => p = Idle ∨ k = length segs ∧ (p = Clear ∨ p = Release)
  | (TUnlocked, p) => p = Idle ∨ p = FutexWake
  | (_, p) => p = Idle
  end.

(** The client thread has the mutex, with and without the recorded owner. *)
Definition client_records (x : tstate * pc) : bool :=
  match x with (TRun _ _, Idle) | (TRun _ _, Clear) => true | _ => false end.
Definition client_holds (x : tstate * pc) : bool := match x with (TRun _ _, _) => true | _ => false end.

Definition main_records (mn : mstate) (p : pc) : bool :=
  match mn, p with MWrite _, _ | MCreate _, _ | MLock _, Critical => true | _, _ => false end.
Definition main_holds (mn : mstate) (p : pc) : bool :=
  match main_seen mn p with MWrite _ | MCreate _ => true | _ => false end.

Definition recorded (f : fine) : bool := main_records (f_main f) (f_place f) || existsb client_records (f_threads f).
Definition holder (f : fine) : bool := main_holds (f_main f) (f_place f) || existsb client_holds (f_threads f).

Record fine_inv (f : fine) : Prop := {
  fi_seen : reachable segs n idx0 w0 (seen f);
  fi_word : __lock (f_mutex f) = 0 ∨ __lock (f_mutex f) = 1 ∨ __lock (f_mutex f) = 2;
  fi_held : held (f_mutex f) = holder f;
  fi_owner : __owner (f_mutex f) = if recorded f then tid 0 else 0;
  fi_users : __nusers (f_mutex f) = Z.b2z (recorded f);
  fi_place : place_ok (f_main f) (f_place f);
  fi_round : ∀ i, f_main f = MLock i → f_place f ≠ Idle → (i < n)%nat;
  fi_clients : Forall client_ok (f_threads f);
  fi_wakes : f_place f = Asleep → __lock (f_mutex f) = 2 ∨ ∃ j st, f_threads f !! j = Some (st, FutexWake);
}.

(** The two shapes of a reachable state: nobody is in a client's body, or the last
    client started is, and main waits. *)
Lemma fine_cases f : fine_inv f →
  (Forall (λ x, ClientThreads.finished x.1) (f_threads f) ∧
   main_idle n (length (f_threads f)) (main_seen (f_main f) (f_place f)) (held (f_mutex f)) (f_index f) ∧
   (length (f_threads f) ≤ n)%nat) ∨
  (∃ ts k fd p, f_threads f = ts ++ [(TRun k fd, p)] ∧ Forall (λ x, ClientThreads.finished x.1) ts ∧ (k ≤ length segs)%nat ∧
   main_waits n (length ts) (main_seen (f_main f) (f_place f)) ∧ held (f_mutex f) = true).
Proof.
  intros Hi. pose proof (inv_reachable heap tail fuel buf threads_ok n w0 idx0 _ (fi_seen f Hi)) as Hc.
  remember (seen f) as c eqn:Ec. unfold seen in Ec.
  destruct Hc as [m h idx ts w Hd Hf Hn Hm|k fd m ts w Hp Hf Hn Hk Hm]; injection Ec as Em Eh Ei Et Ew; subst.
  - left. split; [rewrite Forall_fmap in Hf; exact Hf|]. rewrite length_fmap in Hm, Hn. by split.
  - right. symmetry in Et. apply fmap_app_inv in Et as (ts1 & ts2 & -> & E & Et).
    symmetry in E. apply fmap_cons_inv in E as ([st p] & ts3 & E1 & E2 & ->). cbn in E1. subst st.
    symmetry in E2. apply fmap_nil_inv in E2 as ->. exists ts1, k, fd, p. rewrite length_fmap in Hm.
    split; [done|]. split; [rewrite Forall_fmap in Hf; exact Hf|]. done.
Qed.

(** The client thread that is in its body is the last one, and it has the mutex. *)
Lemma run_last f j k fd p : fine_inv f → f_threads f !! j = Some (TRun k fd, p) →
  ∃ ts, f_threads f = ts ++ [(TRun k fd, p)] ∧ j = length ts ∧ Forall (λ x, ClientThreads.finished x.1) ts ∧
    main_waits n (length ts) (main_seen (f_main f) (f_place f)) ∧ held (f_mutex f) = true.
Proof.
  intros Hi Hj. destruct (fine_cases f Hi) as [[Hf _]|(ts & k' & fd' & p' & E & Hf & _ & Hm & Hh)].
  - eapply Forall_lookup_1 in Hf; [|exact Hj]. by destruct Hf.
  - rewrite E in Hj. apply lookup_app_Some in Hj as [Hj|[Hl Hj]].
    + eapply Forall_lookup_1 in Hf; [|exact Hj]. by destruct Hf.
    + apply list_lookup_singleton_Some in Hj as [Hj [= -> -> ->]]. exists ts. split_and!; try done. lia.
Qed.

Lemma waits_free i mn p : main_waits n i (main_seen mn p) → main_holds mn p = false ∧ main_records mn p = false.
Proof.
  intros Hm. unfold main_holds. split; [by inversion Hm|]. unfold main_seen in Hm.
  destruct mn, p; cbn in *; try done; by inversion Hm.
Qed.

Lemma finished_free ts : Forall (λ x, ClientThreads.finished x.1) ts →
  existsb client_holds ts = false ∧ existsb client_records ts = false.
Proof.
  induction 1 as [|[st p] ts Hx _ [IH1 IH2]]; [done|]. cbn [existsb]. rewrite IH1, IH2.
  by destruct Hx as [Hx|Hx]; cbn in Hx; subst st.
Qed.

Lemma client_records_holds x : client_records x = true → client_holds x = true.
Proof. by destruct x as [[] []]. Qed.
Lemma main_records_holds mn p : main_records mn p = true → main_holds mn p = true.
Proof. by destruct mn, p. Qed.

Lemma existsb_insert {A} (P : A → bool) l j x y : l !! j = Some x → P y = P x → existsb P (<[j := y]> l) = existsb P l.
Proof.
  revert j. induction l as [|z l IH]; intros [|j] Hj E; [done|done|..].
  - injection Hj as ->. cbn. by rewrite E.
  - change (P z || existsb P (<[j := y]> l) = P z || existsb P l). f_equal. by apply IH.
Qed.

(** A free mutex has no owner. *)
Lemma free_unrecorded f : fine_inv f → holder f = false → recorded f = false.
Proof.
  intros Hi. unfold holder, recorded. rewrite !orb_false_iff. intros [H1 H2]. split.
  - destruct (main_records _ _) eqn:E; [|done]. apply main_records_holds in E. congruence.
  - clear H1. induction (f_threads f) as [|x l IH]; [done|]. cbn [existsb] in *. apply orb_false_iff in H2 as [H2 H3].
    rewrite IH, orb_false_r by done. destruct (client_records x) eqn:E; [|done]. apply client_records_holds in E. congruence.
Qed.

(** The steps of the mutex the main thread takes. *)
Lemma lock_advance m p m' t' : lock_place p → advance (tid 0) m (calling p) = Some (m', t') →
  (__lock m = 0 ∨ __lock m = 1 ∨ __lock m = 2) → (has_word p = true → __lock m ≠ 0) → (p = Assert → __owner m = 0) →
  (p = SetOwner → __nusers m = 0) →
  let q := t_pc t' in
  (__lock m' = 0 ∨ __lock m' = 1 ∨ __lock m' = 2) ∧ q ∈ [WaitRead; FutexWait; Asleep; WaitXchg; Assert; SetOwner; Critical] ∧
  (if has_word q then held m' = true ∧ (has_word p = true ∨ held m = false) else held m' = held m ∧ has_word p = false) ∧
  (q = Critical → __owner m' = tid 0 ∧ __nusers m' = 1) ∧
  (q ≠ Critical → __owner m' = __owner m ∧ __nusers m' = __nusers m) ∧ (q = Asleep → __lock m' = 2).
Proof.
  intros Hp E Hw Hh Ho Hu. unfold lock_place in Hp. destruct m as [w o u]. unfold advance, calling in E. cbn [t_pc __lock __owner __nusers] in *.
  unfold held. set_unfold in Hp.
  destruct Hp as [->|[->|[->|[->|[->|[->|[]]]]]]]; cbn in E; unfold assert_no_owner, record_owner in E; cbn in E;
    rewrite ?Ho, ?Hu in E by done;
    destruct Hw as [->|[->| ->]]; cbn in E; try (by destruct (Hh eq_refl)); injection E as <- <-; cbn; split_and!; try done; auto;
    try set_solver.
Qed.

(** ** Every step keeps it, and is a step of [ClientThreads] or none *)

Definition simulates (f f' : fine) : Prop := seen f' = seen f ∨ step segs n (seen f) (seen f').

Lemma simulates_reachable f f' : fine_inv f → simulates f f' → reachable segs n idx0 w0 (seen f').
Proof. intros Hi [E|Hs]; [rewrite E; apply Hi|]. eapply rtc_r; [apply Hi|exact Hs]. Qed.

(** The main thread takes a step of the lock. *)
Lemma lock_keeps m i p idx ts w m' t' : let f := mkFine m (MLock i) p idx ts w in
  let f' := mkFine m' (MLock i) (t_pc t') idx ts w in
  fine_inv f → lock_place p → advance (tid 0) m (calling p) = Some (m', t') → simulates f f' ∧ fine_inv f'.
Proof.
  intros f f' Hi Hp E.
  assert (p ≠ Idle ∧ p ≠ Critical) as [Hp0 Hpc] by (unfold lock_place in Hp; split; intros ->; set_solver).
  assert (has_word p = true → held m = true ∧ existsb client_records ts = false) as Hhas.
  { intros Hh. split.
    - etrans; [exact (fi_held f Hi)|]. unfold holder, main_holds. cbn. by rewrite Hh.
    - destruct (fine_cases f Hi) as [[Hf _]|(? & ? & ? & ? & ? & ? & ? & Hm & _)]; [by apply finished_free|].
      cbn in Hm. rewrite Hh in Hm. inversion Hm. }
  assert (recorded f = existsb client_records ts) as Hrec by (unfold recorded; cbn; by destruct p).
  pose proof (fi_owner f Hi) as Ho. pose proof (fi_users f Hi) as Hu. rewrite Hrec in Ho, Hu. cbn [f_mutex f] in Ho, Hu.
  destruct (lock_advance m p m' t' Hp E (fi_word f Hi)) as (Hw & Hq & Hh & Hc & Hnc & Ha).
  { intros Hh. destruct (Hhas Hh) as [Hm _]. unfold held in Hm. by destruct (Z.eqb_spec (__lock m) 0). }
  { intros ->. by destruct Hhas as [_ E0]; [|rewrite E0 in Ho]. }
  { intros ->. by destruct Hhas as [_ E0]; [|rewrite E0 in Hu]. }
  set (q := t_pc t') in *.
  assert (simulates f f') as Hsim.
  { unfold simulates, seen, f, f'. cbn. destruct (has_word q) eqn:Eq.
    - destruct Hh as [-> Hh]. destruct (has_word p) eqn:Ep; [left; by destruct Hhas as [-> _]|].
      right. destruct Hh as [|Hh]; [done|]. rewrite Hh. apply s_lock. by eapply (fi_round f Hi).
    - destruct Hh as [-> Hh]. rewrite Hh. by left. }
  split; [done|]. constructor; cbn [f_mutex f_main f_place f_threads f f'].
  - by apply (simulates_reachable f).
  - done.
  - unfold holder, main_holds. cbn. pose proof (fi_held f Hi) as Hf. unfold holder, main_holds in Hf. cbn in Hf.
    destruct (has_word q); [by destruct Hh as [-> _]|]. destruct Hh as [-> Hh]. by rewrite Hh in Hf.
  - unfold recorded. cbn. destruct (decide (q = Critical)) as [Eq|Eq]; [rewrite Eq; by apply Hc|].
    destruct (Hnc Eq) as [-> _]. rewrite Ho. by destruct q.
  - unfold recorded. cbn. destruct (decide (q = Critical)) as [Eq|Eq]; [rewrite Eq; by apply Hc|].
    destruct (Hnc Eq) as [_ ->]. rewrite Hu. by destruct q.
  - cbn. clear -Hq. set_solver.
  - intros i' [= <-] _. by eapply (fi_round f Hi).
  - apply Hi.
  - intros Eq. left. by apply Ha.
Qed.

(** A change of one client thread that leaves the mutex and its holder alone. *)
Lemma client_keeps m mn p idx ts w j x y w' : let f := mkFine m mn p idx ts w in
  let f' := mkFine m mn p idx (<[j := y]> ts) w' in
  fine_inv f → ts !! j = Some x → simulates f f' → client_ok y → client_records y = client_records x →
  client_holds y = client_holds x → (x.2 = FutexWake → p ≠ Asleep) → fine_inv f'.
Proof.
  intros f f' Hi Hj Hs Hy Hr Hh Hw. constructor; cbn [f_mutex f_main f_place f_threads f f']; try apply Hi.
  - by apply (simulates_reachable f).
  - unfold holder. cbn. rewrite (existsb_insert _ _ _ _ _ Hj Hh). apply Hi.
  - unfold recorded. cbn. rewrite (existsb_insert _ _ _ _ _ Hj Hr). apply Hi.
  - unfold recorded. cbn. rewrite (existsb_insert _ _ _ _ _ Hj Hr). apply Hi.
  - apply Forall_insert; [apply Hi|done].
  - intros Ep. destruct (fi_wakes f Hi Ep) as [Hl|(i & st & Ei)]; [by left|right]. cbn in Ei. exists i, st.
    rewrite list_lookup_insert_ne; [done|]. intros <-. rewrite Hj in Ei. injection Ei as ->. by apply Hw.
Qed.

Lemma seen_client m mn p idx ts j st st' q q' w' : ts !! j = Some (st, q) →
  seen (mkFine m mn p idx (<[j := (st', q')]> ts) w') =
  mkConfig (main_seen mn p) (held m) idx (<[j := st']> (fst <$> ts)) w'.
Proof. intros Hj. unfold seen. cbn. by rewrite list_fmap_insert. Qed.

Lemma seen_same m mn p idx ts w j st q q' : ts !! j = Some (st, q) →
  seen (mkFine m mn p idx (<[j := (st, q')]> ts) w) = seen (mkFine m mn p idx ts w).
Proof. intros Hj. unfold seen. cbn. rewrite list_fmap_insert. cbn. rewrite list_insert_id; [done|]. by rewrite list_lookup_fmap, Hj. Qed.

Lemma client_at_place f j st p : fine_inv f → f_threads f !! j = Some (st, p) → client_ok (st, p).
Proof. intros Hi Hj. exact (Forall_lookup_1 _ _ _ _ (fi_clients f Hi) Hj). Qed.

(** A client thread unlocks: before the exchange ... *)
Lemma clear_keeps m mn p idx ts w j st m' t' : let f := mkFine m mn p idx ts w in
  let f' := mkFine m' mn p idx (<[j := (st, t_pc t')]> ts) w in
  fine_inv f → ts !! j = Some (st, Clear) → advance (tid (S j)) m (calling Clear) = Some (m', t') →
  simulates f f' ∧ fine_inv f'.
Proof.
  intros f f' Hi Hj E. destruct m as [l o u]. injection E as <- <-. cbn [at_pc t_pc] in *.
  pose proof (client_at_place f j st Clear Hi Hj) as Hc. destruct st as [k fd| | |]; [|by destruct Hc|done..].
  destruct (run_last f j k fd Clear Hi Hj) as (ts1 & Ets & -> & Hf & Hm & Hh). cbn in Ets, Hm.
  destruct (waits_free _ _ _ Hm) as [_ Hmr]. destruct (finished_free ts1 Hf) as [_ Hcr].
  assert (simulates f f') as Hs.
  { left. unfold f', f. rewrite (seen_same _ _ _ _ _ _ _ _ _ _ Hj). done. }
  assert (recorded f = true) as Hr by (unfold recorded; cbn; rewrite Ets, existsb_app; cbn; by rewrite !orb_true_r).
  assert (recorded f' = false) as Hr'.
  { unfold recorded. cbn. rewrite Hmr, Ets. rewrite insert_app_r_alt, Nat.sub_diag by done. cbn.
    rewrite existsb_app, Hcr. done. }
  split; [done|]. constructor; try rewrite Hr'; cbn [f_mutex f_main f_place f_threads f f' __lock __owner __nusers]; try apply Hi.
  - by apply (simulates_reachable f).
  - etrans; [exact (fi_held f Hi)|]. unfold holder. cbn. f_equal. symmetry. by apply (existsb_insert _ _ _ (TRun k fd, Clear)).
  - done.
  - pose proof (fi_users f Hi) as Hu. rewrite Hr in Hu. cbn in Hu. by rewrite Hu.
  - apply Forall_insert; [apply Hi|]. cbn. destruct Hc as [?|[Hc _]]; [done|]. right. auto.
  - intros Ep. destruct (fi_wakes f Hi Ep) as [Hl|(i & st & Ei)]; [by left|right]. cbn in Ei. exists i, st.
    rewrite list_lookup_insert_ne; [done|]. intros <-. congruence.
Qed.

(** ... and the exchange, which gives the mutex up. *)
Lemma release_keeps m mn p idx ts w j st m' t' : let f := mkFine m mn p idx ts w in
  let f' := mkFine m' mn p idx (<[j := (TUnlocked, t_pc t')]> ts) w in
  fine_inv f → ts !! j = Some (st, Release) → advance (tid (S j)) m (calling Release) = Some (m', t') →
  simulates f f' ∧ fine_inv f'.
Proof.
  intros f f' Hi Hj E. destruct m as [l o u]. cbn in E. injection E as <- <-.
  pose proof (client_at_place f j st Release Hi Hj) as Hc. destruct st as [k fd| | |]; [|by destruct Hc|done..].
  destruct Hc as [Hc|[-> _]]; [done|].
  destruct (run_last f j _ fd Release Hi Hj) as (ts1 & Ets & -> & Hf & Hm & Hh). cbn in Ets, Hm, Hh.
  destruct (waits_free _ _ _ Hm) as [Hmh Hmr]. destruct (finished_free ts1 Hf) as [Hch Hcr].
  set (q := t_pc (if 1 <? l then _ else _)) in *.
  assert (q = if 1 <? l then FutexWake else Idle) as Hq by (unfold q; by destruct (1 <? l)).
  assert (simulates f f') as Hs.
  { right. unfold f', f. rewrite (seen_client _ _ _ _ _ _ _ _ _ _ _ Hj). unfold seen. cbn. eapply s_unlock.
    by rewrite list_lookup_fmap, Hj. }
  assert (<[length ts1 := (TUnlocked, q)]> ts = ts1 ++ [(TUnlocked, q)]) as Eins.
  { rewrite Ets. by rewrite insert_app_r_alt, Nat.sub_diag by done. }
  assert (recorded f = false) as Hr by (unfold recorded; cbn; by rewrite Hmr, Ets, existsb_app, Hcr).
  assert (recorded f' = false) as Hr' by (unfold recorded; cbn; by rewrite Hmr, Eins, existsb_app, Hcr).
  split; [done|]. constructor; try rewrite Hr'; cbn [f_mutex f_main f_place f_threads f f' __lock __owner __nusers]; try apply Hi.
  - by apply (simulates_reachable f).
  - by left.
  - unfold holder. cbn. by rewrite Hmh, Eins, existsb_app, Hch.
  - pose proof (fi_owner f Hi) as Ho. by rewrite Hr in Ho.
  - pose proof (fi_users f Hi) as Hu. by rewrite Hr in Hu.
  - apply Forall_insert; [apply Hi|]. rewrite Hq. cbn. destruct (1 <? l); auto.
  - intros Ep. right. destruct (fi_wakes f Hi Ep) as [Hl|(i & st & Ei)]; cbn in *.
    + exists (length ts1), TUnlocked. rewrite Hq, Hl. apply list_lookup_insert_eq. by eapply lookup_lt_Some.
    + exists i, st. rewrite list_lookup_insert_ne; [done|]. intros <-. congruence.
Qed.

(** The main thread wakes up. *)
Lemma awake_keeps m mn idx ts w : let f := mkFine m mn Asleep idx ts w in let f' := mkFine m mn WaitXchg idx ts w in
  fine_inv f → seen f' = seen f ∧ fine_inv f'.
Proof.
  intros f f' Hi. pose proof (fi_place f Hi) as Hp. cbn in Hp. destruct mn as [i| | | |]; try done.
  assert (seen f' = seen f) as Hs by done. split; [done|].
  constructor; cbn [f_mutex f_main f_place f_threads f f']; try apply Hi; try done.
  - cbn. set_solver.
  - intros i' [= <-] _. by eapply (fi_round f Hi).
Qed.

(** The main thread outside [pthread_mutex_lock]. *)
Lemma main_keeps m mn mn' p idx idx' ts w : let f := mkFine m mn p idx ts w in let f' := mkFine m mn' p idx' ts w in
  fine_inv f → p = Idle → simulates f f' → main_holds mn' p = main_holds mn p → main_records mn' p = main_records mn p →
  fine_inv f'.
Proof.
  intros f f' Hi -> Hs Hh Hr. constructor; cbn [f_mutex f_main f_place f_threads f f']; try apply Hi; try done.
  - by apply (simulates_reachable f).
  - unfold holder. cbn. rewrite Hh. apply Hi.
  - unfold recorded. cbn. rewrite Hr. apply Hi.
  - unfold recorded. cbn. rewrite Hr. apply Hi.
  - destruct mn'; [cbn; set_solver|done..].
Qed.

(** [pthread_create] hands the mutex to the new thread. *)
Lemma create_keeps m i p idx ts w (b : bool) w' : let f := mkFine m (MCreate i) p idx ts w in
  let f' := mkFine m (MLock (S i)) p idx (ts ++ [(if b then TRun 0 0 else TNone, Idle)]) w' in
  fine_inv f → create_thread w = Ret b w' → simulates f f' ∧ fine_inv f'.
Proof.
  intros f f' Hi E. pose proof (fi_place f Hi) as Hp. cbn in Hp. subst p.
  rewrite (create_ok threads_ok) in E. injection E as <- <-.
  assert (simulates f f') as Hs.
  { right. unfold seen. cbn. rewrite fmap_app. exact (s_create segs n i _ idx _ w true _ (create_ok threads_ok w)). }
  split; [done|]. constructor; cbn [f_mutex f_main f_place f_threads f f']; try apply Hi; try done.
  - by apply (simulates_reachable f).
  - etrans; [exact (fi_held f Hi)|]. unfold holder. cbn. rewrite existsb_app. cbn. by rewrite orb_true_r.
  - etrans; [exact (fi_owner f Hi)|]. unfold recorded. cbn. rewrite existsb_app. cbn. by rewrite orb_true_r.
  - etrans; [exact (fi_users f Hi)|]. unfold recorded. cbn. rewrite existsb_app. cbn. by rewrite orb_true_r.
  - cbn. set_solver.
  - apply Forall_app. split; [apply Hi|]. constructor; [by left|constructor].
Qed.

Lemma fine_step_keeps f f' : fine_inv f → fine_step segs n f f' → simulates f f' ∧ fine_inv f'.
Proof.
  intros Hi Hs. pose proof (fi_place f Hi) as Hp. destruct Hs; cbn in Hp; subst.
  - split; [by left|]. constructor; try apply Hi; try done; cbn; [set_solver|]. by intros i' [= <-] _.
  - by eapply lock_keeps.
  - split; [by left|]. constructor; try apply Hi; done.
  - assert (simulates (mkFine m (MWrite i) Idle idx ts w) (mkFine m (MCreate i) Idle (Z.of_nat i + 1) ts w)) as Hs
      by (right; apply s_write). split; [done|]. by eapply main_keeps.
  - by apply create_keeps.
  - assert (simulates (mkFine m (MLock n) Idle idx ts w) (mkFine m (MJoin 0) Idle idx ts w)) as Hs
      by (right; apply s_loop_end). split; [done|]. by eapply main_keeps.
  - assert (simulates (mkFine m (MJoin i) Idle idx ts w) (mkFine m (MJoin (S i)) Idle idx ts w)) as Hs
      by (right; apply s_join; by rewrite list_lookup_fmap). split; [done|]. by eapply main_keeps.
  - assert (simulates (mkFine m (MJoin n) Idle idx ts w) (mkFine m MEnd Idle idx ts w)) as Hs
      by (right; apply s_join_end). split; [done|]. by eapply main_keeps.
  - assert (simulates (mkFine m mn p idx ts w) (mkFine m mn p idx (<[j := (TRun (S k) fd', Idle)]> ts) w')) as Hs.
    { right. erewrite seen_client by done. eapply s_segment; [by rewrite list_lookup_fmap, H1|done|done]. }
    split; [done|]. eapply client_keeps; [done|done|done|by left|done..].
  - assert (simulates (mkFine m mn p idx ts w) (mkFine m mn p idx (<[j := (TRun (length segs) fd, Clear)]> ts) w)) as Hs
      by (left; by eapply seen_same).
    split; [done|]. eapply client_keeps; [done|done|done|right; auto|done..].
  - by apply clear_keeps.
  - by eapply release_keeps.
  - pose proof (client_at_place _ j st FutexWake Hi H1) as Hc. destruct st; cbn in Hc; try (by destruct Hc as [|[_ []]]); try done.
    destruct (awake_keeps _ _ _ _ _ Hi) as [Hse Hi'].
    assert (seen (mkFine m mn WaitXchg idx (<[j := (TUnlocked, Idle)]> ts) w) = seen (mkFine m mn WaitXchg idx ts w)) as Hs2
      by (by eapply seen_same).
    split; [left; by rewrite Hs2|]. eapply client_keeps; [exact Hi'|done|by left|by left|done..].
  - pose proof (client_at_place _ j st FutexWake Hi H1) as Hc. destruct st; cbn in Hc; try (by destruct Hc as [|[_ []]]); try done.
    assert (simulates (mkFine m mn p idx ts w) (mkFine m mn p idx (<[j := (TUnlocked, Idle)]> ts) w)) as Hs
      by (left; by eapply seen_same).
    split; [done|]. eapply client_keeps; [done|done|done|by left|done..].
  - assert (simulates (mkFine m mn p idx ts w) (mkFine m mn p idx (<[j := (TExited, Idle)]> ts) w)) as Hs.
    { right. erewrite seen_client by done. eapply s_return. by rewrite list_lookup_fmap, H1. }
    split; [done|]. eapply client_keeps; [done|done|done|done..].
Qed.

Lemma fine_move_keeps f f' : fine_inv f → fine_move segs n f f' → simulates f f' ∧ fine_inv f'.
Proof.
  intros Hi [Hs|Hs]; [by apply fine_step_keeps|]. destruct Hs. destruct (awake_keeps _ _ _ _ _ Hi). split; [by left|done].
Qed.

Lemma fine_inv_initial : fine_inv (fine_initial idx0 w0).
Proof. constructor; cbn; try done; [apply rtc_refl|auto|set_solver]. Qed.

Lemma fine_inv_reachable f : fine_reachable segs n idx0 w0 f → fine_inv f.
Proof.
  unfold fine_reachable. pose proof fine_inv_initial as Hi. intros Hr. induction Hr as [|x y z Hxy Hyz IH]; [done|].
  apply IH. by eapply fine_move_keeps.
Qed.

(** ** The steps left *)

(** Within a call of the mutex functions; main goes round once more when it
    finds the word changed before it sleeps. *)
Definition place_left (mn : mstate) (w : Z) (p : pc) : nat :=
  match mn with
  | MLock i =>
      match p with
      | Idle => if decide (i < n)%nat then 7 else 0
      | LockCas => 6
      | WaitRead => 5
      | FutexWait => if w =? 2 then 2 else 5
      | WaitXchg => 4
      | Assert => 3
      | SetOwner => 2
      | _ => 1
      end
  | _ => 0
  end.

Definition client_left (x : tstate * pc) : nat :=
  match x with
  | (TRun _ _, Idle) | (_, FutexWake) => 4
  | (_, Clear) => 3
  | (_, Release) => 2
  | _ => 0
  end.

Definition fine_left (f : fine) : nat :=
  12 * left_of heap tail fuel buf n (seen f) + place_left (f_main f) (__lock (f_mutex f)) (f_place f) +
  total client_left (f_threads f).

Abbreviation steps_left_of := (left_of heap tail fuel buf n).

Lemma place_left_le mn w p : (place_left mn w p ≤ 7)%nat.
Proof. unfold place_left. destruct mn; [|lia..]. destruct p; repeat case_match; lia. Qed.
Lemma client_left_le x : (client_left x ≤ 4)%nat.
Proof. destruct x as [[] []]; cbn; lia. Qed.

(** A step of [ClientThreads] pays for what it makes possible. *)
Lemma seen_left f f' : fine_inv f → step segs n (seen f) (seen f') → (steps_left_of (seen f') < steps_left_of (seen f))%nat.
Proof. intros Hi. apply (step_left heap tail fuel buf threads_ok n w0), (inv_reachable heap tail fuel buf threads_ok n w0 idx0), Hi. Qed.

(** Whatever the step, one client's part and the main thread's change by less. *)
Lemma paid_left f f' c c' : fine_inv f → step segs n (seen f) (seen f') → (c' ≤ c + 4)%nat →
  (12 * steps_left_of (seen f') + place_left (f_main f') (__lock (f_mutex f')) (f_place f') + c' <
   12 * steps_left_of (seen f) + place_left (f_main f) (__lock (f_mutex f)) (f_place f) + c)%nat.
Proof.
  intros Hi Hs Hc. pose proof (seen_left f f' Hi Hs).
  pose proof (place_left_le (f_main f') (__lock (f_mutex f')) (f_place f')). lia.
Qed.

Lemma total_change ts j x y : ts !! j = Some x →
  (total client_left (<[j := y]> ts) + client_left x = total client_left ts + client_left y)%nat.
Proof. intros Hj. pose proof (total_insert client_left _ _ _ y Hj). lia. Qed.

Lemma seen_change (ts : list (tstate * pc)) j x y : ts !! j = Some x → fst <$> <[j := y]> ts = fst <$> ts → y.1 = x.1.
Proof.
  intros Hj E. apply (f_equal (λ l, l !! j)) in E. rewrite list_fmap_insert, list_lookup_fmap, Hj in E.
  rewrite list_lookup_insert_eq in E by (rewrite length_fmap; by eapply lookup_lt_Some). by injection E.
Qed.

(** The steps of the lock that [ClientThreads] does not see. *)
Lemma lock_left m i p m' t' : lock_place p → advance (tid 0) m (calling p) = Some (m', t') →
  (__lock m = 0 ∨ __lock m = 1 ∨ __lock m = 2) →
  (place_left (MLock i) (__lock m') (t_pc t') < place_left (MLock i) (__lock m) p)%nat.
Proof.
  intros Hp E Hw. unfold lock_place in Hp. destruct m as [w o u]. set_unfold in Hp. cbn [__lock] in Hw.
  destruct Hp as [->|[->|[->|[->|[->|[->|[]]]]]]]; destruct Hw as [->|[->| ->]];
    cbn in E; unfold assert_no_owner in E; cbn in E; injection E as <- <-; cbn; try destruct (o =? 0); cbn; lia.
Qed.

(** A step that [ClientThreads] does not see goes forward in a call of the mutex. *)
Lemma hidden_left f f' : fine_inv f → fine_step segs n f f' → seen f' = seen f → (fine_left f' < fine_left f)%nat.
Proof.
  intros Hi Hs Es. pose proof (fi_word f Hi) as Hw. unfold fine_left. rewrite Es.
  pose proof (f_equal c_main Es) as Em. pose proof (f_equal c_threads Es) as Et. clear Es.
  destruct Hs as [m i idx ts w Hn|m i p idx ts w m' t' Hp E|m i idx ts w|m i p idx ts w|m i p idx ts w b w' E|m idx ts w
    |m i p idx ts w E|m p idx ts w|m mn p idx ts w j k fd s fd' w' Hj Hk E|m mn p idx ts w j fd Hj|m mn p idx ts w j st m' t' Hj E
    |m mn p idx ts w j st m' t' Hj E|m mn idx ts w j st Hj|m mn p idx ts w j st Hj Hp|m mn p idx ts w j Hj];
    cbn [seen c_main c_threads f_mutex f_main f_place f_threads f_index f_world] in *;
    try (pose proof (total_change ts j _ (TRun (length segs) fd, Clear) Hj); cbn [client_left] in *; lia).
  - cbn. rewrite decide_True by done. lia.
  - pose proof (lock_left m i p m' t' Hp E Hw). lia.
  - cbn. lia.
  - done.
  - apply (f_equal length) in Et. rewrite !length_fmap, length_app in Et. cbn in Et. lia.
  - done.
  - injection Em as Em. lia.
  - done.
  - apply (seen_change _ _ _ _ Hj) in Et. injection Et as Ek _. lia.
  - injection E as <- <-. pose proof (client_at_place _ j st Clear Hi Hj) as Hc.
    pose proof (total_change ts j _ (st, Release) Hj). destruct st; try (by destruct Hc); cbn [client_left at_pc t_pc __lock] in *; lia.
  - apply (seen_change _ _ _ _ Hj) in Et. cbn in Et. subst st.
    pose proof (client_at_place _ j _ Release Hi Hj) as Hc. by destruct Hc.
  - pose proof (fi_place _ Hi) as Hm. cbn in Hm. destruct mn; try done.
    pose proof (client_at_place _ j st FutexWake Hi Hj) as Hc. pose proof (total_change ts j _ (st, Idle) Hj).
    destruct st; try (by destruct Hc as [|[_ []]]); try done. cbn [client_left place_left] in *. lia.
  - pose proof (client_at_place _ j st FutexWake Hi Hj) as Hc. pose proof (total_change ts j _ (st, Idle) Hj).
    destruct st; try (by destruct Hc as [|[_ []]]); try done. cbn [client_left] in *. lia.
  - by apply (seen_change _ _ _ _ Hj) in Et.
Qed.

Lemma clients_left f f' : fine_step segs n f f' →
  (total client_left (f_threads f') ≤ total client_left (f_threads f) + 4)%nat.
Proof.
  assert (∀ ts j x y, ts !! j = Some x → (total client_left (<[j := y]> ts) ≤ total client_left ts + 4)%nat) as Hins.
  { intros ts j x y Hj. pose proof (total_change ts j x y Hj). pose proof (client_left_le y). lia. }
  intros Hs. destruct Hs; cbn [f_threads]; try lia; try (by eapply Hins).
  rewrite sum_list_with_app. cbn. destruct b; lia.
Qed.

Lemma fine_step_left f f' : fine_inv f → fine_step segs n f f' → (fine_left f' < fine_left f)%nat.
Proof.
  intros Hi Hs. destruct (fine_step_keeps f f' Hi Hs) as [[Es|Hst] _]; [by apply hidden_left|].
  apply (paid_left f f' _ _ Hi Hst), clients_left, Hs.
Qed.

Lemma fine_steps_left k f f' : fine_inv f → nsteps (fine_step segs n) k f f' → (k + fine_left f' ≤ fine_left f)%nat.
Proof.
  intros Hi Hk. revert Hi. induction Hk as [f|k f f1 f' Hm Hk IH]; intros Hi; [lia|].
  pose proof (fine_step_left _ _ Hi Hm). destruct (fine_step_keeps _ _ Hi Hm) as [_ Hi1]. specialize (IH Hi1). lia.
Qed.

(** ** No step is missing *)

Context (r : list bool) (w1 : World) (sequence : run_clients heap tail fuel buf 0 n false w0 = Ret r w1).

(** When the clients served one after the other are served, a client thread's
    step returns. *)
Lemma segment_returns f j k fd p s : fine_inv f → f_threads f !! j = Some (TRun k fd, p) → segs !! k = Some s →
  ∃ fd' w', s fd (f_index f) (f_world f) = Ret fd' w'.
Proof.
  intros Hi Hj Hk. destruct (failed (list bool) (s fd (f_index f) (f_world f))) as [o|] eqn:E.
  - assert (aborts segs (seen f) o) as Ha.
    { unfold seen. eapply a_segment; [by rewrite list_lookup_fmap, Hj|exact Hk|exact E]. }
    apply (inv_aborts heap tail fuel buf threads_ok n w0) in Ha; [|apply (inv_reachable heap tail fuel buf threads_ok n w0 idx0), Hi].
    rewrite sequence in Ha. subst o. by destruct (s fd _ _).
  - destruct (s fd (f_index f) (f_world f)); [by eauto|done..].
Qed.

(** The client thread in its body goes on. *)
Lemma body_moves f j k fd p : fine_inv f → f_threads f !! j = Some (TRun k fd, p) → (k ≤ length segs)%nat →
  ∃ f', fine_step segs n f f'.
Proof.
  intros Hi Hj Hk. pose proof (client_at_place f j _ _ Hi Hj) as Hc.
  destruct f as [m mn q idx ts w]; cbn [f_threads] in Hj.
  destruct Hc as [->|[-> [->| ->]]].
  - destruct (decide (k = length segs)) as [->|Hne]; [eexists; by eapply f_call_unlock|].
    destruct (lookup_lt_is_Some_2 segs k) as [s Hs]; [lia|].
    destruct (segment_returns _ j k fd Idle s Hi Hj Hs) as (fd' & w' & E). eexists. by eapply f_segment.
  - eexists. eapply f_clear; [exact Hj|reflexivity].
  - eexists. eapply f_release; [exact Hj|reflexivity].
Qed.

(** A client thread before its wake-up goes on. *)
Lemma waker_moves f j st : f_threads f !! j = Some (st, FutexWake) → ∃ f', fine_step segs n f f'.
Proof.
  destruct f as [m mn p idx ts w]. cbn. intros Hj. destruct (decide (p = Asleep)) as [->|Hp]; eexists; [by eapply f_wake|by eapply f_wake_none].
Qed.

(** A client thread past the unlock returns. *)
Lemma returning_moves f j p : fine_inv f → f_threads f !! j = Some (TUnlocked, p) → ∃ f', fine_step segs n f f'.
Proof.
  intros Hi Hj. pose proof (client_at_place f j _ _ Hi Hj) as Hc. destruct Hc as [->| ->]; [|by eapply waker_moves].
  destruct f as [m mn q idx ts w]. eexists. by eapply f_return.
Qed.

(** With the mutex free, the main thread takes it; asleep, it is woken. *)
Lemma locker_moves f i : fine_inv f → f_main f = MLock i → held (f_mutex f) = false → (i ≤ n)%nat → ∃ f', fine_step segs n f f'.
Proof.
  intros Hi Hm Hh Hin. pose proof (fi_place f Hi) as Hp. pose proof (fi_wakes f Hi) as Hw.
  destruct f as [m mn p idx ts w]. cbn [f_main f_place f_mutex f_threads] in *. subst mn.
  assert (__lock m = 0) as Hfree by (unfold held in Hh; by destruct (Z.eqb_spec (__lock m) 0)).
  assert (∀ q, lock_place q → p = q → ∃ f', fine_step segs n (mkFine m (MLock i) p idx ts w) f') as Hgo.
  { intros q Hq ->. destruct (advance (tid 0) m (calling q)) as [[m' t']|] eqn:E; [eexists; by eapply f_lock|].
    exfalso. clear -E Hq. unfold lock_place in Hq. set_unfold in Hq. by destruct Hq as [->|[->|[->|[->|[->|[->|[]]]]]]]. }
  cbn in Hp. set_unfold in Hp. destruct Hp as [->|[->|[->|[->|[->|[->|[->|[->|[->|[]]]]]]]]]];
    try (eapply Hgo; [|reflexivity]; unfold lock_place; clear; set_solver).
  - destruct (decide (i = n)) as [->|]; eexists; [apply f_loop_end|apply f_call_lock; lia].
  - destruct (Hw eq_refl) as [Hl|(j & st & Hj)]; [congruence|]. eexists. by eapply f_wake.
  - eexists. apply f_locked.
Qed.

(** The main thread that has the mutex goes on. *)
Lemma owner_moves f : fine_inv f → main_holds (f_main f) (f_place f) = true → ∃ f', fine_step segs n f f'.
Proof.
  intros Hi Hm. destruct f as [m mn p idx ts w]. unfold main_holds in Hm. cbn [f_main f_place] in Hm.
  destruct mn as [i|i|i|i|]; [|eexists; apply f_write|eexists; eapply f_create, (create_ok threads_ok)|done..].
  destruct p; try done; [eexists; eapply f_lock; [unfold lock_place; set_solver|reflexivity]..|eexists; apply f_locked].
Qed.

Lemma fine_moves f : fine_inv f → f_main f ≠ MEnd → ∃ f', fine_step segs n f f'.
Proof.
  intros Hi Hne. destruct (fine_cases f Hi) as [(Hf & Hm & Hln)|(ts & k & fd & p & E & _ & Hk & _ & _)].
  - destruct (main_holds (f_main f) (f_place f)) eqn:Eh; [by apply owner_moves|].
    unfold main_holds in Eh. pose proof (fi_place f Hi) as Hp.
    destruct f as [m mn q idx ts w]. cbn [f_main f_place f_threads f_mutex f_index] in *.
    destruct mn as [i|i|i|i|]; [|done|done| |done].
    + cbn in Hm, Eh. destruct (has_word q) eqn:Eq; [done|]. inversion Hm as [idx' E1 E2 E3| | | |]; subst.
      by eapply locker_moves.
    + cbn in Hm, Hp. subst q. inversion Hm as [| | |j h' x' E1 E2|]; subst.
      destruct (decide (i = n)) as [->|Hi']; [eexists; apply f_join_end|].
      destruct (lookup_lt_is_Some_2 ts i) as [[st p] Hj]; [lia|].
      destruct (Forall_lookup_1 _ _ _ _ Hf Hj) as [Est|Est]; cbn in Est; subst st; [by eapply (returning_moves _ i)|].
      eexists. apply f_join. by rewrite Hj.
  - eapply (body_moves f (length ts) k fd p); [done|by rewrite E, lookup_app_r, Nat.sub_diag by lia|done].
Qed.

(** The end: the threads are gone, the mutex is as it was made. *)
Definition fine_end (f : fine) : Prop :=
  f_main f = MEnd ∧ f_mutex f = unlocked ∧ f_world f = w1 ∧ Forall (λ x, x = (TExited, Idle)) (f_threads f).

Lemma fine_stops f : fine_inv f → (∀ f', ¬ fine_step segs n f f') → fine_end f.
Proof.
  intros Hi Hstop. assert (f_main f = MEnd) as Hm.
  { destruct (decide (f_main f = MEnd)) as [|Hne]; [done|]. destruct (fine_moves f Hi Hne) as [f' Hf']. by destruct (Hstop f'). }
  pose proof (inv_reachable heap tail fuel buf threads_ok n w0 idx0 _ (fi_seen f Hi)) as Hinv.
  assert (c_main (seen f) = MEnd) as Hm' by (unfold seen; cbn; by rewrite Hm).
  destruct (inv_end heap tail fuel buf n w0 _ Hinv Hm') as [Hd Hf]. unfold done_upto in Hd. rewrite sequence in Hd.
  injection Hd as _ Hw. cbn in Hw, Hf. rewrite Forall_fmap in Hf.
  destruct (finished_free (f_threads f) Hf) as [Hch _].
  assert (holder f = false) as Hh by (unfold holder; by rewrite Hch, Hm).
  pose proof (free_unrecorded f Hi Hh) as Hr. split_and!; try done.
  - pose proof (fi_held f Hi) as H1. pose proof (fi_owner f Hi) as H2. pose proof (fi_users f Hi) as H3.
    rewrite Hh in H1. rewrite Hr in H2, H3. destruct (f_mutex f) as [l o u]. unfold held in H1. cbn in *.
    destruct (Z.eqb_spec l 0) as [->|]; [|done]. by subst.
  - apply Forall_lookup. intros j [st p] Hj. pose proof (client_at_place f j _ _ Hi Hj) as Hc.
    destruct (Forall_lookup_1 _ _ _ _ Hf Hj) as [Est|Est]; cbn in Est; subst st; [|cbn in Hc; by subst].
    destruct (returning_moves f j p Hi Hj) as [f' Hf']. by destruct (Hstop f').
Qed.

Lemma fine_reaches_end f : fine_inv f → ∃ f', rtc (fine_step segs n) f f' ∧ fine_end f'.
Proof.
  remember (fine_left f) as k eqn:Ek. revert f Ek. induction k as [k IH] using lt_wf_ind. intros f -> Hi.
  destruct (decide (f_main f = MEnd ∧ Forall (λ x, x = (TExited, Idle)) (f_threads f))) as [[Hm Ht]|Hne].
  - exists f. split; [done|]. apply fine_stops; [done|]. intros f' Hs.
    assert (∀ j x, f_threads f !! j = Some x → x = (TExited, Idle)) as Hx by (intros j x Hj; exact (Forall_lookup_1 _ _ _ _ Ht Hj)).
    destruct Hs; cbn [f_main f_threads] in *; try done;
      match goal with Hj : _ !! _ = Some _ |- _ => by apply Hx in Hj end.
  - assert (∃ f1, fine_step segs n f f1) as [f1 H1].
    { destruct (decide (f_main f = MEnd)) as [Hm|Hm]; [|by apply fine_moves].
      assert (¬ Forall (λ x, x = (TExited, Idle)) (f_threads f)) as Hn by (by intros Ht; apply Hne).
      apply not_Forall_Exists, Exists_exists in Hn as (x & [j Hj]%list_elem_of_lookup & Hx); [|apply _].
      destruct (fine_cases f Hi) as [(Hf & _ & _)|(ts & k & fd & p & _ & _ & _ & Hmw & _)].
      - destruct x as [st p]. pose proof (client_at_place f j _ _ Hi Hj) as Hc.
        destruct (Forall_lookup_1 _ _ _ _ Hf Hj) as [Est|Est]; cbn in Est; subst st; [by eapply returning_moves|].
        cbn in Hc. destruct Hx. by subst p.
      - rewrite Hm in Hmw. inversion Hmw. }
    destruct (fine_step_keeps f f1 Hi H1) as [_ Hi1].
    destruct (IH (fine_left f1) (fine_step_left f f1 Hi H1) f1 eq_refl Hi1) as (f' & Hr & He).
    exists f'. split; [by eapply rtc_l|done].
Qed.

End Invariant.

(** ** Theorems *)

Section Theorems.
Context `{Env, !Logger} (heap : heap_policy) (tail : list Z) (fuel : nat) (buf : list Z).

Abbreviation segs := (client_segments heap tail fuel buf).

(** C4: The futex mutex with which the main thread locks and the client threads
    unlock refines the flag of [ClientThreads]: when threads can be created, every
    reachable state, wake-ups for no reason included, is seen there as a reachable
    state, and every step as one of its steps or as none; the word is 0 exactly when
    the flag is clear, so the mutex is taken only when it is free; the assertion that
    a new owner finds no old one never fails; while a client thread is in its body
    the recorded owner is the main thread, which locked the mutex for it, and there
    is one user; and a run past the joins has computed what the clients served one
    after the other compute. *)
Theorem handover_refines n idx w0 f :
  (∀ k, env_pthread_create k = 0) → fine_reachable segs n idx w0 f →
  reachable segs n idx w0 (seen f) ∧
  (∀ f', fine_move segs n f f' → seen f' = seen f ∨ step segs n (seen f) (seen f')) ∧
  (c_held (seen f) = false ↔ __lock (f_mutex f) = 0) ∧
  f_place f ≠ Aborted ∧
  (∀ j k fd, f_threads f !! j = Some (TRun k fd, Idle) →
     __lock (f_mutex f) ≠ 0 ∧ __owner (f_mutex f) = tid 0 ∧ __nusers (f_mutex f) = 1) ∧
  (f_main f = MEnd → run_clients heap tail fuel buf 0 n false w0 = Ret (replicate n true) (f_world f)).
Proof.
  intros Hth Hr. pose proof (fine_inv_reachable heap tail fuel buf Hth n idx w0 f Hr) as Hi.
  pose proof (fi_seen _ _ _ _ _ _ _ f Hi) as Hs. split_and!.
  - done.
  - intros f' Hf. by destruct (fine_move_keeps heap tail fuel buf Hth n idx w0 f f' Hi Hf).
  - unfold seen, held. cbn. destruct (Z.eqb_spec (__lock (f_mutex f)) 0); cbn; split; congruence.
  - pose proof (fi_place _ _ _ _ _ _ _ f Hi) as Hp. intros E. rewrite E in Hp. destruct (f_main f); cbn in Hp; set_solver.
  - intros j k fd Hj. destruct (run_last heap tail fuel buf Hth n idx w0 f j k fd Idle Hi Hj) as (ts & E & _ & _ & _ & Hh).
    assert (recorded f = true) as Hrec by (unfold recorded; rewrite E, existsb_app; cbn; by rewrite !orb_true_r).
    pose proof (fi_owner _ _ _ _ _ _ _ f Hi) as Ho. pose proof (fi_users _ _ _ _ _ _ _ f Hi) as Hu. rewrite Hrec in Ho, Hu.
    split_and!; [|done|done]. unfold held in Hh. by destruct (Z.eqb_spec (__lock (f_mutex f)) 0).
  - intros Hm. apply (inv_reachable heap tail fuel buf Hth) in Hs.
    destruct (inv_end heap tail fuel buf n w0 _ Hs) as [Hd _]; [unfold seen; cbn; by rewrite Hm|exact Hd].
Qed.

(** C5: No wake-up is lost between the main thread and the client threads: when
    threads can be created and the clients served one after the other are all
    served, the threads on the futex mutex come to their end.  From every reachable
    state at most [fine_left] steps follow (wake-ups for no reason, and what they
    lead to, not counted; [192 * n + 31] from the start), the threads stop only with
    the main thread past its joins, every client thread ended, the mutex as it was
    initialised and the state of the sequential program, and this end is reached. *)
Theorem handover_terminates n idx w0 r w1 f :
  (∀ k, env_pthread_create k = 0) → run_clients heap tail fuel buf 0 n false w0 = Ret r w1 →
  fine_reachable segs n idx w0 f →
  (∀ k f', nsteps (fine_step segs n) k f f' → (k ≤ fine_left heap tail fuel buf n f)%nat) ∧
  (∀ k f', nsteps (fine_step segs n) k (fine_initial idx w0) f' → (k ≤ 192 * n + 31)%nat) ∧
  (∀ f', rtc (fine_step segs n) f f' → (∀ f'', ¬ fine_step segs n f' f'') → fine_end w1 f') ∧
  ∃ f', rtc (fine_step segs n) f f' ∧ fine_end w1 f'.
Proof.
  intros Hth Hseq Hr. pose proof (fine_inv_reachable heap tail fuel buf Hth n idx w0 f Hr) as Hi.
  split_and!.
  - intros k f' Hk. pose proof (fine_steps_left heap tail fuel buf Hth n idx w0 k f f' Hi Hk). lia.
  - intros k f' Hk. pose proof (fine_inv_initial heap tail fuel buf Hth n idx w0) as H0'.
    pose proof (fine_steps_left heap tail fuel buf Hth n idx w0 k _ f' H0' Hk) as Hl.
    assert (fine_left heap tail fuel buf n (fine_initial idx w0) ≤ 192 * n + 31)%nat; [|lia].
    unfold fine_left, fine_initial, seen, left_of. cbn [f_mutex f_main f_place f_threads main_seen has_word c_main c_threads fmap list_fmap sum_list_with main_left place_left].
    change (length segs + 6)%nat with 15%nat. destruct (decide _); lia.
  - intros f' Hs Hstop. eapply (fine_stops heap tail fuel buf Hth n idx w0 r w1 Hseq f'); [|done].
    clear Hstop. induction Hs as [|x y z Hxy Hyz IH]; [done|]. apply IH; [|by eapply (fine_step_keeps heap tail fuel buf Hth)].
    eapply rtc_r; [exact Hr|]. by left.
  - by eapply (fine_reaches_end heap tail fuel buf Hth n idx w0 r w1 Hseq).
Qed.

End Theorems.

(** ** Witnesses *)

Section Witness.
#[local] Existing Instance sample_env.
#[local] Instance quiet_log : Logger := silent_logger.

Abbreviation steps_of := (client_segments strict_heap [] 0 sea_packet).

(** A process with two clients. *)
Definition pair_world : World := set_tcp [play_master; play_tcp; play_tcp] open_world.

(** The first thread runs, the main thread has found the word 1, set it
    to 2 and sleeps. *)
Definition main_asleep : fine :=
  mkFine (mkMutex 2 1 1) (MLock 1) Asleep 1 [(TRun 0 0, Idle)] (ticked pair_world).

Lemma main_asleep_reachable : fine_reachable steps_of 2 0 pair_world main_asleep.
Proof.
  unfold fine_reachable, fine_initial.
  eapply rtc_l; [left; apply f_call_lock; lia|].
  do 3 (eapply rtc_l; [left; eapply f_lock; [unfold lock_place; set_solver|reflexivity]|]).
  eapply rtc_l; [left; apply f_locked|]. eapply rtc_l; [left; apply f_write|].
  eapply rtc_l; [left; eapply f_create; reflexivity|]. eapply rtc_l; [left; apply f_call_lock; lia|].
  do 4 (eapply rtc_l; [left; eapply f_lock; [unfold lock_place; set_solver|reflexivity]|]).
  apply rtc_refl.
Qed.

Lemma handover_refines_witness :
  reachable steps_of 2 0 pair_world (seen main_asleep) ∧ __owner (f_mutex main_asleep) = tid 0.
Proof.
  destruct (handover_refines strict_heap [] 0 sea_packet 2 0 pair_world main_asleep) as (H1 & _ & _ & _ & H2 & _).
  - reflexivity.
  - apply main_asleep_reachable.
  - split; [exact H1|]. apply (H2 0%nat 0%nat 0). reflexivity.
Defined.

(** The state in which the two clients are served one after the other. *)
Definition pair_done : World :=
  match run_clients strict_heap [] 0 sea_packet 0 2 false pair_world with Ret _ w => w | _ => pair_world end.

Lemma pair_served : run_clients strict_heap [] 0 sea_packet 0 2 false pair_world = Ret [true; true] pair_done.
Proof.
  assert (match run_clients strict_heap [] 0 sea_packet 0 2 false pair_world with Ret r _ => r = [true; true] | _ => False end) as Hr
    by (vm_compute; reflexivity).
  unfold pair_done. destruct (run_clients _ _ _ _ _ _ _ _); [by rewrite Hr|done..].
Qed.

Lemma handover_terminates_witness :
  ∃ f', rtc (fine_step steps_of 2) main_asleep f' ∧ fine_end pair_done f'.
Proof.
  destruct (handover_terminates strict_heap [] 0 sea_packet 2 0 pair_world [true; true] pair_done main_asleep)
    as (_ & _ & _ & Hend).
  - reflexivity.
  - apply pair_served.
  - apply main_asleep_reachable.
  - exact Hend.
Defined.

End Witness.
