(* ===== verification/ThreadPool.v ===== *)
(** * threadpool.c: the thread pool

    The ring buffer of tasks, the counters, and the threads that share them:
    workers ([threadpool_thread]), the manager ([adjust_thread]), callers of
    [threadpool_add] and [threadpool_destroy].  The threads take their steps in
    any order; the mutex [lock], the two condition variables and the test of
    [shutdown] outside the lock are modelled, and a waiting thread may wake up
    spuriously.  Messages are left out of the steps (see Log for the format
    [%x] they use), [thread_counter] protects single updates, which are single
    steps here, and [pthread_create] succeeds.

    [threadpool_create] ends with a loop that joins the workers it has started
    (lines 60 to 62) and therefore never returns ([create_never_returns]), so the
    program as it stands gives no pool to a caller.  The steps of callers and of
    [threadpool_destroy] describe the pool as its interface means it, from
    [new_pool], the state before that loop: every theorem about all steps also
    covers the runs the program has, in which only workers and manager move. *)

From S2P Require Import Prelude.

Definition MIN_WAIT_TASK_NUM : Z := 10.
Definition DEFAULT_THREAD_VARY : Z := 3.
Definition MIN_THREAD_NUM : Z := 5.
Definition MAX_THREAD_NUM : Z := 50.
Definition QUEUE_MAX_SIZE : Z := 50.

(** ** The task queue *)

(** threadpool.h [threadpool_task_t]; pointers are numbers, NULL is 0. *)
Record threadpool_task_t := mkTask { function : Z; arg : Z }.
#[global] Instance task_eq_dec : EqDecision threadpool_task_t.
Proof. solve_decision. Defined.

(** The queue fields of [threadpool_t]. *)
Record ring := mkRing {
  task_queue : list threadpool_task_t;
  queue_front : Z;
  queue_rear : Z;
  queue_size : Z;
  queue_max_size : Z;
}.

(** [task_queue[i]]; [None] is an access out of bounds. *)
Definition slot (r : ring) (i : Z) : option threadpool_task_t :=
  if 0 <=? i then task_queue r !! Z.to_nat i else None.

(** The worker's removal of a task. *)
Definition dequeue (r : ring) : option (threadpool_task_t * ring) :=
  t ← slot r (queue_front r);
  Some (t, mkRing (task_queue r) ((queue_front r + 1) `rem` queue_max_size r) (queue_rear r)
              (queue_size r - 1) (queue_max_size r)).

(** [threadpool_add]'s insertion; the pointer it frees, if any, comes first. *)
Definition enqueue (t : threadpool_task_t) (r : ring) : option (option Z * ring) :=
  old ← slot r (queue_rear r);
  Some (if arg old =? 0 then None else Some (arg old),
        mkRing (<[Z.to_nat (queue_rear r) := t]> (task_queue r)) (queue_front r)
          ((queue_rear r + 1) `rem` queue_max_size r) (queue_size r + 1) (queue_max_size r)).

(** The queue [threadpool_create] sets up over a block of memory. *)
Definition new_ring (block : list threadpool_task_t) : ring :=
  mkRing block 0 0 0 (Z.of_nat (length block)).

(** ** Its specification: a bounded first-in first-out queue *)

(** The position of the [k]-th waiting task. *)
Definition position (r : ring) (k : nat) : nat :=
  Z.to_nat ((queue_front r + Z.of_nat k) `mod` queue_max_size r).

(** The waiting tasks, oldest first. *)
Definition contents (r : ring) : list threadpool_task_t :=
  omap (λ k, task_queue r !! position r k) (seq 0 (Z.to_nat (queue_size r))).

Record ring_ok (r : ring) : Prop := {
  ro_length : Z.of_nat (length (task_queue r)) = queue_max_size r;
  ro_max : 0 < queue_max_size r;
  ro_front : 0 ≤ queue_front r < queue_max_size r;
  ro_rear : queue_rear r = (queue_front r + queue_size r) `mod` queue_max_size r;
  ro_size : 0 ≤ queue_size r ≤ queue_max_size r;
}.

Lemma position_lt r k : ring_ok r → (position r k < length (task_queue r))%nat.
Proof.
  intros []. unfold position.
  pose proof (Z.mod_pos_bound (queue_front r + Z.of_nat k) (queue_max_size r) ro_max0). lia.
Qed.

Lemma slot_position r k : ring_ok r →
  slot r ((queue_front r + Z.of_nat k) `mod` queue_max_size r) = task_queue r !! position r k.
Proof.
  intros []. unfold slot.
  pose proof (Z.mod_pos_bound (queue_front r + Z.of_nat k) (queue_max_size r) ro_max0).
  by destruct (Z.leb_spec 0 ((queue_front r + Z.of_nat k) `mod` queue_max_size r)); [|lia].
Qed.

Lemma omap_total {A B} (f : A → option B) (g : A → B) (l : list A) :
  (∀ x, x ∈ l → f x = Some (g x)) → omap f l = g <$> l.
Proof.
  induction l as [|x l IH]; intros Hf; [done|]. cbn. rewrite (Hf x) by left. f_equal.
  apply IH. intros y Hy. apply Hf. by right.
Qed.

Definition no_task : threadpool_task_t := mkTask 0 0.
Definition nth_task (r : ring) (k : nat) : threadpool_task_t := default no_task (task_queue r !! position r k).

Lemma contents_map r : ring_ok r → contents r = nth_task r <$> seq 0 (Z.to_nat (queue_size r)).
Proof.
  intros Hr. apply omap_total. intros k _. unfold nth_task.
  by destruct (lookup_lt_is_Some_2 _ _ (position_lt r k Hr)) as [t ->].
Qed.

Lemma contents_length r : ring_ok r → Z.of_nat (length (contents r)) = queue_size r.
Proof. intros Hr. rewrite contents_map, length_fmap, length_seq by done. destruct Hr. lia. Qed.

Lemma new_ring_ok block : (0 < length block)%nat → ring_ok (new_ring block) ∧ contents (new_ring block) = [].
Proof.
  intros Hl. split; [|done]. constructor; cbn; try lia. by rewrite Z.mod_0_l by lia.
Qed.

(** A removal returns the oldest task. *)
Lemma dequeue_spec r : ring_ok r → 0 < queue_size r →
  ∃ t q r', dequeue r = Some (t, r') ∧ contents r = t :: q ∧ contents r' = q ∧ ring_ok r' ∧
    queue_size r' = queue_size r - 1 ∧ queue_max_size r' = queue_max_size r.
Proof.
  intros Hr Hs. pose proof Hr as []. set (r' := mkRing (task_queue r) ((queue_front r + 1) `rem` queue_max_size r)
    (queue_rear r) (queue_size r - 1) (queue_max_size r)).
  assert (queue_front r' = (queue_front r + 1) `mod` queue_max_size r) as Hfr.
  { cbn. apply Z.rem_mod_nonneg; lia. }
  assert (ring_ok r') as Hr'.
  { constructor; cbn [task_queue queue_max_size queue_size queue_rear r']; try lia; rewrite Hfr.
    - by apply Z.mod_pos_bound.
    - rewrite Zplus_mod_idemp_l, ro_rear0. f_equal. lia. }
  exists (nth_task r 0), (nth_task r' <$> seq 0 (Z.to_nat (queue_size r'))), r'. split; [|split].
  - unfold dequeue. replace (queue_front r) with ((queue_front r + Z.of_nat 0) `mod` queue_max_size r) at 1
      by (rewrite Z.add_0_r; apply Z.mod_small; lia).
    rewrite slot_position by done. unfold nth_task.
    by destruct (lookup_lt_is_Some_2 _ _ (position_lt r 0 Hr)) as [t ->].
  - rewrite contents_map by done. cbn [queue_size r'].
    replace (Z.to_nat (queue_size r)) with (S (Z.to_nat (queue_size r - 1))) by lia.
    cbn [seq]. rewrite fmap_cons, <-seq_shift. f_equal. rewrite <-list_fmap_compose.
    apply list_fmap_ext. intros i k _. cbn. unfold nth_task, position. cbn [task_queue queue_max_size r'].
    rewrite Hfr, Zplus_mod_idemp_l. by replace (queue_front r + Z.of_nat (S k)) with (queue_front r + 1 + Z.of_nat k) by lia.
  - split_and!; [by apply contents_map|done..].
Qed.

Lemma rear_position r : ring_ok r → queue_rear r = Z.of_nat (position r (Z.to_nat (queue_size r))).
Proof.
  intros []. unfold position. rewrite (Z2Nat.id (queue_size r)) by lia.
  pose proof (Z.mod_pos_bound (queue_front r + queue_size r) (queue_max_size r) ro_max0). lia.
Qed.

(** Two waiting tasks, or a waiting task and the insertion point of a queue
    that is not full, are at different positions. *)
Lemma position_inj r j k : ring_ok r →
  (Z.of_nat j < queue_max_size r) → (Z.of_nat k < queue_max_size r) → position r j = position r k → j = k.
Proof.
  intros [] Hj Hk E. unfold position in E.
  pose proof (Z.mod_pos_bound (queue_front r + Z.of_nat j) (queue_max_size r) ro_max0).
  pose proof (Z.mod_pos_bound (queue_front r + Z.of_nat k) (queue_max_size r) ro_max0).
  assert ((queue_front r + Z.of_nat j) `mod` queue_max_size r = (queue_front r + Z.of_nat k) `mod` queue_max_size r)
    as Em by (apply Z2Nat.inj; [apply Z.mod_pos_bound; lia..|exact E]).
  pose proof (Z.div_mod (queue_front r + Z.of_nat j) (queue_max_size r) ltac:(lia)).
  pose proof (Z.div_mod (queue_front r + Z.of_nat k) (queue_max_size r) ltac:(lia)). rewrite Em in *.
  set (a := (queue_front r + Z.of_nat j) / queue_max_size r) in *.
  set (b := (queue_front r + Z.of_nat k) / queue_max_size r) in *.
  set (m := queue_max_size r) in *. set (q := _ `mod` m) in *. clearbody a b q m.
  assert (a = b) as -> by (destruct (Z.lt_trichotomy a b) as [|[|]]; nia). lia.
Qed.

(** An insertion into a queue that is not full goes last. *)
Lemma enqueue_spec t r : ring_ok r → queue_size r < queue_max_size r →
  ∃ o r', enqueue t r = Some (o, r') ∧ contents r' = contents r ++ [t] ∧ ring_ok r' ∧
    queue_size r' = queue_size r + 1 ∧ queue_max_size r' = queue_max_size r.
Proof.
  intros Hr Hs. pose proof Hr as []. pose proof (rear_position r Hr) as Hp.
  set (p := position r (Z.to_nat (queue_size r))) in *. pose proof (position_lt r (Z.to_nat (queue_size r)) Hr) as Hlt.
  fold p in Hlt. destruct (lookup_lt_is_Some_2 _ _ Hlt) as [old Hold].
  set (r' := mkRing (<[p := t]> (task_queue r)) (queue_front r) ((queue_rear r + 1) `rem` queue_max_size r)
    (queue_size r + 1) (queue_max_size r)).
  assert (ring_ok r') as Hr'.
  { constructor; cbn; rewrite ?length_insert; try lia. rewrite Z.rem_mod_nonneg by lia.
    rewrite ro_rear0, Zplus_mod_idemp_l. f_equal. lia. }
  exists (if arg old =? 0 then None else Some (arg old)), r'. split; [|split; [|split; [done|done]]].
  - unfold enqueue, slot. rewrite Hp. destruct (Z.leb_spec 0 (Z.of_nat p)); [|lia].
    rewrite Nat2Z.id, Hold. cbn [mbind option_bind]. by rewrite <-Hp.
  - rewrite !contents_map by done. cbn [queue_size r'].
    replace (Z.to_nat (queue_size r + 1)) with (Z.to_nat (queue_size r) + 1)%nat by lia.
    rewrite seq_app, fmap_app. cbn [Nat.add seq]. f_equal.
    + apply list_fmap_ext. intros i k [-> Hi]%lookup_seq. unfold nth_task. cbn [Nat.add].
      change (position r' i) with (position r i). cbn [task_queue r'].
      rewrite list_lookup_insert_ne; [done|]. intros E. apply position_inj in E; [lia|done|lia|lia].
    + unfold nth_task. cbn [fmap list_fmap]. change (position r' (Z.to_nat (queue_size r))) with p.
      cbn [task_queue r']. by rewrite list_lookup_insert_eq.
Qed.

(** ** The pool and its threads *)

(** The counters of [threadpool_t]. *)
Record counters := mkCounters {
  min_thr_num : Z;
  max_thr_num : Z;
  live_thr_num : Z;
  busy_thr_num : Z;
  wait_exit_thr_num : Z;
}.
Definition set_live (v : Z) (c : counters) : counters :=
  mkCounters (min_thr_num c) (max_thr_num c) v (busy_thr_num c) (wait_exit_thr_num c).
Definition set_busy (v : Z) (c : counters) : counters :=
  mkCounters (min_thr_num c) (max_thr_num c) (live_thr_num c) v (wait_exit_thr_num c).
Definition set_wait_exit (v : Z) (c : counters) : counters :=
  mkCounters (min_thr_num c) (max_thr_num c) (live_thr_num c) (busy_thr_num c) v.

(** Where a worker stands in [threadpool_thread]: before the lock (line 83), at
    the loop test (86) and at [pthread_cond_wait] (89) with the lock, waiting,
    woken, at the shutdown test (107) with the lock, with a task before and
    after [busy_thr_num++], after the task, exited. *)
Inductive worker :=
| WLock | WTest | WCallWait | WWaiting | WWoken | WTake
| WGot (t : threadpool_task_t) | WRun (t : threadpool_task_t) | WDone | WExited.

(** Where a caller stands in [threadpool_add]: before the lock (223), at the
    loop test (226) and at [pthread_cond_wait] (228) with the lock, waiting,
    woken, at the shutdown test (231) with the lock, at the insertion (237)
    after the lock was released, returned. *)
Inductive caller :=
| PLock (t : threadpool_task_t) | PTest (t : threadpool_task_t) | PCallWait (t : threadpool_task_t)
| PWaiting (t : threadpool_task_t) | PWoken (t : threadpool_task_t) | PStore (t : threadpool_task_t)
| PUnlocked (t : threadpool_task_t) | PReturned.

(** Where the manager stands in [adjust_thread], with its local variables:
    loop test, first reading, second reading, growing, shrinking, signalling
    [k] more times, ended. *)
Inductive manager :=
| GTest | GSnap | GBusy (queue_size live : Z) | GGrow (queue_size live busy : Z)
| GShrink (live busy : Z) | GSignal (k : nat) | GEnd.

(** [threadpool_destroy]: not called, at the broadcast, at join [i], returned. *)
Inductive destroyer := DNone | DBroadcast | DJoin (i : nat) | DDone.

Record pool := mkPool {
  p_ring : ring;
  p_cnt : counters;
  p_shutdown : bool;
  p_held : bool;                          (* lock *)
  p_threads : list (option worker);       (* threads[]; None is 0 *)
  p_callers : list caller;
  p_manager : manager;
  p_destroy : destroyer;
  p_freed : list Z;                       (* pointers given to free () *)
  p_added : list threadpool_task_t;       (* history: tasks inserted *)
  p_taken : list threadpool_task_t;       (* history: tasks removed *)
}.

Definition set_ring (r : ring) (p : pool) : pool :=
  mkPool r (p_cnt p) (p_shutdown p) (p_held p) (p_threads p) (p_callers p) (p_manager p) (p_destroy p) (p_freed p) (p_added p) (p_taken p).
Definition set_cnt (c : counters) (p : pool) : pool :=
  mkPool (p_ring p) c (p_shutdown p) (p_held p) (p_threads p) (p_callers p) (p_manager p) (p_destroy p) (p_freed p) (p_added p) (p_taken p).
Definition set_shutdown (b : bool) (p : pool) : pool :=
  mkPool (p_ring p) (p_cnt p) b (p_held p) (p_threads p) (p_callers p) (p_manager p) (p_destroy p) (p_freed p) (p_added p) (p_taken p).
Definition set_held (b : bool) (p : pool) : pool :=
  mkPool (p_ring p) (p_cnt p) (p_shutdown p) b (p_threads p) (p_callers p) (p_manager p) (p_destroy p) (p_freed p) (p_added p) (p_taken p).
Definition set_threads (l : list (option worker)) (p : pool) : pool :=
  mkPool (p_ring p) (p_cnt p) (p_shutdown p) (p_held p) l (p_callers p) (p_manager p) (p_destroy p) (p_freed p) (p_added p) (p_taken p).
Definition set_callers (l : list caller) (p : pool) : pool :=
  mkPool (p_ring p) (p_cnt p) (p_shutdown p) (p_held p) (p_threads p) l (p_manager p) (p_destroy p) (p_freed p) (p_added p) (p_taken p).
Definition set_manager (m : manager) (p : pool) : pool :=
  mkPool (p_ring p) (p_cnt p) (p_shutdown p) (p_held p) (p_threads p) (p_callers p) m (p_destroy p) (p_freed p) (p_added p) (p_taken p).
Definition set_destroy (d : destroyer) (p : pool) : pool :=
  mkPool (p_ring p) (p_cnt p) (p_shutdown p) (p_held p) (p_threads p) (p_callers p) (p_manager p) d (p_freed p) (p_added p) (p_taken p).
Definition log_free (o : option Z) (p : pool) : pool :=
  mkPool (p_ring p) (p_cnt p) (p_shutdown p) (p_held p) (p_threads p) (p_callers p) (p_manager p) (p_destroy p) (p_freed p ++ option_list o) (p_added p) (p_taken p).
Definition log_added (t : threadpool_task_t) (p : pool) : pool :=
  mkPool (p_ring p) (p_cnt p) (p_shutdown p) (p_held p) (p_threads p) (p_callers p) (p_manager p) (p_destroy p) (p_freed p) (p_added p ++ [t]) (p_taken p).
Definition log_taken (t : threadpool_task_t) (p : pool) : pool :=
  mkPool (p_ring p) (p_cnt p) (p_shutdown p) (p_held p) (p_threads p) (p_callers p) (p_manager p) (p_destroy p) (p_freed p) (p_added p) (p_taken p ++ [t]).

Definition worker_at (p : pool) (j : nat) (w : worker) : Prop := p_threads p !! j = Some (Some w).
Definition goto (j : nat) (w : worker) (p : pool) : pool := set_threads (<[j := Some w]> (p_threads p)) p.
Definition caller_at (p : pool) (j : nat) (c : caller) : Prop := p_callers p !! j = Some c.
Definition cgoto (j : nat) (c : caller) (p : pool) : pool := set_callers (<[j := c]> (p_callers p)) p.

(** [pthread_cond_broadcast] of the two condition variables. *)
Definition wake_worker (w : option worker) : option worker :=
  match w with Some WWaiting => Some WWoken | _ => w end.
Definition wake_caller (c : caller) : caller := match c with PWaiting t => PWoken t | _ => c end.
Definition broadcast_not_empty (p : pool) : pool := set_threads (wake_worker <$> p_threads p) p.
Definition broadcast_not_full (p : pool) : pool := set_callers (wake_caller <$> p_callers p) p.

(** [pthread_cond_signal (&pool->queue_not_empty)]: some waiting worker, if
    there is one, is woken. *)
Inductive signal_not_empty (p : pool) : pool → Prop :=
| sig_one j : worker_at p j WWaiting → signal_not_empty p (goto j WWoken p)
| sig_none : (∀ j, ¬ worker_at p j WWaiting) → signal_not_empty p p.

(** What a woken worker does with the lock before it tests again (92-103). *)
Definition after_wait (j : nat) (p : pool) : pool :=
  let c := p_cnt p in
  if 0 <? wait_exit_thr_num c then
    let c := set_wait_exit (wait_exit_thr_num c - 1) c in
    if min_thr_num c <? live_thr_num c
    then goto j WExited (set_held false (set_cnt (set_live (live_thr_num c - 1) c) p))
    else goto j WTest (set_held true (set_cnt c p))
  else goto j WTest (set_held true p).

(** The manager's loop over [threads[]]: free or dead slots get a new worker,
    at most [DEFAULT_THREAD_VARY] of them, while [live_thr_num] is below the
    maximum. *)
Fixpoint grow (slots : list (option worker)) (add live max : Z) : list (option worker) * Z :=
  match slots with
  | [] => ([], live)
  | s :: slots' =>
      if (add <? DEFAULT_THREAD_VARY) && (live <? max) then
        match s with
        | None | Some WExited =>
            let '(l, n) := grow slots' (add + 1) (live + 1) max in (Some WLock :: l, n)
        | _ => let '(l, n) := grow slots' add live max in (s :: l, n)
        end
      else (slots, live)
  end.

(** [threadpool_add] from line 237 on: insertion, signal, unlock. *)
Inductive insertion (t : threadpool_task_t) (p : pool) : pool → Prop :=
| ins o r p' :
    enqueue t (p_ring p) = Some (o, r) →
    signal_not_empty (log_free o (log_added t (set_ring r p))) p' →
    insertion t p (set_held false p').

(** One step of one thread. *)
Inductive move : pool → pool → Prop :=
(* threadpool_thread *)
| w_lock p j : worker_at p j WLock → p_held p = false → move p (goto j WTest (set_held true p))
| w_test p j : worker_at p j WTest →
    move p (goto j (if (queue_size (p_ring p) =? 0) && negb (p_shutdown p) then WCallWait else WTake) p)
| w_wait p j : worker_at p j WCallWait → move p (goto j WWaiting (set_held false p))
| w_woken p j : worker_at p j WWoken → p_held p = false → move p (after_wait j p)
| w_exit p j : worker_at p j WTake → p_shutdown p = true → move p (goto j WExited (set_held false p))
| w_take p j t r : worker_at p j WTake → p_shutdown p = false → dequeue (p_ring p) = Some (t, r) →
    move p (goto j (WGot t) (set_held false (broadcast_not_full (log_taken t (set_ring r p)))))
| w_busy p j t : worker_at p j (WGot t) →
    move p (goto j (WRun t) (set_cnt (set_busy (busy_thr_num (p_cnt p) + 1) (p_cnt p)) p))
| w_run p j t : worker_at p j (WRun t) → move p (goto j WDone p)
| w_idle p j : worker_at p j WDone →
    move p (goto j WLock (set_cnt (set_busy (busy_thr_num (p_cnt p) - 1) (p_cnt p)) p))
(* threadpool_add *)
| c_call p t : move p (set_callers (p_callers p ++ [PLock t]) p)
| c_lock p j t : caller_at p j (PLock t) → p_held p = false → move p (cgoto j (PTest t) (set_held true p))
| c_test p j t : caller_at p j (PTest t) →
    move p (cgoto j (if (queue_size (p_ring p) =? queue_max_size (p_ring p)) && negb (p_shutdown p)
                     then PCallWait t else PStore t) p)
| c_wait p j t : caller_at p j (PCallWait t) → move p (cgoto j (PWaiting t) (set_held false p))
| c_woken p j t : caller_at p j (PWoken t) → p_held p = false → move p (cgoto j (PTest t) (set_held true p))
| c_shutdown p j t : caller_at p j (PStore t) → p_shutdown p = true →
    move p (cgoto j (PUnlocked t) (set_held false p))
| c_store p j t p' : caller_at p j (PStore t) → p_shutdown p = false →
    insertion t (cgoto j PReturned p) p' → move p p'
| c_store_unlocked p j t p' : caller_at p j (PUnlocked t) → insertion t (cgoto j PReturned p) p' → move p p'
(* adjust_thread *)
| g_test p : p_manager p = GTest → move p (set_manager (if p_shutdown p then GEnd else GSnap) p)
| g_snap p : p_manager p = GSnap → p_held p = false →
    move p (set_manager (GBusy (queue_size (p_ring p)) (live_thr_num (p_cnt p))) p)
| g_busy p q l : p_manager p = GBusy q l → move p (set_manager (GGrow q l (busy_thr_num (p_cnt p))) p)
| g_grow p q l b : p_manager p = GGrow q l b →
    MIN_WAIT_TASK_NUM ≤ q ∧ l < max_thr_num (p_cnt p) → p_held p = false →
    move p (let '(ts, live) := grow (p_threads p) 0 (live_thr_num (p_cnt p)) (max_thr_num (p_cnt p)) in
            set_manager (GShrink l b) (set_cnt (set_live live (p_cnt p)) (set_threads ts p)))
| g_no_grow p q l b : p_manager p = GGrow q l b → ¬ (MIN_WAIT_TASK_NUM ≤ q ∧ l < max_thr_num (p_cnt p)) →
    move p (set_manager (GShrink l b) p)
| g_shrink p l b : p_manager p = GShrink l b → b * 2 < l ∧ min_thr_num (p_cnt p) < l → p_held p = false →
    move p (set_manager (GSignal (Z.to_nat DEFAULT_THREAD_VARY))
              (set_cnt (set_wait_exit DEFAULT_THREAD_VARY (p_cnt p)) p))
| g_no_shrink p l b : p_manager p = GShrink l b → ¬ (b * 2 < l ∧ min_thr_num (p_cnt p) < l) →
    move p (set_manager GTest p)
| g_signal p k p' : p_manager p = GSignal (S k) → signal_not_empty p p' → move p (set_manager (GSignal k) p')
| g_signalled p : p_manager p = GSignal 0 → move p (set_manager GTest p)
(* threadpool_destroy *)
| d_call p : p_destroy p = DNone → move p (set_destroy DBroadcast (set_shutdown true p))
| d_broadcast p : p_destroy p = DBroadcast → move p (set_destroy (DJoin 0) (broadcast_not_empty p))
| d_join p i : p_destroy p = DJoin i → Z.of_nat i < live_thr_num (p_cnt p) → worker_at p i WExited →
    move p (set_destroy (DJoin (S i)) p)
| d_free p i : p_destroy p = DJoin i → live_thr_num (p_cnt p) ≤ Z.of_nat i → move p (set_destroy DDone p).

(** A waiting thread wakes up for no reason. *)
Inductive spurious : pool → pool → Prop :=
| sp_worker p j : worker_at p j WWaiting → spurious p (goto j WWoken p)
| sp_caller p j t : caller_at p j (PWaiting t) → spurious p (cgoto j (PWoken t) p).

Definition step (p p' : pool) : Prop := move p p' ∨ spurious p p'.

(** The pool when [threadpool_create] has started its threads, before it joins
    them. *)
Definition new_pool (min max : Z) (block : list threadpool_task_t) : pool :=
  mkPool (new_ring block) (mkCounters min max min 0 0) false false
    (replicate (Z.to_nat min) (Some WLock) ++ replicate (Z.to_nat (max - min)) None)
    [] GTest DNone [] [] [].

(** ** The invariant *)

(** A thread that exists; one between the two updates of [busy_thr_num]; one
    that holds the lock. *)
Definition alive (w : option worker) : nat := match w with None | Some WExited => 0 | _ => 1 end.
Definition busy (w : option worker) : nat := match w with Some (WRun _) | Some WDone => 1 | _ => 0 end.
Definition w_holds (w : option worker) : nat :=
  match w with Some WTest | Some WCallWait | Some WTake => 1 | _ => 0 end.
Definition c_holds (c : caller) : nat :=
  match c with PTest _ | PCallWait _ | PStore _ => 1 | _ => 0 end.
Definition holders (p : pool) : nat := total w_holds (p_threads p) + total c_holds (p_callers p).

Record pool_inv (p : pool) : Prop := {
  pi_ring : ring_ok (p_ring p);
  pi_fifo : p_added p = p_taken p ++ contents (p_ring p);
  pi_min : min_thr_num (p_cnt p) ≤ live_thr_num (p_cnt p);
  pi_max : live_thr_num (p_cnt p) ≤ max_thr_num (p_cnt p);
  pi_live : live_thr_num (p_cnt p) = Z.of_nat (total alive (p_threads p));
  pi_busy : busy_thr_num (p_cnt p) = Z.of_nat (total busy (p_threads p));
  pi_lock : holders p = if p_held p then 1%nat else 0%nat;
  pi_take : ∀ j, worker_at p j WTake → 0 < queue_size (p_ring p);
  pi_store : ∀ j t, caller_at p j (PStore t) → queue_size (p_ring p) < queue_max_size (p_ring p);
  pi_locked : ∀ j t, ¬ caller_at p j (PUnlocked t);
}.

(** Replacing the state of one worker by one with the same counts, which is
    not at the removal. *)
Lemma goto_inv p j w w' :
  pool_inv p → worker_at p j w → alive (Some w') = alive (Some w) → busy (Some w') = busy (Some w) →
  w_holds (Some w') = w_holds (Some w) → (w' = WTake → 0 < queue_size (p_ring p)) → pool_inv (goto j w' p).
Proof.
  intros [] Hw Ha Hb Hh Ht. unfold worker_at in Hw.
  pose proof (total_insert alive _ j _ (Some w') Hw). pose proof (total_insert busy _ j _ (Some w') Hw).
  pose proof (total_insert w_holds _ j _ (Some w') Hw).
  constructor; try done; cbn [p_threads p_cnt goto set_threads].
  - lia.
  - lia.
  - unfold holders in *. cbn [p_threads p_callers goto set_threads p_held]. lia.
  - intros i Hi. unfold worker_at in Hi. cbn [p_threads goto set_threads] in Hi.
    destruct (decide (i = j)) as [->|]; [|rewrite list_lookup_insert_ne in Hi by done; by eapply pi_take0].
    rewrite list_lookup_insert_eq in Hi by (by eapply lookup_lt_Some). injection Hi as ->. by apply Ht.
Qed.

(** The same for a caller. *)
Lemma cgoto_inv p j c c' :
  pool_inv p → caller_at p j c → c_holds c' = c_holds c →
  (∀ t, c' = PStore t → queue_size (p_ring p) < queue_max_size (p_ring p)) → (∀ t, c' ≠ PUnlocked t) →
  pool_inv (cgoto j c' p).
Proof.
  intros [] Hc Hh Hs Hu. unfold caller_at in Hc. pose proof (total_insert c_holds _ j _ c' Hc).
  assert (∀ i d, caller_at (cgoto j c' p) i d → d = c' ∨ caller_at p i d) as Hat.
  { unfold caller_at. cbn [p_callers cgoto set_callers]. intros i d Hi.
    destruct (decide (i = j)) as [->|]; [|rewrite list_lookup_insert_ne in Hi by done; by right].
    rewrite list_lookup_insert_eq in Hi by (by eapply lookup_lt_Some). injection Hi as ->. by left. }
  constructor; try done.
  - unfold holders in *. cbn [p_threads p_callers cgoto set_callers p_held]. lia.
  - intros i t [E|Hi]%Hat; [by eapply Hs|by eapply pi_store0].
  - intros i t [E|Hi]%Hat; [by eapply Hu|by eapply pi_locked0].
Qed.

(** Changing who holds the lock, by the worker [j] itself. *)
Lemma goto_lock p j w w' (b : bool) :
  pool_inv p → worker_at p j w → alive (Some w') = alive (Some w) → busy (Some w') = busy (Some w) →
  (w_holds (Some w) = if b then 0 else 1)%nat → (w_holds (Some w') = if b then 1 else 0)%nat →
  p_held p = negb b → w' ≠ WTake → pool_inv (goto j w' (set_held b p)).
Proof.
  intros [] Hw Ha Hb Hh Hh' Hl Ht. unfold worker_at in Hw.
  pose proof (total_insert alive _ j _ (Some w') Hw). pose proof (total_insert busy _ j _ (Some w') Hw).
  pose proof (total_insert w_holds _ j _ (Some w') Hw).
  constructor; try done; cbn [p_threads p_cnt goto set_threads set_held].
  - lia.
  - lia.
  - unfold holders in *. cbn [p_threads p_callers goto set_threads set_held p_held]. rewrite Hl in *.
    destruct b; cbn [negb] in *; lia.
  - intros i Hi. unfold worker_at in Hi. cbn [p_threads goto set_threads set_held] in Hi.
    destruct (decide (i = j)) as [->|]; [|rewrite list_lookup_insert_ne in Hi by done; by eapply pi_take0].
    rewrite list_lookup_insert_eq in Hi by (by eapply lookup_lt_Some). by injection Hi as ->.
Qed.

Lemma cgoto_lock p j c c' (b : bool) :
  pool_inv p → caller_at p j c → (c_holds c = if b then 0 else 1)%nat → (c_holds c' = if b then 1 else 0)%nat →
  p_held p = negb b → (∀ t, c' ≠ PStore t) → (∀ t, c' ≠ PUnlocked t) → pool_inv (cgoto j c' (set_held b p)).
Proof.
  intros [] Hc Hh Hh' Hl Hs Hu. unfold caller_at in Hc. pose proof (total_insert c_holds _ j _ c' Hc).
  assert (∀ i d, caller_at (cgoto j c' p) i d → d = c' ∨ caller_at p i d) as Hat.
  { unfold caller_at. cbn [p_callers cgoto set_callers]. intros i d Hi.
    destruct (decide (i = j)) as [->|]; [|rewrite list_lookup_insert_ne in Hi by done; by right].
    rewrite list_lookup_insert_eq in Hi by (by eapply lookup_lt_Some). injection Hi as ->. by left. }
  constructor; try done.
  - unfold holders in *. cbn [p_threads p_callers cgoto set_callers set_held p_held]. rewrite Hl in *.
    destruct b; cbn [negb] in *; lia.
  - intros i t [E|Hi]%Hat; [by destruct (Hs t)|by eapply pi_store0].
  - intros i t [E|Hi]%Hat; [by destruct (Hu t)|by eapply pi_locked0].
Qed.

(** A thread that holds the lock is the only one, and the lock is held. *)
Lemma worker_holds p j w : pool_inv p → worker_at p j w → w_holds (Some w) = 1%nat → p_held p = true.
Proof.
  intros [] Hw Hh. pose proof (total_pos w_holds _ _ _ Hw). unfold holders in pi_lock0.
  destruct (p_held p); [done|lia].
Qed.
Lemma caller_holds p j c : pool_inv p → caller_at p j c → c_holds c = 1%nat → p_held p = true.
Proof.
  intros [] Hc Hh. pose proof (total_pos c_holds _ _ _ Hc). unfold holders in pi_lock0.
  destruct (p_held p); [done|lia].
Qed.

Lemma manager_inv m p : pool_inv p → pool_inv (set_manager m p).
Proof. by intros []. Qed.
Lemma destroy_inv d p : pool_inv p → pool_inv (set_destroy d p).
Proof. by intros []. Qed.
Lemma wait_exit_inv v p : pool_inv p → pool_inv (set_cnt (set_wait_exit v (p_cnt p)) p).
Proof. by intros []. Qed.

Lemma broadcast_not_full_inv p : pool_inv p → pool_inv (broadcast_not_full p).
Proof.
  intros []. assert (total c_holds (wake_caller <$> p_callers p) = total c_holds (p_callers p)) as Hh.
  { apply total_fmap. by intros []. }
  assert (∀ j c, caller_at (broadcast_not_full p) j c → ∃ c', caller_at p j c' ∧ c = wake_caller c') as Hat.
  { unfold caller_at. cbn. intros j c Hc. rewrite list_lookup_fmap in Hc.
    destruct (p_callers p !! j) as [c'|]; [|done]. injection Hc as <-. by exists c'. }
  constructor; try done.
  - unfold holders in *. cbn. rewrite Hh. exact pi_lock0.
  - intros j t (c & Hc & E)%Hat. destruct c; try discriminate. injection E as ->. by eapply pi_store0.
  - intros j t (c & Hc & E)%Hat. destruct c; try discriminate. injection E as ->. by eapply pi_locked0.
Qed.

Lemma broadcast_not_empty_inv p : pool_inv p → pool_inv (broadcast_not_empty p).
Proof.
  intros [].
  assert (∀ f : option worker → nat, f (Some WWoken) = f (Some WWaiting) →
    total f (wake_worker <$> p_threads p) = total f (p_threads p)) as Ht.
  { intros f Hf. apply total_fmap. by intros [[]|]. }
  constructor; try done; cbn [p_threads p_cnt broadcast_not_empty set_threads].
  - by rewrite Ht.
  - by rewrite Ht.
  - unfold holders in *. cbn [p_threads p_callers p_held broadcast_not_empty set_threads]. by rewrite Ht.
  - intros j Hj. unfold worker_at in Hj. cbn in Hj. rewrite list_lookup_fmap in Hj.
    destruct (p_threads p !! j) as [[[]|]|] eqn:E; try discriminate. by eapply pi_take0.
Qed.

Lemma signal_inv p p' : pool_inv p → signal_not_empty p p' → pool_inv p'.
Proof. intros Hi [j Hj|_]; [|done]. by eapply goto_inv. Qed.

(** With nobody holding the lock the obligations of the holders are void. *)
Lemma nobody p : holders p = 0%nat → (∀ j, ¬ worker_at p j WTake) ∧ (∀ j t, ¬ caller_at p j (PStore t)).
Proof.
  unfold holders. intros Hh. split.
  - intros j Hj. pose proof (total_pos w_holds _ _ _ Hj) as H. cbn in H. lia.
  - intros j t Hj. pose proof (total_pos c_holds _ _ _ Hj) as H. cbn in H. lia.
Qed.

(** The worker takes the oldest task. *)
Lemma take_inv p j t r :
  pool_inv p → worker_at p j WTake → dequeue (p_ring p) = Some (t, r) →
  pool_inv (goto j (WGot t) (set_held false (log_taken t (set_ring r p)))).
Proof.
  intros Hi Hw Hd. pose proof (worker_holds p j WTake Hi Hw eq_refl) as Hl. destruct Hi.
  destruct (dequeue_spec (p_ring p) pi_ring0 (pi_take0 j Hw)) as (t' & q & r' & Hd' & Hc & Hc' & Hr' & _).
  rewrite Hd in Hd'. injection Hd' as <- <-. unfold worker_at in Hw.
  pose proof (total_insert alive _ j _ (Some (WGot t)) Hw) as Ha. pose proof (total_insert busy _ j _ (Some (WGot t)) Hw) as Hb.
  pose proof (total_insert w_holds _ j _ (Some (WGot t)) Hw) as Hh. cbn [alive busy w_holds] in Ha, Hb, Hh.
  set (p' := goto j (WGot t) _). assert (holders p' = 0%nat) as H0.
  { unfold holders in *. unfold p'. cbn [p_threads p_callers goto set_threads set_held log_taken set_ring].
    rewrite Hl in pi_lock0. lia. }
  destruct (nobody p' H0) as [N1 N2].
  constructor; unfold p'; cbn [p_ring p_cnt p_threads p_added p_taken p_held goto set_threads set_held log_taken set_ring]; try done.
  - by rewrite pi_fifo0, Hc, Hc', <-app_assoc.
  - lia.
  - lia.
  - intros i Hi. by destruct (N1 i).
  - intros i u Hi. by destruct (N2 i u).
Qed.

(** A caller adds its task and releases the lock. *)
Lemma insertion_inv p j t p' :
  pool_inv p → caller_at p j (PStore t) → insertion t (cgoto j PReturned p) p' → pool_inv p'.
Proof.
  intros Hi Hc [o r p1 He Hsig]. pose proof (caller_holds p j _ Hi Hc eq_refl) as Hl. pose proof Hi as [].
  destruct (enqueue_spec t (p_ring p) pi_ring0 (pi_store0 j t Hc)) as (o' & r' & He' & Hct & Hr' & _).
  change (p_ring (cgoto j PReturned p)) with (p_ring p) in He. rewrite He' in He. injection He as <- <-.
  set (p2 := set_held false (log_free o' (log_added t (set_ring r' (cgoto j PReturned p))))).
  assert (pool_inv p2) as Hp2.
  { unfold caller_at in Hc. pose proof (total_insert c_holds _ j _ PReturned Hc) as Hh. cbn [c_holds] in Hh.
    assert (holders p2 = 0%nat) as H0.
    { unfold holders in *. unfold p2. cbn [p_threads p_callers cgoto set_callers set_held log_free log_added set_ring].
      rewrite Hl in pi_lock0. lia. }
    destruct (nobody p2 H0) as [N1 N2].
    constructor; unfold p2;
      cbn [p_ring p_cnt p_threads p_added p_taken p_held cgoto set_callers set_held log_free log_added set_ring]; try done.
    - by rewrite pi_fifo0, Hct, app_assoc.
    - intros i Hi'. by destruct (N1 i).
    - intros i u Hi'. by destruct (N2 i u).
    - intros i u Hi'. unfold caller_at in Hi'. cbn in Hi'. destruct (decide (i = j)) as [->|].
      + by rewrite list_lookup_insert_eq in Hi' by (by eapply lookup_lt_Some).
      + rewrite list_lookup_insert_ne in Hi' by done. by destruct (pi_locked0 i u). }
  destruct Hsig as [i Hi'|Hn]; [|exact Hp2].
  exact (goto_inv p2 i WWaiting WWoken Hp2 Hi' eq_refl eq_refl eq_refl ltac:(done)).
Qed.

(** The manager's growth. *)
Lemma grow_spec slots : ∀ add live max l n,
  grow slots add live max = (l, n) → live ≤ max →
  live ≤ n ≤ max ∧ n - live = Z.of_nat (total alive l) - Z.of_nat (total alive slots) ∧
  total busy l = total busy slots ∧ total w_holds l = total w_holds slots ∧
  (∀ j, l !! j = Some (Some WTake) → slots !! j = Some (Some WTake)).
Proof.
  induction slots as [|s slots IH]; intros add live max l n; cbn [grow].
  { intros [= <- <-] ?. split_and!; try done; lia. }
  destruct ((add <? DEFAULT_THREAD_VARY) && (live <? max)) eqn:Eb; [|intros [= <- <-] ?; split_and!; try done; lia].
  apply andb_true_iff in Eb as [_ Eb]. apply Z.ltb_lt in Eb.
  assert (∀ add' live' s' l' n', grow slots add' live' max = (l', n') → (s' :: l', n') = (l, n) → live' ≤ max →
    live' - live = Z.of_nat (alive s') - Z.of_nat (alive s) → live ≤ live' → busy s' = busy s → w_holds s' = w_holds s →
    (s' = Some WTake → s = Some WTake) →
    live ≤ n ≤ max ∧ n - live = Z.of_nat (total alive l) - Z.of_nat (total alive (s :: slots)) ∧
    total busy l = total busy (s :: slots) ∧ total w_holds l = total w_holds (s :: slots) ∧
    (∀ j, l !! j = Some (Some WTake) → (s :: slots) !! j = Some (Some WTake))) as Hgo.
  { intros add' live' s' l' n' Eg [= <- <-] Hm Ha Hle Hb Hh Ht.
    destruct (IH _ _ _ _ _ Eg Hm) as (? & ? & Hb' & Hh' & Ht'). cbn [sum_list_with].
    split_and!; [lia|lia|lia|lia|lia|]. intros [|j] Hj; [|by apply Ht'].
    injection Hj as ->. cbn. by rewrite Ht. }
  intros E Hle. destruct s as [[]|]; destruct (grow slots _ _ _) as [l' n'] eqn:Eg.
  all: eapply Hgo; [exact Eg|exact E|try done; lia|try done; cbn; lia|lia|done|done|done].
Qed.

Lemma grow_inv p m :
  pool_inv p →
  pool_inv (let '(ts, live) := grow (p_threads p) 0 (live_thr_num (p_cnt p)) (max_thr_num (p_cnt p)) in
            set_manager m (set_cnt (set_live live (p_cnt p)) (set_threads ts p))).
Proof.
  intros []. destruct (grow _ _ _ _) as [ts live] eqn:E.
  destruct (grow_spec _ _ _ _ _ _ E pi_max0) as (Hl & Ha & Hb & Hh & Ht).
  constructor; try done;
    cbn [p_cnt p_threads set_manager set_cnt set_threads set_live live_thr_num busy_thr_num min_thr_num max_thr_num].
  - lia.
  - lia.
  - lia.
  - by rewrite Hb.
  - unfold holders in *. cbn [p_threads p_callers p_held set_manager set_cnt set_threads]. by rewrite Hh.
  - intros j Hj. eapply pi_take0, Ht, Hj.
Qed.

(** Updating the busy count together with the worker it counts. *)
Lemma busy_inv p j w w' d :
  pool_inv p → worker_at p j w → alive (Some w') = alive (Some w) → w_holds (Some w') = w_holds (Some w) →
  Z.of_nat (busy (Some w')) = Z.of_nat (busy (Some w)) + d → w' ≠ WTake →
  pool_inv (goto j w' (set_cnt (set_busy (busy_thr_num (p_cnt p) + d) (p_cnt p)) p)).
Proof.
  intros [] Hw Ha Hh Hb Ht. unfold worker_at in Hw.
  pose proof (total_insert alive _ j _ (Some w') Hw). pose proof (total_insert busy _ j _ (Some w') Hw).
  pose proof (total_insert w_holds _ j _ (Some w') Hw).
  constructor; try done; cbn [p_threads p_cnt goto set_threads set_cnt set_busy busy_thr_num live_thr_num].
  - lia.
  - lia.
  - unfold holders in *. cbn [p_threads p_callers p_held goto set_threads set_cnt]. lia.
  - intros i Hi. unfold worker_at in Hi. cbn [p_threads goto set_threads set_cnt] in Hi.
    destruct (decide (i = j)) as [->|]; [|rewrite list_lookup_insert_ne in Hi by done; by eapply pi_take0].
    rewrite list_lookup_insert_eq in Hi by (by eapply lookup_lt_Some). by injection Hi as ->.
Qed.

Lemma after_wait_inv p j : pool_inv p → worker_at p j WWoken → p_held p = false → pool_inv (after_wait j p).
Proof.
  intros Hi Hw Hl. unfold after_wait.
  destruct (Z.ltb_spec 0 (wait_exit_thr_num (p_cnt p))); [|by eapply goto_lock].
  set (c := set_wait_exit _ _). pose proof (wait_exit_inv (wait_exit_thr_num (p_cnt p) - 1) p Hi) as Hi1. fold c in Hi1.
  destruct (Z.ltb_spec (min_thr_num c) (live_thr_num c)); [|by eapply (goto_lock (set_cnt c p))].
  destruct Hi1. unfold worker_at in Hw. cbn [p_cnt p_threads set_cnt] in *.
  pose proof (total_insert alive _ j _ (Some WExited) Hw) as Ha.
  pose proof (total_insert busy _ j _ (Some WExited) Hw) as Hb.
  pose proof (total_insert w_holds _ j _ (Some WExited) Hw) as Hh. cbn [alive busy w_holds] in Ha, Hb, Hh.
  constructor; try done; cbn [p_threads p_cnt goto set_threads set_held set_cnt set_live busy_thr_num live_thr_num min_thr_num max_thr_num].
  - lia.
  - lia.
  - lia.
  - lia.
  - unfold holders in *. cbn [p_threads p_callers p_held goto set_threads set_held set_cnt] in *. rewrite Hl in *. lia.
  - intros i Hi'. unfold worker_at in Hi'. cbn [p_threads goto set_threads set_held set_cnt] in Hi'.
    destruct (decide (i = j)) as [->|]; [by rewrite list_lookup_insert_eq in Hi' by (by eapply lookup_lt_Some)|].
    rewrite list_lookup_insert_ne in Hi' by done. by eapply pi_take0.
Qed.

Lemma call_inv p t : pool_inv p → pool_inv (set_callers (p_callers p ++ [PLock t]) p).
Proof.
  intros [].
  assert (∀ j c, (p_callers p ++ [PLock t]) !! j = Some c → c = PLock t ∨ caller_at p j c) as Hat.
  { intros j c [Hj|[_ Hj]]%lookup_app_Some; [by right|].
    apply list_lookup_singleton_Some in Hj as [_ <-]. by left. }
  constructor; try done.
  - unfold holders in *. cbn [p_threads p_callers set_callers p_held]. rewrite sum_list_with_app. cbn. lia.
  - intros j u [E|Hj]%Hat; [done|by eapply pi_store0].
  - intros j u [E|Hj]%Hat; [done|by eapply pi_locked0].
Qed.

Lemma move_inv p p' : pool_inv p → p_shutdown p = false → move p p' → p_shutdown p' = false → pool_inv p'.
Proof.
  intros Hi Hs Hm Hs'. pose proof (ro_size _ (pi_ring _ Hi)) as Hsz. destruct Hm as
    [p j Hw Hl|p j Hw|p j Hw|p j Hw Hl|p j Hw Hsd|p j t r Hw Hsd Hd|p j t Hw|p j t Hw|p j Hw
    |p t|p j t Hc Hl|p j t Hc|p j t Hc|p j t Hc Hl|p j t Hc Hsd|p j t p' Hc Hsd Hin|p j t p' Hc Hin
    |p Hg|p Hg Hl|p q l b' Hg|p q l b' Hg Hc Hl|p q l b' Hg Hc|p l b' Hg Hc Hl|p l b' Hg Hc|p k p' Hg Hsig|p Hg
    |p Hd|p Hd|p i Hd Hlt Hw|p i Hd Hle].
  - by eapply goto_lock.
  - rewrite Hs. destruct (Z.eqb_spec (queue_size (p_ring p)) 0); cbn [negb andb].
    + by eapply goto_inv.
    + eapply goto_inv; try done. intros _. lia.
  - eapply goto_lock; try done. by eapply worker_holds.
  - by apply after_wait_inv.
  - congruence.
  - exact (broadcast_not_full_inv _ (take_inv p j t r Hi Hw Hd)).
  - by eapply (busy_inv p j (WGot t) (WRun t) 1).
  - by eapply goto_inv.
  - by eapply (busy_inv p j WDone WLock (-1)).
  - by apply call_inv.
  - by eapply cgoto_lock.
  - rewrite Hs. destruct (Z.eqb_spec (queue_size (p_ring p)) (queue_max_size (p_ring p))); cbn [negb andb].
    + by eapply cgoto_inv.
    + eapply cgoto_inv; try done. intros u _. lia.
  - eapply cgoto_lock; try done. by eapply caller_holds.
  - by eapply cgoto_lock.
  - congruence.
  - by eapply insertion_inv.
  - by destruct (pi_locked _ Hi j t).
  - by apply manager_inv.
  - by apply manager_inv.
  - by apply manager_inv.
  - by apply grow_inv.
  - by apply manager_inv.
  - by apply manager_inv, wait_exit_inv.
  - by apply manager_inv.
  - apply manager_inv. by eapply signal_inv.
  - by apply manager_inv.
  - discriminate Hs'.
  - by apply destroy_inv, broadcast_not_empty_inv.
  - by apply destroy_inv.
  - by apply destroy_inv.
Qed.

Lemma step_shutdown p p' : step p p' → p_shutdown p = true → p_shutdown p' = true.
Proof.
  assert (∀ q q', signal_not_empty q q' → p_shutdown q' = p_shutdown q) as Hsig by (by destruct 1).
  assert (∀ t q q', insertion t q q' → p_shutdown q' = p_shutdown q) as Hins.
  { intros t q q' [o r q1 _ Hs]. cbn. by rewrite (Hsig _ _ Hs). }
  intros [Hm|Hsp] Hs; [|by destruct Hsp]. destruct Hm; try exact Hs; try done.
  - unfold after_wait. by repeat case_match.
  - by erewrite Hins by done.
  - by erewrite Hins by done.
  - by case_match.
  - cbn. by erewrite Hsig by done.
Qed.

Lemma step_min p p' : step p p' → min_thr_num (p_cnt p') = min_thr_num (p_cnt p).
Proof.
  assert (∀ q q', signal_not_empty q q' → p_cnt q' = p_cnt q) as Hsig by (by destruct 1).
  assert (∀ t q q', insertion t q q' → p_cnt q' = p_cnt q) as Hins.
  { intros t q q' [o r q1 _ Hs]. cbn. by rewrite (Hsig _ _ Hs). }
  intros [Hm|Hsp]; [|by destruct Hsp]. destruct Hm; try done.
  - unfold after_wait. by repeat case_match.
  - by erewrite Hins by done.
  - by erewrite Hins by done.
  - by case_match.
  - cbn. by erewrite Hsig by done.
Qed.

Lemma step_inv p p' : (p_shutdown p = false → pool_inv p) → step p p' → (p_shutdown p' = false → pool_inv p').
Proof.
  intros Hi Hst Hs'. destruct (p_shutdown p) eqn:Hs; [by rewrite (step_shutdown p p' Hst Hs) in Hs'|].
  specialize (Hi eq_refl). destruct Hst as [Hm|Hsp]; [by eapply move_inv|]. destruct Hsp as [p j Hj|p j t Hj].
  - by eapply goto_inv.
  - by eapply cgoto_inv.
Qed.

Lemma new_pool_inv min max block :
  (0 < length block)%nat → 0 ≤ min ≤ max → pool_inv (new_pool min max block).
Proof.
  intros Hb Hm. destruct (new_ring_ok block Hb) as [Hr Hc].
  assert (∀ f, f None = 0%nat → total f (p_threads (new_pool min max block)) = (Z.to_nat min * f (Some WLock))%nat) as Ht.
  { intros f Hf. cbn [p_threads new_pool]. rewrite sum_list_with_app.
    assert (∀ n x, total f (replicate n x) = (n * f x)%nat) as Hrep.
    { intros n x. induction n as [|n IH]; [done|]. cbn. by rewrite IH. }
    rewrite !Hrep, Hf. lia. }
  constructor; try done; cbn [p_cnt new_pool min_thr_num live_thr_num max_thr_num busy_thr_num]; try lia.
  - rewrite Ht by done. cbn. lia.
  - rewrite Ht by done. cbn. lia.
  - unfold holders. rewrite Ht by done. cbn. lia.
  - intros j Hj. unfold worker_at in Hj. cbn [p_threads new_pool] in Hj.
    apply lookup_app_Some in Hj as [Hj|[_ Hj]]; apply lookup_replicate in Hj as [? _]; done.
Qed.

Lemma reachable_inv p0 p : pool_inv p0 → rtc step p0 p → p_shutdown p = false → pool_inv p.
Proof.
  intros Hi Hr. assert (p_shutdown p0 = false → pool_inv p0) as Hi' by done. clear Hi.
  induction Hr as [|x y z Hst _ IH]; [done|]. apply IH. by eapply step_inv.
Qed.

(** ** Creating a pool *)

(** A pointer field of the structure while it is being set up. *)
Inductive ptr := Uninit | Null | Block.

(** [int threadpool_free (threadpool_t *pool)] on a pool with these two
    pointers: [None] for a NULL pool. *)
Definition threadpool_free (pool : option (ptr * ptr)) : res Z :=
  match pool with
  | None => Ok (-1)
  | Some (task_queue, threads) =>
      match task_queue with
      | Uninit => Bad Unspecified
      | _ => match threads with Uninit => Bad Unspecified | _ => Ok 0 end
      end
  end.

(** [threadpool_create] up to its last loop: NULL after the clean-up of a
    failure, or the pool whose first [min] workers it goes on to join.  The
    arguments say which [malloc] succeeds (the last one with which memory) and
    whether the locks and conditions are initialised. *)
Definition threadpool_create (m_pool m_threads : bool) (m_queue : option (list threadpool_task_t)) (init : bool)
    (min max : Z) : res (option pool) :=
  if negb m_pool then threadpool_free None ;; Ok None
  else if negb m_threads then threadpool_free (Some (Uninit, Null)) ;; Ok None
  else match m_queue with
       | None => threadpool_free (Some (Null, Block)) ;; Ok None
       | Some block =>
           if negb init then threadpool_free (Some (Block, Block)) ;; Ok None
           else Ok (Some (new_pool min max block))
       end.

(** The joins of [threadpool_create] have returned. *)
Definition create_returns (p : pool) : Prop :=
  ∀ i, Z.of_nat i < min_thr_num (p_cnt p) → worker_at p i WExited.

(** A pool nobody else has a pointer to yet. *)
Definition private (p : pool) : Prop := p_callers p = [] ∧ p_destroy p = DNone.
Definition private_step (p p' : pool) : Prop := step p p' ∧ private p'.

(** Where workers are while there is no task and no shutdown. *)
Definition idle_worker (w : worker) : Prop :=
  match w with WLock | WTest | WCallWait | WWaiting | WWoken => True | _ => False end.

Record unused (p : pool) : Prop := {
  un_shutdown : p_shutdown p = false;
  un_size : queue_size (p_ring p) = 0;
  un_live : live_thr_num (p_cnt p) = min_thr_num (p_cnt p);
  un_callers : p_callers p = [];
  un_destroy : p_destroy p = DNone;
  un_manager : match p_manager p with GBusy q _ | GGrow q _ _ => q = 0 | _ => True end;
  un_workers : Forall (λ w, match w with Some w => idle_worker w | None => True end) (p_threads p);
  un_started : ∀ i, Z.of_nat i < min_thr_num (p_cnt p) → is_Some (p_threads p !! i) ∧ p_threads p !! i ≠ Some None;
}.

Lemma unused_goto p j w w' : unused p → worker_at p j w → idle_worker w' → unused (goto j w' p).
Proof.
  intros [] Hw Hi. constructor; try done; cbn [p_threads goto set_threads].
  - by apply Forall_insert.
  - intros i Hlt. cbn [p_cnt goto set_threads] in Hlt. destruct (un_started0 i Hlt) as [Hs Hn].
    destruct (decide (i = j)) as [->|]; [|by rewrite list_lookup_insert_ne by done].
    rewrite list_lookup_insert_eq by (by eapply lookup_lt_Some). done.
Qed.

Lemma unused_idle p j w : unused p → worker_at p j w → idle_worker w.
Proof. intros [] Hw. by eapply (Forall_lookup_1 _ _ _ _ un_workers0) in Hw. Qed.

Lemma unused_held b p : unused p → unused (set_held b p).
Proof. by intros []. Qed.

Lemma unused_signal p p' : unused p → signal_not_empty p p' → unused p' ∧ p_manager p' = p_manager p.
Proof. intros Hu [j Hj|_]; [|done]. split; [|done]. by eapply unused_goto. Qed.

Lemma unused_step p p' : unused p → private_step p p' → unused p'.
Proof.
  intros Hu [[Hm|Hsp] [Hcl Hde]].
  2: { destruct Hsp as [p j Hj|p j t Hj]; [by eapply unused_goto|].
       unfold caller_at in Hj. by rewrite (un_callers _ Hu) in Hj. }
  destruct Hm; try (match goal with Hc : caller_at _ _ _ |- _ =>
      unfold caller_at in Hc; rewrite (un_callers _ Hu) in Hc; discriminate Hc end);
    try (match goal with Hd : p_destroy _ = _ |- _ => rewrite (un_destroy _ Hu) in Hd; discriminate Hd end);
    try (match goal with Hw : worker_at _ _ _ |- _ => by destruct (unused_idle _ _ _ Hu Hw) end).
  - by eapply unused_goto; [apply unused_held|..].
  - eapply unused_goto; [done|done|]. by rewrite (un_size _ Hu), (un_shutdown _ Hu).
  - by eapply unused_goto; [apply unused_held|..].
  - unfold after_wait. destruct (Z.ltb_spec 0 (wait_exit_thr_num (p_cnt p))).
    + cbn [min_thr_num live_thr_num set_wait_exit]. rewrite (un_live _ Hu), Z.ltb_irrefl.
      eapply (unused_goto (set_held true (set_cnt _ p))); [|done|done]. by destruct Hu.
    + by eapply unused_goto; [apply unused_held|..].
  - cbn in Hcl. by destruct (p_callers p).
  - rewrite (un_shutdown _ Hu). by destruct Hu.
  - destruct Hu. by constructor.
  - destruct Hu. constructor; try done. cbn. by rewrite H in un_manager0.
  - destruct Hu. rewrite H in un_manager0. destruct H0 as [H0 _]. unfold MIN_WAIT_TASK_NUM in H0. lia.
  - by destruct Hu.
  - destruct Hu. by constructor.
  - by destruct Hu.
  - destruct (unused_signal _ _ Hu H0) as [Hu' _]. by destruct Hu'.
  - by destruct Hu.
  - discriminate Hde.
Qed.

(** ** Theorems *)

(** C13: until the pool is shut down every reachable state of the pool, whatever
    the interleaving, has a sound ring buffer of at most [queue_max_size]
    tasks; the tasks taken by workers are, in order, the oldest ones added
    (each task once); [live_thr_num] is the number of existing threads and
    stays between the bounds; [busy_thr_num] counts the running tasks; and at
    most one thread holds the lock. *)
Theorem pool_safe min max block p :
  (0 < length block)%nat → 0 ≤ min ≤ max →
  rtc step (new_pool min max block) p → p_shutdown p = false →
  ring_ok (p_ring p) ∧ p_added p = p_taken p ++ contents (p_ring p) ∧
  Z.of_nat (length (contents (p_ring p))) = queue_size (p_ring p) ∧
  min_thr_num (p_cnt p) ≤ live_thr_num (p_cnt p) ≤ max_thr_num (p_cnt p) ∧
  live_thr_num (p_cnt p) = Z.of_nat (total alive (p_threads p)) ∧
  busy_thr_num (p_cnt p) = Z.of_nat (total busy (p_threads p)) ∧ (holders p ≤ 1)%nat.
Proof.
  intros Hb Hm Hr Hs. destruct (reachable_inv _ _ (new_pool_inv min max block Hb Hm) Hr Hs).
  split_and!; try done; [by apply contents_length|]. rewrite pi_lock0. destruct (p_held p); lia.
Qed.

(** The task queue refines a bounded first-in first-out queue: an insertion
    into a queue that is not full appends, a removal from one that is not empty
    returns the head, and neither goes out of bounds. *)
Theorem ring_refines_fifo r t :
  ring_ok r →
  (queue_size r < queue_max_size r →
     ∃ o r', enqueue t r = Some (o, r') ∧ contents r' = contents r ++ [t] ∧ ring_ok r') ∧
  (0 < queue_size r →
     ∃ u q r', dequeue r = Some (u, r') ∧ contents r = u :: q ∧ contents r' = q ∧ ring_ok r').
Proof.
  intros Hr. split; intros Hs.
  - destruct (enqueue_spec t r Hr Hs) as (o & r' & ? & ? & ? & _). by exists o, r'.
  - destruct (dequeue_spec r Hr Hs) as (u & q & r' & ? & ? & ? & ? & _). by exists u, q, r'.
Qed.

(** [threadpool_create] joins the workers it has just started, and while
    nobody else has the pool these never exit: it does not return. *)
Theorem create_never_returns min max block p :
  1 ≤ min ≤ max → threadpool_create true true (Some block) true min max = Ok (Some (new_pool min max block)) ∧
  (rtc private_step (new_pool min max block) p → ¬ create_returns p).
Proof.
  intros Hm. split; [done|]. intros Hr Hret.
  assert (unused (new_pool min max block)) as Hu0.
  { constructor; try done; cbn [p_threads new_pool].
    - apply Forall_app; split; by apply Forall_replicate.
    - cbn [p_cnt new_pool min_thr_num]. intros i Hi.
      rewrite lookup_app_l by (rewrite length_replicate; lia).
      rewrite lookup_replicate_2 by lia. done. }
  assert (∀ a b, rtc private_step a b → unused a → unused b) as Hpre.
  { induction 1; [done|]. intros Hu. by eapply IHrtc, unused_step. }
  assert (∀ a b, rtc private_step a b → min_thr_num (p_cnt b) = min_thr_num (p_cnt a)) as Hmins.
  { induction 1 as [|a b c [Hab _] _ IH]; [done|]. rewrite IH. by apply step_min. }
  pose proof (Hpre _ _ Hr Hu0) as Hu. pose proof (Hmins _ _ Hr) as Hmn. cbn in Hmn.
  specialize (Hret 0%nat ltac:(lia)). by apply (unused_idle _ _ _ Hu) in Hret.
Qed.

(** After [shutdown] an addition to a full queue still inserts, without the
    lock: the count exceeds the capacity and the oldest waiting task is
    overwritten. *)
Theorem add_after_shutdown_overflows p j t :
  ring_ok (p_ring p) → queue_size (p_ring p) = queue_max_size (p_ring p) →
  p_shutdown p = true → p_held p = false → caller_at p j (PLock t) →
  (∀ i, ¬ worker_at p i WWaiting) →
  ∃ p', rtc step p p' ∧ queue_size (p_ring p') = queue_max_size (p_ring p') + 1 ∧
    slot (p_ring p') (queue_front (p_ring p')) = Some t.
Proof.
  intros Hr Hfull Hs Hl Hc Hnw. pose proof Hr as [].
  assert (queue_rear (p_ring p) = queue_front (p_ring p)) as Erf.
  { rewrite ro_rear0, Hfull. rewrite <-(Z.mul_1_l (queue_max_size (p_ring p))) at 1.
    rewrite Z_mod_plus_full. apply Z.mod_small. lia. }
  assert (∃ o, enqueue t (p_ring p) = Some (o, mkRing
      (<[Z.to_nat (queue_rear (p_ring p)) := t]> (task_queue (p_ring p))) (queue_front (p_ring p))
      ((queue_rear (p_ring p) + 1) `rem` queue_max_size (p_ring p)) (queue_size (p_ring p) + 1)
      (queue_max_size (p_ring p)))) as [o He].
  { unfold enqueue, slot. destruct (Z.leb_spec 0 (queue_rear (p_ring p))); [|lia].
    destruct (lookup_lt_is_Some_2 (task_queue (p_ring p)) (Z.to_nat (queue_rear (p_ring p)))) as [old ->]; [lia|].
    by eexists. }
  pose proof (lookup_lt_Some _ _ _ Hc) as Hlt.
  eexists. split.
  - eapply rtc_l; [left; by apply (c_lock p j t)|].
    eapply rtc_l; [left; apply (c_test _ j t); unfold caller_at; cbn; by rewrite list_lookup_insert_eq|].
    cbn [p_shutdown cgoto set_callers set_held]. rewrite Hs. cbn [negb]. rewrite andb_false_r.
    eapply rtc_l; [left; apply (c_shutdown _ j t); [|done]; unfold caller_at; cbn;
      rewrite list_lookup_insert_eq; rewrite ?length_insert; done|].
    eapply rtc_l; [left; eapply (c_store_unlocked _ j t)|apply rtc_refl].
    + unfold caller_at; cbn. rewrite list_lookup_insert_eq; rewrite ?length_insert; done.
    + econstructor; [exact He|]. apply sig_none. exact Hnw.
  - cbn [p_ring set_held log_free log_added set_ring queue_size queue_max_size queue_front]. split; [lia|].
    unfold slot. cbn [task_queue]. destruct (Z.leb_spec 0 (queue_front (p_ring p))); [|lia].
    rewrite Erf. apply list_lookup_insert_eq. lia.
Qed.

(** Executing a trace of concrete steps. *)
Ltac take_step c := eapply rtc_l; [c; try reflexivity|cbn].

(** [threadpool_add] frees the argument of the task that used the slot
    before, although a worker may still be running that task with it. *)
Theorem running_arg_freed :
  ∃ p t, rtc step (new_pool 1 1 [no_task]) p ∧ worker_at p 0 (WRun t) ∧ arg t ∈ p_freed p.
Proof.
  eexists _, (mkTask 1 7). split.
  - take_step ltac:(left; apply (c_call _ (mkTask 1 7))). take_step ltac:(left; eapply (c_lock _ 0)).
    take_step ltac:(left; eapply (c_test _ 0)).
    take_step ltac:(left; eapply (c_store _ 0); [reflexivity|reflexivity|];
      econstructor; [reflexivity|apply sig_none; intros [|[|j]] E; discriminate E]).
    take_step ltac:(left; eapply (w_lock _ 0)). take_step ltac:(left; eapply (w_test _ 0)).
    take_step ltac:(left; eapply (w_take _ 0)). take_step ltac:(left; eapply (w_busy _ 0)).
    take_step ltac:(left; apply (c_call _ (mkTask 1 8))). take_step ltac:(left; eapply (c_lock _ 1)).
    take_step ltac:(left; eapply (c_test _ 1)).
    take_step ltac:(left; eapply (c_store _ 1); [reflexivity|reflexivity|];
      econstructor; [reflexivity|apply sig_none; intros [|[|j]] E; discriminate E]).
    apply rtc_refl.
  - split; [reflexivity|]. cbn. left.
Qed.

(** [threadpool_destroy] sets [shutdown] and broadcasts without the lock,
    so both can fall between a worker's test and its wait: the worker then
    sleeps through the shutdown, the manager has ended, and
    [threadpool_destroy] waits for the worker forever (nothing can move but
    new callers of [threadpool_add]). *)
Theorem destroy_can_hang :
  ∃ p, rtc move (new_pool 1 1 [no_task]) p ∧ p_destroy p = DJoin 0 ∧ worker_at p 0 WWaiting ∧
    p_manager p = GEnd ∧ ∀ p', move p p' → ∃ t, p' = set_callers [PLock t] p.
Proof.
  eexists. split; [|split; [|split; [|split]]].
  - take_step ltac:(eapply (w_lock _ 0)). take_step ltac:(eapply (w_test _ 0)).
    take_step ltac:(apply d_call). take_step ltac:(apply d_broadcast). take_step ltac:(eapply (w_wait _ 0)).
    take_step ltac:(apply g_test). apply rtc_refl.
  - reflexivity.
  - reflexivity.
  - reflexivity.
  - intros p' Hm. inversion Hm; subst;
      try (match goal with Hw : worker_at _ ?j _ |- _ => by destruct j as [|[|?]] end);
      try (match goal with Hc : caller_at _ _ _ |- _ => discriminate Hc end);
      try discriminate; [by eexists|].
    match goal with E : p_destroy _ = DJoin _ |- _ => injection E as <- end. cbn in *. lia.
Qed.

(** A failed creation returns NULL after freeing what was allocated, except
    that when [threads] cannot be allocated it frees the pointer [task_queue],
    which was never set. *)
Theorem create_error_paths init min max :
  (∀ t q, threadpool_create false t q init min max = Ok None) ∧
  (∀ q, threadpool_create true false q init min max = Bad Unspecified) ∧
  threadpool_create true true None init min max = Ok None ∧
  (∀ b, threadpool_create true true (Some b) false min max = Ok None).
Proof. done. Qed.

(** ** Witnesses *)

(** A pool with one worker and room for one task, after one addition. *)
Definition one_added : pool :=
  mkPool (mkRing [mkTask 1 7] 0 0 1 1) (mkCounters 1 1 1 0 0) false false [Some WLock] [PReturned] GTest DNone
    [] [mkTask 1 7] [].

Lemma one_added_reachable : rtc step (new_pool 1 1 [no_task]) one_added.
Proof.
  take_step ltac:(left; apply (c_call _ (mkTask 1 7))). take_step ltac:(left; eapply (c_lock _ 0)).
  take_step ltac:(left; eapply (c_test _ 0)).
  take_step ltac:(left; eapply (c_store _ 0); [reflexivity|reflexivity|];
    econstructor; [reflexivity|apply sig_none; intros [|[|j]] E; discriminate E]).
  apply rtc_refl.
Qed.

Lemma pool_safe_witness : contents (p_ring one_added) = [mkTask 1 7] ∧ (holders one_added ≤ 1)%nat.
Proof.
  destruct (pool_safe 1 1 [no_task] one_added) as (_ & Hf & _ & _ & _ & _ & Hh).
  - cbn. lia.
  - lia.
  - apply one_added_reachable.
  - reflexivity.
  - split; [symmetry; exact Hf|exact Hh].
Defined.

Lemma ring_refines_fifo_witness :
  ∃ o r', enqueue (mkTask 1 7) (new_ring [no_task; no_task]) = Some (o, r') ∧ contents r' = [mkTask 1 7].
Proof.
  destruct (ring_refines_fifo (new_ring [no_task; no_task]) (mkTask 1 7)) as [H _].
  - constructor; vm_compute; intuition discriminate.
  - destruct H as (o & r' & E & Hc & _); [reflexivity|]. exists o, r'. split; [exact E|exact Hc].
Defined.

Lemma create_never_returns_witness : ¬ create_returns (new_pool 5 50 (replicate 50 no_task)).
Proof.
  apply (create_never_returns 5 50 (replicate 50 no_task)); [lia|apply rtc_refl].
Defined.

(** The full pool after [threadpool_destroy] was called, with a late caller. *)
Definition late_caller : pool :=
  mkPool (mkRing [mkTask 1 7] 0 0 1 1) (mkCounters 1 1 1 0 0) true false [Some WLock] [PLock (mkTask 1 8)] GTest
    DBroadcast [] [mkTask 1 7] [].

Lemma add_after_shutdown_overflows_witness :
  ∃ p', rtc step late_caller p' ∧ queue_size (p_ring p') = queue_max_size (p_ring p') + 1.
Proof.
  destruct (add_after_shutdown_overflows late_caller 0 (mkTask 1 8)) as (p' & Hr & Hs & _).
  - constructor; vm_compute; intuition discriminate.
  - reflexivity.
  - reflexivity.
  - reflexivity.
  - reflexivity.
  - intros [|[|i]] E; discriminate E.
  - exists p'. split; [exact Hr|exact Hs].
Defined.
