(* ===== verification/Programs.v ===== *)
(** * The three programs: server.c, client.c, sender.c

    [dd-server] reads the configuration and serves; [dd-client] listens and
    prints what it receives; [dd-sender] connects to the server and sends a
    fixed message every second.  Loops take fuel: a run of a loop that never
    ends is one that exhausts every amount of it. *)

From S2P Require Import Prelude CString Machine ConfigFile Log DataHeader RecordData Inet MSort ScanDir Playback Distribute Session.

(** [printf ("%x \n", c)] of an [int]: hexadecimal digits of the 32-bit value. *)
Fixpoint hex_digits (fuel : nat) (n : Z) (acc : list Z) : list Z :=
  match fuel with
  | O => acc
  | S fuel' =>
      let d := n `mod` 16 in
      let acc := (if d <? 10 then 48 + d else 87 + d) :: acc in
      if n <? 16 then acc else hex_digits fuel' (n / 16) acc
  end.
Definition show_hex (n : Z) : list Z := hex_digits 8 (uint32 n) [].

(** [printf ("%s\n", s)] *)
Definition puts `{Env} (s : list Z) : IO unit := printf (s ++ [10]).

Section Mains.
Context `{Env, !Logger} (heap : heap_policy) (stack_tail : list Z).

(** [int main ()] of server.c *)
Definition server_main (fuel rfuel pfuel : nat) : IO Z :=
  log_ INFO (lit "%d %s") [AInt 7; AStr (lit "*********Start Server*********")] ;;
  log_ INFO (lit "%d %s") [AInt 10; AStr (lit "parse config file to distribute&playbook")] ;;
  parseFile_distributeTcpInfo ;;
  log_ INFO (lit "%d %s") [AInt 25; AStr (lit "init tcp connection")] ;;
  server_start heap stack_tail fuel rfuel pfuel ;;
  mret EXIT_SUCCESS_CODE.

(** The bytes of a message, one per line; [buf] is an array of [char]. *)
Fixpoint print_bytes (data : list Z) : IO unit :=
  match data with
  | [] => mret tt
  | b :: data' => printf (show_hex (int8 b) ++ lit " " ++ [10]) ;; print_bytes data'
  end.

(** The loop of client.c: only a failed [recv] ends it. *)
Fixpoint client_loop (fuel : nat) (acceptfd : Z) : IO unit :=
  match fuel with
  | O => λ _, OutOfFuel
  | S fuel' =>
      r ← recv acceptfd MAX_BUFFER_SIZE;
      let '(res, data) := (r : Z * list Z) in
      if EXIT_FAIL_CODE =? res then puts (lit "receive done")
      else if 0 <? res then print_bytes data ;; client_loop fuel' acceptfd
      else client_loop fuel' acceptfd
  end.

(** A start-up call of client.c that fails. *)
Definition client_fail {A} (msg : list Z) (fd : option Z) : IO A :=
  puts msg ;;
  (match fd with Some fd => close fd | None => mret tt end) ;;
  exit_with EXIT_FAIL_CODE.

(** [argv[i]] as a string. *)
Definition argument (argv : list (list Z)) (i : nat) : res (list Z) :=
  match argv !! i with Some s => Ok s | None => Bad NullPointer end.

(** [int main (int argc, char **argv)] of client.c *)
Definition client_main (fuel : nat) (argv : list (list Z)) : IO Z :=
  socketfd ← socket;
  if EXIT_FAIL_CODE =? socketfd then client_fail (lit "socket failed") None
  else
    res ← setsockopt socketfd;
    if res =? EXIT_FAIL_CODE then client_fail (lit "setsockopt failed") (Some socketfd)
    else
      a1 ← lift (argument argv 1);
      pt ← lift (atoi a1);
      a2 ← lift (argument argv 2);
      s_addr ← lift (inet_addr a2);
      res ← bind_ socketfd s_addr (htons (uint16 pt));
      if EXIT_FAIL_CODE =? res then client_fail (lit "bind failed") (Some socketfd)
      else
        puts (lit "bind done") ;;
        res ← listen socketfd MAX_QUEUED_REQUESTS;
        if EXIT_FAIL_CODE =? res then client_fail (lit "listen failed") (Some socketfd)
        else
          puts (lit "listen done") ;;
          c ← accept socketfd;
          client_loop fuel (c_fd c) ;;
          mret 0.

(** The loop of sender.c. *)
Definition message : list Z := lit "xyz" ++ [0].
Fixpoint sender_loop (fuel : nat) (socketfd : Z) : IO unit :=
  match fuel with
  | O => λ _, OutOfFuel
  | S fuel' =>
      res ← send socketfd message;
      (if EXIT_FAIL_CODE =? res then puts (lit "send failed") else mret tt) ;;
      usleep 1000000 ;;
      sender_loop fuel' socketfd
  end.

(** [int main ()] of sender.c *)
Definition sender_main (fuel : nat) : IO Z :=
  socketfd ← socket;
  (if EXIT_FAIL_CODE =? socketfd then puts (lit "socket failed") else mret tt) ;;
  res ← setsockopt socketfd;
  if res =? EXIT_FAIL_CODE then
    puts (lit "setsockopt failed") ;;
    close socketfd ;;
    exit_with EXIT_FAIL_CODE
  else
    s_addr ← lift (inet_addr (lit "127.0.0.1" ++ [0]));
    res ← connect socketfd s_addr (htons 60001);
    (if EXIT_FAIL_CODE =? res then
       e ← strerror_errno;
       puts (lit "connect failed" ++ lit ": " ++ e)
     else mret tt) ;;
    sender_loop fuel socketfd ;;
    close socketfd ;;
    mret EXIT_SUCCESS_CODE.

End Mains.

(** ** dd-client *)

Section Client.
Context `{Env}.

(** What a received message prints. *)
Definition byte_line (b : Z) : event := EvPrint (show_hex (int8 b) ++ lit " " ++ [10]).
Definition byte_lines (data : list Z) : list event := byte_line <$> data.

Lemma print_bytes_spec data : ∀ w,
  print_bytes data w = Ret tt (set_events (w_events w ++ (byte_line <$> data)) w).
Proof.
  induction data as [|b data IH]; intros w; cbn [print_bytes].
  { rewrite fmap_nil, app_nil_r. by destruct w. }
  rewrite bind_printf, IH, fmap_cons. cbn [w_events set_events]. by rewrite <-app_assoc.
Qed.

(** The messages [packets] arrive at the calls from [n] on. *)
Definition delivers (n : nat) (packets : list (list Z)) : Prop :=
  ∀ i d, packets !! i = Some d → env_recv (n + i) = inr d ∧ Z.of_nat (length d) ≤ MAX_BUFFER_SIZE.

Lemma client_loop_spec fd packets : ∀ w e fuel,
  delivers (w_nsys w) packets → env_recv (w_nsys w + length packets) = inl e → (length packets < fuel)%nat →
  ∃ w', client_loop fuel fd w = Ret tt w' ∧
    w_events w' = w_events w ++ concat (byte_lines <$> packets) ++ [EvPrint (lit "receive done" ++ [10])].
Proof.
  induction packets as [|d packets IH]; intros w e [|fuel] Hd He Hf; [cbn in *; lia| |cbn in *; lia|].
  - cbn [client_loop]. rewrite Nat.add_0_r in He. unfold mbind at 1, M_bind at 1. rewrite recv_spec, He.
    change (EXIT_FAIL_CODE =? -1) with true. cbv iota. eexists. split; [reflexivity|done].
  - destruct (Hd 0%nat d eq_refl) as [Hr Hl]. rewrite Nat.add_0_r in Hr.
    cbn [client_loop]. unfold mbind at 1, M_bind at 1. rewrite recv_spec, Hr. unfold arrived. rewrite Hr.
    rewrite decide_True by done.
    destruct (Z.eqb_spec EXIT_FAIL_CODE (Z.of_nat (length d))) as [E|_]; [unfold EXIT_FAIL_CODE in E; lia|].
    set (w1 := set_nsys (S (w_nsys w)) w).
    set (w2 := set_events (w_events w1 ++ (byte_line <$> d)) w1).
    assert (∃ w', client_loop fuel fd w2 = Ret tt w' ∧
      w_events w' = w_events w2 ++ concat (byte_lines <$> packets) ++ [EvPrint (lit "receive done" ++ [10])])
      as (w' & E & Hev).
    { apply (IH w2 e); [|cbn in *; by rewrite <-He; f_equal; lia|cbn in *; lia].
      intros i x Hi. destruct (Hd (S i) x Hi) as [Hx Hlx]. split; [|done].
      cbn [w_nsys w2 w1 set_events set_nsys]. rewrite <-Hx. f_equal. lia. }
    assert ((if 0 <? Z.of_nat (length d) then print_bytes d ;; client_loop fuel fd else client_loop fuel fd) w1 =
      client_loop fuel fd w2) as ->.
    { destruct (Z.ltb_spec 0 (Z.of_nat (length d))) as [_|Hz].
      - by rewrite (bind_Ret _ _ _ _ _ (print_bytes_spec d w1)).
      - destruct d; [|cbn in Hz; lia]. f_equal. unfold w2. rewrite fmap_nil, app_nil_r. by destruct w. }
    exists w'. split; [done|]. rewrite Hev. cbn [w_events w2 w1 set_events set_nsys].
    rewrite fmap_cons. cbn [concat]. by rewrite <-!app_assoc.
Qed.

Lemma client_spin_spec fd fuel : ∀ w, (∀ n, (w_nsys w ≤ n)%nat → env_recv n = inr []) →
  client_loop fuel fd w = OutOfFuel.
Proof.
  induction fuel as [|fuel IH]; intros w Hc; [done|]. cbn [client_loop].
  unfold mbind at 1, M_bind at 1. rewrite recv_spec. unfold arrived. rewrite Hc by lia.
  apply IH. intros n Hn. apply Hc. cbn in Hn. lia.
Qed.

End Client.

(** ** dd-sender *)

Section Sender.
Context `{Env}.

Lemma sender_loop_forever fd fuel : ∀ w, sender_loop fuel fd w = OutOfFuel.
Proof.
  induction fuel as [|fuel IH]; intros w; [done|]. cbn [sender_loop].
  unfold send, tick, puts, printf, usleep, emit, set_err, modify, mbind, M_bind, mret, M_ret.
  destruct (env_send (w_nsys w) message) as [r e]. cbn [fst snd].
  destruct (r =? -1); destruct (EXIT_FAIL_CODE =? r); apply IH.
Qed.

Lemma sender_main_spec fuel w :
  sender_main fuel w = if env_setsockopt (S (w_nsys w)) =? EXIT_FAIL_CODE
                       then Exit EXIT_FAIL_CODE
                         (set_events (w_events w ++ [EvSocket (env_socket (w_nsys w))] ++
                            (if EXIT_FAIL_CODE =? env_socket (w_nsys w) then [EvPrint (lit "socket failed" ++ [10])] else []) ++
                            [EvPrint (lit "setsockopt failed" ++ [10]); EvClose (env_socket (w_nsys w))])
                            (set_nsys (S (S (w_nsys w))) w))
                       else OutOfFuel.
Proof.
  unfold sender_main. set (fd := env_socket (w_nsys w)).
  unfold socket, setsockopt, connect, close, tick, puts, printf, emit, strerror_errno, gets, lift, mbind, M_bind, mret, M_ret.
  cbn [w_nsys w_events set_nsys set_events]. fold fd.
  assert (inet_addr (lit "127.0.0.1" ++ [0]) = Ok 16777343) as -> by (vm_compute; reflexivity).
  destruct (EXIT_FAIL_CODE =? fd); cbn [w_nsys w_events set_nsys set_events];
    destruct (env_setsockopt (S (w_nsys w)) =? EXIT_FAIL_CODE).
  - unfold exit_with. cbn [w_events w_nsys set_nsys set_events]. by rewrite <-!app_assoc.
  - destruct (EXIT_FAIL_CODE =? _); by rewrite sender_loop_forever.
  - unfold exit_with. cbn [w_events w_nsys set_nsys set_events]. by rewrite <-!app_assoc.
  - destruct (EXIT_FAIL_CODE =? _); by rewrite sender_loop_forever.
Qed.

End Sender.

(** ** dd-server *)

Section Server.
Context `{Env, !Calendar, !Logger} (heap : heap_policy) (tail : list Z).

(** The configuration also names the data directory, and the client addresses
    fit the path of a lock file. *)
Definition server_conf (w : World) (data dp : list Z) : Prop :=
  peers_conf w data ∧ assoc (lit "data-path") (entries data) = Some dp ∧
  ∀ k, (1 ≤ k ≤ Z.to_nat (conf_int data (lit "client-num")))%nat →
    (length (conf_text data (address_key (Z.of_nat k))) < 122)%nat ∧
    ¬ is_log_file (path_of w (shm_name (conf_text data (address_key (Z.of_nat k))))).

Definition client_addresses (data : list Z) : list (list Z) :=
  (λ k, conf_text data (address_key (Z.of_nat k))) <$> seq 1 (Z.to_nat (conf_int data (lit "client-num"))).

Lemma conf_text_ok data k : conf_ok data → has_key data k →
  cstr (pad_to INFO_LENGTH (conf_text data k)) = Ok (conf_text data k).
Proof. intros Hc [v Hv]. destruct (conf_value _ _ _ Hc Hv) as (-> & Hz & Hl & _). by apply cstr_pad. Qed.

(** The table of the configuration is one the server can serve with. *)
Lemma table_serving w w' data dp :
  server_conf w data dp → log_ready w' → 0 ≤ w_uuid w' ≤ 999 → w_cwd w' = w_cwd w →
  (∀ q, ¬ is_log_file q → w_files w' !! q = w_files w !! q) →
  w_tcp w' = peer_table data → serving dp (client_addresses data) w'.
Proof.
  intros [Hp [Hdp Hcl]] Hr Hu Hc Hf Ht.
  destruct Hp as (Hfile & Hok & Hz & Hl & Hcn & Ha & Hpt & Hn & Hk).
  constructor; [done| |done|].
  - eapply (conf_kept w); [|done|apply Hf, conf_not_log].
    split; [|done]. by exists data.
  - eexists _, _. split; [exact Ht|]. split; [cbn [clientNum]; rewrite !length_fmap, length_seq; lia|].
    split; [done|]. unfold client_addresses. rewrite <-list_fmap_compose.
    rewrite Forall2_fmap. apply Forall_Forall2_diag, Forall_forall. intros k Hin.
    apply elem_of_seq in Hin. destruct (Hcl k) as [Hlen Hlog]; [lia|]. destruct (Hk k) as [Hka _]; [lia|].
    cbn [compose]. split; [by apply conf_text_ok|]. split; [done|]. unfold path_of. by rewrite Hc.
Qed.

Lemma server_main_spec fuel rf pf w data dp :
  log_ready w → 0 ≤ w_uuid w ≤ 999 → server_conf w data dp →
  ∃ m cs o evs w', peer_table data = m :: cs ∧ startup m o evs ∧ acts w' = acts w ++ evs ∧
    serving dp (client_addresses data) w' ∧
    server_main heap tail fuel rf pf w =
      match o with
      | Some fd => (accept_loop heap tail fuel rf pf fd ≫= λ _, mret EXIT_SUCCESS_CODE) w'
      | None => Exit EXIT_FAIL_CODE w'
      end.
Proof.
  intros Hr Hu Hsc. unfold server_main.
  log_skip Hr w1 Hf1 Hr1. log_skip Hr1 w2 Hf2 Hr2.
  assert (log_frame w w2) as Hf by (by etrans). pose proof Hsc as [Hp _].
  assert (peers_conf w2 data) as Hp2.
  { destruct Hp as (Hfile & Hrest). unfold peers_conf, path_of, conf_file. rewrite (lf_cwd _ _ Hf).
    split; [|exact Hrest]. rewrite (lf_files _ _ Hf); [exact Hfile|apply (conf_not_log w)]. }
  destruct (parse_peers_spec w2 data Hr2 Hp2) as (w3 & E3 & Hf3 & Hr3 & _). rewrite (bind_Ret _ _ _ _ _ E3).
  set (w4 := set_tcp (peer_table data) w3).
  assert (log_ready w4) as Hr4 by (eapply log_ready_stable; [exact Hr3|]; by constructor).
  log_skip Hr4 w5 Hf5 Hr5. unfold peer_table in w4. set (m := mkTCP _ _ _ _ _ _) in w4. set (cs := _ <$> _) in w4.
  assert (cstr (Machine.address m) = Ok (conf_text data (lit "distribute-address"))) as Hm.
  { apply conf_text_ok; apply Hp. }
  assert (w_tcp w5 = m :: cs) as Ht5 by (by rewrite (lf_tcp _ _ Hf5)).
  destruct (startup_spec heap tail fuel rf pf w5 m _ Hr5 ltac:(by rewrite Ht5) Hm) as (o & evs & w6 & Hst & Hs6 & Ha6 & E6).
  assert (log_frame w w3) as Hf03 by (by etrans).
  exists m, cs, o, evs, w6. split; [done|]. split; [done|]. split; [|split].
  - rewrite Ha6, (acts_frame _ _ Hf5). by rewrite <-(acts_frame _ _ Hf03).
  - eapply serving_steady; [|exact Hs6].
    apply (table_serving w w5); [done|done|rewrite (lf_uuid _ _ Hf5); cbn [w_uuid w4 set_tcp]; by rewrite (lf_uuid _ _ Hf03)| | |done].
    + rewrite (lf_cwd _ _ Hf5). apply (lf_cwd _ _ Hf03).
    + intros q Hq. rewrite (lf_files _ _ Hf5) by done. by apply (lf_files _ _ Hf03).
  - unfold server_start. unfold mbind at 1, M_bind at 1. rewrite E6. by destruct o.
Qed.

End Server.

(** ** Theorems *)

Section Theorems.
Context `{Env, !Calendar, !Logger} (heap : heap_policy) (tail : list Z).

(** C8: from a complete configuration the server either exits with status -1
    after closing its socket, or listens at the configured address and port
    and enters its accept loop in a state in which every connection is served
    (the clients of the configuration in its table, the logger ready, the data
    directory known). *)
Theorem server_main_serves fuel rf pf w data dp :
  log_ready w → 0 ≤ w_uuid w ≤ 999 → server_conf w data dp →
  ∃ m cs o evs w', peer_table data = m :: cs ∧ startup m o evs ∧ acts w' = acts w ++ evs ∧
    serving dp (client_addresses data) w' ∧
    server_main heap tail fuel rf pf w =
      match o with
      | Some fd => (accept_loop heap tail fuel rf pf fd ≫= λ _, mret EXIT_SUCCESS_CODE) w'
      | None => Exit EXIT_FAIL_CODE w'
      end.
Proof. apply server_main_spec. Qed.

(** The client prints every byte it receives, in order, one per line, until
    [recv] fails. *)
Theorem client_prints_all fd packets w e fuel :
  delivers (w_nsys w) packets → env_recv (w_nsys w + length packets) = inl e → (length packets < fuel)%nat →
  ∃ w', client_loop fuel fd w = Ret tt w' ∧
    w_events w' = w_events w ++ concat (byte_lines <$> packets) ++ [EvPrint (lit "receive done" ++ [10])].
Proof. apply client_loop_spec. Qed.

(** When the server closes the connection, [recv] returns 0, which the
    client does not test: it calls [recv] again without end. *)
Theorem client_spins_at_eof fd fuel w :
  (∀ n, (w_nsys w ≤ n)%nat → env_recv n = inr []) → client_loop fuel fd w = OutOfFuel.
Proof. apply client_spin_spec. Qed.

(** The sender sends the same four bytes for ever, connected or not (it
    stops only when [setsockopt] fails), and the server discards them. *)
Theorem sender_sends_useless fuel w :
  packet_kind message = KUseless ∧
  (sender_main fuel w = OutOfFuel ↔ env_setsockopt (S (w_nsys w)) ≠ EXIT_FAIL_CODE) ∧
  (∀ r w', sender_main fuel w ≠ Ret r w').
Proof.
  split; [vm_compute; reflexivity|]. rewrite sender_main_spec.
  by destruct (Z.eqb_spec (env_setsockopt (S (w_nsys w))) EXIT_FAIL_CODE).
Qed.

End Theorems.

(** ** Witnesses *)

(** A configuration with everything. *)
Definition full_conf : list Z :=
  peer_conf ++ render [Entry (lit "log-path") (lit "./log"); Entry (lit "log-level") (lit "ALL");
                       Entry (lit "data-path") (lit "./data")].
Definition full_world : World :=
  boot {[ [lit "srv"; lit "engine.conf"] := full_conf ]}
    {[ []; [lit "srv"]; [lit "srv"; lit "log"]; [lit "srv"; lit "data"]; [lit "srv"; lit "shm"] ]}.

Section Witness.
#[local] Existing Instance wire_env.
#[local] Instance quiet_log : Logger := silent_logger.
#[local] Instance wire_calendar : Calendar.
Proof. intros n. unfold tm_ok. cbn. lia. Qed.

Lemma server_main_serves_witness :
  ∃ m cs o evs w', peer_table full_conf = m :: cs ∧ startup m o evs ∧ acts w' = evs ∧
    serving (lit "./data") (client_addresses full_conf) w'.
Proof.
  destruct (server_main_serves strict_heap [0] 1 3 0 full_world full_conf (lit "./data"))
    as (m & cs & o & evs & w' & Hm & Hst & Ha & Hs & _).
  - exact I.
  - vm_compute. intuition discriminate.
  - assert (Z.to_nat (conf_int full_conf (lit "client-num")) = 1%nat) as Hone by (vm_compute; reflexivity).
    split; [|split].
    + split; [vm_compute; reflexivity|]. split; [unfold conf_ok; by_decide|]. split; [by_decide|].
      split; [vm_compute; lia|]. do 3 (split; [vm_compute; eexists; reflexivity|]).
      split; [vm_compute; intuition discriminate|]. rewrite Hone.
      intros k Hk. assert (k = 1%nat) as -> by lia. split; vm_compute; eexists; reflexivity.
    + vm_compute. reflexivity.
    + rewrite Hone. intros k Hk. assert (k = 1%nat) as -> by lia.
      assert (conf_text full_conf (address_key (Z.of_nat 1)) = play_addr) as -> by (vm_compute; reflexivity).
      split; [vm_compute; lia|exact play_lock_not_log].
  - exists m, cs, o, evs, w'. split; [exact Hm|]. split; [exact Hst|]. split; [exact Ha|exact Hs].
Defined.

Lemma client_spins_at_eof_witness : client_loop 100 7 (set_nsys 1 full_world) = OutOfFuel.
Proof. apply client_spins_at_eof. intros n Hn. apply wire_closed. exact Hn. Defined.

End Witness.

(** One message arrives, then [recv] fails. *)
Definition broken_env : Env := {|
  env_clock n := 1667750400 + Z.of_nat n;
  env_localtime _ := mkTm 0 30 10 6 10 122;
  env_home := None;
  env_strerror _ := lit "error";
  env_io_fail _ := None;
  env_dirorder _ l := l;
  env_socket n := 5 + Z.of_nat n;
  env_setsockopt _ := 0;
  env_bind _ := 0;
  env_listen _ := 0;
  env_accept n := mkConn (100 + Z.of_nat n) (192, 168, 30, 153) 40000;
  env_connect _ := 0;
  env_send _ d := (Z.of_nat (length d), 0);
  env_recv n := match n with O => inr [235; 18] | _ => inl EINTR end;
  env_fork _ := 0;
  env_pthread_create _ := 0;
  env_memory _ := Memory 262144 4096 (λ _, true);
|}.

Lemma client_prints_all_witness :
  ∃ w', client_loop (H := broken_env) 2 7 full_world = Ret tt w' ∧
    w_events w' = [EvPrint (lit "ffffffeb " ++ [10]); EvPrint (lit "12 " ++ [10]); EvPrint (lit "receive done" ++ [10])].
Proof.
  destruct (client_prints_all (H := broken_env) 7 [[235; 18]] full_world EINTR 2) as (w' & E & Hev).
  - intros [|i] d Hd; [|discriminate Hd]. injection Hd as <-. split; [reflexivity|vm_compute; discriminate].
  - reflexivity.
  - cbn. lia.
  - exists w'. split; [exact E|]. etransitivity; [exact Hev|]. vm_compute. reflexivity.
Defined.
