(* ===== verification/Printf.v ===== *)
(** * glibc: formatted output, the conversions

    The part of [glibc-2.27/stdio-common/vfprintf.c] that [vfprintf] and its
    slow path [printf_positional] share: the tables of the format automaton, the
    macros that write ([outchar], [outstring], [PAD], [done_add]), the macros
    [process_arg] and [process_string_arg] that format one argument,
    [group_number], and [read_int] (printf-parse.h) and [_IO_padn]
    (libio/iopadn.c).  Narrow characters, 64-bit [long] and [long long].

    Where the output goes is an interface (class [Sink]): [_IO_sputn] and
    [_IO_putc_unlocked] of a stream.  A function of the library that [vfprintf]
    calls and that is not modelled (wide characters, floating point, [strerror_r],
    memory, the locale) is a field of the class [Libc].

    [goto all_done] and [goto do_positional] are outcomes of the monad [P]. *)

From S2P Require Import Prelude CString Itoa.

Definition INT_MAX : Z := 2 ^ 31 - 1.
Definition WORK_BUFFER_SIZE : Z := 1000.
Definition EXTSIZ : Z := 32.
Definition EOVERFLOW : Z := 75.
Definition EINVAL : Z := 22.
Definition CHAR_MAX : Z := 127.

Definition int16 (z : Z) : Z := (z + 2 ^ 15) `mod` 2 ^ 16 - 2 ^ 15.

Lemma int64_small z : - 2 ^ 63 ≤ z < 2 ^ 63 → int64 z = z.
Proof. intros. unfold int64. rewrite Z.mod_small; lia. Qed.
Lemma int16_range z : - 2 ^ 15 ≤ int16 z < 2 ^ 15.
Proof. unfold int16. pose proof (Z.mod_pos_bound (z + 2 ^ 15) (2 ^ 16)). lia. Qed.

(** ** Data *)

(** An argument of the variable list: what was passed, after promotion.  A
    pointer comes with the bytes that can be read through it. *)
Inductive varg :=
| VInt (z : Z)                          (* int, unsigned int, wchar_t *)
| VLong (z : Z)                         (* long, long long, size_t, .. *)
| VDouble (bits : Z)
| VLdouble (bits : Z)
| VPtr (addr : Z) (mem : list Z).

(** [struct printf_info] (printf.h), with [is_char] and without the fields that
    vfprintf never sets. *)
Record printf_info := mkInfo {
  prec : Z;               (* -1 for none *)
  width : Z;
  spec : Z;
  is_long_double : bool;
  is_short : bool;
  is_long : bool;
  is_char : bool;
  alt : bool;
  space : bool;
  left : bool;
  showsign : bool;
  group : bool;
  i18n : bool;
  pad : Z;
}.

(** The values every specification starts from. *)
Definition info0 : printf_info :=
  mkInfo (-1) 0 0 false false false false false false false false false false 32.

Definition set_prec (v : Z) (i : printf_info) : printf_info :=
  mkInfo v (width i) (spec i) (is_long_double i) (is_short i) (is_long i) (is_char i) (alt i) (space i) (left i) (showsign i) (group i) (i18n i) (pad i).
Definition set_width (v : Z) (i : printf_info) : printf_info :=
  mkInfo (prec i) v (spec i) (is_long_double i) (is_short i) (is_long i) (is_char i) (alt i) (space i) (left i) (showsign i) (group i) (i18n i) (pad i).
Definition set_spec (v : Z) (i : printf_info) : printf_info :=
  mkInfo (prec i) (width i) v (is_long_double i) (is_short i) (is_long i) (is_char i) (alt i) (space i) (left i) (showsign i) (group i) (i18n i) (pad i).
Definition set_mods (ld sh lo ch : bool) (i : printf_info) : printf_info :=
  mkInfo (prec i) (width i) (spec i) ld sh lo ch (alt i) (space i) (left i) (showsign i) (group i) (i18n i) (pad i).
Definition set_alt (v : bool) (i : printf_info) : printf_info :=
  mkInfo (prec i) (width i) (spec i) (is_long_double i) (is_short i) (is_long i) (is_char i) v (space i) (left i) (showsign i) (group i) (i18n i) (pad i).
Definition set_space (v : bool) (i : printf_info) : printf_info :=
  mkInfo (prec i) (width i) (spec i) (is_long_double i) (is_short i) (is_long i) (is_char i) (alt i) v (left i) (showsign i) (group i) (i18n i) (pad i).
Definition set_left (v : bool) (i : printf_info) : printf_info :=
  mkInfo (prec i) (width i) (spec i) (is_long_double i) (is_short i) (is_long i) (is_char i) (alt i) (space i) v (showsign i) (group i) (i18n i) (pad i).
Definition set_showsign (v : bool) (i : printf_info) : printf_info :=
  mkInfo (prec i) (width i) (spec i) (is_long_double i) (is_short i) (is_long i) (is_char i) (alt i) (space i) (left i) v (group i) (i18n i) (pad i).
Definition set_group (v : bool) (i : printf_info) : printf_info :=
  mkInfo (prec i) (width i) (spec i) (is_long_double i) (is_short i) (is_long i) (is_char i) (alt i) (space i) (left i) (showsign i) v (i18n i) (pad i).
Definition set_i18n (v : bool) (i : printf_info) : printf_info :=
  mkInfo (prec i) (width i) (spec i) (is_long_double i) (is_short i) (is_long i) (is_char i) (alt i) (space i) (left i) (showsign i) (group i) v (pad i).
Definition set_pad (v : Z) (i : printf_info) : printf_info :=
  mkInfo (prec i) (width i) (spec i) (is_long_double i) (is_short i) (is_long i) (is_char i) (alt i) (space i) (left i) (showsign i) (group i) (i18n i) v.

(** ** The format automaton *)

(** The labels of the jump tables. *)
Inductive label :=
| form_unknown | flag_space | flag_plus | flag_minus | flag_hash | flag_zero | flag_quote | width_asterics
| width_digits | precision | mod_half | mod_long | mod_longlong | mod_size_t | form_percent | form_integer
| form_unsigned | form_octal | form_hexa | form_float | form_character | form_string | form_pointer
| form_number | form_strerror | form_wcharacter | form_floathex | mod_ptrdiff_t | mod_intmax_t | flag_i18n
| mod_halfhalf.

(** [static const uint8_t jump_table[]], from [' '] to ['z'] *)
Definition jump_table : list nat :=
  [ 1; 0; 0; 4; 0; 14; 0; 6; 0; 0; 7; 2; 0; 3; 9; 0;
    5; 8; 8; 8; 8; 8; 8; 8; 8; 8; 0; 0; 0; 0; 0; 0;
    0; 26; 0; 25; 0; 19; 19; 19; 0; 29; 0; 0; 12; 0; 0; 0;
    0; 0; 0; 21; 0; 0; 0; 0; 18; 0; 13; 0; 0; 0; 0; 0;
    0; 26; 0; 20; 15; 19; 19; 19; 10; 15; 28; 0; 11; 24; 23; 17;
    22; 12; 0; 21; 27; 16; 0; 0; 18; 0; 13 ]%nat.

(** The conversions, which end every table in one of three ways. *)
Definition forms : list label :=
  [form_percent; form_integer; form_unsigned; form_octal; form_hexa; form_float; form_character; form_string;
   form_pointer; form_number; form_strerror; form_wcharacter; form_floathex].

Definition step0_jumps : list label :=
  [form_unknown; flag_space; flag_plus; flag_minus; flag_hash; flag_zero; flag_quote; width_asterics; width_digits;
   precision; mod_half; mod_long; mod_longlong; mod_size_t] ++ forms ++ [mod_ptrdiff_t; mod_intmax_t; flag_i18n].
Definition step1_jumps : list label :=
  replicate 9 form_unknown ++ [precision; mod_half; mod_long; mod_longlong; mod_size_t] ++ forms ++
  [mod_ptrdiff_t; mod_intmax_t; form_unknown].
Definition step2_jumps : list label :=
  replicate 10 form_unknown ++ [mod_half; mod_long; mod_longlong; mod_size_t] ++ forms ++
  [mod_ptrdiff_t; mod_intmax_t; form_unknown].
Definition step3a_jumps : list label :=
  replicate 10 form_unknown ++ [mod_halfhalf; form_unknown; form_unknown; form_unknown] ++
  [form_percent; form_integer; form_unsigned; form_octal; form_hexa; form_unknown; form_unknown; form_unknown;
   form_unknown; form_number; form_unknown; form_unknown; form_unknown] ++ replicate 3 form_unknown.
Definition step3b_jumps : list label :=
  replicate 11 form_unknown ++ [mod_longlong; form_unknown; form_unknown] ++ forms ++ replicate 3 form_unknown.
Definition step4_jumps : list label := replicate 14 form_unknown ++ forms ++ replicate 3 form_unknown.

(** [JUMP (ChExpr, table)]: the label a character leads to.  [spec] is a
    [char], so bytes from 128 on are below the range. *)
Definition JUMP (c : Z) (table : list label) : label :=
  let c := int8 c in
  if (c <? 32) || (122 <? c) then form_unknown
  else default form_unknown (k ← jump_table !! Z.to_nat (c - 32); table !! k).

Definition ISDIGIT (c : Z) : bool := uint32 (c - 48) <? 10.

(** [static int read_int (const UCHAR_T * *pstr)]: the value, -1 when it
    exceeds [INT_MAX], and what follows the digits; [p] starts behind the first digit. *)
Fixpoint read_digits (retval : Z) (p : list Z) : res (Z * list Z) :=
  match p with
  | [] => Bad Unterminated
  | c :: p' =>
      if ISDIGIT c then
        read_digits (if 0 <=? retval then
                       if INT_MAX / 10 <? retval then -1
                       else let digit := c - 48 in
                            if INT_MAX - digit <? retval * 10 then -1 else retval * 10 + digit
                     else retval) p'
      else Ok (retval, p)
  end.
Definition read_int (p : list Z) : res (Z * list Z) :=
  match p with [] => Bad Unterminated | c :: p' => read_digits (c - 48) p' end.

(** [__find_specmb]: the text before the next ['%'] or the end, and what is there. *)
Fixpoint find_spec (p : list Z) : res (list Z * list Z) :=
  match p with
  | [] => Bad Unterminated
  | c :: p' => if (c =? 37) || (c =? 0) then Ok ([], p) else r ← find_spec p'; Ok (c :: r.1, r.2)
  end.

(** ** Interfaces *)

(** The stream functions [vfprintf] writes with: [_IO_sputn] with the number of
    bytes it reports, [_IO_putc_unlocked] with whether it returns something else than EOF. *)
Class Sink (F : Type) := {
  sputn : list Z → F → res (Z * F);
  sputc : Z → F → res (bool * F);
}.

(** What [vfprintf] uses of the rest of the library. *)
Class Libc (F : Type) := {
  lc_alloc : Z → bool;                                   (* alloca or malloc of that many bytes *)
  lc_strerror_r : Z → list Z;
  lc_wcrtomb : Z → option (list Z);                      (* None for (size_t) -1 *)
  lc_wcsrtombs : list Z → Z → res (option (list Z));     (* the bytes of a wide string, at most prec *)
  lc_i18n_number_rewrite : list Z → list Z;
  lc_thousands_sep : list Z;                             (* LC_NUMERIC of the locale *)
  lc_grouping : list Z;
  lc_printf_fp : printf_info → varg → F → res (Z * F);
  lc_printf_fphex : printf_info → varg → F → res (Z * F);
  lc_fortify : bool;                                     (* _IO_FLAGS2_FORTIFY *)
  lc_readonly_area : bool;                               (* the format is in read-only memory *)
}.

(** ** The state of vfprintf *)

(** [const char *grouping]: not asked for yet, NULL, or the rule. *)
Inductive grouping_rule := Unasked | NoGrouping | Grouping (g : list Z).

(** What a ["%n"] stores: address, size and value. *)
Record store := mkStore { st_addr : Z; st_size : Z; st_value : Z }.

Record pst (F : Type) := mkP {
  p_done : Z;
  p_out : F;
  p_ap : list varg;
  p_mem : list store;
  p_grouping : grouping_rule;
  p_errno : Z;
  p_nspecs : nat;          (* nspecs_done *)
}.
Arguments mkP {F}.
Arguments p_done {F}.
Arguments p_out {F}.
Arguments p_ap {F}.
Arguments p_mem {F}.
Arguments p_grouping {F}.
Arguments p_errno {F}.
Arguments p_nspecs {F}.

Inductive pres (F A : Type) :=
| Go (a : A) (st : pst F)
| AllDone (st : pst F)           (* goto all_done *)
| Positional (st : pst F)        (* goto do_positional *)
| Aborted                        (* a failed assertion, __libc_fatal *)
| Fault (f : fault).
Arguments Go {F A} a st.
Arguments AllDone {F A} st.
Arguments Positional {F A} st.
Arguments Aborted {F A}.
Arguments Fault {F A} f.

Definition P (F A : Type) : Type := pst F → pres F A.

#[global] Instance P_ret {F} : MRet (P F) := λ A a st, Go a st.
#[global] Instance P_bind {F} : MBind (P F) := λ A B f m st,
  match m st with
  | Go a st' => f a st'
  | AllDone st' => AllDone st'
  | Positional st' => Positional st'
  | Aborted => Aborted
  | Fault x => Fault x
  end.

Definition set_done {F} (d : Z) (st : pst F) : pst F := mkP d (p_out st) (p_ap st) (p_mem st) (p_grouping st) (p_errno st) (p_nspecs st).
Definition set_out {F} (o : F) (st : pst F) : pst F := mkP (p_done st) o (p_ap st) (p_mem st) (p_grouping st) (p_errno st) (p_nspecs st).
Definition set_ap {F} (a : list varg) (st : pst F) : pst F := mkP (p_done st) (p_out st) a (p_mem st) (p_grouping st) (p_errno st) (p_nspecs st).
Definition set_mem {F} (m : list store) (st : pst F) : pst F := mkP (p_done st) (p_out st) (p_ap st) m (p_grouping st) (p_errno st) (p_nspecs st).
Definition set_grouping {F} (g : grouping_rule) (st : pst F) : pst F := mkP (p_done st) (p_out st) (p_ap st) (p_mem st) g (p_errno st) (p_nspecs st).
Definition set_nspecs {F} (n : nat) (st : pst F) : pst F := mkP (p_done st) (p_out st) (p_ap st) (p_mem st) (p_grouping st) (p_errno st) n.
Definition set_errno {F} (e : Z) (st : pst F) : pst F := mkP (p_done st) (p_out st) (p_ap st) (p_mem st) (p_grouping st) e (p_nspecs st).

(** A memory operation, and a stream operation, inside [vfprintf]. *)
Definition plift {F A} (r : res A) : P F A := λ st, match r with Ok a => Go a st | Bad f => Fault f end.
Definition pstream {F A} (op : F → res (A * F)) : P F A := λ st,
  match op (p_out st) with Ok (a, o) => Go a (set_out o st) | Bad f => Fault f end.
Definition pget {F A} (f : pst F → A) : P F A := λ st, Go (f st) st.
Definition pmodify {F} (f : pst F → pst F) : P F unit := λ st, Go tt (f st).

(** [done = -1; goto all_done;], with [errno] set or not *)
Definition fail {F A} : P F A := λ st, AllDone (set_done (-1) st).
Definition fail_errno {F A} (e : Z) : P F A := λ st, AllDone (set_done (-1) (set_errno e st)).

Definition abort {F A} : P F A := λ _, Aborted.
Definition pfault {F A} (f : fault) : P F A := λ _, Fault f.

Section Ops.
Context {F : Type} `{Sink F} `{Libc F}.

(** ** Writing *)

(** [done_add (val)] *)
Definition done_add (val : Z) : P F unit := λ st,
  let _val := uint32 val in
  if negb (uint32 (p_done st) <? INT_MAX) then Aborted
  else if INT_MAX - p_done st <? _val then fail_errno EOVERFLOW st
  else Go tt (set_done (p_done st + _val) st).

(** [outchar (Ch)] *)
Definition outchar (c : Z) : P F unit :=
  ok ← pstream (sputc c);
  done ← pget p_done;
  if negb ok || (done =? INT_MAX) then fail else pmodify (set_done (done + 1)).

(** [outstring (String, Len)] *)
Definition outstring (text : list Z) : P F unit :=
  done ← pget p_done;
  let len := Z.of_nat (length text) in
  if negb (uint64 done <=? INT_MAX) then abort
  else
    n ← pstream (sputn text);
    if negb (n =? len) then fail
    else if INT_MAX - done <? len then fail_errno EOVERFLOW
    else pmodify (set_done (done + len)).

(** [_IO_ssize_t _IO_padn (_IO_FILE *fp, int pad, _IO_ssize_t count)]: the loop
    over blocks of [PADSIZE], with what is written so far. *)
Definition PADSIZE : nat := 16.
Fixpoint padn_loop (fuel : nat) (c : Z) (i : Z) (written : Z) : P F Z :=
  match fuel with
  | O => pfault Unspecified
  | S fuel' =>
      if Z.of_nat PADSIZE <=? i then
        w ← pstream (sputn (replicate PADSIZE c));
        let written := uint64 (written + w) in
        if negb (w =? Z.of_nat PADSIZE) then mret written
        else padn_loop fuel' c (i - Z.of_nat PADSIZE) written
      else if 0 <? i then
        w ← pstream (sputn (replicate (Z.to_nat i) c));
        mret (uint64 (written + w))
      else mret written
  end.
Definition _IO_padn (c count : Z) : P F Z := padn_loop (S (Z.to_nat count)) c (int32 count) 0.

(** [PAD (Padchar)] with the current [width] *)
Definition PAD (c width : Z) : P F unit :=
  if 0 <? width then
    written ← _IO_padn c width;
    if negb (int64 written =? width) then fail else done_add written
  else mret tt.

(** ** Arguments *)

(** What [process_arg] reads: [va_arg], or a member of [args_value]. *)
Class Fetch := {
  fetch_int : P F Z;              (* int *)
  fetch_long : P F Z;             (* long int *)
  fetch_double : P F varg;
  fetch_ldouble : P F varg;
  fetch_ptr : P F (Z * list Z);   (* void * *)
}.

(** [va_arg (ap, T)]: the next argument, which must have a compatible type. *)
Definition va_arg {A} (take : varg → option A) : P F A :=
  ap ← pget p_ap;
  match ap with
  | v :: ap' =>
      match take v with
      | Some a => pmodify (set_ap ap') ;; mret a
      | None => pfault BadVarArg
      end
  | [] => pfault BadVarArg
  end.
Definition as_int (v : varg) : option Z := match v with VInt z => Some (int32 z) | _ => None end.
Definition as_long (v : varg) : option Z := match v with VLong z => Some (int64 z) | _ => None end.
Definition as_double (v : varg) : option varg := match v with VDouble _ => Some v | _ => None end.
Definition as_ldouble (v : varg) : option varg := match v with VLdouble _ => Some v | _ => None end.
Definition as_ptr (v : varg) : option (Z * list Z) := match v with VPtr a m => Some (a, m) | _ => None end.

Definition va_fetch : Fetch :=
  {| fetch_int := va_arg as_int; fetch_long := va_arg as_long; fetch_double := va_arg as_double;
     fetch_ldouble := va_arg as_ldouble; fetch_ptr := va_arg as_ptr |}.

(** ** Numbers *)

(** [group_number (front_ptr, w, rear_ptr, grouping, thousands_sep)] on the digits
    [ds], copied to the front of the work buffer; [s] of them are left to
    move, [out] is what is behind [w].  The [memmove] at [copy_rest] has a negative size. *)
Fixpoint group_loop (ds : list Z) (s : nat) (out : list Z) (len prev : Z) (grouping sep : list Z) : res (list Z) :=
  match s with
  | O => Ok out
  | S s' =>
      match ds !! s' with
      | None => Bad OutOfBounds
      | Some d =>
          let out := d :: out in
          let len := len - 1 in
          if (len =? 0) && (0 <? Z.of_nat s') then
            if Z.of_nat (length sep) <? WORK_BUFFER_SIZE - Z.of_nat (length out) - Z.of_nat s' then
              match sep with
              | [] => Bad OutOfBounds
              | _ =>
                  let out := sep ++ out in
                  match grouping with
                  | [] => Bad Unterminated
                  | g :: grouping' =>
                      if (int8 g =? CHAR_MAX) || (int8 g <? 0) then Bad OutOfBounds
                      else if negb (g =? 0) then group_loop ds s' out g g grouping' sep
                      else group_loop ds s' out prev prev grouping sep
                  end
              end
            else Bad OutOfBounds
          else group_loop ds s' out len prev grouping sep
      end
  end.
Definition group_number (ds grouping sep : list Z) : res (list Z) :=
  match grouping with
  | [] => Bad Unterminated
  | g :: grouping' =>
      if (int8 g =? CHAR_MAX) || (int8 g <=? 0) then Ok ds
      else group_loop ds (length ds) [] g g grouping' sep
  end.

(** The text of a number before padding: [work] is [None] for [work_buffer]
    and the size of the special buffer otherwise. *)
Definition work_size (work : option Z) : nat := Z.to_nat (default WORK_BUFFER_SIZE work).
Definition number_digits (work : option Z) (i : printf_info) (base word : Z) : P F (list Z) :=
  if (prec i =? 0) && (word =? 0) then mret (if (base =? 8) && alt i then [48] else [])
  else
    r ← plift (_itoa_word word (zeros (work_size work)) (work_size work) base (spec i =? chr "X"));
    let string := drop r.1 r.2 in
    rule ← pget p_grouping;
    string ← (if group i then
                match rule, work with
                | NoGrouping, _ => mret string
                | Grouping g, None => plift (sep ← cstr lc_thousands_sep; group_number string g sep)
                | _, _ => pfault Unspecified
                end
              else mret string);
    mret (if i18n i && (base =? 10) then lc_i18n_number_rewrite string else string).

(** [LABEL (number)]: a precision overrides the ['0'] flag, and -1 means 1. *)
Definition number_prec (i : printf_info) : printf_info :=
  if prec i <? 0 then set_prec 1 i else set_pad 32 i.

(** The sign, or the blank in its place. *)
Definition out_sign (i : printf_info) (is_negative : bool) : P F unit :=
  if is_negative then outchar (chr "-")
  else if showsign i then outchar (chr "+")
  else if space i then outchar 32
  else mret tt.
Definition has_sign (i : printf_info) (is_negative : bool) : bool := is_negative || showsign i || space i.

Definition out_marker (i : printf_info) (marker : bool) : P F unit :=
  if marker then outchar (chr "0") ;; outchar (spec i) else mret tt.

(** From [LABEL (number)] to the end of the number. *)
Definition do_number (work : option Z) (i : printf_info) (base : Z) (is_negative : bool) (word : Z) : P F unit :=
  let i := number_prec i in
  string ← number_digits work i base word;
  let string := if (prec i <=? Z.of_nat (length string)) && negb (word =? 0) && alt i && (base =? 8)
                then chr "0" :: string else string in
  let len := Z.of_nat (length string) in
  let prec := Z.max 0 (prec i - len) in
  let marker := negb (word =? 0) && alt i && (base =? 16) in
  if negb (left i) then
    let width := int32 (width i - (len + prec)) in
    let width := if marker then int32 (width - 2) else width in
    let width := if has_sign i is_negative then int32 (width - 1) else width in
    width ← (if pad i =? 32 then PAD 32 width ;; mret 0 else mret width);
    out_sign i is_negative ;;
    out_marker i marker ;;
    PAD (chr "0") (int32 (width + prec)) ;;
    outstring string
  else
    out_sign i is_negative ;;
    let width := if has_sign i is_negative then int32 (width i - 1) else width i in
    out_marker i marker ;;
    let width := if marker then int32 (width - 2) else width in
    let width := int32 (width - (len + prec)) in
    (if 0 <? prec then PAD (chr "0") prec else mret tt) ;;
    outstring string ;;
    PAD 32 width.

Context {fetch : Fetch}.

(** [LABEL (form_integer)] *)
Definition form_integer_arg (work : option Z) (i : printf_info) : P F unit :=
  signed_number ← (if is_long i then fetch_long
                   else v ← fetch_int;
                        mret (if is_char i then int8 v else if negb (is_short i) then int32 v else int16 v));
  let is_negative := signed_number <? 0 in
  do_number work i 10 is_negative (uint64 (if is_negative then - signed_number else signed_number)).

(** [LABEL (unsigned_number)] *)
Definition unsigned_number (work : option Z) (i : printf_info) (base : Z) : P F unit :=
  let i := set_space false (set_showsign false i) in
  word ← (if is_long i then v ← fetch_long; mret (uint64 v)
          else v ← fetch_int;
               mret (if is_char i then uint8 v else if negb (is_short i) then uint32 v else uint16 v));
  do_number work i base false word.

(** ** Strings *)

(** [__strnlen (string, prec)] bytes of the string *)
Fixpoint cstrn (n : Z) (a : list Z) : res (list Z) :=
  if n <=? 0 then Ok []
  else match a with
       | [] => Bad Unterminated
       | c :: a' => if c =? 0 then Ok [] else r ← cstrn (n - 1) a'; Ok (c :: r)
       end.

(** The end of [LABEL (print_string)], for [len] bytes of [string] *)
Definition out_field (i : printf_info) (text : list Z) : P F unit :=
  let width := int32 (width i - Z.of_nat (length text)) in
  if width <? 0 then outstring text
  else
    (if negb (left i) then PAD 32 width else mret tt) ;;
    outstring text ;;
    (if left i then PAD 32 width else mret tt).

(** [LABEL (print_string)]; the pointer is [None] for NULL. *)
Definition print_string (i : printf_info) (string : option (list Z)) : P F unit :=
  text ← (match string with
          | None => mret (if (prec i =? -1) || (6 <=? prec i) then lit "(null)" else [])
          | Some mem =>
              if negb (is_long i) && negb (spec i =? chr "S") then
                plift (if negb (prec i =? -1) then cstrn (prec i) mem else cstr mem)
              else
                if (0 <=? prec i) && negb (lc_alloc (prec i)) then fail
                else
                  r ← plift (lc_wcsrtombs mem (prec i));
                  match r with
                  | None => fail
                  | Some t => if (prec i <? 0) && negb (lc_alloc (Z.of_nat (length t) + 1)) then fail else mret t
                  end
          end);
  out_field i text.

(** [LABEL (form_wcharacter)] *)
Definition form_wcharacter_arg (i : printf_info) : P F unit :=
  c ← fetch_int;
  match lc_wcrtomb c with
  | None => fail
  | Some buf =>
      let width := int32 (width i - Z.of_nat (length buf)) in
      (if negb (left i) then PAD 32 width else mret tt) ;;
      outstring buf ;;
      (if left i then PAD 32 width else mret tt)
  end.

(** [LABEL (form_character)] *)
Definition form_character_arg (i : printf_info) : P F unit :=
  if is_long i then form_wcharacter_arg i
  else
    let width := int32 (width i - 1) in
    (if negb (left i) then PAD 32 width else mret tt) ;;
    c ← fetch_int;
    outchar (uint8 c) ;;
    (if left i then PAD 32 width else mret tt).

(** [LABEL (form_pointer)] *)
Definition form_pointer_arg (work : option Z) (i : printf_info) : P F unit :=
  ptr ← fetch_ptr;
  if negb (ptr.1 =? 0) then
    do_number work (set_spec (chr "x") (set_group false (set_alt true i))) 16 false (uint64 ptr.1)
  else
    let i := if prec i <? 5 then set_prec 5 i else i in
    print_string (set_mods (is_long_double i) (is_short i) false (is_char i) i) (Some (lit "(nil)" ++ [0])).

(** [LABEL (form_number)] *)
Definition form_number_arg (i : printf_info) : P F unit :=
  if lc_fortify && negb lc_readonly_area then abort
  else
    ptr ← fetch_ptr;
    if ptr.1 =? 0 then pfault NullPointer
    else
      done ← pget p_done;
      mem ← pget p_mem;
      pmodify (set_mem (mem ++ [if is_long i then mkStore ptr.1 8 done
                                else if is_char i then mkStore ptr.1 1 (int8 done)
                                else if negb (is_short i) then mkStore ptr.1 4 done
                                else mkStore ptr.1 2 (int16 done)])).

(** [LABEL (form_float)] and [LABEL (form_floathex)] *)
Definition form_float_arg (print : printf_info → varg → F → res (Z * F)) (i : printf_info) : P F unit :=
  the_arg ← (if is_long_double i then fetch_ldouble else fetch_double);
  function_done ← pstream (print i the_arg);
  if function_done <? 0 then fail else done_add function_done.

(** [process_arg (fspec)] and [process_string_arg (fspec)]; [unknown] is what
    follows at [LABEL (form_unknown)]. *)
Definition process_arg (unknown : P F unit) (work : option Z) (save_errno : Z) (i : printf_info) (l : label) : P F unit :=
  match l with
  | form_percent => outchar (chr "%")
  | form_integer => form_integer_arg work i
  | form_unsigned => unsigned_number work i 10
  | form_octal => unsigned_number work i 8
  | form_hexa => unsigned_number work i 16
  | form_float => form_float_arg lc_printf_fp i
  | form_floathex => form_float_arg lc_printf_fphex i
  | form_pointer => form_pointer_arg work i
  | form_number => form_number_arg i
  | form_strerror =>
      print_string (set_mods (is_long_double i) (is_short i) false (is_char i) i) (Some (lc_strerror_r save_errno ++ [0]))
  | form_character => form_character_arg i
  | form_wcharacter => form_wcharacter_arg i
  | form_string => ptr ← fetch_ptr; print_string i (if ptr.1 =? 0 then None else Some ptr.2)
  | _ => unknown
  end.
End Ops.
