(* ===== verification/PrintfFast.v ===== *)
(** * glibc: formatted output, the format automaton

    [vfprintf] of [glibc-2.27/stdio-common/vfprintf.c] and its slow path
    [printf_positional], with [__parse_one_specmb] of
    stdio-common/printf-parsemb.c and [printf_unknown]. *)

From S2P Require Import Prelude CString Itoa Printf.

Section Ops.
Context {F : Type} `{Sink F} `{Libc F}.

(** ** The fast loop *)

Definition positional {A} : P F A := λ st, Positional st.

(** [*f], with the character as [spec] *)
Definition at_char {A} (f : list Z) (i : printf_info) (k : Z → printf_info → list Z → P F A) : P F A :=
  match f with [] => pfault Unterminated | c :: f' => k c (set_spec (int8 c) i) f' end.

(** A conversion; it returns with [f] at its character. *)
Definition do_form (save_errno : Z) (work : option Z) (l : label) (f : list Z) (i : printf_info) : P F (list Z) :=
  process_arg (fetch := va_fetch) (if spec i =? 0 then fail_errno EINVAL else positional) work save_errno i l ;;
  mret f.

(** After the last modifier, and after ['h'] and ['l'] *)
Definition jump4 (save_errno : Z) (work : option Z) (f : list Z) (i : printf_info) : P F (list Z) :=
  at_char f i (λ c i _, do_form save_errno work (JUMP c step4_jumps) f i).
Definition jump3a (save_errno : Z) (work : option Z) (f : list Z) (i : printf_info) : P F (list Z) :=
  at_char f i (λ c i f',
    match JUMP c step3a_jumps with
    | mod_halfhalf => jump4 save_errno work f' (set_mods (is_long_double i) false (is_long i) true i)
    | l => do_form save_errno work l f i
    end).
Definition jump3b (save_errno : Z) (work : option Z) (f : list Z) (i : printf_info) : P F (list Z) :=
  at_char f i (λ c i f',
    match JUMP c step3b_jumps with
    | mod_longlong => jump4 save_errno work f' (set_mods true (is_short i) true (is_char i) i)
    | l => do_form save_errno work l f i
    end).

(** The modifiers: [f] is at the character of [l], [f'] behind it. *)
Definition do_modifier (save_errno : Z) (work : option Z) (l : label) (f f' : list Z) (i : printf_info) : P F (list Z) :=
  match l with
  | mod_half => jump3a save_errno work f' (set_mods (is_long_double i) true (is_long i) (is_char i) i)
  | mod_long => jump3b save_errno work f' (set_mods (is_long_double i) (is_short i) true (is_char i) i)
  | mod_longlong => jump4 save_errno work f' (set_mods true (is_short i) true (is_char i) i)
  | mod_size_t | mod_ptrdiff_t | mod_intmax_t => jump4 save_errno work f' (set_mods false (is_short i) true (is_char i) i)
  | _ => do_form save_errno work l f i
  end.

Definition jump2 (save_errno : Z) (work : option Z) (f : list Z) (i : printf_info) : P F (list Z) :=
  at_char f i (λ c i f', do_modifier save_errno work (JUMP c step2_jumps) f f' i).

(** A special buffer for [n] characters, where [work_buffer] may be too small *)
Definition special_buffer (n : Z) : P F (option Z) :=
  if lc_alloc (n + EXTSIZ) then mret (Some (n + EXTSIZ)) else fail.

(** [if (ISDIGIT ( *tmp)) .. goto do_positional], after a ['*'] *)
Definition check_positional (f : list Z) : P F unit :=
  match f with
  | [] => pfault Unterminated
  | c :: _ =>
      if ISDIGIT c then
        r ← plift (read_int f);
        if r.1 =? -1 then fail_errno EOVERFLOW
        else match r.2 with
             | [] => pfault Unterminated
             | d :: _ => if negb (r.1 =? 0) && (d =? chr "$") then positional else mret tt
             end
      else mret tt
  end.

(** [LABEL (precision)], [f] behind the ['.'] *)
Definition read_precision (f : list Z) : P F (Z * list Z) :=
  match f with
  | [] => pfault Unterminated
  | c :: f' =>
      if c =? chr "*" then
        check_positional f' ;;
        p ← va_arg as_int;
        mret (if p <? 0 then -1 else p, f')
      else if ISDIGIT c then
        r ← plift (read_int f);
        if r.1 =? -1 then fail_errno EOVERFLOW else mret r
      else mret (0, f)
  end.
Definition do_precision (save_errno : Z) (work : option Z) (f : list Z) (i : printf_info) : P F (list Z) :=
  r ← read_precision f;
  let i := set_prec r.1 i in
  work ← (if (width i <? prec i) && (WORK_BUFFER_SIZE - EXTSIZ <? prec i) then
            if INT_MAX - EXTSIZ <=? prec i then fail_errno EOVERFLOW else special_buffer (prec i)
          else mret work);
  jump2 save_errno work r.2 i.

Definition jump1 (save_errno : Z) (work : option Z) (f : list Z) (i : printf_info) : P F (list Z) :=
  at_char f i (λ c i f',
    match JUMP c step1_jumps with
    | precision => do_precision save_errno work f' i
    | l => do_modifier save_errno work l f f' i
    end).

(** The buffer after [LABEL (width_asterics)] and [LABEL (width)]; the width is
    compared as a [size_t]. *)
Definition width_buffer (width : Z) : P F (option Z) :=
  if INT_MAX - EXTSIZ <=? uint64 width then fail_errno EOVERFLOW
  else if WORK_BUFFER_SIZE - EXTSIZ <=? width then special_buffer width else mret None.

(** [LABEL (width_asterics)], [f] behind the ['*'] *)
Definition do_width_asterics (save_errno : Z) (f : list Z) (i : printf_info) : P F (list Z) :=
  check_positional f ;;
  w ← va_arg as_int;
  let i := if w <? 0 then set_left true (set_pad 32 (set_width (int32 (- w)) i)) else set_width w i in
  work ← width_buffer (width i);
  jump1 save_errno work f i.

(** [LABEL (width)], [f] at the first digit *)
Definition do_width (save_errno : Z) (f : list Z) (i : printf_info) : P F (list Z) :=
  r ← plift (read_int f);
  let i := set_width r.1 i in
  work ← width_buffer (width i);
  match r.2 with
  | [] => pfault Unterminated
  | c :: _ => if c =? chr "$" then positional else jump1 save_errno work r.2 i
  end.

(** [LABEL (flag_quote)] *)
Definition ask_grouping : P F unit :=
  rule ← pget p_grouping;
  match rule with
  | Unasked =>
      match lc_grouping, lc_thousands_sep with
      | g :: _, t :: _ =>
          pmodify (set_grouping (if (g =? 0) || (int8 g =? CHAR_MAX) || (t =? 0) then NoGrouping else Grouping lc_grouping))
      | _, _ => pfault Unterminated
      end
  | _ => mret tt
  end.

(** From the character after ['%'] to the end of the conversion *)
Fixpoint do_spec (save_errno : Z) (f : list Z) (i : printf_info) : P F (list Z) :=
  match f with
  | [] => pfault Unterminated
  | c :: f' =>
      let i := set_spec (int8 c) i in
      match JUMP c step0_jumps with
      | flag_space => do_spec save_errno f' (set_space true i)
      | flag_plus => do_spec save_errno f' (set_showsign true i)
      | flag_minus => do_spec save_errno f' (set_pad 32 (set_left true i))
      | flag_hash => do_spec save_errno f' (set_alt true i)
      | flag_zero => do_spec save_errno f' (if negb (left i) then set_pad 48 i else i)
      | flag_quote => ask_grouping ;; do_spec save_errno f' (set_group true i)
      | flag_i18n => do_spec save_errno f' (set_i18n true i)
      | width_asterics => do_width_asterics save_errno f' i
      | width_digits => do_width save_errno f i
      | precision => do_precision save_errno None f' i
      | l => do_modifier save_errno None l f f' i
      end
  end.

(** ** [printf_unknown] *)

(** [w = _itoa_word (n, workend, 10, 0); while (w < workend) outchar ( *w++);] with
    its buffer of 12 characters; [n] is converted to [unsigned long]. *)
Fixpoint out_chars (l : list Z) : P F unit :=
  match l with [] => mret tt | c :: l' => outchar c ;; out_chars l' end.
Definition out_number (n : Z) : P F unit :=
  r ← plift (_itoa_word (uint64 n) (zeros 12) 12 10 false);
  out_chars (drop r.1 r.2).

Definition out_if (b : bool) (c : Z) : P F unit := if b then outchar c else mret tt.

(** [static int printf_unknown (FILE *s, const struct printf_info *info, ..)]: it
    counts from 0, and its own [all_done] gives -1 to the caller. *)
Definition printf_unknown_body (i : printf_info) : P F unit :=
  outchar (chr "%") ;;
  out_if (alt i) (chr "#") ;;
  out_if (group i) 39 ;;
  (if showsign i then outchar (chr "+") else out_if (space i) 32) ;;
  out_if (left i) (chr "-") ;;
  out_if (pad i =? chr "0") (chr "0") ;;
  out_if (i18n i) (chr "I") ;;
  (if negb (width i =? 0) then out_number (width i) else mret tt) ;;
  (if negb (prec i =? -1) then outchar (chr ".") ;; out_number (prec i) else mret tt) ;;
  out_if (negb (spec i =? 0)) (spec i).
Definition printf_unknown (i : printf_info) : P F Z := λ st,
  match printf_unknown_body i (set_done 0 st) with
  | Go _ st' | AllDone st' => Go (p_done st') (set_done (p_done st) st')
  | Positional st' => Positional st'
  | Aborted => Aborted
  | Fault f => Fault f
  end.

(** ** Parsing for the slow path *)

(** [struct printf_spec] (printf-parse.h); the pointers into the format are what
    is there. *)
Record printf_spec := mkSpec {
  info : printf_info;
  end_of_fmt : list Z;
  next_fmt : list Z;
  const_after : list Z;       (* the text between the two *)
  prec_arg : Z;
  width_arg : Z;
  data_arg : Z;
  data_arg_type : Z;
  ndata_args : nat;
}.

(** Types of arguments (printf.h) *)
Definition PA_INT : Z := 0.
Definition PA_CHAR : Z := 1.
Definition PA_WCHAR : Z := 2.
Definition PA_STRING : Z := 3.
Definition PA_WSTRING : Z := 4.
Definition PA_POINTER : Z := 5.
Definition PA_FLOAT : Z := 6.
Definition PA_DOUBLE : Z := 7.
Definition PA_FLAG_LONG_LONG : Z := 256.
Definition PA_FLAG_LONG_DOUBLE : Z := PA_FLAG_LONG_LONG.
Definition PA_FLAG_LONG : Z := 512.
Definition PA_FLAG_SHORT : Z := 1024.
Definition PA_FLAG_PTR : Z := 2048.

(** [*p], and the [p] behind it *)
Definition deref (p : list Z) : res Z := match p with [] => Bad Unterminated | c :: _ => Ok c end.
Definition next (p : list Z) : list Z := tl p.

(** [n = read_int (&format)] as an [unsigned int], [if (n != 0 && *format == '$')]: the
    position, or [None] with the format as it was read *)
Definition read_position (format : list Z) : res (option Z * list Z) :=
  r ← read_int format;
  d ← deref r.2;
  let n := uint32 r.1 in
  if negb (n =? 0) && (d =? chr "$") then Ok (Some n, next r.2) else Ok (None, r.2).
Definition position_arg (n : Z) : Z := if n =? uint32 (-1) then -1 else n - 1.
Definition max_ref (n max_ref_arg : Z) : Z := if n =? uint32 (-1) then max_ref_arg else Z.max max_ref_arg n.

(** The test for a positional argument: [data_arg], [*max_ref_arg], the rest *)
Definition parse_position (format : list Z) (max_ref_arg : Z) : res (Z * Z * list Z) :=
  c ← deref format;
  if ISDIGIT c then
    r ← read_position format;
    match r with
    | (Some n, format') => Ok (position_arg n, max_ref n max_ref_arg, format')
    | (None, _) => Ok (-1, max_ref_arg, format)
    end
  else Ok (-1, max_ref_arg, format).

(** The loop over the flags *)
Fixpoint parse_flags (format : list Z) (i : printf_info) : res (printf_info * list Z) :=
  match format with
  | [] => Bad Unterminated
  | c :: format' =>
      if c =? 32 then parse_flags format' (set_space true i)
      else if c =? chr "+" then parse_flags format' (set_showsign true i)
      else if c =? chr "-" then parse_flags format' (set_left true i)
      else if c =? chr "#" then parse_flags format' (set_alt true i)
      else if c =? chr "0" then parse_flags format' (set_pad 48 i)
      else if c =? 39 then parse_flags format' (set_group true i)
      else if c =? chr "I" then parse_flags format' (set_i18n true i)
      else Ok (i, format)
  end.

(** An argument for the width or the precision, [format] behind the ['*']: its
    position, [posn], [nargs] and [*max_ref_arg] afterwards, the rest *)
Definition parse_star (format : list Z) (posn nargs max_ref_arg : Z) : res (Z * Z * Z * Z * list Z) :=
  c ← deref format;
  r ← (if ISDIGIT c then
         r ← read_position format;
         match r with
         | (Some n, format') => Ok (position_arg n, max_ref n max_ref_arg, format')
         | (None, format') => Ok (-1, max_ref_arg, format')
         end
       else Ok (-1, max_ref_arg, format));
  let '(arg, max_ref_arg, format') := r in
  if arg <? 0 then Ok (posn, posn + 1, nargs + 1, max_ref_arg, format)
  else Ok (arg, posn, nargs, max_ref_arg, format').

(** The width: what [parse_star] gives, [width_arg] first, and the constant *)
Definition parse_width (format : list Z) (posn nargs max_ref_arg : Z) : res (Z * Z * Z * Z * Z * list Z) :=
  c ← deref format;
  if c =? chr "*" then
    r ← parse_star (next format) posn nargs max_ref_arg;
    let '(arg, posn, nargs, max_ref_arg, format) := r in Ok (arg, 0, posn, nargs, max_ref_arg, format)
  else if ISDIGIT c then
    r ← read_int format;
    Ok (-1, if r.1 =? -1 then 0 else r.1, posn, nargs, max_ref_arg, r.2)
  else Ok (-1, 0, posn, nargs, max_ref_arg, format).

(** The precision, in the same way *)
Definition parse_prec (format : list Z) (posn nargs max_ref_arg : Z) : res (Z * Z * Z * Z * Z * list Z) :=
  c ← deref format;
  if c =? chr "." then
    let format := next format in
    c ← deref format;
    if c =? chr "*" then
      r ← parse_star (next format) posn nargs max_ref_arg;
      let '(arg, posn, nargs, max_ref_arg, format) := r in Ok (arg, -1, posn, nargs, max_ref_arg, format)
    else if ISDIGIT c then
      r ← read_int format;
      Ok (-1, r.1, posn, nargs, max_ref_arg, r.2)
    else Ok (-1, 0, posn, nargs, max_ref_arg, format)
  else Ok (-1, -1, posn, nargs, max_ref_arg, format).

(** The modifiers: [is_long_double], [is_short], [is_long] and [is_char] *)
Definition parse_modifier (format : list Z) (i : printf_info) : res (printf_info * list Z) :=
  c ← deref format;
  if c =? chr "h" then
    d ← deref (next format);
    if negb (d =? chr "h") then Ok (set_mods false true false false i, next format)
    else Ok (set_mods false false false true i, next (next format))
  else if c =? chr "l" then
    d ← deref (next format);
    if negb (d =? chr "l") then Ok (set_mods false false true false i, next format)
    else Ok (set_mods true false true false i, next (next format))
  else if (c =? chr "L") || (c =? chr "q") then Ok (set_mods true false false false i, next format)
  else if (c =? chr "z") || (c =? chr "Z") || (c =? chr "t") || (c =? chr "j") then
    Ok (set_mods false false true false i, next format)
  else Ok (set_mods false false false false i, format).

(** [data_arg_type] and [ndata_args] of a built-in conversion *)
Definition spec_type (i : printf_info) : Z * nat :=
  let c := spec i in
  if (c =? chr "i") || (c =? chr "d") || (c =? chr "u") || (c =? chr "o") || (c =? chr "X") || (c =? chr "x") then
    (if is_long i then Z.lor PA_INT PA_FLAG_LONG
     else if is_short i then Z.lor PA_INT PA_FLAG_SHORT
     else if is_char i then PA_CHAR else PA_INT, 1%nat)
  else if (c =? chr "e") || (c =? chr "E") || (c =? chr "f") || (c =? chr "F") || (c =? chr "g") || (c =? chr "G") ||
          (c =? chr "a") || (c =? chr "A") then
    (if is_long_double i then Z.lor PA_DOUBLE PA_FLAG_LONG_DOUBLE else PA_DOUBLE, 1%nat)
  else if c =? chr "c" then (PA_CHAR, 1%nat)
  else if c =? chr "C" then (PA_WCHAR, 1%nat)
  else if c =? chr "s" then (PA_STRING, 1%nat)
  else if c =? chr "S" then (PA_WSTRING, 1%nat)
  else if c =? chr "p" then (PA_POINTER, 1%nat)
  else if c =? chr "n" then (Z.lor PA_INT PA_FLAG_PTR, 1%nat)
  else (PA_INT, 0%nat).

(** [size_t __parse_one_specmb (format, posn, spec, max_ref_arg)] without
    registered handlers: [*spec], the arguments consumed and [*max_ref_arg];
    [format] is at the ['%']. *)
Definition parse_one_spec (format : list Z) (posn max_ref_arg : Z) : res (printf_spec * Z * Z) :=
  r ← parse_position (next format) max_ref_arg;
  let '(data_arg, max_ref_arg, format) := r in
  r ← parse_flags format info0;
  let '(i, format) := r in
  let i := if left i then set_pad 32 i else i in
  r ← parse_width format posn 0 max_ref_arg;
  let '(width_arg, w, posn, nargs, max_ref_arg, format) := r in
  r ← parse_prec format posn nargs max_ref_arg;
  let '(prec_arg, p, posn, nargs, max_ref_arg, format) := r in
  r ← parse_modifier format (set_prec p (set_width w i));
  let '(i, format) := r in
  c ← deref format;
  let i := set_spec c i in
  let '(ty, n) := spec_type i in
  let fresh := (data_arg =? -1) && negb (Nat.eqb n 0) in
  let nargs := if fresh then nargs + Z.of_nat n else nargs in
  let data_arg := if fresh then posn else data_arg in
  if c =? 0 then Ok (mkSpec i format format [] prec_arg width_arg data_arg ty n, nargs, max_ref_arg)
  else
    r ← find_spec (next format);
    Ok (mkSpec i (next format) r.2 r.1 prec_arg width_arg data_arg ty n, nargs, max_ref_arg).

(** ** The slow path *)

(** The loop over the specifications; [specs] must find memory to grow. *)
Fixpoint parse_specs (fuel : nat) (f : list Z) (nargs max_ref_arg : Z) : P F (list printf_spec * Z * Z) :=
  match fuel with
  | O => pfault Unspecified
  | S fuel' =>
      c ← plift (deref f);
      if c =? 0 then mret ([], nargs, max_ref_arg)
      else
        r ← plift (parse_one_spec f nargs max_ref_arg);
        let '(s, n, max_ref_arg) := r in
        rest ← parse_specs fuel' (next_fmt s) (nargs + n) max_ref_arg;
        let '(specs, nargs, max_ref_arg) := rest in
        mret (s :: specs, nargs, max_ref_arg)
  end.

(** [args_type[k] = t] *)
Definition set_type (k t : Z) (types : list Z) : res (list Z) :=
  if (0 <=? k) && (k <? Z.of_nat (length types)) then Ok (<[Z.to_nat k := t]> types) else Bad OutOfBounds.

(** Fill in the types of all the arguments *)
Definition spec_types (s : printf_spec) (types : list Z) : res (list Z) :=
  types ← (if negb (width_arg s =? -1) then set_type (width_arg s) PA_INT types else Ok types);
  types ← (if negb (prec_arg s =? -1) then set_type (prec_arg s) PA_INT types else Ok types);
  match ndata_args s with
  | O => Ok types
  | _ => set_type (data_arg s) (data_arg_type s) types
  end.
Fixpoint fill_types (specs : list printf_spec) (types : list Z) : res (list Z) :=
  match specs with
  | [] => Ok types
  | s :: specs' => types ← spec_types s types; fill_types specs' types
  end.

(** Fill in the argument values, in order *)
Definition arg_value (t : Z) : P F varg :=
  if (t =? PA_WCHAR) || (t =? PA_CHAR) || (t =? Z.lor PA_INT PA_FLAG_SHORT) || (t =? PA_INT) then
    z ← va_arg as_int; mret (VInt z)
  else if (t =? Z.lor PA_INT PA_FLAG_LONG) || (t =? Z.lor PA_INT PA_FLAG_LONG_LONG) then
    z ← va_arg as_long; mret (VLong z)
  else if (t =? PA_FLOAT) || (t =? PA_DOUBLE) then va_arg as_double
  else if t =? Z.lor PA_DOUBLE PA_FLAG_LONG_DOUBLE then va_arg as_ldouble
  else if (t =? PA_STRING) || (t =? PA_WSTRING) || (t =? PA_POINTER) || negb (Z.land t PA_FLAG_PTR =? 0) then
    p ← va_arg as_ptr; mret (VPtr p.1 p.2)
  else if t =? -1 then abort
  else mret (VLdouble 0).
Fixpoint fill_values (types : list Z) : P F (list varg) :=
  match types with
  | [] => mret []
  | t :: types' => v ← arg_value t; vs ← fill_values types'; mret (v :: vs)
  end.

(** [args_value[k].pa_..]: the member that was stored is read. *)
Definition arg_member {A} (values : list varg) (k : Z) (take : varg → option A) : P F A :=
  if k <? 0 then pfault OutOfBounds
  else match values !! Z.to_nat k with
       | None => pfault OutOfBounds
       | Some v => match take v with Some a => mret a | None => pfault Unspecified end
       end.
(** Little endian: the [int] in a [long] is its low half. *)
Definition member_int (v : varg) : option Z :=
  match v with VInt z | VLong z => Some (int32 z) | _ => None end.
Definition arg_fetch (values : list varg) (k : Z) : Fetch (F := F) :=
  {| fetch_int := arg_member values k member_int; fetch_long := arg_member values k as_long;
     fetch_double := arg_member values k as_double; fetch_ldouble := arg_member values k as_ldouble;
     fetch_ptr := arg_member values k as_ptr |}.

(** One turn of the last loop *)
Definition fill_width (values : list varg) (s : printf_spec) (i : printf_info) : P F printf_info :=
  if negb (width_arg s =? -1) then
    w ← arg_member values (width_arg s) member_int;
    mret (if w <? 0 then set_left true (set_width (int32 (- w)) i) else set_width w i)
  else mret i.
Definition fill_prec (values : list varg) (s : printf_spec) (i : printf_info) : P F printf_info :=
  if negb (prec_arg s =? -1) then
    p ← arg_member values (prec_arg s) member_int;
    mret (set_prec (if p <? 0 then -1 else p) i)
  else mret i.
Definition positional_buffer (i : printf_info) : P F (option Z) :=
  let n := int32 (Z.max (prec i) (width i) + EXTSIZ) in
  if WORK_BUFFER_SIZE <? n then if lc_alloc n then mret (Some n) else fail else mret None.
Definition do_positional_spec (save_errno : Z) (values : list varg) (s : printf_spec) : P F unit :=
  i ← fill_width values s (info s);
  i ← fill_prec values s i;
  work ← positional_buffer i;
  process_arg (fetch := arg_fetch values (data_arg s))
    (function_done ← printf_unknown i; if function_done <? 0 then fail else done_add function_done)
    work save_errno (set_spec (int8 (spec i)) i) (JUMP (spec i) step4_jumps) ;;
  outstring (const_after s) ;;
  n ← pget p_nspecs;
  pmodify (set_nspecs (S n)).
Fixpoint positional_loop (save_errno : Z) (values : list varg) (specs : list printf_spec) : P F unit :=
  match specs with
  | [] => mret tt
  | s :: specs' => do_positional_spec save_errno values s ;; positional_loop save_errno values specs'
  end.

(** The grouping rule of the slow path, which does not look at the separator *)
Definition ask_grouping_positional : P F unit :=
  rule ← pget p_grouping;
  match rule with
  | Unasked =>
      match lc_grouping with
      | g :: _ => pmodify (set_grouping (if (g =? 0) || (int8 g =? CHAR_MAX) then NoGrouping else Grouping lc_grouping))
      | [] => pfault Unterminated
      end
  | _ => mret tt
  end.

(** [static int printf_positional (s, format, .., ap_savep, done, nspecs_done,
    lead_str_end, ..)]; 24 bytes hold what is kept of one argument. *)
Definition printf_positional (save_errno : Z) (ap_save : list varg) (lead_str_end : list Z) : P F unit :=
  ask_grouping_positional ;;
  r ← parse_specs (S (length lead_str_end)) lead_str_end 0 0;
  let '(specs, nargs, max_ref_arg) := r in
  let nargs := Z.max nargs max_ref_arg in
  if negb (lc_alloc (nargs * 24)) then fail
  else
    types ← plift (fill_types specs (replicate (Z.to_nat nargs) (if lc_fortify then -1 else 0)));
    pmodify (set_ap ap_save) ;;
    values ← fill_values types;
    n ← pget p_nspecs;
    positional_loop save_errno values (drop n specs).

(** ** [vfprintf] *)

(** The [do .. while] loop; [f] is at a ['%']. *)
Fixpoint vf_loop (fuel : nat) (save_errno : Z) (f : list Z) : P F unit :=
  match fuel with
  | O => pfault Unspecified
  | S fuel' =>
      f ← do_spec save_errno (next f) info0;
      n ← pget p_nspecs;
      pmodify (set_nspecs (S n)) ;;
      r ← plift (find_spec (next f));
      outstring r.1 ;;
      c ← plift (deref r.2);
      if c =? 0 then mret tt else vf_loop fuel' save_errno r.2
  end.

(** [int vfprintf (FILE *s, const CHAR_T *format, va_list ap)] from [done = 0] on;
    [format] ends with its NUL.  The result, the stream and the stores of ["%n"].
    Before that point the C code orients the stream ([ORIENT]), rejects a stream that
    is not writable or a NULL format ([ARGCHECK]) and turns to the helper of an unbuffered
    stream, for which see [PrintfUnbuffered]; no handlers are registered, so the test
    for them fails. *)
Definition vfprintf_body (save_errno : Z) (lead_str_end : list Z) : P F unit :=
  c ← plift (deref lead_str_end);
  if c =? 0 then mret tt else vf_loop (length lead_str_end) save_errno lead_str_end.
Definition vfprintf (format : list Z) (ap : list varg) (errno : Z) (s : F) : pres F unit :=
  match find_spec format with
  | Bad f => Fault f
  | Ok (lead, f) =>
      match (outstring lead ;; vfprintf_body errno f) (mkP 0 s ap [] Unasked errno 0) with
      | Positional st => printf_positional errno ap f st
      | r => r
      end
  end.
End Ops.

(** [return done;] *)
Definition returned {F A} (r : pres F A) : option (Z * F) :=
  match r with
  | Go _ st | AllDone st => Some (p_done st, p_out st)
  | _ => None
  end.
