(* ===== verification/PrintfText.v ===== *)
(** * glibc: formatted output, what the conversions write

    The contract of the streams that [vfprintf] writes to (class [SinkLaws]), the
    text that ISO C prescribes for each conversion, and the lemmas that the
    conversions of [Printf] write that text: all of it, or a part with the result
    -1 when the stream refuses something. *)

From S2P Require Import Prelude CString Itoa Printf PrintfFast.

(** ** The contract of a stream *)

(** [took s s' d ok]: from [s] to [s'] the stream took all of [d], or failed in it. *)
Class SinkLaws (F : Type) `{Sink F} := {
  sink_ok : F → Prop;
  fits : F → list Z → Prop;
  took : F → F → list Z → bool → Prop;
  took_ok s s' d ok : took s s' d ok → sink_ok s';
  took_nil s : sink_ok s → took s s [] true;
  took_app s s1 s2 d1 d2 ok : took s s1 d1 true → took s1 s2 d2 ok → took s s2 (d1 ++ d2) ok;
  took_more s s' d e : took s s' d false → took s s' (d ++ e) false;
  fits_l s d e : fits s (d ++ e) → fits s d;
  fits_r s s' d e : fits s (d ++ e) → took s s' d true → fits s' e;
  sputn_took d s : sink_ok s → fits s d → bytes_ok d → Z.of_nat (length d) < 2 ^ 32 →
    ∃ n s', sputn d s = Ok (n, s') ∧ took s s' d (n =? Z.of_nat (length d)) ∧
      (0 ≤ n ≤ Z.of_nat (length d) ∨ n = 2 ^ 64 - 1);
  sputc_took c s : sink_ok s → fits s [c] → is_byte c → ∃ ok s', sputc c s = Ok (ok, s') ∧ took s s' [c] ok;
}.

(** ** Computations that write a text *)

(** The state of [vfprintf] without the count and the stream *)
Record rest := mkR { r_ap : list varg; r_mem : list store; r_grouping : grouping_rule; r_errno : Z; r_nspecs : nat }.
Definition state {F} (done : Z) (o : F) (r : rest) : pst F :=
  mkP done o (r_ap r) (r_mem r) (r_grouping r) (r_errno r) (r_nspecs r).

Definition with_ap (ap : list varg) (r : rest) : rest := mkR ap (r_mem r) (r_grouping r) (r_errno r) (r_nspecs r).
Definition with_mem (m : list store) (r : rest) : rest := mkR (r_ap r) m (r_grouping r) (r_errno r) (r_nspecs r).
Definition with_grouping (g : grouping_rule) (r : rest) : rest := mkR (r_ap r) (r_mem r) g (r_errno r) (r_nspecs r).
Definition with_nspecs (n : nat) (r : rest) : rest := mkR (r_ap r) (r_mem r) (r_grouping r) (r_errno r) n.

Section Emits.
Context {F : Type} `{Sink F} `{Libc F} `{!SinkLaws F}.

(** From the count [done] and [r], [m] writes [t] and gives [a] and [r'], or the
    stream fails and the result is -1. *)
Definition emits {A} (done : Z) (r : rest) (m : P F A) (a : A) (t : list Z) (r' : rest) : Prop :=
  ∀ o, sink_ok o → fits o t → 0 ≤ done → done + Z.of_nat (length t) ≤ INT_MAX →
  ∃ ok o', took o o' t ok ∧
    if ok : bool then m (state done o r) = Go a (state (done + Z.of_nat (length t)) o' r')
    else ∃ st, m (state done o r) = AllDone st ∧ p_done st = -1 ∧ p_out st = o'.

Lemma emits_ret {A} done r (a : A) : emits done r (mret a) a [] r.
Proof. intros o Ho _ _ _. exists true, o. split; [by apply took_nil|]. by rewrite Z.add_0_r. Qed.

Lemma emits_seq {A B} done r r1 r2 (m : P F A) (f : A → P F B) a b t1 t2 :
  emits done r m a t1 r1 → emits (done + Z.of_nat (length t1)) r1 (f a) b t2 r2 →
  emits done r (m ≫= f) b (t1 ++ t2) r2.
Proof.
  intros H1 H2 o Ho Hf Hd Hn. rewrite length_app in *.
  destruct (H1 o Ho (fits_l _ _ _ Hf) Hd ltac:(lia)) as (ok & o1 & Ht & E). unfold mbind, P_bind. destruct ok.
  - rewrite E. destruct (H2 o1 (took_ok _ _ _ _ Ht) (fits_r _ _ _ _ Hf Ht) ltac:(lia) ltac:(lia)) as (ok & o2 & Ht2 & E2).
    exists ok, o2. split; [by eapply took_app|]. destruct ok; [|done]. rewrite E2. by rewrite Nat2Z.inj_add, Z.add_assoc.
  - destruct E as (st & -> & ?). exists false, o1. split; [by apply took_more|]. by exists st.
Qed.

(** A step that writes nothing *)
Lemma emits_silent {A} done r r' (m : P F A) a :
  (∀ o, m (state done o r) = Go a (state done o r')) → emits done r m a [] r'.
Proof. intros E o Ho _ _ _. exists true, o. split; [by apply took_nil|]. by rewrite E, Z.add_0_r. Qed.

Lemma emits_bind_silent {A B} done r r1 r2 (m : P F A) (f : A → P F B) a b t :
  (∀ o, m (state done o r) = Go a (state done o r1)) → emits done r1 (f a) b t r2 → emits done r (m ≫= f) b t r2.
Proof. intros E H2. apply (emits_seq _ _ r1 _ _ _ a b []); [by apply emits_silent|]. by rewrite Z.add_0_r. Qed.

Lemma emits_bind_end {A B} done r r1 (m : P F A) (f : A → P F B) a b t :
  emits done r m a t r1 → (∀ d o, f a (state d o r1) = Go b (state d o r1)) → emits done r (m ≫= f) b t r1.
Proof. intros H1 E. rewrite <-(app_nil_r t). eapply emits_seq; [done|]. by apply emits_silent. Qed.

Lemma emits_eq {A} done r r' (m m' : P F A) a t t' :
  emits done r m a t r' → m = m' → t = t' → emits done r m' a t' r'.
Proof. by intros ? <- <-. Qed.

Lemma emits_outchar done r c : is_byte c → emits done r (outchar c) tt [c] r.
Proof.
  intros Hc o Ho Hf Hd Hn. destruct (sputc_took c o Ho Hf Hc) as (ok & o' & E & Ht). exists ok, o'. split; [done|].
  unfold outchar, pstream, pget, pmodify, mbind, P_bind. cbn [p_out state]. rewrite E. cbn [set_out p_done state].
  cbn in Hn. destruct ok; [|by eexists].
  destruct (Z.eqb_spec done INT_MAX); [lia|]. done.
Qed.

Lemma emits_outstring done r t : bytes_ok t → emits done r (outstring t) tt t r.
Proof.
  intros Ht o Ho Hf Hd Hn. destruct (sputn_took t o Ho Hf Ht) as (n & o' & E & Htk & _); [unfold INT_MAX in Hn; lia|].
  exists (n =? Z.of_nat (length t)), o'. split; [done|].
  unfold outstring, pstream, pget, pmodify, mbind, P_bind. cbn [p_out p_done state].
  rewrite uint64_small by (unfold INT_MAX in Hn; lia). destruct (Z.leb_spec done INT_MAX); [|lia]. cbn [negb p_out state].
  rewrite E. destruct (Z.eqb_spec n (Z.of_nat (length t))); cbn [negb]; [|by eexists].
  destruct (Z.ltb_spec (INT_MAX - done) (Z.of_nat (length t))); [lia|]. done.
Qed.


Lemma sputn_step d o done r : sink_ok o → fits o d → bytes_ok d → Z.of_nat (length d) < 2 ^ 32 →
  ∃ n o', pstream (sputn d) (state done o r) = Go n (state done o' r) ∧ took o o' d (n =? Z.of_nat (length d)) ∧
    (0 ≤ n ≤ Z.of_nat (length d) ∨ n = 2 ^ 64 - 1).
Proof.
  intros Ho Hf Hd Hl. destruct (sputn_took d o Ho Hf Hd Hl) as (n & o' & E & Ht & Hn). exists n, o'.
  unfold pstream. cbn [p_out state]. by rewrite E.
Qed.

Lemma replicate_bytes n c : is_byte c → bytes_ok (replicate n c).
Proof. intros Hc. by apply Forall_replicate. Qed.

Lemma padn_short written n k : 0 ≤ written → written + k < 2 ^ 31 → 0 < k →
  (0 ≤ n ≤ k ∨ n = 2 ^ 64 - 1) → n ≠ k → int64 (uint64 (written + n)) < written + k.
Proof.
  intros Hw Hk Hk0 [Hn| ->] Hne.
  - rewrite uint64_small by lia. rewrite int64_small by lia. lia.
  - destruct (decide (written = 0)) as [->|Hw0]; [change (int64 (uint64 (0 + (2 ^ 64 - 1)))) with (-1); lia|].
    replace (uint64 (written + (2 ^ 64 - 1))) with (written - 1); [rewrite int64_small by lia; lia|].
    unfold uint64. replace (written + (2 ^ 64 - 1)) with (written - 1 + 1 * 2 ^ 64) by lia. rewrite Z.mod_add by lia.
    rewrite Z.mod_small; lia.
Qed.

Lemma padn_loop_spec c done r : is_byte c → ∀ fuel i written o,
  (Z.to_nat i < fuel)%nat → 0 ≤ i → 0 ≤ written → written + i < 2 ^ 31 →
  sink_ok o → fits o (replicate (Z.to_nat i) c) →
  ∃ w o' ok, padn_loop fuel c i written (state done o r) = Go w (state done o' r) ∧
    took o o' (replicate (Z.to_nat i) c) ok ∧ (if ok : bool then w = written + i else int64 w < written + i).
Proof.
  intros Hc. induction fuel as [|fuel IH]; intros i written o Hfu Hi Hw Hsum Ho Hf; [lia|]. cbn [padn_loop].
  change (Z.of_nat PADSIZE) with 16. destruct (Z.leb_spec 16 i) as [Hbig|Hsmall].
  - assert (replicate (Z.to_nat i) c = replicate PADSIZE c ++ replicate (Z.to_nat (i - 16)) c) as Er.
    { rewrite <-replicate_add. f_equal. unfold PADSIZE. lia. }
    rewrite Er in *. unfold mbind at 1, P_bind at 1.
    destruct (sputn_step (replicate PADSIZE c) o done r Ho (fits_l _ _ _ Hf)) as (n & o1 & -> & Ht & Hn);
      [by apply replicate_bytes|rewrite length_replicate; reflexivity|].
    rewrite length_replicate in Ht, Hn. change (Z.of_nat PADSIZE) with 16 in *. destruct (Z.eqb_spec n 16) as [->|Hne]; cbn [negb].
    + rewrite uint64_small by lia.
      destruct (IH (i - 16) (written + 16) o1) as (w & o' & ok & E & Ht' & Hw'); [lia..|by eapply took_ok|by eapply fits_r|].
      exists w, o', ok. split; [done|]. split; [by eapply took_app|]. destruct ok; lia.
    + exists (uint64 (written + n)), o1, false. split; [done|]. split; [by apply took_more|].
      pose proof (padn_short written n 16 Hw ltac:(lia) ltac:(lia) Hn Hne). lia.
  - destruct (Z.ltb_spec 0 i) as [Hpos|Hz].
    + unfold mbind at 1, P_bind at 1.
      destruct (sputn_step (replicate (Z.to_nat i) c) o done r Ho Hf) as (n & o1 & -> & Ht & Hn);
        [by apply replicate_bytes|rewrite length_replicate; lia|].
      rewrite length_replicate, Z2Nat.id in * by lia. exists (uint64 (written + n)), o1, (n =? i). split; [done|]. split; [done|].
      destruct (Z.eqb_spec n i) as [->|Hne]; [apply uint64_small; lia|]. by apply padn_short.
    + assert (i = 0) as -> by lia. exists written, o, true. split; [done|]. split; [by apply took_nil|lia].
Qed.

Lemma emits_PAD done r c width : is_byte c → width < 2 ^ 31 →
  emits done r (PAD c width) tt (replicate (Z.to_nat width) c) r.
Proof.
  intros Hc Hw. unfold PAD. destruct (Z.ltb_spec 0 width) as [Hp|Hp].
  2: { replace (Z.to_nat width) with 0%nat by lia. apply emits_ret. }
  intros o Ho Hf Hd Hn. rewrite length_replicate, Z2Nat.id in * by lia. unfold _IO_padn. rewrite int32_small by lia.
  destruct (padn_loop_spec c done r Hc (S (Z.to_nat width)) width 0 o) as (w & o' & ok & E & Ht & Hw'); try done; [lia..|].
  exists ok, o'. split; [done|]. unfold mbind, P_bind. rewrite E. rewrite Z.add_0_l in Hw'. destruct ok.
  - subst w. rewrite int64_small by lia. rewrite Z.eqb_refl. cbn [negb].
    unfold done_add. cbn [p_done state]. rewrite !uint32_small by (unfold INT_MAX in Hn; lia).
    destruct (Z.ltb_spec done INT_MAX); [|lia]. cbn [negb]. destruct (Z.ltb_spec (INT_MAX - done) width); [lia|]. done.
  - destruct (Z.eqb_spec (int64 w) width); [lia|]. by eexists.
Qed.

End Emits.

(** ** The text of a number (ISO C, 7.21.6.1) *)

(** The digits of a 64-bit value *)
Definition numeral (base : Z) (upper : bool) (word : Z) : list Z :=
  (λ d, nth (Z.to_nat d) (if upper then _itoa_upper_digits else _itoa_lower_digits) 0) <$> reverse (remainders 64 base word).

Definition sign_text (i : printf_info) (negative : bool) : list Z :=
  if negative then [45] else if showsign i then [43] else if space i then [32] else [].

(** The digits with the precision; with [#], an octal number starts with a 0. *)
Definition body_text (i : printf_info) (base word : Z) : list Z :=
  let p := if prec i <? 0 then 1 else prec i in
  let digits := if (p =? 0) && (word =? 0) then [] else numeral base (spec i =? chr "X") word in
  let body := replicate (Z.to_nat (p - Z.of_nat (length digits))) 48 ++ digits in
  if alt i && (base =? 8) && negb (bool_decide (head body = Some 48)) then 48 :: body else body.

(** Sign and marker, then the body; the field is filled with zeros after them, or
    with blanks before or behind. *)
Definition number_text (i : printf_info) (base : Z) (negative : bool) (word : Z) : list Z :=
  let front := sign_text i negative ++ (if negb (word =? 0) && alt i && (base =? 16) then [48; spec i] else []) in
  let body := body_text i base word in
  let fill := Z.to_nat (width i - Z.of_nat (length front + length body)) in
  if left i then front ++ body ++ replicate fill 32
  else if (pad i =? 48) && (prec i <? 0) then front ++ replicate fill 48 ++ body
  else replicate fill 32 ++ front ++ body.

Lemma digit_byte upper d : 0 ≤ d < 36 →
  let c := nth (Z.to_nat d) (if upper : bool then _itoa_upper_digits else _itoa_lower_digits) 0 in
  is_byte c ∧ (c = 48 → d = 0).
Proof.
  intros Hd. assert (Forall (λ d, let c := nth (Z.to_nat d) (if upper then _itoa_upper_digits else _itoa_lower_digits) 0 in
    is_byte c ∧ (c = 48 → d = 0)) (seqZ 0 36)) as HF.
  { destruct upper; vm_compute; repeat (constructor; [split; [split; [intros ?; discriminate|reflexivity]|intros ?; (reflexivity || discriminate)]|]);
      constructor. }
  apply (proj1 (Forall_forall _ _) HF), elem_of_seqZ. lia.
Qed.

Lemma base_pow base word : 2 ≤ base → 0 ≤ word < 2 ^ 64 → 0 ≤ word < base ^ Z.of_nat 64.
Proof.
  intros Hb Hw. split; [lia|]. eapply Z.lt_le_trans; [apply Hw|]. apply (Z.pow_le_mono_l 2 base 64). lia.
Qed.

(** The most significant digit of a value that is not zero *)
Lemma remainders_last base : 2 ≤ base → ∀ fuel word, 0 < word < base ^ Z.of_nat fuel → (0 < fuel)%nat →
  ∃ d, last (remainders fuel base word) = Some d ∧ 0 < d.
Proof.
  intros Hb. induction fuel as [|fuel IH]; intros word Hw Hf; [lia|]. cbn [remainders].
  rewrite Nat2Z.inj_succ, Z.pow_succ_r in Hw by lia.
  pose proof (Z.div_mod word base ltac:(lia)). pose proof (Z.mod_pos_bound word base ltac:(lia)).
  destruct (Z.eqb_spec (word / base) 0) as [E|E]; [exists (word `mod` base); split; [done|nia]|].
  assert (0 < word / base < base ^ Z.of_nat fuel) as Hq
    by (split; [pose proof (Z.div_pos word base); lia|apply Z.div_lt_upper_bound; lia]).
  destruct fuel as [|fuel]; [change (base ^ Z.of_nat 0) with 1 in Hq; lia|].
  destruct (IH (word / base) Hq ltac:(lia)) as (d & Hl & Hd). exists d. split; [|done].
  rewrite last_cons. by rewrite Hl.
Qed.

Lemma numeral_props base upper word : 2 ≤ base ≤ 36 → 0 ≤ word < 2 ^ 64 →
  bytes_ok (numeral base upper word) ∧ (1 ≤ length (numeral base upper word) ≤ 64)%nat ∧
  (word ≠ 0 → head (numeral base upper word) ≠ Some 48) ∧ (word = 0 → numeral base upper word = [48]).
Proof.
  intros Hb Hw. pose proof (base_pow base word ltac:(lia) Hw) as Hp.
  destruct (remainders_value 64 base ltac:(lia) word Hp ltac:(lia)) as (_ & Hd & Hl). unfold numeral.
  rewrite length_fmap, length_reverse. split_and!; [|lia|lia| |].
  - apply Forall_fmap, Forall_reverse. eapply Forall_impl; [exact Hd|]. intros d Hdd. cbn beta in Hdd. cbn beta. apply digit_byte. lia.
  - intros Hne. destruct (remainders_last base ltac:(lia) 64 word ltac:(lia) ltac:(lia)) as (d & Hl' & Hd0).
    apply last_Some in Hl' as [l' E]. rewrite E, reverse_snoc, fmap_cons. cbn [head]. intros Eq. injection Eq as Eq.
    rewrite E in Hd. apply Forall_app in Hd as [_ Hd]. apply Forall_cons in Hd as [Hd _].
    destruct (digit_byte upper d ltac:(lia)) as [_ Hz]. specialize (Hz Eq). lia.
  - intros ->. assert (remainders 64 base 0 = [0]) as -> by (cbn [remainders]; by rewrite Z.mod_0_l, Z.div_0_l by lia).
    by destruct upper.
Qed.

Lemma itoa_numeral word n base upper : 0 ≤ word < 2 ^ 64 → 2 ≤ base ≤ 36 → (64 ≤ n)%nat →
  ∃ r, _itoa_word word (zeros n) n base upper = Ok r ∧ drop r.1 r.2 = numeral base upper word.
Proof.
  intros Hw Hb Hn. pose proof (base_pow base word ltac:(lia) Hw) as Hp.
  destruct (remainders_value 64 base ltac:(lia) word Hp ltac:(lia)) as (_ & _ & Hl).
  unfold _itoa_word. rewrite itoa_loop_spec; [|lia|by destruct upper|done|lia|unfold zeros; rewrite length_replicate; lia].
  eexists. split; [done|]. cbn [fst snd]. rewrite drop_app_length' by (unfold zeros; rewrite length_take, length_replicate; lia).
  rewrite (drop_ge (zeros n) n) by (unfold zeros; rewrite length_replicate; lia). apply app_nil_r.
Qed.

(** ** Numbers write their text *)

(** What the automaton guarantees of a specification *)
Record info_ok (i : printf_info) : Prop := {
  io_width : 0 ≤ width i < INT_MAX - EXTSIZ;
  io_prec : -1 ≤ prec i < INT_MAX - EXTSIZ;
  io_spec : is_byte (spec i);
  io_pad : pad i = 32 ∨ pad i = 48;
  io_i18n : i18n i = false;
}.

(** The digits as [do_number] has them, with the octal marker *)
Definition digits_of (i : printf_info) (base word : Z) : list Z :=
  let i := number_prec i in
  let digits := if (prec i =? 0) && (word =? 0) then if (base =? 8) && alt i then [48] else []
                else numeral base (spec i =? chr "X") word in
  if (prec i <=? Z.of_nat (length digits)) && negb (word =? 0) && alt i && (base =? 8) then 48 :: digits else digits.

Lemma number_prec_fields i :
  prec (number_prec i) = (if prec i <? 0 then 1 else prec i) ∧ spec (number_prec i) = spec i ∧ alt (number_prec i) = alt i ∧
  width (number_prec i) = width i ∧ left (number_prec i) = left i ∧ showsign (number_prec i) = showsign i ∧
  space (number_prec i) = space i ∧ group (number_prec i) = group i ∧ i18n (number_prec i) = i18n i ∧
  pad (number_prec i) = (if prec i <? 0 then pad i else 32).
Proof. unfold number_prec. by destruct (prec i <? 0). Qed.

Lemma body_text_digits i base word : 2 ≤ base ≤ 36 → 0 ≤ word < 2 ^ 64 →
  let ds := digits_of i base word in
  body_text i base word = replicate (Z.to_nat (Z.max 0 (prec (number_prec i) - Z.of_nat (length ds)))) 48 ++ ds ∧
  (length ds ≤ 65)%nat ∧ bytes_ok ds.
Proof.
  intros Hb Hw. unfold digits_of, body_text.
  destruct (number_prec_fields i) as (-> & -> & -> & _). set (p := if prec i <? 0 then 1 else prec i).
  destruct (numeral_props base (spec i =? chr "X") word Hb Hw) as (Hby & Hlen & Hne & Hz).
  destruct (numeral base (spec i =? chr "X") word) as [|d ds]; [cbn in Hlen; lia|].
  rewrite (Z.eqb_sym word 0) in *. destruct (Z.eqb_spec 0 word) as [<-|Hw0].
  - rewrite !andb_true_r. cbn [negb]. rewrite andb_false_r. cbn [andb]. destruct (Z.eqb_spec p 0) as [->|Hp0].
    + destruct (alt i), (base =? 8); cbn; split_and!; try done; try lia; repeat (constructor; [by split|]); constructor.
    + specialize (Hz eq_refl). injection Hz as -> ->. split_and!; [|cbn; lia|done].
      replace (Z.max 0 (p - Z.of_nat (length [48]))) with (Z.max 0 (p - 1)) by (cbn; lia).
      assert (head (replicate (Z.to_nat (p - Z.of_nat (length [48]))) 48 ++ [48]) = Some 48) as ->
        by (destruct (Z.to_nat _); done).
      rewrite bool_decide_true, andb_false_r by done. f_equal. f_equal. cbn. lia.
  - specialize (Hne ltac:(lia)). rewrite !andb_false_r. cbn [negb]. rewrite andb_true_r.
    destruct (Z.leb_spec p (Z.of_nat (length (d :: ds)))) as [Hle|Hgt]; cbn [andb].
    + replace (Z.to_nat (p - Z.of_nat (length (d :: ds)))) with 0%nat by lia. cbn [replicate app].
      rewrite (bool_decide_false _ Hne). cbn [negb]. rewrite andb_true_r.
      destruct (alt i && (base =? 8)); split_and!; try done.
      * replace (Z.to_nat (Z.max 0 _)) with 0%nat by (cbn [length]; cbn [length] in Hle; lia). done.
      * cbn [length] in *. lia.
      * constructor; [by split|done].
      * by replace (Z.to_nat (Z.max 0 _)) with 0%nat by lia.
      * lia.
    + assert (head (replicate (Z.to_nat (p - Z.of_nat (length (d :: ds)))) 48 ++ d :: ds) = Some 48) as ->.
      { replace (Z.to_nat (p - Z.of_nat (length (d :: ds)))) with (S (Z.to_nat (p - Z.of_nat (length (d :: ds)) - 1))) by lia. done. }
      rewrite bool_decide_true, andb_false_r by done. split_and!; [|lia|done]. f_equal. f_equal. lia.
Qed.

(** Conversions that change nothing *)
Ltac small_ints := repeat match goal with |- context [int32 ?x] => rewrite (int32_small x) by lia end.

Section Numbers.
Context {F : Type} `{Sink F} `{Libc F} `{!SinkLaws F}.

Lemma number_digits_silent work i base word done o r :
  0 ≤ word < 2 ^ 64 → 2 ≤ base ≤ 36 → (64 ≤ work_size work)%nat → i18n i = false →
  (group i = true → r_grouping r = NoGrouping) →
  number_digits work i base word (state done o r) =
  Go (if (prec i =? 0) && (word =? 0) then if (base =? 8) && alt i then [48] else []
      else numeral base (spec i =? chr "X") word) (state done o r).
Proof.
  intros Hw Hb Hn Hi Hg. unfold number_digits. destruct (_ && _); [done|].
  destruct (itoa_numeral word (work_size work) base (spec i =? chr "X") Hw Hb Hn) as (rr & -> & E).
  unfold mbind, P_bind, plift, pget. rewrite E, Hi. cbn [p_grouping state andb].
  destruct (group i); [rewrite Hg by done; by destruct work|done].
Qed.

Lemma emits_sign done r i neg : emits done r (out_sign i neg) tt (sign_text i neg) r.
Proof.
  unfold out_sign, sign_text. destruct neg; [by apply emits_outchar|].
  destruct (showsign i); [by apply emits_outchar|]. destruct (space i); [by apply emits_outchar|apply emits_ret].
Qed.

Lemma emits_marker done r i (b : bool) : is_byte (spec i) →
  emits done r (out_marker i b) tt (if b then [48; spec i] else []) r.
Proof.
  intros Hs. unfold out_marker. destruct b; [|apply emits_ret].
  apply (emits_seq _ _ r _ _ _ tt _ [48] [spec i]); by apply emits_outchar.
Qed.

Lemma sign_length i neg : length (sign_text i neg) = if has_sign i neg then 1%nat else 0%nat.
Proof. unfold sign_text, has_sign. by destruct neg, (showsign i), (space i). Qed.

Lemma emits_bind_assoc {A B} done r r1 r2 (m : P F A) (f : A → P F B) a b t1 t2 t :
  emits done r m a t1 r1 → (∀ d, emits d r1 (f a) b t2 r2) → t = t1 ++ t2 → emits done r (m ≫= f) b t r2.
Proof. intros H1 H2 ->. by eapply emits_seq. Qed.

(** Sign and marker, and what follows them *)
Lemma emits_front done r i neg (mk : bool) (k : P F unit) t t' : is_byte (spec i) → (∀ d, emits d r k tt t r) →
  t' = (sign_text i neg ++ (if mk then [48; spec i] else [])) ++ t →
  emits done r (out_sign i neg ;; out_marker i mk ;; k) tt t' r.
Proof.
  intros Hs Hk ->. rewrite <-app_assoc. eapply emits_bind_assoc; [apply emits_sign|intros d1|done].
  eapply emits_bind_assoc; [by apply emits_marker|intros d2; apply Hk|done].
Qed.

(** The end of a number that is not left-justified: zeros, then the digits *)
Lemma emits_digits done r ds zeros_ : bytes_ok ds → zeros_ < 2 ^ 31 →
  emits done r (PAD (chr "0") zeros_ ;; outstring ds) tt (replicate (Z.to_nat zeros_) 48 ++ ds) r.
Proof.
  intros Hby Hz. eapply emits_bind_assoc; [by apply (emits_PAD _ _ 48)|intros d; by apply emits_outstring|done].
Qed.

Lemma emits_number done r work i base neg word :
  info_ok i → 0 ≤ word < 2 ^ 64 → 2 ≤ base ≤ 36 → (64 ≤ work_size work)%nat →
  (group i = true → r_grouping r = NoGrouping) →
  emits done r (do_number work i base neg word) tt (number_text i base neg word) r.
Proof.
  intros Hi Hw Hb Hn Hg. destruct Hi as [Hwi Hpr Hsp Hpad Hii]. unfold do_number.
  destruct (number_prec_fields i) as (Ep & Es & Ea & Ew & El & Esh & Espc & Eg & Ei & Epad).
  eapply emits_bind_silent; [intros o; apply number_digits_silent; rewrite ?Ei, ?Eg; done|]. cbv beta.
  destruct (body_text_digits i base word Hb Hw) as (Ebody & Hlen & Hby). unfold digits_of in Ebody, Hlen, Hby. cbv zeta in Ebody, Hlen, Hby.
  cbv zeta. set (ds := if (prec (number_prec i) <=? _) && _ && _ && _ then _ else _) in *.
  unfold number_text. rewrite Ebody. clear Ebody. set (pr := Z.max 0 (prec (number_prec i) - Z.of_nat (length ds))) in *.
  assert (0 ≤ pr ∧ Z.of_nat (length ds) + pr < 2 ^ 31 - 32) as Hpr'.
  { unfold pr. rewrite Ep. unfold INT_MAX, EXTSIZ in *. destruct (Z.ltb_spec (prec i) 0); lia. }
  assert (prec i < 0 → pr = 0) as Epr.
  { intros Hneg. unfold pr. rewrite Ep. destruct (Z.ltb_spec (prec i) 0); [|lia]. assert (1 ≤ length ds)%nat; [|lia].
    unfold ds. rewrite Ep. destruct (Z.ltb_spec (prec i) 0); [|lia]. change (1 =? 0) with false. cbn [andb].
    destruct (numeral_props base (spec (number_prec i) =? chr "X") word Hb Hw) as (_ & Hl1 & _).
    revert Hl1. generalize (numeral base (spec (number_prec i) =? chr "X") word). clear. intros l Hl1. destruct (_ && (base =? 8)); [rewrite length_cons|]; lia. }
  clearbody pr ds. rewrite Ea. set (mk := negb (word =? 0) && alt i && (base =? 16)).
  assert (out_sign (number_prec i) neg = out_sign (F := F) i neg) as -> by (unfold out_sign; by rewrite Esh, Espc).
  assert (out_marker (number_prec i) mk = out_marker (F := F) i mk) as -> by (unfold out_marker; by rewrite Es).
  assert (has_sign (number_prec i) neg = has_sign i neg) as -> by (unfold has_sign; by rewrite Esh, Espc).
  rewrite El, Ew, Epad. rewrite !length_app, length_replicate, sign_length.
  set (hs := has_sign i neg) in *.
  replace (Z.of_nat ((if hs then 1 else 0) + length (if mk then [48; spec i] else []) + (Z.to_nat pr + length ds)))
    with ((if hs then 1 else 0) + (if mk then 2 else 0) + (Z.of_nat (length ds) + pr)) by (destruct hs, mk; cbn [length]; lia).
  clearbody mk hs. set (fill := width i - ((if hs then 1 else 0) + (if mk then 2 else 0) + (Z.of_nat (length ds) + pr))).
  assert (- 2 ^ 31 ≤ fill < 2 ^ 31) as Hfill by (clear -Hwi Hpr'; unfold fill, INT_MAX, EXTSIZ in *; destruct hs, mk; lia).
  destruct (left i); cbn [negb].
  - eapply emits_front; [done|intros d|by rewrite <-?app_assoc].
    eapply emits_bind_assoc with (t1 := replicate (Z.to_nat pr) 48); [|intros d1|done].
    { destruct (Z.ltb_spec 0 pr); [by apply emits_PAD; [|lia]|]. replace (Z.to_nat pr) with 0%nat by lia. apply emits_ret. }
    eapply emits_bind_assoc; [by apply emits_outstring|intros d2|done].
    replace (int32 _) with fill; [by apply emits_PAD; [|lia]|].
    symmetry. unfold fill. clear -Hwi Hpr'. destruct hs, mk; unfold INT_MAX, EXTSIZ in *; small_ints; lia.
  - replace (if hs then _ else _) with fill.
    2: { symmetry. unfold fill. clear -Hwi Hpr'. destruct hs, mk; unfold INT_MAX, EXTSIZ in *; small_ints; lia. }
    assert (∀ d, emits d r (PAD 32 fill ;; mret 0) 0 (replicate (Z.to_nat fill) 32) r) as Hblanks.
    { intros d. eapply emits_bind_end; [by apply emits_PAD; [|lia]|done]. }
    destruct (Z.ltb_spec (prec i) 0) as [Hpn|Hpn]; rewrite ?andb_true_r, ?andb_false_r.
    + rewrite (Epr Hpn). cbn [Z.to_nat replicate app]. destruct Hpad as [-> | ->]; cbn [Z.eqb Pos.eqb].
      * eapply emits_bind_assoc; [apply Hblanks|intros d1|done].
        eapply emits_front; [done|intros d2; by apply (emits_digits _ _ _ 0)|done].
      * eapply emits_bind_silent; [done|]. rewrite Z.add_0_r, int32_small by lia.
        eapply emits_front; [done|intros d2; by apply emits_digits; [|lia]|done].
    + eapply emits_bind_assoc; [apply Hblanks|intros d1|done]. rewrite Z.add_0_l, int32_small by lia.
      eapply emits_front; [done|intros d2; by apply emits_digits; [|lia]|done].
Qed.
End Numbers.

(** ** The text of a conversion *)

(** A text in its field *)
Definition field_text (i : printf_info) (t : list Z) : list Z :=
  let blanks := replicate (Z.to_nat (width i - Z.of_nat (length t))) 32 in
  if left i then t ++ blanks else blanks ++ t.

(** The value of an integer argument, cut to the size the modifier says *)
Definition signed_value (i : printf_info) (arg : varg) : option Z :=
  match arg with
  | VInt z => if is_long i then None
              else Some (if is_char i then int8 (int32 z) else if is_short i then int16 (int32 z) else int32 z)
  | VLong z => if is_long i then Some (int64 z) else None
  | _ => None
  end.
Definition unsigned_value (i : printf_info) (arg : varg) : option Z :=
  match arg with
  | VInt z => if is_long i then None
              else Some (if is_char i then uint8 (int32 z) else if is_short i then uint16 (int32 z) else uint32 (int32 z))
  | VLong z => if is_long i then Some (uint64 (int64 z)) else None
  | _ => None
  end.

(** Unsigned conversions ignore the sign flags. *)
Definition unsigned_info (i : printf_info) : printf_info := set_space false (set_showsign false i).
Definition pointer_info (i : printf_info) : printf_info := set_spec 120 (set_group false (set_alt true i)).

(** At most [prec] bytes of a string *)
Definition string_text (i : printf_info) (mem : list Z) : option (list Z) :=
  match (if prec i =? -1 then cstr mem else cstrn (prec i) mem) with Ok t => Some (field_text i t) | Bad _ => None end.

(** The text of a conversion with its argument; [None] where ISO C gives none or
    where it depends on the locale. *)
Definition arg_text (strerror : list Z) (i : printf_info) (l : label) (arg : option varg) : option (list Z) :=
  match l, arg with
  | form_percent, None => Some [37]
  | form_integer, Some a => v ← signed_value i a; Some (number_text i 10 (v <? 0) (Z.abs v))
  | form_unsigned, Some a => number_text (unsigned_info i) 10 false <$> unsigned_value i a
  | form_octal, Some a => number_text (unsigned_info i) 8 false <$> unsigned_value i a
  | form_hexa, Some a => number_text (unsigned_info i) 16 false <$> unsigned_value i a
  | form_character, Some (VInt z) => if is_long i then None else Some (field_text i [uint8 (int32 z)])
  | form_string, Some (VPtr a mem) =>
      if is_long i || (spec i =? chr "S") then None
      else if a =? 0 then Some (field_text i (if (prec i =? -1) || (6 <=? prec i) then lit "(null)" else []))
      else string_text i mem
  | form_pointer, Some (VPtr a mem) =>
      if negb (a =? 0) then Some (number_text (pointer_info i) 16 false (uint64 a)) else Some (field_text i (lit "(nil)"))
  | form_strerror, None => string_text i (strerror ++ [0])
  | form_number, Some (VPtr a mem) => if a =? 0 then None else Some []
  | _, _ => None
  end.

(** What ["%n"] leaves behind *)
Definition stored (done : Z) (i : printf_info) (l : label) (arg : option varg) (r : rest) : rest :=
  match l, arg with
  | form_number, Some (VPtr a _) =>
      with_mem (r_mem r ++ [if is_long i then mkStore a 8 done else if is_char i then mkStore a 1 (int8 done)
                            else if negb (is_short i) then mkStore a 4 done else mkStore a 2 (int16 done)]) r
  | _, _ => r
  end.

Definition arg_bytes (arg : option varg) : Prop :=
  match arg with Some (VPtr _ mem) => bytes_ok mem | _ => True end.

Lemma cstr_bytes mem t : bytes_ok mem → cstr mem = Ok t → bytes_ok t.
Proof. intros Hb Ht. apply cstr_split in Ht as (r & -> & _). by apply Forall_app in Hb as [? _]. Qed.

Lemma cstrn_prefix mem : ∀ n t, cstrn n mem = Ok t → ∃ r, mem = t ++ r.
Proof.
  induction mem as [|c mem IH]; intros n t Et; cbn [cstrn] in Et; destruct (n <=? 0).
  - exists []. by injection Et as <-.
  - done.
  - injection Et as <-. by eexists.
  - destruct (c =? 0); [injection Et as <-; by eexists|].
    destruct (cstrn (n - 1) mem) as [u|] eqn:E; [|done]. cbn in Et. injection Et as <-.
    destruct (IH _ _ E) as [r ->]. by exists r.
Qed.

Section Strings.
Context {F : Type} `{Sink F} `{Libc F} `{!SinkLaws F}.

(** A text longer than the count can hold needs no proof. *)
Lemma emits_bounded {A} done r (m : P F A) a t r' :
  (Z.of_nat (length t) ≤ INT_MAX → emits done r m a t r') → emits done r m a t r'.
Proof. intros Hm o Ho Hf Hd Hn. apply Hm; [lia|done..]. Qed.

Lemma emits_field done r i t : info_ok i → bytes_ok t → emits done r (out_field i t) tt (field_text i t) r.
Proof.
  intros Hi Ht. apply emits_bounded. intros Hl. assert (Z.of_nat (length t) ≤ INT_MAX) as Hlt.
  { unfold field_text in Hl. destruct (left i); rewrite length_app in Hl; lia. }
  unfold out_field, field_text. pose proof (io_width _ Hi) as Hw. unfold INT_MAX, EXTSIZ in Hw, Hlt.
  rewrite int32_small by lia. destruct (Z.ltb_spec (width i - Z.of_nat (length t)) 0).
  { replace (Z.to_nat _) with 0%nat by lia. cbn [replicate app]. rewrite app_nil_r.
    eapply emits_eq; [by apply emits_outstring|done|by destruct (left i)]. }
  destruct (left i); cbn [negb].
  - eapply emits_bind_silent; [done|]. eapply emits_bind_assoc; [by apply emits_outstring|intros d|done].
    by apply emits_PAD; [|lia].
  - eapply emits_bind_assoc; [by apply emits_PAD; [|lia]|intros d|done].
    eapply emits_bind_end; [by apply emits_outstring|done].
Qed.

Lemma emits_string done r i mem t : info_ok i → bytes_ok mem → is_long i = false → spec i ≠ chr "S" →
  string_text i mem = Some t → emits done r (print_string i (Some mem)) tt t r.
Proof.
  intros Hi Hm Hl Hs Ht. unfold print_string, string_text in *. rewrite Hl. destruct (Z.eqb_spec (spec i) (chr "S")); [done|].
  cbn [negb andb]. destruct (prec i =? -1); cbn [negb].
  - destruct (cstr mem) as [u|] eqn:E; [|done]. injection Ht as <-. eapply emits_bind_silent; [done|].
    apply emits_field; [done|by eapply cstr_bytes].
  - destruct (cstrn (prec i) mem) as [u|] eqn:E; [|done]. injection Ht as <-. eapply emits_bind_silent; [done|].
    apply emits_field; [done|]. destruct (cstrn_prefix _ _ _ E) as [v ->]. by apply Forall_app in Hm as [? _].
Qed.

(** [fetch] finds the argument and leaves [r'] behind. *)
Definition fetches (fetch : Fetch (F := F)) (arg : option varg) (r r' : rest) : Prop :=
  match arg with
  | None => r = r'
  | Some (VInt z) => ∀ d o, fetch_int (state d o r) = Go (int32 z) (state d o r')
  | Some (VLong z) => ∀ d o, fetch_long (state d o r) = Go (int64 z) (state d o r')
  | Some (VPtr a m) => ∀ d o, fetch_ptr (state d o r) = Go (a, m) (state d o r')
  | Some _ => False
  end.

Lemma info_ok_unsigned i : info_ok i → info_ok (unsigned_info i).
Proof. by intros []. Qed.
Lemma info_ok_pointer i : info_ok i → info_ok (pointer_info i).
Proof. by intros []. Qed.

Ltac value_range :=
  match goal with |- context [?x `mod` ?y] => pose proof (Z.mod_pos_bound x y ltac:(lia)); lia end.

Lemma signed_range i a v : signed_value i a = Some v → - 2 ^ 63 ≤ v < 2 ^ 63.
Proof.
  unfold signed_value. intros Hv. destruct a as [z|z| | |]; try done; destruct (is_long i); try done; injection Hv as <-.
  - destruct (is_char i); [unfold int8; value_range|]. destruct (is_short i); [unfold int16; value_range|].
    pose proof (int32_range z). lia.
  - unfold int64. value_range.
Qed.

Lemma unsigned_range i a v : unsigned_value i a = Some v → 0 ≤ v < 2 ^ 64.
Proof.
  unfold unsigned_value. intros Hv. destruct a as [z|z| | |]; try done; destruct (is_long i); try done; injection Hv as <-.
  - destruct (is_char i); [|destruct (is_short i)]; unfold uint8, uint16, uint32; value_range.
  - unfold uint64. value_range.
Qed.

Context (done : Z) (r r1 : rest) (fetch : Fetch (F := F)) (work : option Z) (i : printf_info).
Hypothesis Hi : info_ok i.
Hypothesis Hwk : (64 ≤ work_size work)%nat.
Hypothesis Hg : group i = true → r_grouping r1 = NoGrouping.

Lemma emits_signed a v : fetches fetch (Some a) r r1 → signed_value i a = Some v →
  emits done r (form_integer_arg (fetch := fetch) work i) tt (number_text i 10 (v <? 0) (Z.abs v)) r1.
Proof.
  intros Hf Hv. pose proof (signed_range _ _ _ Hv) as Hr. unfold form_integer_arg.
  eapply emits_bind_silent with (a := v) (r1 := r1).
  - intros o. unfold signed_value in Hv. cbn in Hf.
    destruct a as [z|z| | |]; try done; destruct (is_long i); try done; injection Hv as <-;
      unfold mbind, P_bind; rewrite Hf; [|done]. unfold mret, P_ret.
    destruct (is_char i), (is_short i); cbn [negb]; try done. by rewrite (int32_small (int32 z)) by apply int32_range.
  - replace (uint64 _) with (Z.abs v) by (rewrite uint64_small; destruct (Z.ltb_spec v 0); lia).
    apply emits_number; done || lia.
Qed.

Lemma emits_unsigned base a v : 2 ≤ base ≤ 36 → fetches fetch (Some a) r r1 → unsigned_value i a = Some v →
  emits done r (unsigned_number (fetch := fetch) work i base) tt (number_text (unsigned_info i) base false v) r1.
Proof.
  intros Hb Hf Hv. pose proof (unsigned_range _ _ _ Hv) as Hr. unfold unsigned_number.
  change (is_long (set_space _ _)) with (is_long i). eapply emits_bind_silent with (a := v) (r1 := r1).
  - intros o. unfold unsigned_value in Hv. cbn in Hf.
    destruct a as [z|z| | |]; try done; destruct (is_long i); try done; injection Hv as <-;
      unfold mbind, P_bind; rewrite Hf; [|done]. unfold mret, P_ret. cbn. by destruct (is_char i), (is_short i).
  - apply emits_number; try done. by apply info_ok_unsigned.
Qed.

Lemma emits_character z : fetches fetch (Some (VInt z)) r r1 → is_long i = false →
  emits done r (form_character_arg (fetch := fetch) i) tt (field_text i [uint8 (int32 z)]) r1.
Proof.
  intros Hf Hl. unfold form_character_arg. rewrite Hl. pose proof (io_width _ Hi) as Hw. unfold INT_MAX, EXTSIZ in Hw.
  rewrite int32_small by lia. cbn in Hf. pose proof (uint8_range (int32 z)) as Hc. unfold field_text. cbn [length].
  change (Z.of_nat 1) with 1. destruct (left i); cbn [negb].
  - eapply emits_bind_silent; [done|]. eapply emits_bind_silent; [intros o; apply Hf|]. cbv beta.
    eapply emits_bind_assoc; [by apply emits_outchar|intros d|done]. by apply emits_PAD; [|lia].
  - eapply emits_bind_assoc; [by apply emits_PAD; [|lia]|intros d|done].
    eapply emits_bind_silent; [intros o; apply Hf|]. eapply emits_bind_end; [by apply emits_outchar|done].
Qed.

Lemma emits_string_arg a m t : fetches fetch (Some (VPtr a m)) r r1 → bytes_ok m →
  is_long i = false → spec i ≠ chr "S" →
  (if a =? 0 then Some (field_text i (if (prec i =? -1) || (6 <=? prec i) then lit "(null)" else [])) else string_text i m) = Some t →
  emits done r (ptr ← fetch_ptr; print_string i (if ptr.1 =? 0 then None else Some ptr.2)) tt t r1.
Proof.
  intros Hf Hm Hl Hs Ht. cbn in Hf. eapply emits_bind_silent; [intros o; apply Hf|]. cbn [fst snd]. destruct (a =? 0).
  - unfold print_string. injection Ht as <-. eapply emits_bind_silent; [done|]. apply emits_field; [done|].
    destruct (_ || _); [apply (lit_bytes "(null)")|constructor].
  - by apply emits_string.
Qed.

Lemma emits_nothing d r0 : spec i ≠ chr "S" →
  emits d r0 (let i := if prec i <? 5 then set_prec 5 i else i in
              print_string (set_mods (is_long_double i) (is_short i) false (is_char i) i) (Some (lit "(nil)" ++ [0])))
    tt (field_text i (lit "(nil)")) r0.
Proof.
  intros Hs. cbv zeta. set (j := if prec i <? 5 then set_prec 5 i else i).
  assert (info_ok j ∧ 5 ≤ prec j ∧ left j = left i ∧ width j = width i ∧ spec j = spec i) as (Hj & Hp & El & Ew & Es).
  { unfold j. destruct Hi as [? ? ? ? ?]. unfold INT_MAX, EXTSIZ in *.
    destruct (Z.ltb_spec (prec i) 5); split_and!; cbn; try done; constructor; cbn; unfold INT_MAX, EXTSIZ; done || lia. }
  clearbody j. apply emits_string; [by destruct Hj|apply Forall_app; split; [apply (lit_bytes "(nil)")|constructor; [by split|constructor]]|done|cbn; congruence|].
  unfold string_text, field_text. cbn [prec left width set_mods]. destruct (Z.eqb_spec (prec j) (-1)); [lia|].
  assert (cstrn (prec j) (lit "(nil)" ++ [0]) = Ok (lit "(nil)")) as ->; [|by rewrite El, Ew].
  change (lit "(nil)" ++ [0]) with [40; 110; 105; 108; 41; 0]. cbn [cstrn].
  do 5 (match goal with |- context [?x <=? 0] => destruct (Z.leb_spec x 0); [lia|] end). by destruct (_ <=? 0).
Qed.

Lemma emits_pointer a m : fetches fetch (Some (VPtr a m)) r r1 → spec i ≠ chr "S" →
  emits done r (form_pointer_arg (fetch := fetch) work i) tt
    (if negb (a =? 0) then number_text (pointer_info i) 16 false (uint64 a) else field_text i (lit "(nil)")) r1.
Proof.
  intros Hf Hs. cbn in Hf. unfold form_pointer_arg. eapply emits_bind_silent; [intros o; apply Hf|]. cbn [fst snd].
  destruct (negb (a =? 0)); [|by apply emits_nothing].
  apply emits_number; try done; [by apply info_ok_pointer|apply Z.mod_pos_bound; lia].
Qed.

Lemma emits_count a m : fetches fetch (Some (VPtr a m)) r r1 → a ≠ 0 → lc_fortify && negb lc_readonly_area = false →
  emits done r (form_number_arg (fetch := fetch) i) tt [] (stored done i form_number (Some (VPtr a m)) r1).
Proof.
  intros Hf Ha Hfo. apply emits_silent. intros o. unfold form_number_arg. rewrite Hfo. cbn in Hf.
  unfold mbind, P_bind. rewrite Hf. cbn [fst]. by destruct (Z.eqb_spec a 0).
Qed.

(** Every conversion writes its text. *)
Lemma emits_process unknown se l arg t :
  bytes_ok (lc_strerror_r se) → arg_bytes arg → fetches fetch arg r r1 → lc_fortify && negb lc_readonly_area = false →
  (l = form_pointer ∨ l = form_strerror → spec i ≠ chr "S") →
  arg_text (lc_strerror_r se) i l arg = Some t →
  emits done r (process_arg (fetch := fetch) unknown work se i l) tt t (stored done i l arg r1).
Proof.
  intros Hse Hby Hf Hfo HS Ht. destruct l; try done; cbn [process_arg arg_text stored] in *.
  - destruct arg; [done|]. cbn in Hf. subst r1. injection Ht as <-. by apply emits_outchar.
  - destruct arg as [a|]; [|done]. destruct (signed_value i a) as [v|] eqn:Hv; [|done]. injection Ht as <-. by eapply emits_signed.
  - destruct arg as [a|]; [|done]. apply fmap_Some in Ht as (v & Hv & ->). by eapply emits_unsigned.
  - destruct arg as [a|]; [|done]. apply fmap_Some in Ht as (v & Hv & ->). by eapply emits_unsigned.
  - destruct arg as [a|]; [|done]. apply fmap_Some in Ht as (v & Hv & ->). by eapply emits_unsigned.
  - destruct arg as [[z| | | |]|]; try done. destruct (is_long i) eqn:Hl; [done|]. injection Ht as <-. by apply emits_character.
  - destruct arg as [[| | | |a m]|]; try done. destruct (is_long i) eqn:Hl; [done|].
    destruct (Z.eqb_spec (spec i) (chr "S")) as [|Hs]; [done|]. by eapply emits_string_arg.
  - destruct arg as [[| | | |a m]|]; try done. specialize (HS (or_introl eq_refl)).
    assert (t = if negb (a =? 0) then number_text (pointer_info i) 16 false (uint64 a) else field_text i (lit "(nil)")) as ->
      by (destruct (negb (a =? 0)); by injection Ht as <-).
    by eapply emits_pointer.
  - destruct arg as [[| | | |a m]|]; try done. destruct (Z.eqb_spec a 0); [done|]. injection Ht as <-. by eapply emits_count.
  - destruct arg; [done|]. cbn in Hf. subst r1. apply emits_string; try done; [by destruct Hi| |by apply HS; right].
    apply Forall_app. split; [done|constructor; [by split|constructor]].
Qed.
End Strings.
