(* ===== verification/PrintfFormat.v ===== *)
(** * glibc: formatted output, formats

    The syntax of formats as data, the text a format and its arguments stand
    for, and the theorem that [vfprintf] writes that text. *)

From S2P Require Import Prelude CString Itoa Printf PrintfFast PrintfText.

(** ** Syntax *)

Inductive flag := FSpace | FPlus | FMinus | FHash | FZero | FQuote.
Inductive wspec := NoWidth | ConstWidth (n : Z) | ArgWidth (z : Z).
Inductive pspec := NoPrec | DotPrec | ConstPrec (n : Z) | ArgPrec (z : Z).
Inductive modifier := NoMod | Mod_hh | Mod_h | Mod_l | Mod_ll | Mod_L | Mod_q | Mod_z | Mod_Z | Mod_t | Mod_j.
Inductive conversion :=
| Conv_percent | Conv_d | Conv_i | Conv_u | Conv_o | Conv_x | Conv_X | Conv_c | Conv_s | Conv_p | Conv_n | Conv_m.

#[global] Instance flag_eq_dec : EqDecision flag.
Proof. solve_decision. Defined.
#[global] Instance modifier_eq_dec : EqDecision modifier.
Proof. solve_decision. Defined.
#[global] Instance conversion_eq_dec : EqDecision conversion.
Proof. solve_decision. Defined.

#[global] Instance wspec_eq_dec : EqDecision wspec.
Proof. solve_decision. Defined.
#[global] Instance pspec_eq_dec : EqDecision pspec.
Proof. solve_decision. Defined.

Record directive := mkD {
  d_flags : list flag;
  d_width : wspec;
  d_prec : pspec;
  d_mod : modifier;
  d_conv : conversion;
  d_arg : option varg;
}.

(** ** The format string *)

Definition flag_char (f : flag) : Z :=
  match f with FSpace => 32 | FPlus => 43 | FMinus => 45 | FHash => 35 | FZero => 48 | FQuote => 39 end.
Definition width_chars (w : wspec) : list Z :=
  match w with NoWidth => [] | ConstWidth n => show_nat n | ArgWidth _ => [42] end.
Definition prec_chars (p : pspec) : list Z :=
  match p with NoPrec => [] | DotPrec => [46] | ConstPrec n => 46 :: show_nat n | ArgPrec _ => [46; 42] end.
Definition mod_chars (m : modifier) : list Z :=
  match m with
  | NoMod => [] | Mod_hh => [104; 104] | Mod_h => [104] | Mod_l => [108] | Mod_ll => [108; 108] | Mod_L => [76]
  | Mod_q => [113] | Mod_z => [122] | Mod_Z => [90] | Mod_t => [116] | Mod_j => [106]
  end.
Definition conv_char (c : conversion) : Z :=
  match c with
  | Conv_percent => 37 | Conv_d => 100 | Conv_i => 105 | Conv_u => 117 | Conv_o => 111 | Conv_x => 120 | Conv_X => 88
  | Conv_c => 99 | Conv_s => 115 | Conv_p => 112 | Conv_n => 110 | Conv_m => 109
  end.
Definition conv_label (c : conversion) : label :=
  match c with
  | Conv_percent => form_percent | Conv_d | Conv_i => form_integer | Conv_u => form_unsigned | Conv_o => form_octal
  | Conv_x | Conv_X => form_hexa | Conv_c => form_character | Conv_s => form_string | Conv_p => form_pointer
  | Conv_n => form_number | Conv_m => form_strerror
  end.

Definition end_chars (d : directive) (tail : list Z) : list Z := mod_chars (d_mod d) ++ conv_char (d_conv d) :: tail.
Definition directive_chars (d : directive) (tail : list Z) : list Z :=
  (flag_char <$> d_flags d) ++ width_chars (d_width d) ++ prec_chars (d_prec d) ++ end_chars d tail.

(** The arguments of a directive: width, precision, value *)
Definition directive_args (d : directive) : list varg :=
  (match d_width d with ArgWidth z => [VInt z] | _ => [] end) ++
  (match d_prec d with ArgPrec z => [VInt z] | _ => [] end) ++ option_list (d_arg d).

(** A format: literal text, then directives, each followed by literal text *)
Definition item : Type := directive * list Z.
Fixpoint items_chars (l : list item) : list Z :=
  match l with [] => [0] | (d, t) :: l' => 37 :: directive_chars d (t ++ items_chars l') end.
Definition items_args (l : list item) : list varg := mjoin ((λ it, directive_args it.1) <$> l).

(** ** Its meaning *)

(** ['0'] is ignored when ['-'] is present. *)
Definition flags_info (fl : list flag) : printf_info :=
  let has f := bool_decide (f ∈ fl) in
  mkInfo (-1) 0 0 false false false false (has FHash) (has FSpace) (has FMinus) (has FPlus) (has FQuote) false
    (if has FZero && negb (has FMinus) then 48 else 32).
(** A negative width is a ['-'] flag and a width. *)
Definition width_info (w : wspec) (i : printf_info) : printf_info :=
  match w with
  | NoWidth => i
  | ConstWidth n => set_width n i
  | ArgWidth z => if int32 z <? 0 then set_left true (set_pad 32 (set_width (- int32 z) i)) else set_width (int32 z) i
  end.
(** A negative precision is none. *)
Definition prec_info (p : pspec) (i : printf_info) : printf_info :=
  match p with
  | NoPrec => i
  | DotPrec => set_prec 0 i
  | ConstPrec n => set_prec n i
  | ArgPrec z => set_prec (if int32 z <? 0 then -1 else int32 z) i
  end.
Definition mod_info (m : modifier) (i : printf_info) : printf_info :=
  match m with
  | NoMod => i
  | Mod_hh => set_mods false false false true i
  | Mod_h => set_mods false true false false i
  | Mod_l => set_mods false false true false i
  | Mod_ll | Mod_L | Mod_q => set_mods true false true false i
  | Mod_z | Mod_Z | Mod_t | Mod_j => set_mods false false true false i
  end.
Definition front_info (d : directive) : printf_info := prec_info (d_prec d) (width_info (d_width d) (flags_info (d_flags d))).
Definition info_of (d : directive) : printf_info := set_spec (conv_char (d_conv d)) (mod_info (d_mod d) (front_info d)).

(** The text of a directive and of a format *)
Definition directive_text (strerror : list Z) (d : directive) : option (list Z) :=
  arg_text strerror (info_of d) (conv_label (d_conv d)) (d_arg d).
Fixpoint items_text (strerror : list Z) (l : list item) : option (list Z) :=
  match l with
  | [] => Some []
  | (d, t) :: l' => u ← directive_text strerror d; v ← items_text strerror l'; Some (u ++ t ++ v)
  end.

(** ** Which formats are valid *)

Definition width_ok (w : wspec) : Prop :=
  match w with
  | NoWidth => True
  | ConstWidth n => 0 < n < INT_MAX - EXTSIZ
  | ArgWidth z => - (INT_MAX - EXTSIZ) < int32 z < INT_MAX - EXTSIZ
  end.
Definition prec_ok (p : pspec) : Prop :=
  match p with
  | NoPrec | DotPrec => True
  | ConstPrec n => 0 ≤ n < INT_MAX - EXTSIZ
  | ArgPrec z => int32 z < INT_MAX - EXTSIZ
  end.
(** ['h'] and ["hh"] go with integers only. *)
Definition mod_ok (m : modifier) (c : conversion) : bool :=
  match m with
  | Mod_h | Mod_hh => bool_decide (c ∈ [Conv_percent; Conv_d; Conv_i; Conv_u; Conv_o; Conv_x; Conv_X; Conv_n])
  | _ => true
  end.
Record directive_ok (d : directive) : Prop := {
  dk_width : width_ok (d_width d);
  dk_prec : prec_ok (d_prec d);
  dk_mod : mod_ok (d_mod d) (d_conv d) = true;
  dk_arg : arg_bytes (d_arg d);
}.
Definition literal (t : list Z) : Prop := Forall (λ c, is_byte c ∧ c ≠ 0 ∧ c ≠ 37) t.
Definition items_ok (l : list item) : Prop := Forall (λ it, directive_ok it.1 ∧ literal it.2) l.

(** The C locale, which does not group digits, with memory for the special
    buffers and without the check of ["%n"] for writable formats. *)
Class PlainLibc (F : Type) `{Libc F} : Prop := {
  pl_grouping : ∃ g l, lc_grouping = g :: l ∧ (g = 0 ∨ g = CHAR_MAX);
  pl_sep : lc_thousands_sep ≠ [];
  pl_alloc n : lc_alloc n = true;
  pl_fortify : lc_fortify && negb lc_readonly_area = false;
  pl_strerror e : bytes_ok (lc_strerror_r e);
}.

(** ** Lemmas on parsing *)

Lemma flags_info_snoc fl f : flags_info (fl ++ [f]) =
  let i := flags_info fl in
  match f with
  | FSpace => set_space true i
  | FPlus => set_showsign true i
  | FMinus => set_pad 32 (set_left true i)
  | FHash => set_alt true i
  | FZero => if negb (left i) then set_pad 48 i else i
  | FQuote => set_group true i
  end.
Proof.
  unfold flags_info.
  assert (∀ g, bool_decide (g ∈ fl ++ [f]) = bool_decide (g ∈ fl) || bool_decide (g = f)) as E.
  { intros g. rewrite <-bool_decide_or. apply bool_decide_ext. rewrite elem_of_app, list_elem_of_singleton. done. }
  rewrite !E. destruct f; cbn;
    destruct (bool_decide (FHash ∈ fl)), (bool_decide (FSpace ∈ fl)), (bool_decide (FMinus ∈ fl)), (bool_decide (FPlus ∈ fl)),
      (bool_decide (FQuote ∈ fl)), (bool_decide (FZero ∈ fl)); reflexivity.
Qed.

Lemma ISDIGIT_spec c : is_byte c → ISDIGIT c = bool_decide (48 ≤ c ≤ 57).
Proof.
  intros Hc. unfold ISDIGIT, is_byte in *. destruct (Z.ltb_spec c 48).
  - rewrite bool_decide_false by lia. unfold uint32. replace (c - 48) with (c - 48 + 2 ^ 32 + -1 * 2 ^ 32) by lia.
    rewrite Z.mod_add, Z.mod_small by lia. apply Z.ltb_ge. lia.
  - rewrite uint32_small by lia. destruct (Z.ltb_spec (c - 48) 10); [by rewrite bool_decide_true by lia|].
    by rewrite bool_decide_false by lia.
Qed.

Lemma read_digits_all ds c f : all_digits ds → is_byte c → ISDIGIT c = false → ∀ acc,
  0 ≤ acc → foldl (λ a x, a * 10 + (x - 48)) acc ds ≤ INT_MAX →
  read_digits acc (ds ++ c :: f) = Ok (foldl (λ a x, a * 10 + (x - 48)) acc ds, c :: f).
Proof.
  intros Hds Hc Hnd. induction Hds as [|x ds Hx Hds IH]; intros acc Ha Hm; cbn [app read_digits foldl] in *.
  - by rewrite Hnd.
  - rewrite ISDIGIT_spec by (unfold is_byte; lia). rewrite bool_decide_true by lia.
    rewrite foldl_digits in Hm. pose proof (dvalue_range ds Hds).
    assert (1 ≤ 10 ^ Z.of_nat (length ds)) by (apply (Z.pow_le_mono_r 10 0); lia).
    assert (acc * 10 + (x - 48) ≤ INT_MAX) as Hle by nia.
    destruct (Z.leb_spec 0 acc); [|lia]. destruct (Z.ltb_spec (INT_MAX / 10) acc) as [Hbig|_].
    { pose proof (Z.mul_succ_div_gt INT_MAX 10 ltac:(lia)). lia. }
    destruct (Z.ltb_spec (INT_MAX - (x - 48)) (acc * 10)); [lia|]. apply IH; [lia|].
    rewrite foldl_digits. exact Hm.
Qed.

(** [read_int] reads a constant back. *)
Lemma read_int_show n c f : 0 ≤ n ≤ INT_MAX → is_byte c → ISDIGIT c = false →
  read_int (show_nat n ++ c :: f) = Ok (n, c :: f).
Proof.
  intros Hn Hc Hnd. destruct (show_nat_spec n) as (Hd & Hne & Hv); [unfold INT_MAX in *; lia|].
  destruct (show_nat n) as [|x ds]; [done|]. inversion_clear Hd as [|?? Hx Hds]. cbn [app read_int]. cbn [foldl] in Hv.
  change (0 * 10 + (x - 48)) with (x - 48) in Hv. rewrite read_digits_all; [by rewrite Hv|done..|lia|lia].
Qed.

(** No modifier has been seen. *)
Definition no_mods (i : printf_info) : Prop :=
  is_long_double i = false ∧ is_short i = false ∧ is_long i = false ∧ is_char i = false.

Lemma front_no_mods d : no_mods (front_info d).
Proof.
  unfold front_info, prec_info, width_info, no_mods. destruct (d_prec d), (d_width d); repeat case_match; done.
Qed.

Lemma special_size n : WORK_BUFFER_SIZE - EXTSIZ ≤ n → (64 ≤ work_size (Some (n + EXTSIZ)%Z))%nat.
Proof.
  intros Hn. unfold work_size. change (default WORK_BUFFER_SIZE (Some (n + EXTSIZ))) with (n + EXTSIZ).
  unfold WORK_BUFFER_SIZE, EXTSIZ in *. lia.
Qed.
Lemma work_buffer_size : (64 ≤ work_size None)%nat.
Proof. by vm_compute; lia. Qed.

Lemma info_of_ok d : directive_ok d → info_ok (info_of d).
Proof.
  intros [Hw Hp _ _]. unfold info_of, front_info, INT_MAX, EXTSIZ in *.
  assert (pad (flags_info (d_flags d)) = 32 ∨ pad (flags_info (d_flags d)) = 48) as Hpad by (cbn; destruct (_ && _); auto).
  constructor; unfold INT_MAX, EXTSIZ.
  - destruct (d_mod d), (d_prec d); cbn; destruct (d_width d) as [|wn|wz]; cbn in *; unfold INT_MAX, EXTSIZ in *; try lia;
      destruct (Z.ltb_spec (int32 wz) 0); cbn; lia.
  - assert (prec (width_info (d_width d) (flags_info (d_flags d))) = -1) as E
      by (destruct (d_width d); cbn; [done|done|by destruct (_ <? 0)]).
    destruct (d_mod d), (d_prec d) as [| |n|z]; cbn in *; unfold INT_MAX, EXTSIZ in *; try lia; destruct (Z.ltb_spec (int32 z) 0); lia.
  - by destruct (d_conv d).
  - destruct (d_mod d), (d_prec d), (d_width d) as [|wn|wz]; cbn in *; try done; destruct (int32 wz <? 0); cbn; auto.
  - destruct (d_mod d), (d_prec d), (d_width d) as [|wn|wz]; cbn in *; try done; by destruct (int32 wz <? 0).
Qed.

Lemma info_of_group d : group (info_of d) = bool_decide (FQuote ∈ d_flags d).
Proof. unfold info_of, front_info. destruct (d_mod d), (d_prec d), (d_width d) as [|wn|wz]; try done; cbn; by destruct (int32 wz <? 0). Qed.

Section Automaton.
Context {F : Type} `{Sink F} `{Libc F} `{!SinkLaws F} `{!PlainLibc F}.
Variable se : Z.

(** From the modifiers on the three tables agree. *)
Lemma jump2_end work d tail i : no_mods i → mod_ok (d_mod d) (d_conv d) = true →
  jump2 (F := F) se work (end_chars d tail) i =
  do_form se work (conv_label (d_conv d)) (conv_char (d_conv d) :: tail) (set_spec (conv_char (d_conv d)) (mod_info (d_mod d) i)).
Proof.
  unfold no_mods, end_chars. destruct i; cbn. intros (-> & -> & -> & ->).
  destruct (d_mod d), (d_conv d); first [intros _; reflexivity|intros Hbad; vm_compute in Hbad; discriminate Hbad].
Qed.
Lemma jump1_end work d tail i : no_mods i → mod_ok (d_mod d) (d_conv d) = true →
  jump1 (F := F) se work (end_chars d tail) i =
  do_form se work (conv_label (d_conv d)) (conv_char (d_conv d) :: tail) (set_spec (conv_char (d_conv d)) (mod_info (d_mod d) i)).
Proof.
  unfold no_mods, end_chars. destruct i; cbn. intros (-> & -> & -> & ->).
  destruct (d_mod d), (d_conv d); first [intros _; reflexivity|intros Hbad; vm_compute in Hbad; discriminate Hbad].
Qed.
Lemma do_spec_end d tail i : no_mods i → mod_ok (d_mod d) (d_conv d) = true →
  do_spec (F := F) se (end_chars d tail) i =
  do_form se None (conv_label (d_conv d)) (conv_char (d_conv d) :: tail) (set_spec (conv_char (d_conv d)) (mod_info (d_mod d) i)).
Proof.
  unfold no_mods, end_chars. destruct i; cbn. intros (-> & -> & -> & ->).
  destruct (d_mod d), (d_conv d); first [intros _; reflexivity|intros Hbad; vm_compute in Hbad; discriminate Hbad].
Qed.

Lemma end_char d tail : ∃ c f, end_chars d tail = c :: f ∧ is_byte c ∧ ISDIGIT c = false ∧ c ≠ 42 ∧ c ≠ 36 ∧ c ≠ 46.
Proof. unfold end_chars. destruct (d_mod d), (d_conv d); eexists _, _; split; try reflexivity; by split_and!. Qed.

Lemma va_arg_int z ap r d (o : F) : r_ap r = VInt z :: ap →
  va_arg as_int (state d o r) = Go (int32 z) (state d o (with_ap ap r)).
Proof. intros E. unfold va_arg, mbind, P_bind, pget. cbn [p_ap state]. by rewrite E. Qed.

(** What [read_precision] finds *)
Lemma read_precision_spec done r r1 d tail : d_prec d ≠ NoPrec → prec_ok (d_prec d) →
  r_ap r = (match d_prec d with ArgPrec z => [VInt z] | _ => [] end) ++ r_ap r1 → r1 = with_ap (r_ap r1) r →
  ∃ p, (∀ i, prec_info (d_prec d) i = set_prec p i) ∧ p < INT_MAX - EXTSIZ ∧
    ∀ o : F, read_precision (tl (prec_chars (d_prec d)) ++ end_chars d tail) (state done o r) = Go (p, end_chars d tail) (state done o r1).
Proof.
  intros Hne Hp Eap Er. destruct (end_char d tail) as (c & f & Ee & Hc & Hnd & Hstar & _).
  destruct (d_prec d) as [| |n|z] eqn:Ed; [done| | |]; cbn [tl prec_chars app prec_info prec_ok] in *.
  - exists 0. split_and!; [done|by unfold INT_MAX, EXTSIZ|]. intros o. rewrite Ee. unfold read_precision.
    destruct (Z.eqb_spec c (chr "*")); [done|]. rewrite Hnd. rewrite Er, <-Eap. by destruct r.
  - exists n. split_and!; [done|lia|]. intros o. rewrite Ee. unfold read_precision.
    pose proof (read_int_show n c f ltac:(unfold INT_MAX, EXTSIZ in *; lia) Hc Hnd) as Hri.
    destruct (show_nat_spec n) as (Hd & Hne0 & _); [unfold INT_MAX, EXTSIZ in *; lia|].
    destruct (show_nat n) as [|x ds]; [done|]. apply Forall_cons in Hd as [Hx _]. cbn [app] in *.
    destruct (Z.eqb_spec x (chr "*")) as [Ex|]; [change (chr "*") with 42 in Ex; lia|].
    rewrite ISDIGIT_spec, bool_decide_true by (unfold is_byte; lia).
    unfold mbind, P_bind, plift. rewrite Hri. cbn [fst]. destruct (Z.eqb_spec n (-1)); [lia|]. rewrite Er, <-Eap. by destruct r.
  - exists (if int32 z <? 0 then -1 else int32 z).
    split_and!; [done|destruct (int32 z <? 0); unfold INT_MAX, EXTSIZ in *; lia|].
    intros o. cbn [read_precision]. change (42 =? chr "*") with true. cbv iota. unfold mbind, P_bind.
    unfold check_positional. rewrite Ee, Hnd. unfold mret at 1, P_ret at 1. cbv beta iota.
    rewrite (va_arg_int z (r_ap r1)) by done. by rewrite <-Er.
Qed.

(** A precision, whose digits or argument are read *)
Lemma emits_precision done r r1 r2 work d tail i b t :
  d_prec d ≠ NoPrec → prec_ok (d_prec d) → no_mods i → mod_ok (d_mod d) (d_conv d) = true → (64 ≤ work_size work)%nat →
  r_ap r = (match d_prec d with ArgPrec z => [VInt z] | _ => [] end) ++ r_ap r1 → r1 = with_ap (r_ap r1) r →
  (∀ work, (64 ≤ work_size work)%nat → emits done r1
    (do_form se work (conv_label (d_conv d)) (conv_char (d_conv d) :: tail)
      (set_spec (conv_char (d_conv d)) (mod_info (d_mod d) (prec_info (d_prec d) i)))) b t r2) →
  emits done r (do_precision se work (tl (prec_chars (d_prec d)) ++ end_chars d tail) i) b t r2.
Proof.
  intros Hne Hp Hnm Hm Hwk Eap Er Hend.
  destruct (read_precision_spec done r r1 d tail Hne Hp Eap Er) as (p & Ep & Hpr & Hread).
  unfold do_precision. eapply emits_bind_silent; [intros o; apply Hread|]. cbn [fst snd].
  rewrite Ep in Hend. set (j := set_prec p i) in *. assert (no_mods j ∧ prec j = p) as [Hnj Ej] by done. clearbody j. rewrite Ej.
  destruct ((width j <? p) && (WORK_BUFFER_SIZE - EXTSIZ <? p)) eqn:Eb.
  - apply andb_true_iff in Eb as [_ Eb%Z.ltb_lt]. destruct (Z.leb_spec (INT_MAX - EXTSIZ) p); [lia|].
    unfold special_buffer. rewrite pl_alloc. eapply emits_bind_silent; [done|]. cbv beta. rewrite jump2_end by done. apply Hend.
    apply special_size; lia.
  - eapply emits_bind_silent; [done|]. cbv beta. rewrite jump2_end by done. by apply Hend.
Qed.

Lemma spec_overwritten c c' m p i :
  set_spec c (mod_info m (prec_info p (set_spec c' i))) = set_spec c (mod_info m (prec_info p i)).
Proof. by destruct m, p. Qed.

(** From the precision on, after a width and after the flags *)
Definition ends done r1 d tail i b t r2 : Prop := ∀ work, (64 ≤ work_size work)%nat → emits done r1
  (do_form (F := F) se work (conv_label (d_conv d)) (conv_char (d_conv d) :: tail)
    (set_spec (conv_char (d_conv d)) (mod_info (d_mod d) (prec_info (d_prec d) i)))) b t r2.

Lemma no_args_left r r1 : r_ap r = [] ++ r_ap r1 → r1 = with_ap (r_ap r1) r → r1 = r.
Proof. cbn. intros <- ->. by destruct r. Qed.

Lemma emits_jump1 done r r1 r2 work d tail i b t :
  prec_ok (d_prec d) → no_mods i → mod_ok (d_mod d) (d_conv d) = true → (64 ≤ work_size work)%nat →
  r_ap r = (match d_prec d with ArgPrec z => [VInt z] | _ => [] end) ++ r_ap r1 → r1 = with_ap (r_ap r1) r →
  ends done r1 d tail i b t r2 →
  emits done r (jump1 se work (prec_chars (d_prec d) ++ end_chars d tail) i) b t r2.
Proof.
  intros Hp Hnm Hm Hwk Eap Er Hend. destruct (decide (d_prec d = NoPrec)) as [E|E].
  - rewrite E in Eap. rewrite E. cbn [prec_chars app]. rewrite jump1_end by done. apply no_args_left in Er as ->; [|done].
    unfold ends in Hend. rewrite E in Hend. by apply Hend.
  - assert (prec_chars (d_prec d) = 46 :: tl (prec_chars (d_prec d))) as -> by (by destruct (d_prec d)).
    change (jump1 se work _ i) with (do_precision (F := F) se work (tl (prec_chars (d_prec d)) ++ end_chars d tail) (set_spec 46 i)).
    eapply emits_precision; try done. intros wk Hwk'. rewrite spec_overwritten. by apply Hend.
Qed.

Lemma emits_no_width done r r1 r2 d tail i b t :
  prec_ok (d_prec d) → no_mods i → mod_ok (d_mod d) (d_conv d) = true →
  r_ap r = (match d_prec d with ArgPrec z => [VInt z] | _ => [] end) ++ r_ap r1 → r1 = with_ap (r_ap r1) r →
  ends done r1 d tail i b t r2 →
  emits done r (do_spec se (prec_chars (d_prec d) ++ end_chars d tail) i) b t r2.
Proof.
  intros Hp Hnm Hm Eap Er Hend. destruct (decide (d_prec d = NoPrec)) as [E|E].
  - rewrite E in Eap. rewrite E. cbn [prec_chars app]. rewrite do_spec_end by done. apply no_args_left in Er as ->; [|done].
    unfold ends in Hend. rewrite E in Hend. apply Hend, work_buffer_size.
  - assert (prec_chars (d_prec d) = 46 :: tl (prec_chars (d_prec d))) as -> by (by destruct (d_prec d)).
    change (do_spec se _ i) with (do_precision (F := F) se None (tl (prec_chars (d_prec d)) ++ end_chars d tail) (set_spec 46 i)).
    eapply emits_precision; try done; [apply work_buffer_size|]. intros wk Hwk'. rewrite spec_overwritten. by apply Hend.
Qed.

(** The character after a width *)
Lemma after_width_char d tail : ∃ c f, prec_chars (d_prec d) ++ end_chars d tail = c :: f ∧ is_byte c ∧ ISDIGIT c = false ∧ c ≠ 36.
Proof.
  destruct (end_char d tail) as (c & f & -> & ? & ? & ? & ? & ?).
  destruct (d_prec d); cbn [prec_chars app]; eexists _, _; split; try done; by split_and!.
Qed.

Lemma width_buffer_silent w : 0 ≤ w < INT_MAX - EXTSIZ →
  ∃ work, (∀ st, width_buffer (F := F) w st = Go work st) ∧ (64 ≤ work_size work)%nat.
Proof.
  intros Hw. unfold width_buffer, INT_MAX, EXTSIZ in *. rewrite uint64_small by lia.
  destruct (Z.leb_spec (2 ^ 31 - 1 - 32) w); [lia|]. destruct (Z.leb_spec (WORK_BUFFER_SIZE - 32) w).
  - unfold special_buffer. rewrite pl_alloc. eexists. split; [done|]. by apply special_size.
  - exists None. split; [done|apply work_buffer_size].
Qed.

(** A directive from its width on, after the flags [i] *)
Lemma emits_width done r r1 r2 d tail i b t :
  directive_ok d → no_mods i →
  r_ap r = (match d_width d with ArgWidth z => [VInt z] | _ => [] end) ++
           (match d_prec d with ArgPrec z => [VInt z] | _ => [] end) ++ r_ap r1 → r1 = with_ap (r_ap r1) r →
  ends done r1 d tail (width_info (d_width d) i) b t r2 →
  emits done r (do_spec se (width_chars (d_width d) ++ prec_chars (d_prec d) ++ end_chars d tail) i) b t r2.
Proof.
  intros [Hw Hp Hm _] Hnm Eap Er Hend. destruct (after_width_char d tail) as (c & f & Ec & Hc & Hnd & Hdol).
  destruct (d_width d) as [|n|z]; cbn [width_chars width_info width_ok app] in *.
  - by eapply emits_no_width.
  - destruct (show_nat_head n) as (x & ds & Es & Hx); [unfold INT_MAX, EXTSIZ in *; lia|].
    pose proof (read_int_show n c f ltac:(unfold INT_MAX, EXTSIZ in *; lia) Hc Hnd) as Hri.
    assert (do_spec se (show_nat n ++ prec_chars (d_prec d) ++ end_chars d tail) i =
      do_width se (show_nat n ++ c :: f) (set_spec x i)) as ->.
    { rewrite Es, Ec. clear -Hx. assert (x ∈ seqZ 49 9) as Hin by (apply elem_of_seqZ; lia). vm_compute in Hin.
      repeat (apply elem_of_cons in Hin as [->|Hin]; [reflexivity|]). by apply not_elem_of_nil in Hin. }
    unfold do_width. eapply emits_bind_silent; [intros o; unfold plift; by rewrite Hri|]. cbn [fst snd].
    destruct (width_buffer_silent n ltac:(lia)) as (work & Ewb & Hwk).
    eapply emits_bind_silent; [intros o; apply Ewb|]. destruct (Z.eqb_spec c (chr "$")); [done|]. rewrite <-Ec.
    eapply emits_jump1; try done. intros wk Hwk'. change (set_width n (set_spec x i)) with (set_spec x (set_width n i)).
    rewrite spec_overwritten. by apply Hend.
  - change (do_spec se (42 :: _) i) with (do_width_asterics (F := F) se (prec_chars (d_prec d) ++ end_chars d tail) (set_spec 42 i)).
    unfold do_width_asterics. eapply emits_bind_silent; [intros o; unfold check_positional; by rewrite Ec, Hnd|]. cbv beta.
    set (r0 := with_ap (match d_prec d with ArgPrec z => [VInt z] | _ => [] end ++ r_ap r1) r).
    eapply emits_bind_silent; [intros o; by apply (va_arg_int z (r_ap r0))|]. cbv beta.
    set (j := if int32 z <? 0 then _ else _).
    assert (∃ k, j = set_spec 42 k ∧ k = width_info (ArgWidth z) i ∧ 0 ≤ width k < INT_MAX - EXTSIZ ∧ no_mods k) as (k & -> & Ek & Hwj & Hnk).
    { unfold j, width_info. eexists. split; [|split; [reflexivity|]]; destruct (Z.ltb_spec (int32 z) 0);
        rewrite ?int32_small by (unfold INT_MAX, EXTSIZ in *; lia); cbn; split_and?; done || lia. }
    destruct (width_buffer_silent (width k) Hwj) as (work & Ewb & Hwk). change (width (set_spec 42 k)) with (width k).
    eapply emits_bind_silent; [intros o; apply Ewb|]. cbv beta.
    eapply emits_jump1; try done. intros wk Hwk'. rewrite spec_overwritten, Ek. by apply Hend.
Qed.
(** The grouping rule after the flags *)
Definition quoted (fl : list flag) (r : rest) : rest :=
  if bool_decide (FQuote ∈ fl) then with_grouping NoGrouping r else r.
Definition no_rule (r : rest) : Prop := r_grouping r = Unasked ∨ r_grouping r = NoGrouping.

Lemma ask_grouping_silent done o r : no_rule r → ask_grouping (F := F) (state done o r) = Go tt (state done o (with_grouping NoGrouping r)).
Proof.
  intros Hr. unfold ask_grouping, mbind, P_bind, pget. cbn [p_grouping state]. destruct Hr as [-> | E].
  - destruct pl_grouping as (g & l & -> & Hg). pose proof pl_sep as Hs. destruct lc_thousands_sep as [|t0 ts]; [done|].
    unfold pmodify. destruct Hg as [-> | ->]; done.
  - rewrite E. destruct r; cbn in *. by subst.
Qed.

Lemma do_spec_noise f c i : do_spec (F := F) se f (set_spec c i) = do_spec se f i.
Proof. by destruct f. Qed.

Lemma emits_flags fl : ∀ done r r' fl0 f b t, no_rule r →
  emits done (quoted fl r) (do_spec se f (flags_info (fl0 ++ fl))) b t r' →
  emits done r (do_spec se ((flag_char <$> fl) ++ f) (flags_info fl0)) b t r'.
Proof.
  induction fl as [|g fl IH]; intros done r r' fl0 f b t Hr Hf.
  { by rewrite app_nil_r in Hf. }
  replace (fl0 ++ g :: fl) with ((fl0 ++ [g]) ++ fl) in Hf by (by rewrite <-app_assoc).
  cbn [fmap list_fmap app]. set (rest := (flag_char <$> fl) ++ f) in *.
  assert (∀ r0, no_rule r0 → quoted fl r0 = quoted (g :: fl) r → emits done r0 (do_spec se rest (flags_info (fl0 ++ [g]))) b t r') as Hgo.
  { intros r0 Hr0 E. apply IH; [done|]. by rewrite E. }
  rewrite flags_info_snoc in Hgo. destruct (decide (g = FQuote)) as [->|Hg].
  - change (do_spec se (flag_char FQuote :: rest) (flags_info fl0))
      with (ask_grouping (F := F) ;; do_spec se rest (set_spec 39 (set_group true (flags_info fl0)))).
    eapply emits_bind_silent; [intros o; by apply ask_grouping_silent|]. rewrite do_spec_noise. apply Hgo; [by right|].
    unfold quoted. rewrite (bool_decide_true (FQuote ∈ FQuote :: fl)) by left. by destruct (bool_decide _).
  - assert (quoted fl r = quoted (g :: fl) r) as E.
    { unfold quoted. f_equal. by rewrite (bool_decide_ext (FQuote ∈ g :: fl) (FQuote ∈ fl)) by (rewrite elem_of_cons; naive_solver). }
    specialize (Hgo r Hr E). destruct g; try done.
    + change (do_spec se (flag_char FSpace :: rest) (flags_info fl0)) with (do_spec (F := F) se rest (set_spec 32 (set_space true (flags_info fl0)))).
      by rewrite do_spec_noise.
    + change (do_spec se (flag_char FPlus :: rest) (flags_info fl0)) with (do_spec (F := F) se rest (set_spec 43 (set_showsign true (flags_info fl0)))).
      by rewrite do_spec_noise.
    + change (do_spec se (flag_char FMinus :: rest) (flags_info fl0)) with (do_spec (F := F) se rest (set_spec 45 (set_pad 32 (set_left true (flags_info fl0))))).
      by rewrite do_spec_noise.
    + change (do_spec se (flag_char FHash :: rest) (flags_info fl0)) with (do_spec (F := F) se rest (set_spec 35 (set_alt true (flags_info fl0)))).
      by rewrite do_spec_noise.
    + change (do_spec se (flag_char FZero :: rest) (flags_info fl0)) with
        (do_spec (F := F) se rest (if negb (left (flags_info fl0)) then set_spec 48 (set_pad 48 (flags_info fl0)) else set_spec 48 (flags_info fl0))).
      cbv zeta in Hgo. destruct (negb (left (flags_info fl0))); by rewrite do_spec_noise.
Qed.

Lemma fetches_va se' i l arg t ap r : arg_text se' i l arg = Some t → r_ap r = option_list arg ++ ap →
  fetches (va_fetch (F := F)) arg r (with_ap ap r).
Proof.
  intros Ht E. destruct arg as [a|].
  - assert ((∃ z, a = VInt z) ∨ (∃ z, a = VLong z) ∨ ∃ p m, a = VPtr p m) as [(z & ->)|[(z & ->)|(p & m & ->)]].
    { destruct a; eauto; by destruct l. }
    all: intros d o; unfold va_fetch, fetch_int, fetch_long, fetch_ptr, va_arg, mbind, P_bind, pget; cbn [p_ap state]; by rewrite E.
  - cbn in *. rewrite <-E. by destruct r.
Qed.

(** One directive *)
Lemma emits_directive done r d tail t ap : directive_ok d → no_rule r → r_ap r = directive_args d ++ ap →
  directive_text (lc_strerror_r se) d = Some t →
  emits done r (do_spec se (directive_chars d tail) info0) (conv_char (d_conv d) :: tail) t
    (stored done (info_of d) (conv_label (d_conv d)) (d_arg d) (with_ap ap (quoted (d_flags d) r))).
Proof.
  intros Hd Hr Eap Ht. change info0 with (flags_info []). unfold directive_chars. apply emits_flags; [done|]. cbn [app].
  set (r0 := quoted (d_flags d) r). assert (r_ap r0 = r_ap r) as E0 by (unfold r0, quoted; by destruct (bool_decide _)).
  set (r1 := with_ap (option_list (d_arg d) ++ ap) r0).
  eapply emits_width with (r1 := r1); [done|done| |done|].
  { rewrite E0, Eap. unfold directive_args. by rewrite <-!app_assoc. }
  intros work Hwk. unfold do_form. eapply emits_bind_end; [|done].
  replace (with_ap ap r0) with (with_ap ap r1) by done.
  apply emits_process; try done; [by apply info_of_ok| |apply pl_strerror|by destruct Hd| |apply pl_fortify|].
  - intros Hgr. change (group _) with (group (info_of d)) in Hgr. rewrite info_of_group in Hgr. unfold r1, r0, quoted. by rewrite Hgr.
  - by eapply fetches_va.
  - intros _. unfold info_of. cbn [spec set_spec]. by destruct (d_conv d).
Qed.

Lemma find_spec_literal t f c : literal t → c = 37 ∨ c = 0 → find_spec (t ++ c :: f) = Ok (t, c :: f).
Proof.
  intros Ht Hc. induction Ht as [|x t (Hb & Hz & Hp) Ht IH]; cbn [app find_spec].
  - by destruct Hc as [-> | ->].
  - destruct (Z.eqb_spec x 37), (Z.eqb_spec x 0); try done. by rewrite IH.
Qed.

Lemma items_chars_head l : ∃ c f, items_chars l = c :: f ∧ (c = 37 ∨ c = 0) ∧ (c = 0 → l = []).
Proof. destruct l as [|[d t] l]; eexists _, _; split; try done; split; auto; done. Qed.

Lemma literal_bytes t : literal t → bytes_ok t.
Proof. intros Ht. eapply Forall_impl; [exact Ht|]. by intros x (? & _). Qed.
End Automaton.

(** The stores of ["%n"]: each gets the number of bytes before it. *)
Definition directive_store (done : Z) (d : directive) : list store := r_mem (stored done (info_of d) (conv_label (d_conv d)) (d_arg d) (mkR [] [] Unasked 0 0)).
Fixpoint items_stores (strerror : list Z) (done : Z) (l : list item) : list store :=
  match l with
  | [] => []
  | (d, t) :: l' =>
      directive_store done d ++
      items_stores strerror (done + Z.of_nat (length (default [] (directive_text strerror d) ++ t))) l'
  end.

Lemma stored_mem done d r : r_mem (stored done (info_of d) (conv_label (d_conv d)) (d_arg d) r) = r_mem r ++ directive_store done d.
Proof. unfold directive_store, stored. destruct (conv_label (d_conv d)), (d_arg d) as [[]|]; by rewrite ?app_nil_r. Qed.
Lemma stored_fields done i l arg r : r_ap (stored done i l arg r) = r_ap r ∧ r_grouping (stored done i l arg r) = r_grouping r.
Proof. unfold stored. by destruct l, arg as [[]|]. Qed.

Section Loop.
Context {F : Type} `{Sink F} `{Libc F} `{!SinkLaws F} `{!PlainLibc F}.
Variable se : Z.

(** The loop over the directives *)
Lemma emits_items l : ∀ fuel dn r t ap, l ≠ [] → (length l ≤ fuel)%nat → items_ok l → no_rule r →
  r_ap r = items_args l ++ ap → items_text (lc_strerror_r se) l = Some t →
  ∃ r', emits dn r (vf_loop (F := F) fuel se (items_chars l)) tt t r' ∧
    r_mem r' = r_mem r ++ items_stores (lc_strerror_r se) dn l.
Proof.
  induction l as [|[d lt] l IH]; intros fuel dn r t ap Hne Hfu Hok Hr Eap Ht; [done|].
  destruct fuel as [|fuel]; [cbn in Hfu; lia|]. apply Forall_cons in Hok as [[Hd Hlit] Hok]. cbn [fst snd] in *.
  cbn [items_text] in Ht. destruct (directive_text (lc_strerror_r se) d) as [u|] eqn:Eu; [|done]. cbn in Ht.
  destruct (items_text (lc_strerror_r se) l) as [v|] eqn:Ev; [|done]. cbn in Ht. injection Ht as <-.
  unfold items_args in Eap. cbn [fmap list_fmap mjoin list_join fst] in Eap. rewrite <-app_assoc in Eap.
  cbn [items_chars vf_loop next tl].
  set (r1 := stored dn (info_of d) (conv_label (d_conv d)) (d_arg d) (with_ap (items_args l ++ ap) (quoted (d_flags d) r))).
  pose proof (emits_directive se dn r d (lt ++ items_chars l) u (items_args l ++ ap) Hd Hr Eap Eu) as Hdir. fold r1 in Hdir.
  set (r2 := with_nspecs (S (r_nspecs r1)) r1).
  destruct (items_chars_head l) as (c & f & Ec & Hc & Hc0).
  assert (no_rule r2 ∧ r_ap r2 = items_args l ++ ap ∧ r_mem r2 = r_mem r ++ directive_store dn d) as (Hr2 & Eap2 & Em2).
  { unfold r2, r1, no_rule. cbn [with_nspecs r_grouping r_ap r_mem].
    destruct (stored_fields dn (info_of d) (conv_label (d_conv d)) (d_arg d) (with_ap (items_args l ++ ap) (quoted (d_flags d) r))) as [-> ->].
    rewrite stored_mem. split_and!; try done.
    - cbn. unfold quoted. destruct (bool_decide _); [by right|exact Hr].
    - cbn. unfold quoted. by destruct (bool_decide _). }
  assert (∀ r', emits (dn + Z.of_nat (length (u ++ lt))) r2 (if c =? 0 then mret tt else vf_loop (F := F) fuel se (c :: f)) tt v r' →
    emits dn r (vf_loop (F := F) (S fuel) se (37 :: directive_chars d (lt ++ items_chars l))) tt (u ++ lt ++ v) r') as Hstep.
  { intros r' Hrest. cbn [vf_loop next tl]. eapply emits_seq; [exact Hdir|]. cbv beta.
    eapply emits_bind_silent with (a := r_nspecs r1) (r1 := r1); [done|]. eapply emits_bind_silent with (a := tt) (r1 := r2); [done|]. cbn [next tl].
    rewrite Ec. rewrite find_spec_literal by done. eapply emits_bind_silent; [done|]. cbn [fst snd].
    eapply emits_seq; [by apply emits_outstring, literal_bytes|]. eapply emits_bind_silent; [done|].
    rewrite <-Z.add_assoc, <-Nat2Z.inj_add, <-length_app. exact Hrest. }
  cbn [items_stores]. rewrite Eu. change (default [] (Some u)) with u. destruct (Z.eqb_spec c 0) as [E0|E0].
  - specialize (Hc0 E0). subst l. cbn in Ev. injection Ev as <-. exists r2. split; [apply Hstep, emits_ret|].
    cbn [items_stores]. by rewrite app_nil_r.
  - destruct (IH fuel (dn + Z.of_nat (length (u ++ lt))) r2 v ap) as (r' & Hem & Em); try done; [by intros ->; cbn in Ec; congruence|cbn in Hfu; lia|].
    exists r'. split; [apply Hstep; by rewrite <-Ec|]. by rewrite Em, Em2, app_assoc.
Qed.
End Loop.

(** ** Theorems *)

Section Theorems.
Context {F : Type} `{Sink F} `{Libc F} `{!SinkLaws F} `{!PlainLibc F}.

(** The result of a call, for the theorems of this file and of the streams *)
Lemma vfprintf_text lead l extra errno s t :
  sink_ok s → literal lead → items_ok l → items_text (lc_strerror_r errno) l = Some t →
  Z.of_nat (length (lead ++ t)) ≤ INT_MAX → fits s (lead ++ t) →
  ∃ ok s', took s s' (lead ++ t) ok ∧
    returned (vfprintf (lead ++ items_chars l) (items_args l ++ extra) errno s) =
      Some (if ok : bool then Z.of_nat (length (lead ++ t)) else -1, s') ∧
    (ok = true → ∃ st, vfprintf (lead ++ items_chars l) (items_args l ++ extra) errno s = Go tt st ∧
      p_mem st = items_stores (lc_strerror_r errno) (Z.of_nat (length lead)) l).
Proof.
  intros Hs Hlead Hl Ht Hlen Hfits. destruct (items_chars_head l) as (c & f & Ec & Hc & Hc0).
  unfold vfprintf. rewrite Ec, find_spec_literal by done. rewrite <-Ec.
  set (r0 := mkR (items_args l ++ extra) [] Unasked errno 0).
  change (mkP 0 s _ [] Unasked errno 0) with (state 0 s r0).
  assert (∃ r', emits 0 r0 (outstring lead ;; vfprintf_body (F := F) errno (items_chars l)) tt (lead ++ t) r' ∧
    r_mem r' = items_stores (lc_strerror_r errno) (Z.of_nat (length lead)) l) as (r' & Hem & Em).
  { destruct l as [|it l]; [injection Ht as <-; exists r0; split; [|done]|].
    - eapply emits_seq; [by apply emits_outstring, literal_bytes|]. apply emits_ret.
    - destruct (emits_items errno (it :: l) (length (items_chars (it :: l))) (Z.of_nat (length lead)) r0 t extra) as (r' & Hr' & Em); try done.
      + clear. induction (it :: l) as [|[d u] l' IH]; [cbn; lia|]. cbn [items_chars length]. unfold directive_chars, end_chars.
        rewrite !length_app. cbn [length]. rewrite length_app. lia.
      + by left.
      + exists r'. split; [|done]. eapply emits_seq; [by apply emits_outstring, literal_bytes|].
        unfold vfprintf_body. rewrite Ec in *. eapply emits_bind_silent; [done|].
        destruct (Z.eqb_spec c 0) as [E0|]; [by specialize (Hc0 E0)|]. exact Hr'. }
  destruct (Hem s Hs Hfits ltac:(lia) ltac:(lia)) as (ok & s' & Htk & E). exists ok, s'. split; [done|]. destruct ok.
  - rewrite E. split; [done|]. intros _. by eexists.
  - destruct E as (st & -> & Ed & <-). split; [cbn; by rewrite Ed|done].
Qed.

(** C9: [vfprintf] writes what the format stands for.  For every stream that keeps
    its contract, every format of literal text and directives with any flags,
    width, precision, modifier and conversion, and arguments of the types the directives ask for: the
    result is the length of the text that ISO C prescribes, all of which the stream
    took, or -1 when the stream failed in the text; each ["%n"] stores the number of
    bytes before it; no argument is read twice or out of turn, and nothing faults. *)
Theorem vfprintf_renders lead l extra errno s t :
  sink_ok s → literal lead → items_ok l → items_text (lc_strerror_r errno) l = Some t →
  Z.of_nat (length (lead ++ t)) ≤ INT_MAX → fits s (lead ++ t) →
  ∃ ok s', took s s' (lead ++ t) ok ∧
    returned (vfprintf (lead ++ items_chars l) (items_args l ++ extra) errno s) =
      Some (if ok : bool then Z.of_nat (length (lead ++ t)) else -1, s') ∧
    (ok = true → ∃ st, vfprintf (lead ++ items_chars l) (items_args l ++ extra) errno s = Go tt st ∧
      p_mem st = items_stores (lc_strerror_r errno) (Z.of_nat (length lead)) l).
Proof. apply vfprintf_text. Qed.
End Theorems.

(** ** A stream and a locale to run it *)

(** A stream that takes everything *)
#[global] Instance text_sink : Sink (list Z) :=
  {| sputn d s := Ok (Z.of_nat (length d), s ++ d); sputc c s := Ok (true, s ++ [uint8 c]) |}.
#[global] Program Instance text_laws : SinkLaws (list Z) := {|
  sink_ok _ := True;
  fits _ _ := True;
  took s s' d ok := ok = true ∧ s' = s ++ d;
|}.
Next Obligation. done. Qed.
Next Obligation. cbn. intros s _. by rewrite app_nil_r. Qed.
Next Obligation. cbn. intros s s1 s2 d1 d2 ok (_ & ->) (-> & ->). by rewrite app_assoc. Qed.
Next Obligation. by intros s s' d e (? & _). Qed.
Next Obligation. done. Qed.
Next Obligation. done. Qed.
Next Obligation. cbn. intros d s _ _ _ _. exists (Z.of_nat (length d)), (s ++ d). rewrite Z.eqb_refl. split_and!; try done. lia. Qed.
Next Obligation. cbn. intros c s _ _ Hc. exists true, (s ++ [c]). by rewrite (uint8_small c) by exact Hc. Qed.

(** The C locale; floating point is not asked for. *)
Definition c_libc (F : Type) : Libc F := {|
  lc_alloc _ := true; lc_strerror_r _ := lit "Success"; lc_wcrtomb c := if c <? 128 then Some [c] else None; lc_wcsrtombs _ _ := Ok None;
  lc_i18n_number_rewrite l := l; lc_thousands_sep := [0]; lc_grouping := [127; 0];
  lc_printf_fp _ _ s := Ok (-1, s); lc_printf_fphex _ _ s := Ok (-1, s); lc_fortify := false; lc_readonly_area := true;
|}.
Lemma c_libc_plain F : PlainLibc F (H := c_libc F).
Proof. constructor; [by exists 127, [0]; auto|done..|intros e; apply (lit_bytes "Success")]. Qed.

(** Literal text is recognised by computation. *)
Definition literalb (t : list Z) : bool := forallb (λ c, (0 <? c) && (c <? 256) && negb (c =? 37)) t.
Lemma literalb_ok t : literalb t = true → literal t.
Proof.
  intros Hall. apply Forall_forall. intros c Hc. apply list_elem_of_In in Hc.
  pose proof (proj1 (List.forallb_forall _ _) Hall c Hc) as Ht. cbv beta in Ht. apply andb_true_iff in Ht as [Ht H3]. apply andb_true_iff in Ht as [H1%Z.ltb_lt H2%Z.ltb_lt].
  unfold is_byte. destruct (Z.eqb_spec c 37); [done|]. lia.
Qed.

(** The format ["%+05d|%-4x|%.2s%n"] *)
Definition sample_items : list item :=
  [(mkD [FPlus; FZero] (ConstWidth 5) NoPrec NoMod Conv_d (Some (VInt 42)), lit "|");
   (mkD [FMinus] (ConstWidth 4) NoPrec NoMod Conv_x (Some (VInt 255)), lit "|");
   (mkD [] NoWidth (ConstPrec 2) NoMod Conv_s (Some (VPtr 4096 (lit "abc" ++ [0]))), []);
   (mkD [] NoWidth NoPrec NoMod Conv_n (Some (VPtr 8192 [])), [])].
Lemma sample_ok : items_ok sample_items.
Proof.
  repeat (apply Forall_cons_2; [split; [|by apply literalb_ok]|]); [..|apply Forall_nil_2]; constructor; cbn; unfold INT_MAX, EXTSIZ; try done; try lia.
  - change (bytes_ok (lit "abc" ++ [0])). apply Forall_app. split; [apply lit_bytes|by repeat constructor].
  - constructor.
Qed.

Lemma vfprintf_renders_witness :
  returned (vfprintf (F := list Z) (H0 := c_libc _) (lit "id " ++ items_chars sample_items) (items_args sample_items ++ [VInt 7]) 0 []) =
  Some (16, lit "id +0042|ff  |ab").
Proof.
  destruct (vfprintf_renders (F := list Z) (H0 := c_libc _) (PlainLibc0 := c_libc_plain _) (lit "id ") sample_items [VInt 7] 0 [] (lit "+0042|ff  |ab"))
    as (ok & s' & (-> & ->) & E & _).
  - exact I.
  - by apply literalb_ok.
  - exact sample_ok.
  - by vm_compute.
  - by vm_compute.
  - exact I.
  - exact E.
Defined.
