(* ===== verification/PrintfStreams.v ===== *)
(** * glibc: formatted output to files and to memory

    The streams behind [fprintf], [sprintf] and [snprintf]: the buffered file of
    [StdioWrite], the array of [_IO_vsprintf] (libio/iovsprintf.c over
    libio/strops.c), the bounded array of [_IO_vsnprintf]
    (libio/vsnprintf.c).  They are instances of the interface that [vfprintf] is
    verified against. *)

From S2P Require Import Prelude CString Machine StdioWrite Itoa Printf PrintfFast PrintfText PrintfFormat.

(** ** Files *)

Section Files.
Context `{Writes}.

(** [_IO_putc_unlocked (_ch, _fp)] *)
Definition putc_unlocked (c : Z) (s : ostream) : res (bool * ostream) :=
  if decide (o_end s ≤ length (o_area s))%nat then overflow (Some (uint8 c)) s
  else Ok (true, put_area (o_area s ++ [uint8 c]) (o_end s) s).

#[global] Instance file_sink : Sink ostream := {| sputn := file_xsputn; sputc := putc_unlocked |}.

Context `{!WriteLaws}.

Lemma putc_sent c s : out_ok s → o_readonly s = false → is_byte c → ∃ ok s', putc_unlocked c s = Ok (ok, s') ∧ sent s s' [c] ok.
Proof.
  intros Hs Hr Hc. unfold putc_unlocked. assert (uint8 c = c) as -> by (apply uint8_small; exact Hc).
  destruct (decide _) as [Hfull|Hroom].
  - destruct (overflow_char c s Hs Hr Hc) as (ok & s' & n & E & _ & Hsent). by exists ok, s'.
  - eexists true, _. split; [done|]. pose proof Hs as Hs'. unfold out_ok in Hs'. destruct (o_buf s) as [n|] eqn:Hb.
    + destruct Hs' as (Hn & Ha & Hp & He). apply (fill_sent s [c] n); [done|done|]. rewrite He in Hroom.
      cbn [length]. destruct (_ || _); lia.
    + destruct Hs' as (Ha & He & _). rewrite Ha, He in Hroom. cbn in Hroom. lia.
Qed.

#[global] Program Instance file_laws : SinkLaws ostream := {|
  sink_ok s := out_ok s ∧ o_readonly s = false;
  fits _ _ := True;
  took s s' d ok := o_readonly s = false ∧ sent s s' d ok;
|}.
Next Obligation. intros s s' d ok [Hr Hs]. split; [apply Hs|]. by rewrite (se_readonly _ _ _ _ Hs). Qed.
Next Obligation. intros s [Hs Hr]. split; [done|by apply sent_nil]. Qed.
Next Obligation. intros s s1 s2 d1 d2 ok [Hr H1] [_ H2]. split; [done|by eapply sent_trans]. Qed.
Next Obligation. intros s s' d e [Hr Hs]. split; [done|by apply sent_more]. Qed.
Next Obligation. done. Qed.
Next Obligation. done. Qed.
Next Obligation.
  intros d s [Hs Hr] _ Hd Hl. destruct (file_xsputn_spec d s Hs Hr Hd ltac:(lia)) as (w & s' & E & Hsent & Hw).
  exists w, s'. split; [done|]. split; [split; [done|]|].
  - replace (w =? Z.of_nat (length d)) with (bool_decide (w = Z.of_nat (length d))); [done|].
    destruct (Z.eqb_spec w (Z.of_nat (length d))); [by rewrite bool_decide_true|by rewrite bool_decide_false].
  - destruct Hw as [[-> _]|?]; [by right|by left].
Qed.
Next Obligation. intros c s [Hs Hr] _ Hc. destruct (putc_sent c s Hs Hr Hc) as (ok & s' & E & Hsent). by exists ok, s'. Qed.
End Files.

(** ** Arrays *)

(** The stream of [_IO_vsprintf]: the array and where [_IO_write_ptr] is in it.
    [_IO_write_end] is the end of the address space, so [_IO_default_xsputn] copies everything
    at once and nothing overflows but the array. *)
Record strfile := mkStr { sf_mem : list Z; sf_ptr : nat }.

Definition str_xsputn (d : list Z) (s : strfile) : res (Z * strfile) :=
  match d with
  | [] => Ok (0, s)
  | _ => m ← blit (sf_mem s) (sf_ptr s) d; Ok (Z.of_nat (length d), mkStr m (sf_ptr s + length d))
  end.
Definition str_putc (c : Z) (s : strfile) : res (bool * strfile) :=
  m ← blit (sf_mem s) (sf_ptr s) [uint8 c]; Ok (true, mkStr m (sf_ptr s + 1)).

#[global] Instance str_sink : Sink strfile := {| sputn := str_xsputn; sputc := str_putc |}.

(** The array after [d] has been written *)
Definition str_after (s : strfile) (d : list Z) : strfile :=
  mkStr (take (sf_ptr s) (sf_mem s) ++ d ++ drop (sf_ptr s + length d) (sf_mem s)) (sf_ptr s + length d).

Lemma str_after_app s d e : (sf_ptr s + length (d ++ e) ≤ length (sf_mem s))%nat →
  str_after (str_after s d) e = str_after s (d ++ e).
Proof.
  intros Hl. rewrite length_app in Hl. unfold str_after. cbn [sf_ptr sf_mem]. rewrite length_app, Nat.add_assoc. f_equal.
  rewrite !(app_assoc (take (sf_ptr s) (sf_mem s)) d).
  assert (length (take (sf_ptr s) (sf_mem s) ++ d) = sf_ptr s + length d)%nat as Hlen by (rewrite length_app, length_take; lia).
  rewrite take_app_length' by done. rewrite drop_app_ge by lia. rewrite Hlen, drop_drop, <-!app_assoc.
  do 3 f_equal. f_equal. lia.
Qed.

Lemma str_after_length s d : (sf_ptr s + length d ≤ length (sf_mem s))%nat → length (sf_mem (str_after s d)) = length (sf_mem s).
Proof. intros Hl. cbn. rewrite !length_app, length_take, length_drop. lia. Qed.

Lemma str_xsputn_ok d s : (sf_ptr s + length d ≤ length (sf_mem s))%nat → str_xsputn d s = Ok (Z.of_nat (length d), str_after s d).
Proof.
  intros Hl. unfold str_xsputn, str_after. destruct d as [|c d].
  - rewrite Nat.add_0_r. cbn [app length]. rewrite take_drop. by destruct s.
  - by rewrite blit_ok.
Qed.

#[global] Program Instance str_laws : SinkLaws strfile := {|
  sink_ok s := (sf_ptr s ≤ length (sf_mem s))%nat;
  fits s d := (sf_ptr s + length d ≤ length (sf_mem s))%nat;
  took s s' d ok := (sf_ptr s + length d ≤ length (sf_mem s))%nat ∧ ok = true ∧ s' = str_after s d;
|}.
Next Obligation. cbn beta. intros s s' d ok (Hl & -> & ->). rewrite str_after_length by done. cbn. lia. Qed.
Next Obligation.
  cbn. intros s Hs. split_and!; [lia|done|]. unfold str_after. rewrite Nat.add_0_r. cbn [app length]. rewrite take_drop. by destruct s.
Qed.
Next Obligation.
  cbn beta. intros s s1 s2 d1 d2 ok (Hl1 & _ & ->) (Hl2 & -> & ->). rewrite str_after_length in Hl2 by done. cbn [str_after sf_ptr] in Hl2.
  assert (sf_ptr s + length (d1 ++ d2) ≤ length (sf_mem s))%nat as Hl by (rewrite length_app; lia).
  split_and!; [done|done|by apply str_after_app].
Qed.
Next Obligation. by intros s s' d e (_ & ? & _). Qed.
Next Obligation. cbn. intros s d e. rewrite length_app. lia. Qed.
Next Obligation. cbn beta. intros s s' d e Hf (Hl & _ & ->). rewrite str_after_length by done. rewrite length_app in Hf. cbn. lia. Qed.
Next Obligation.
  cbn beta. intros d s Hs Hf Hd Hl. exists (Z.of_nat (length d)), (str_after s d). rewrite Z.eqb_refl. split_and!; [by apply str_xsputn_ok|done..|lia].
Qed.
Next Obligation.
  cbn beta. intros c s Hs Hf Hc. exists true, (str_after s [c]). split_and!; try done. cbn [sputc str_sink]. unfold str_putc.
  rewrite (uint8_small c) by exact Hc. by rewrite blit_ok.
Qed.

(** The result of a [vfprintf]: nothing when it aborts *)
Definition finished {F A} (r : pres F A) : res (option (Z * F)) :=
  match r with
  | Go _ st | AllDone st => Ok (Some (p_done st, p_out st))
  | Fault f => Bad f
  | Positional _ | Aborted => Ok None
  end.

(** [int __IO_vsprintf (char *string, const char *format, _IO_va_list args)]: the
    result and the array *)
Definition vsprintf `{Libc strfile} (string format : list Z) (ap : list varg) (errno : Z) : res (option (Z * list Z)) :=
  r ← finished (vfprintf format ap errno (mkStr string 0));
  match r with
  | None => Ok None
  | Some (ret, s) => r ← str_putc 0 s; Ok (Some (ret, sf_mem r.2))
  end.

(** ** Bounded arrays *)

(** The stream of [_IO_vsnprintf]: the array of the caller, where
    [_IO_write_ptr] is in it, [_IO_write_end - _IO_write_ptr], and whether [overflow_buf]
    is in use, whose bytes nobody reads. *)
Record strnfile := mkStrn { sn_mem : list Z; sn_ptr : nat; sn_room : nat; sn_over : bool }.

(** [static int _IO_strn_overflow (_IO_FILE *fp, int c)] *)
Definition strn_overflow (s : strnfile) : res strnfile :=
  if sn_over s then Ok (mkStrn (sn_mem s) (sn_ptr s) 0 true)
  else m ← blit (sn_mem s) (sn_ptr s) [0]; Ok (mkStrn m (sn_ptr s) 0 true).

(** [count] bytes into the array or the overflow buffer *)
Definition strn_copy (d : list Z) (s : strnfile) : res strnfile :=
  if sn_over s then Ok (mkStrn (sn_mem s) (sn_ptr s) (sn_room s - length d) true)
  else m ← blit (sn_mem s) (sn_ptr s) d; Ok (mkStrn m (sn_ptr s + length d) (sn_room s - length d) false).

(** [_IO_default_xsputn] on it *)
Fixpoint strn_loop (fuel : nat) (d : list Z) (s : strnfile) : res strnfile :=
  match fuel with
  | O => Bad Unspecified
  | S fuel' =>
      let count := Nat.min (sn_room s) (length d) in
      s ← (if decide (0 < sn_room s)%nat then strn_copy (take count d) s else Ok s);
      match drop count d with
      | [] => Ok s
      | _ :: d' => s ← strn_overflow s; strn_loop fuel' d' s
      end
  end.
Definition strn_xsputn (d : list Z) (s : strnfile) : res (Z * strnfile) :=
  match d with
  | [] => Ok (0, s)
  | _ => s ← strn_loop (S (length d)) d s; Ok (Z.of_nat (length d), s)
  end.
Definition strn_putc (c : Z) (s : strnfile) : res (bool * strnfile) :=
  s ← (if decide (sn_room s = 0)%nat then strn_overflow s else strn_copy [uint8 c] s); Ok (true, s).

#[global] Instance strn_sink : Sink strnfile := {| sputn := strn_xsputn; sputc := strn_putc |}.

(** [int _IO_vsnprintf (char *string, _IO_size_t maxlen, const char *format, _IO_va_list args)] *)
Definition vsnprintf `{Libc strnfile} (string : list Z) (maxlen : nat) (format : list Z) (ap : list varg) (errno : Z) :
    res (option (Z * list Z)) :=
  s ← (match maxlen with
       | O => Ok (mkStrn string 0 63 true)
       | S room => m ← blit string 0 [0]; Ok (mkStrn m 0 room false)
       end);
  r ← finished (vfprintf format ap errno s);
  match r with
  | None => Ok None
  | Some (ret, s) =>
      m ← (if sn_over s then Ok (sn_mem s) else blit (sn_mem s) (sn_ptr s) [0]);
      Ok (Some (ret, m))
  end.

(** The stream after [d]: what does not fit is dropped behind a NUL. *)
Definition strn_after (s : strnfile) (d : list Z) : strnfile :=
  if sn_over s then mkStrn (sn_mem s) (sn_ptr s) (sn_room s - length d) true
  else if decide (length d ≤ sn_room s)%nat then
    mkStrn (sf_mem (str_after (mkStr (sn_mem s) (sn_ptr s)) d)) (sn_ptr s + length d) (sn_room s - length d) false
  else
    mkStrn (sf_mem (str_after (mkStr (sn_mem s) (sn_ptr s)) (take (sn_room s) d ++ [0]))) (sn_ptr s + sn_room s) 0 true.
Definition strn_ok (s : strnfile) : Prop := sn_over s = true ∨ (sn_ptr s + sn_room s < length (sn_mem s))%nat.

Lemma strn_after_ok s d : strn_ok s → strn_ok (strn_after s d).
Proof.
  intros Hs. unfold strn_after. destruct (sn_over s) eqn:Ho; [by left|]. destruct Hs as [Hs|Hs]; [congruence|].
  destruct (decide _); [right|by left]. cbn [sn_ptr sn_room sn_mem]. rewrite str_after_length by (cbn; lia). cbn. lia.
Qed.

Lemma strn_after_app s d e : strn_ok s → strn_after (strn_after s d) e = strn_after s (d ++ e).
Proof.
  intros Hs. unfold strn_after. rewrite length_app. destruct (sn_over s) eqn:Ho; cbn [sn_over sn_mem sn_ptr sn_room].
  { f_equal. lia. }
  destruct Hs as [Hs|Hs]; [congruence|]. destruct (decide (length d ≤ sn_room s)%nat) as [Hd|Hd]; cbn [sn_over sn_mem sn_ptr sn_room].
  - assert (∀ x, (length x ≤ sn_room s - length d + 1)%nat →
      sf_mem (str_after (mkStr (sf_mem (str_after (mkStr (sn_mem s) (sn_ptr s)) d)) (sn_ptr s + length d)) x) =
      sf_mem (str_after (mkStr (sn_mem s) (sn_ptr s)) (d ++ x))) as Hc.
    { intros x Hx. rewrite <-str_after_app by (cbn; rewrite length_app; lia). done. }
    destruct (decide (length e ≤ sn_room s - length d)%nat).
    + rewrite decide_True by lia. rewrite Hc by lia. f_equal; lia.
    + rewrite decide_False by lia. rewrite Hc by (rewrite length_app, length_take; cbn; lia).
      rewrite take_app_ge by lia. rewrite <-app_assoc. f_equal. lia.
  - rewrite decide_False by lia. rewrite take_app_le by lia. f_equal. 
Qed.

Lemma strn_after_nil s : strn_ok s → strn_after s [] = s.
Proof.
  intros Hs. unfold strn_after. cbn [length]. destruct s as [m p r o]. cbn in *. rewrite Nat.sub_0_r. destruct o; [done|].
  rewrite decide_True by lia. rewrite Nat.add_0_r. f_equal. apply take_drop.
Qed.

Lemma strn_overflow_spec c s : strn_ok s → sn_room s = 0%nat → strn_overflow s = Ok (strn_after s [c]).
Proof.
  intros Hs Hr. unfold strn_overflow, strn_after. rewrite Hr. destruct (sn_over s) eqn:Ho; [done|].
  destruct Hs as [Hs|Hs]; [congruence|]. rewrite decide_False by (cbn; lia). rewrite blit_ok by (cbn; lia).
  cbn [mbind res_bind take app]. f_equal. f_equal. lia.
Qed.

Lemma strn_copy_spec d s : strn_ok s → (length d ≤ sn_room s)%nat → strn_copy d s = Ok (strn_after s d).
Proof.
  intros Hs Hr. unfold strn_copy, strn_after. destruct (sn_over s) eqn:Ho; [done|].
  destruct Hs as [Hs|Hs]; [congruence|]. rewrite decide_True by lia. by rewrite blit_ok by lia.
Qed.

Lemma strn_loop_spec fuel : ∀ d s, strn_ok s → (length d < fuel)%nat → strn_loop fuel d s = Ok (strn_after s d).
Proof.
  induction fuel as [|fuel IH]; intros d s Hs Hf; [lia|]. cbn [strn_loop]. set (count := Nat.min (sn_room s) (length d)).
  assert ((if decide (0 < sn_room s)%nat then strn_copy (take count d) s else Ok s) = Ok (strn_after s (take count d))) as ->.
  { destruct (decide _); [apply strn_copy_spec; [done|rewrite length_take; lia]|].
    replace count with 0%nat by lia. by rewrite take_0, strn_after_nil. }
  cbn [mbind res_bind]. destruct (drop count d) as [|c d'] eqn:Ed.
  { assert (length (drop count d) = 0)%nat as Hl by (by rewrite Ed). rewrite length_drop in Hl. by rewrite take_ge by lia. }
  assert (length (drop count d) = S (length d')) as Hl by (by rewrite Ed). rewrite length_drop in Hl.
  pose proof (strn_after_ok s (take count d) Hs) as Hs1.
  assert (sn_room (strn_after s (take count d)) = 0%nat) as Hr0.
  { unfold strn_after. rewrite length_take. destruct (sn_over s); [cbn; lia|]. rewrite decide_True by lia. cbn. lia. }
  rewrite (strn_overflow_spec c) by done. cbn [mbind res_bind]. rewrite IH by (done || lia || by apply strn_after_ok).
  rewrite strn_after_app by done. rewrite strn_after_app by done. do 2 f_equal. cbn [app].
  by rewrite <-Ed, take_drop.
Qed.

#[global] Program Instance strn_laws : SinkLaws strnfile := {|
  sink_ok := strn_ok;
  fits _ _ := True;
  took s s' d ok := strn_ok s ∧ ok = true ∧ s' = strn_after s d;
|}.
Next Obligation. cbn beta. intros s s' d ok (Hs & -> & ->). by apply strn_after_ok. Qed.
Next Obligation. cbn beta. intros s Hs. by rewrite strn_after_nil. Qed.
Next Obligation. cbn beta. intros s s1 s2 d1 d2 ok (Hs & _ & ->) (_ & -> & ->). by rewrite strn_after_app. Qed.
Next Obligation. by intros s s' d e (_ & ? & _). Qed.
Next Obligation. done. Qed.
Next Obligation. done. Qed.
Next Obligation.
  cbn beta. intros d s Hs _ _ _. exists (Z.of_nat (length d)), (strn_after s d). rewrite Z.eqb_refl. split_and!; try done; [|lia].
  cbn [sputn strn_sink]. unfold strn_xsputn. destruct d as [|c d]; [by rewrite strn_after_nil|]. by rewrite strn_loop_spec by (done || lia).
Qed.
Next Obligation.
  cbn beta. intros c s Hs _ Hc. exists true, (strn_after s [c]). split_and!; try done. cbn [sputc strn_sink]. unfold strn_putc.
  rewrite (uint8_small c) by exact Hc. destruct (decide _) as [E|E]; [by rewrite (strn_overflow_spec c)|].
  by rewrite strn_copy_spec by (done || cbn; lia).
Qed.

(** ** Theorems *)

Lemma finished_returned {F A} (r : pres F A) x : returned r = Some x → finished r = Ok (Some x).
Proof. destruct r; cbn; congruence. Qed.

(** The array after a call *)
Lemma vsprintf_text `{Libc strfile} `{!PlainLibc strfile} string lead l errno t :
  literal lead → items_ok l → items_text (lc_strerror_r errno) l = Some t →
  (length (lead ++ t) < length string)%nat → Z.of_nat (length string) ≤ INT_MAX →
  vsprintf string (lead ++ items_chars l) (items_args l) errno =
  Ok (Some (Z.of_nat (length (lead ++ t)), (lead ++ t) ++ 0 :: drop (S (length (lead ++ t))) string)).
Proof.
  intros Hlead Hl Ht Hroom Hmax. unfold vsprintf.
  destruct (vfprintf_text lead l [] errno (mkStr string 0) t) as (ok & s' & (_ & -> & ->) & E & _); try done; [cbn; lia|lia|cbn; lia|].
  rewrite app_nil_r in E. rewrite (finished_returned _ _ E). cbn [mbind res_bind]. set (text := lead ++ t) in *. clearbody text.
  unfold str_putc, str_after. cbn [sf_mem sf_ptr take app]. change (uint8 0) with 0.
  rewrite take_0. cbn [app Nat.add]. rewrite blit_ok by (rewrite length_app, length_drop; cbn [length]; lia). cbn [mbind res_bind sf_mem snd length]. do 3 f_equal.
  rewrite take_app_length, drop_app_ge, drop_drop by lia.
  by replace (length text + (length text + 1 - length text))%nat with (S (length text)) by lia.
Qed.

(** [sprintf] leaves exactly the text and its NUL.  If the array is longer than
    the text, [vsprintf] returns the length of the text, the array starts
    with the text and a NUL, and its bytes behind the NUL are untouched. *)
Theorem sprintf_writes `{Libc strfile} `{!PlainLibc strfile} string lead l errno t :
  literal lead → items_ok l → items_text (lc_strerror_r errno) l = Some t →
  (length (lead ++ t) < length string)%nat → Z.of_nat (length string) ≤ INT_MAX →
  vsprintf string (lead ++ items_chars l) (items_args l) errno =
  Ok (Some (Z.of_nat (length (lead ++ t)), (lead ++ t) ++ 0 :: drop (S (length (lead ++ t))) string)).
Proof. apply vsprintf_text. Qed.

(** C31: [snprintf] truncates.  Whatever the text, [vsnprintf] returns its length; of
    an array with [maxlen] > 0 the first bytes are the text cut to [maxlen - 1]
    bytes and a NUL, the rest is untouched; with [maxlen] = 0 nothing is written. *)
Theorem snprintf_truncates `{Libc strnfile} `{!PlainLibc strnfile} string maxlen lead l errno t :
  literal lead → items_ok l → items_text (lc_strerror_r errno) l = Some t →
  Z.of_nat (length (lead ++ t)) ≤ INT_MAX → (maxlen ≤ length string)%nat →
  let k := Nat.min (length (lead ++ t)) (maxlen - 1) in
  vsnprintf string maxlen (lead ++ items_chars l) (items_args l) errno =
  Ok (Some (Z.of_nat (length (lead ++ t)), if maxlen then string else take k (lead ++ t) ++ 0 :: drop (S k) string)).
Proof.
  intros Hlead Hl Ht Hmax Hroom k. unfold vsnprintf.
  assert (∀ s, strn_ok s → finished (vfprintf (lead ++ items_chars l) (items_args l) errno s) =
    Ok (Some (Z.of_nat (length (lead ++ t)), strn_after s (lead ++ t)))) as Hv.
  { intros s Hs. destruct (vfprintf_text lead l [] errno s t) as (ok & s' & (_ & -> & ->) & E & _); try done.
    rewrite app_nil_r in E. by apply finished_returned. }
  set (text := lead ++ t) in *. clearbody text. destruct maxlen as [|room]; cbn [mbind res_bind].
  { rewrite Hv by (by left). done. }
  destruct string as [|x string]; [cbn in Hroom; lia|]. cbn [blit length]. rewrite blit_ok by (cbn; lia). cbn [mbind res_bind]. rewrite take_0.
  change ([] ++ [0] ++ drop (0 + length [0]) (x :: string)) with (0 :: string).
  rewrite Hv by (right; cbn [sn_ptr sn_room sn_mem length] in *; lia). cbn [mbind res_bind].
  assert (k = Nat.min (length text) room) as Ek by (unfold k; lia). unfold strn_after. cbn [sn_over sn_mem sn_ptr sn_room].
  destruct (decide (length text ≤ room)%nat) as [Hle|Hgt]; cbn [sn_over sn_mem sn_ptr sn_room].
  - replace k with (length text) by lia. rewrite take_ge by lia. cbn [str_after sf_mem sf_ptr]. rewrite take_0. cbn [app Nat.add].
    rewrite blit_ok by (rewrite length_app, length_drop; cbn in *; lia). cbn [mbind res_bind length]. do 3 f_equal.
    rewrite take_app_length, drop_app_ge, drop_drop by lia. replace (length text + (length text + 1 - length text))%nat with (S (length text)) by lia. done.
  - replace k with room by lia. cbn [str_after sf_mem sf_ptr]. rewrite take_0. cbn [app Nat.add]. do 3 f_equal.
    rewrite length_app, length_take, Nat.min_l by lia. cbn [length]. rewrite Nat.add_1_r. by rewrite <-app_assoc.
Qed.

Lemma sprintf_writes_witness :
  vsprintf (H := c_libc _) (replicate 20 7) (lit "id " ++ items_chars sample_items) (items_args sample_items) 0 =
  Ok (Some (16, lit "id +0042|ff  |ab" ++ [0; 7; 7; 7])).
Proof.
  apply (sprintf_writes (H := c_libc _) (PlainLibc0 := c_libc_plain _) (replicate 20 7) (lit "id ") sample_items 0 (lit "+0042|ff  |ab")).
  - by apply literalb_ok.
  - exact sample_ok.
  - by vm_compute.
  - cbn. lia.
  - by vm_compute.
Defined.

Lemma snprintf_truncates_witness :
  vsnprintf (H := c_libc _) (replicate 8 7) 6 (lit "id " ++ items_chars sample_items) (items_args sample_items) 0 =
  Ok (Some (16, lit "id +0" ++ [0; 7; 7])).
Proof.
  apply (snprintf_truncates (H := c_libc _) (PlainLibc0 := c_libc_plain _) (replicate 8 7) 6 (lit "id ") sample_items 0 (lit "+0042|ff  |ab")).
  - by apply literalb_ok.
  - exact sample_ok.
  - by vm_compute.
  - by vm_compute.
  - cbn. lia.
Defined.
