(* ===== verification/PrintfProgram.v ===== *)
(** * The formats of the program

    The components are verified with the texts that their [printf], [sprintf] and
    [fprintf] calls stand for ([show_int], [show_pad], [show_hex], ..).
    Here those texts are what glibc's [vfprintf] writes for the format strings
    in the source. *)

From S2P Require Import Prelude CString Machine ConfigFile Log DataHeader RecordData Inet StrToL Programs.
From S2P Require Import Itoa Printf PrintfFast PrintfText PrintfFormat PrintfStreams.

(** ** Texts of directives *)

Lemma numeral_decimal upper w : 0 ≤ w < 2 ^ 64 → numeral 10 upper w = show_nat w.
Proof.
  intros Hw. assert (∀ n : nat, 0 ≤ w < 10 ^ Z.of_nat (20 + n)) as Hp.
  { intros n. split; [lia|]. eapply Z.lt_le_trans; [apply Hw|]. etrans; [|apply (Z.pow_le_mono_r 10 20); lia]. by apply Z.leb_le. }
  unfold numeral. rewrite (remainders_fuel 10 20 44 w ltac:(lia) (Hp 0%nat) ltac:(lia) : remainders 64 10 w = _).
  pose proof (remainders_digits 20 w [] (Hp 0%nat) ltac:(lia)) as E. rewrite app_nil_r in E.
  change (dec_digits 20 w []) with (show_nat w) in E. rewrite <-E. apply list_fmap_ext. intros k d Hk.
  apply list_elem_of_lookup_2 in Hk. rewrite elem_of_reverse in Hk.
  destruct (remainders_value 20 10 ltac:(lia) w (Hp 0%nat) ltac:(lia)) as (_ & Hd & _).
  apply (proj1 (Forall_forall _ _) Hd) in Hk. destruct upper; [|done]. rewrite lower_digit by done.
  assert (Forall (λ m, nth (Z.to_nat m) _itoa_upper_digits 0 = 48 + m) (seqZ 0 10)) as HF by (vm_compute; repeat constructor).
  apply (proj1 (Forall_forall _ _) HF), elem_of_seqZ. lia.
Qed.

(** A number without flags, width and precision *)
Lemma number_text_plain i base neg w : width i = 0 → prec i = -1 → alt i = false → showsign i = false → space i = false → left i = false →
  2 ≤ base ≤ 36 → 0 ≤ w < 2 ^ 64 →
  number_text i base neg w = (if neg then [45] else []) ++ numeral base (spec i =? chr "X") w.
Proof.
  intros Ew Ep Ea Esg Esp El Hb Hw. unfold number_text, body_text, sign_text. rewrite Ew, Ep, Ea, Esg, Esp, El. cbn [Z.ltb Z.compare].
  destruct (numeral_props base (spec i =? chr "X") w Hb Hw) as (_ & Hl & _ & _).
  destruct (numeral base (spec i =? chr "X") w) as [|x ds] eqn:E; [cbn in Hl; lia|]. rewrite <-E in *.
  rewrite andb_false_r. cbn [andb negb]. change (1 =? 0) with false. cbn [andb].
  replace (Z.to_nat (1 - Z.of_nat (length (numeral base (spec i =? chr "X") w)))) with 0%nat by lia. cbn [replicate app].
  replace (Z.to_nat (0 - _)) with 0%nat by lia. cbn [replicate app]. rewrite app_nil_r. by destruct ((pad i =? 48) && true), neg.
Qed.

(** ["%d"], ["%x"], ["%c"], ["%s"] and ["%03d"] *)
Definition simple (c : conversion) (a : varg) : directive := mkD [] NoWidth NoPrec NoMod c (Some a).
Definition wide0 (n : Z) (a : varg) : directive := mkD [FZero] (ConstWidth n) NoPrec NoMod Conv_d (Some a).

Lemma text_d se z : directive_text se (simple Conv_d (VInt z)) = Some (show_int (int32 z)).
Proof.
  unfold directive_text. set (i := info_of _). change (signed_value i (VInt z) ≫= (λ v, Some (number_text i 10 (v <? 0) (Z.abs v))) = Some (show_int (int32 z))).
  change (signed_value i (VInt z)) with (Some (int32 z)). cbn [mbind option_bind].
  pose proof (int32_range z). rewrite number_text_plain by (done || lia). rewrite numeral_decimal by lia.
  unfold show_int. destruct (Z.ltb_spec (int32 z) 0); [by rewrite Z.abs_neq by lia|by rewrite Z.abs_eq by lia].
Qed.

Lemma text_03d se z : directive_text se (wide0 3 (VInt z)) = Some (show_pad 3 (int32 z)).
Proof.
  unfold directive_text. set (i := info_of _). change (signed_value i (VInt z) ≫= (λ v, Some (number_text i 10 (v <? 0) (Z.abs v))) = Some (show_pad 3 (int32 z))).
  change (signed_value i (VInt z)) with (Some (int32 z)). cbn [mbind option_bind]. pose proof (int32_range z).
  unfold number_text, body_text, sign_text. change (width i) with 3. change (prec i) with (-1). change (alt i) with false.
  change (showsign i) with false. change (space i) with false. change (left i) with false. change (pad i) with 48.
  change (spec i =? chr "X") with false. change (-1 <? 0) with true. cbv iota. change (1 =? 0) with false. change (48 =? 48) with true.
  rewrite andb_false_r. cbn [andb negb]. rewrite app_nil_r. rewrite numeral_decimal by lia.
  destruct (show_nat_spec (Z.abs (int32 z))) as (_ & Hne & _); [lia|].
  assert (1 ≤ length (show_nat (Z.abs (int32 z))))%nat by (destruct (show_nat _); [done|cbn; lia]).
  replace (Z.to_nat (1 - Z.of_nat (length (show_nat (Z.abs (int32 z)))))) with 0%nat by lia. cbn [replicate app]. unfold show_pad.
  destruct (Z.ltb_spec (int32 z) 0); cbn [length app]; do 2 f_equal.
  - change (chr "0") with 48. do 2 f_equal. lia.
  - change (chr "0") with 48. f_equal. lia.
Qed.

Lemma hex_digits_numeral fuel : ∀ n acc, 0 ≤ n < 16 ^ Z.of_nat fuel → (0 < fuel)%nat →
  ((λ d, nth (Z.to_nat d) _itoa_lower_digits 0) <$> reverse (remainders fuel 16 n)) ++ acc = Programs.hex_digits fuel n acc.
Proof.
  induction fuel as [|fuel IH]; intros n acc Hn Hf; [lia|]. cbn [remainders Programs.hex_digits].
  pose proof (Z.mod_pos_bound n 16 ltac:(lia)) as Hm. rewrite Nat2Z.inj_succ, Z.pow_succ_r in Hn by lia.
  assert (0 ≤ n / 16 < 16 ^ Z.of_nat fuel) as Hq by (split; [apply Z.div_pos; lia|apply Z.div_lt_upper_bound; lia]).
  assert (nth (Z.to_nat (n `mod` 16)) _itoa_lower_digits 0 = if n `mod` 16 <? 10 then 48 + n `mod` 16 else 87 + n `mod` 16) as Hd.
  { assert (Forall (λ m, nth (Z.to_nat m) _itoa_lower_digits 0 = if m <? 10 then 48 + m else 87 + m) (seqZ 0 16)) as HF
      by (vm_compute; repeat constructor). apply (proj1 (Forall_forall _ _) HF), elem_of_seqZ. lia. }
  destruct (Z.ltb_spec n 16) as [Hs|Hs].
  - rewrite (Z.div_small n 16) by lia. change (0 =? 0) with true. cbv iota. rewrite reverse_singleton. cbn [fmap list_fmap app]. by rewrite Hd.
  - assert (n / 16 ≠ 0) as Hne by (intros E; pose proof (Z.div_mod n 16 ltac:(lia)); lia).
    destruct (Z.eqb_spec (n / 16) 0); [done|]. destruct fuel as [|fuel]; [change (16 ^ Z.of_nat 0) with 1 in Hq; lia|].
    rewrite reverse_cons, fmap_app, <-app_assoc. cbn [fmap list_fmap app]. rewrite Hd. by apply IH; [|lia].
Qed.

Lemma text_x se z : directive_text se (simple Conv_x (VInt z)) = Some (Programs.show_hex (int32 z)).
Proof.
  unfold directive_text. set (i := info_of _).
  change (number_text (unsigned_info i) 16 false <$> unsigned_value i (VInt z) = Some (Programs.show_hex (int32 z))).
  change (unsigned_value i (VInt z)) with (Some (uint32 (int32 z))). cbn [fmap option_fmap option_map].
  pose proof (uint32_range (int32 z)) as Hr. rewrite number_text_plain by (done || lia). cbn [app]. f_equal.
  unfold numeral, Programs.show_hex. change (spec (unsigned_info i) =? chr "X") with false. cbv iota.
  rewrite (remainders_fuel 16 8 56 (uint32 (int32 z)) ltac:(lia) Hr ltac:(lia) : remainders 64 16 _ = _).
  rewrite <-hex_digits_numeral by (done || lia). by rewrite app_nil_r.
Qed.

Lemma text_c se z : directive_text se (simple Conv_c (VInt z)) = Some [uint8 (int32 z)].
Proof. reflexivity. Qed.

Lemma text_s se a s r : a ≠ 0 → nz s → directive_text se (simple Conv_s (VPtr a (s ++ 0 :: r))) = Some s.
Proof.
  intros Ha Hs. unfold directive_text. cbn [simple d_conv d_arg conv_label arg_text]. set (i := info_of _).
  change (is_long i || (spec i =? chr "S")) with false. cbv iota. destruct (Z.eqb_spec a 0); [done|].
  unfold string_text. change (prec i =? -1) with true. cbv iota. rewrite cstr_app_ne by done. unfold field_text.
  change (left i) with false. change (width i) with 0. cbv iota. by replace (Z.to_nat (0 - _)) with 0%nat by lia.
Qed.

(** ** Theorems *)

(** [fmt] with [args] prints [text] on every stream that keeps its contract. *)
Definition prints (fmt : list Z) (args : list varg) (text : list Z) : Prop :=
  ∀ (F : Type) `{Sink F} `{Libc F} `{!SinkLaws F} `{!PlainLibc F} (errno : Z) (s : F),
  sink_ok s → fits s text → Z.of_nat (length text) ≤ INT_MAX →
  ∃ ok s', took s s' text ok ∧
    returned (vfprintf (fmt ++ [0]) args errno s) = Some (if ok : bool then Z.of_nat (length text) else -1, s').

(** The directives of a format and their texts *)
Lemma prints_items fmt args text lead l t : fmt ++ [0] = lead ++ items_chars l → args = items_args l → literal lead → items_ok l →
  (∀ se, items_text se l = Some t) → text = lead ++ t → prints fmt args text.
Proof.
  intros Ef -> Hlead Hl Ht -> F ? ? ? ? errno s Hs Hf Hmax. rewrite Ef.
  destruct (vfprintf_text lead l [] errno s t) as (ok & s' & Htk & E & _); try done. rewrite app_nil_r in E. by exists ok, s'.
Qed.

Lemma items_text_cons se d lt l u v : directive_text se d = Some u → items_text se l = Some v →
  items_text se ((d, lt) :: l) = Some (u ++ lt ++ v).
Proof. intros Hu Hv. cbn [items_text]. rewrite Hu. cbn. by rewrite Hv. Qed.

Lemma simple_int c z : directive_ok (simple c (VInt z)).
Proof. by constructor. Qed.
Lemma wide0_int z : directive_ok (wide0 3 (VInt z)).
Proof. by constructor. Qed.

Lemma int32_int8 b : int32 (int8 b) = int8 b.
Proof. apply int32_small. unfold int8. pose proof (Z.mod_pos_bound (b + 2 ^ 7) (2 ^ 8)). lia. Qed.

(** A C string in memory, at an address *)
Definition cptr (a : Z) (s r : list Z) : varg := VPtr a (s ++ 0 :: r).
Lemma simple_cptr a s r : str_ok s → bytes_ok r → directive_ok (simple Conv_s (cptr a s r)).
Proof.
  intros Hs Hr. constructor; try done. apply Forall_app. split; [|constructor; [by split|done]].
  eapply Forall_impl; [exact Hs|]. intros c Hc. cbv beta in Hc. unfold is_byte. lia.
Qed.

(** The goals of [prints_items] for a given format *)
Ltac prove_items :=
  repeat first [apply Forall_nil_2 | apply Forall_cons_2; [split; [cbn [fst]|by apply literalb_ok]|]].
Ltac prove_text := intros se; repeat (apply items_text_cons; [eauto using text_d, text_03d, text_x, text_c, text_s, str_ok_nz|]); reflexivity.
Ltac prove_format lead l :=
  eapply (prints_items _ _ _ lead l);
  [reflexivity|reflexivity|by apply literalb_ok|prove_items; eauto using simple_int, wide0_int, simple_cptr|prove_text|cbn [app]; rewrite ?app_nil_r, <-?app_assoc].

(** C30: the texts the components are verified with are what [vfprintf] prints for the
    formats in the source: the name of a data file (recordData.c, line 57), the time of a log
    line (log.c, 97), the pieces of a log message and its head (log.c, 117 to 188), the numbers of
    a playback (playback.c, 124) and of a client (util.c, 360), an address in
    dotted notation (inet_ntoa), the bytes the client shows (client.c, 57) and the message of a
    failed configuration file (ConfigFile.c, 4). *)
Theorem program_texts :
  (∀ ts uuid, prints (lit "%d_%03d") [VInt ts; VInt uuid] (name_text ts uuid)) ∧
  (∀ t, - 2 ^ 31 ≤ tm_hour t + 8 < 2 ^ 31 → - 2 ^ 31 ≤ tm_min t < 2 ^ 31 → - 2 ^ 31 ≤ tm_sec t < 2 ^ 31 →
    prints (lit "%d:%d:%d") [VInt (tm_hour t + 8); VInt (tm_min t); VInt (tm_sec t)] (time_text t)) ∧
  (∀ z, prints (lit "%d") [VInt z] (show_int (int32 z))) ∧
  (∀ c, - 2 ^ 31 ≤ c < 2 ^ 31 → prints (lit "%c") [VInt c] [uint8 c]) ∧
  (∀ a s r, a ≠ 0 → str_ok s → bytes_ok r → prints (lit "%s") [cptr a s r] s) ∧
  (∀ a s r a' s' r', a ≠ 0 → str_ok s → bytes_ok r → a' ≠ 0 → str_ok s' → bytes_ok r' →
    prints (lit "[%s] [%s] ") [cptr a s r; cptr a' s' r'] (lit "[" ++ s ++ lit "] [" ++ s' ++ lit "] ")) ∧
  (∀ b, prints (lit "%x " ++ [10]) [VInt (int8 b)] (Programs.show_hex (int8 b) ++ lit " " ++ [10])) ∧
  (∀ b0 b1 b2 b3, addr_ok (b0, b1, b2, b3) →
    prints (lit "%d.%d.%d.%d") [VInt b0; VInt b1; VInt b2; VInt b3] (inet_ntoa (b0, b1, b2, b3))) ∧
  (∀ line a s r a' s' r', a ≠ 0 → str_ok s → bytes_ok r → a' ≠ 0 → str_ok s' → bytes_ok r' →
    prints (lit "%d, %s :%s" ++ [10]) [VInt line; cptr a s r; cptr a' s' r']
      (show_int (int32 line) ++ lit ", " ++ s ++ lit " :" ++ s' ++ [10])).
Proof.
  split_and!.
  - intros ts uuid. by prove_format (@nil Z) [(simple Conv_d (VInt ts), lit "_"); (wide0 3 (VInt uuid), [])].
  - intros t Hh Hm Hs. prove_format (@nil Z) [(simple Conv_d (VInt (tm_hour t + 8)), lit ":"); (simple Conv_d (VInt (tm_min t)), lit ":");
      (simple Conv_d (VInt (tm_sec t)), [])]. by rewrite !int32_small by done.
  - intros z. by prove_format (@nil Z) [(simple Conv_d (VInt z), @nil Z)].
  - intros c Hc. prove_format (@nil Z) [(simple Conv_c (VInt c), @nil Z)]. by rewrite int32_small.
  - intros a s r Ha Hs Hr. by prove_format (@nil Z) [(simple Conv_s (cptr a s r), @nil Z)].
  - intros a s r a' s' r' Ha Hs Hr Ha' Hs' Hr'.
    by prove_format (lit "[") [(simple Conv_s (cptr a s r), lit "] ["); (simple Conv_s (cptr a' s' r'), lit "] ")].
  - intros b. prove_format (@nil Z) [(simple Conv_x (VInt (int8 b)), lit " " ++ [10])]. by rewrite int32_int8.
  - intros b0 b1 b2 b3 (H0 & H1 & H2 & H3).
    prove_format (@nil Z) [(simple Conv_d (VInt b0), lit "."); (simple Conv_d (VInt b1), lit "."); (simple Conv_d (VInt b2), lit ".");
      (simple Conv_d (VInt b3), [])]. unfold is_byte in *. by rewrite !int32_small by lia.
  - intros line a s r a' s' r' Ha Hs Hr Ha' Hs' Hr'.
    by prove_format (@nil Z) [(simple Conv_d (VInt line), lit ", "); (simple Conv_s (cptr a s r), lit " :"); (simple Conv_s (cptr a' s' r'), [10])].
Qed.

Lemma program_texts_witness :
  ∃ s', returned (vfprintf (H0 := c_libc _) (lit "%d:%d:%d" ++ [0]) [VInt (0 + 8); VInt 5; VInt 9] 0 []) = Some (5, s') ∧ s' = lit "8:5:9".
Proof.
  destruct program_texts as (_ & Htime & _).
  destruct (Htime (mkTm 9 5 0 1 0 70) ltac:(cbn; lia) ltac:(cbn; lia) ltac:(cbn; lia) (list Z) _ (c_libc _) _ (c_libc_plain _) 0 [])
    as (ok & s' & (-> & ->) & E); [exact I|exact I|by vm_compute|].
  exists (lit "8:5:9"). by split.
Defined.

(** C33: a number printed with ["%d"] is read back.  For every [int] and every array of
    at least twelve bytes, [sprintf (a, "%d", z)] stays inside the array, and glibc's
    [atoi] of the array is [z]. *)
Theorem sprintf_atoi_roundtrip `{Libc strfile} `{!PlainLibc strfile} string z errno :
  - 2 ^ 31 ≤ z < 2 ^ 31 → (12 ≤ length string)%nat → Z.of_nat (length string) ≤ INT_MAX →
  ∃ n a, vsprintf string (lit "%d" ++ [0]) [VInt z] errno = Ok (Some (n, a)) ∧ length a = length string ∧ atoi_libc a = Ok z.
Proof.
  intros Hz Hlen Hmax. destruct (show_int_length z Hz) as [Hd _].
  assert (items_text (lc_strerror_r errno) [(simple Conv_d (VInt z), [])] = Some (show_int z)) as Ht.
  { rewrite (items_text_cons _ _ _ _ (show_int z) []); [by rewrite app_nil_r|by rewrite text_d, int32_small by done|done]. }
  pose proof (vsprintf_text string [] [(simple Conv_d (VInt z), [])] errno (show_int z)) as E.
  change ([] ++ items_chars [(simple Conv_d (VInt z), [])]) with (lit "%d" ++ [0]) in E. cbn [items_args directive_args app] in E.
  eexists _, _. split; [apply E|split].
  - constructor.
  - apply Forall_cons_2; [split; [apply simple_int|constructor]|constructor].
  - done.
  - cbn [app]. lia.
  - done.
  - cbn [app]. rewrite length_app. cbn [length]. rewrite length_drop. lia.
  - rewrite atoi_equiv. by apply atoi_show_int.
Qed.

Lemma sprintf_atoi_roundtrip_witness :
  ∃ n a, vsprintf (H := c_libc _) (replicate 12 7) (lit "%d" ++ [0]) [VInt (- 2 ^ 31)] 0 = Ok (Some (n, a)) ∧ length a = 12%nat ∧
    atoi_libc a = Ok (- 2 ^ 31).
Proof.
  apply (sprintf_atoi_roundtrip (H := c_libc _) (PlainLibc0 := c_libc_plain _) (replicate 12 7) (- 2 ^ 31) 0).
  - lia.
  - cbn. lia.
  - by vm_compute.
Defined.
