(* ===== verification/PrintfPositional.v ===== *)
(** * glibc: formatted output, the slow path

    [printf_positional] parses the whole format first, collects the types of all arguments,
    reads them in order and only then formats.  The theorem: on formats
    without explicit positions it writes the same text as the fast loop of [vfprintf], with
    one exception (the modifiers [L] and [q] before an integer). *)

From S2P Require Import Prelude CString Itoa Printf PrintfFast PrintfText PrintfFormat.

(** ** What the parser finds *)

Definition star_count (d : directive) : Z :=
  (match d_width d with ArgWidth _ => 1 | _ => 0 end) + (match d_prec d with ArgPrec _ => 1 | _ => 0 end).
Definition width_const (w : wspec) : Z := match w with ConstWidth n => n | _ => 0 end.
Definition prec_const (p : pspec) : Z := match p with NoPrec | ArgPrec _ => -1 | DotPrec => 0 | ConstPrec n => n end.
Definition parsed_info (d : directive) : printf_info :=
  set_spec (conv_char (d_conv d)) (mod_info (d_mod d) (set_prec (prec_const (d_prec d)) (set_width (width_const (d_width d)) (flags_info (d_flags d))))).
Definition data_count (d : directive) : nat := (spec_type (parsed_info d)).2.

(** The specification of [d] when [posn] arguments come before it, followed by the literal
    text [t] and the rest [f] of the format *)
Definition spec_of (d : directive) (posn : Z) (t f : list Z) : printf_spec :=
  mkSpec (parsed_info d) (t ++ f) f t
    (match d_prec d with ArgPrec _ => posn + (match d_width d with ArgWidth _ => 1 | _ => 0 end) | _ => -1 end)
    (match d_width d with ArgWidth _ => posn | _ => -1 end)
    (if Nat.eqb (data_count d) 0 then -1 else posn + star_count d)
    (spec_type (parsed_info d)).1 (data_count d).
Definition arg_count (d : directive) : Z := star_count d + Z.of_nat (data_count d).

(** The slow path reads [L] and [q] as if they said nothing of integers. *)
Definition slow_mod_ok (m : modifier) : bool := bool_decide (m ≠ Mod_L ∧ m ≠ Mod_q).

(** ** Parsing lemmas *)

(** The flags as the parser collects them *)
Definition raw_info (fl : list flag) : printf_info :=
  set_pad (if bool_decide (FZero ∈ fl) then 48 else 32) (flags_info fl).

Lemma raw_info_snoc fl f : raw_info (fl ++ [f]) =
  let i := raw_info fl in
  match f with
  | FSpace => set_space true i
  | FPlus => set_showsign true i
  | FMinus => set_left true i
  | FHash => set_alt true i
  | FZero => set_pad 48 i
  | FQuote => set_group true i
  end.
Proof.
  unfold raw_info. rewrite flags_info_snoc.
  assert (bool_decide (FZero ∈ fl ++ [f]) = bool_decide (FZero ∈ fl) || bool_decide (FZero = f)) as ->.
  { rewrite <-bool_decide_or. apply bool_decide_ext. rewrite elem_of_app, list_elem_of_singleton. done. }
  destruct f; cbn; rewrite ?orb_false_r, ?orb_true_r; try done. by destruct (negb _).
Qed.

Lemma raw_info_flags fl : (let i := raw_info fl in if left i then set_pad 32 i else i) = flags_info fl.
Proof. unfold raw_info, flags_info. cbn. destruct (bool_decide (FMinus ∈ fl)), (bool_decide (FZero ∈ fl)); reflexivity. Qed.

Definition not_flag (c : Z) : Prop := c ∉ [32; 43; 45; 35; 48; 39; 73].

Lemma parse_flags_spec fl c f : not_flag c → ∀ fl0,
  parse_flags ((flag_char <$> fl) ++ c :: f) (raw_info fl0) = Ok (raw_info (fl0 ++ fl), c :: f).
Proof.
  intros Hc. induction fl as [|g fl IH]; intros fl0.
  - cbn [fmap list_fmap app parse_flags]. rewrite app_nil_r. unfold not_flag in Hc.
    change (chr "+") with 43. change (chr "-") with 45. change (chr "#") with 35. change (chr "0") with 48. change (chr "I") with 73.
    repeat match goal with |- context [c =? ?n] => destruct (Z.eqb_spec c n) as [->|]; [exfalso; apply Hc; set_solver|] end. done.
  - replace (fl0 ++ g :: fl) with ((fl0 ++ [g]) ++ fl) by (by rewrite <-app_assoc). rewrite <-IH, raw_info_snoc. by destruct g.
Qed.

Lemma read_digits_stop f c tail : ISDIGIT c = false → ∀ acc, ∃ n x rest,
  read_digits acc (f ++ c :: tail) = Ok (n, x :: rest) ∧ x ∈ f ++ [c].
Proof.
  intros Hc. induction f as [|y f IH]; intros acc; cbn [app read_digits].
  - rewrite Hc. eexists _, _, _. split; [done|]. set_solver.
  - destruct (ISDIGIT y).
    + destruct (IH (if 0 <=? acc then if INT_MAX / 10 <? acc then -1 else let digit := y - 48 in
        if INT_MAX - digit <? acc * 10 then -1 else acc * 10 + digit else acc)) as (n & x & rest & E & Hx).
      exists n, x, rest. split; [exact E|]. set_solver.
    + eexists _, _, _. split; [done|]. set_solver.
Qed.

(** The characters before the end of a directive, none of which is a ['$'] *)
Definition front_chars (d : directive) : list Z := (flag_char <$> d_flags d) ++ width_chars (d_width d) ++ prec_chars (d_prec d).

Lemma show_nat_no_dollar n : 0 ≤ n < 10 ^ 20 → 36 ∉ show_nat n.
Proof. intros Hn Hin. destruct (show_nat_spec n Hn) as (Hd & _). apply (proj1 (Forall_forall _ _) Hd) in Hin. lia. Qed.

Lemma front_no_dollar d : directive_ok d → 36 ∉ front_chars d.
Proof.
  intros [Hw Hp _ _] Hin. unfold front_chars in Hin. rewrite !elem_of_app in Hin. destruct Hin as [Hin|[Hin|Hin]].
  - apply list_elem_of_fmap in Hin as (g & E & _). by destruct g.
  - destruct (d_width d) as [|n|z]; cbn in *; [set_solver| |set_solver].
    eapply show_nat_no_dollar; [|exact Hin]. unfold INT_MAX, EXTSIZ in *. lia.
  - destruct (d_prec d) as [| |n|z]; cbn in *; [set_solver|set_solver| |set_solver].
    apply elem_of_cons in Hin as [|Hin]; [done|]. eapply show_nat_no_dollar; [|exact Hin]. unfold INT_MAX, EXTSIZ in *. lia.
Qed.

Lemma parse_position_none d tail mr : directive_ok d →
  parse_position (directive_chars d tail) mr = Ok (-1, mr, directive_chars d tail).
Proof.
  intros Hd. pose proof (front_no_dollar d Hd) as Hnd.
  destruct (end_char d tail) as (c & f & Ee & Hcb & Hdig & _ & Hdol & _).
  assert (directive_chars d tail = front_chars d ++ c :: f) as -> by (unfold directive_chars, front_chars; by rewrite Ee, <-!app_assoc).
  unfold parse_position. destruct (front_chars d) as [|x xs] eqn:Ef; cbn [app deref mbind res_bind].
  - by rewrite Hdig.
  - destruct (ISDIGIT x) eqn:Ex; [|done]. unfold read_position. cbn [read_int].
    destruct (read_digits_stop xs c f Hdig (x - 48)) as (n & y & rest & -> & Hy). cbn [mbind res_bind snd fst deref].
    assert (y ≠ 36) as Hy36 by (intros ->; set_solver).
    destruct (Z.eqb_spec y (chr "$")); [done|]. by rewrite andb_false_r.
Qed.

Lemma parse_star_fresh c f posn nargs mr : ISDIGIT c = false →
  parse_star (c :: f) posn nargs mr = Ok (posn, posn + 1, nargs + 1, mr, c :: f).
Proof. intros Hc. unfold parse_star. cbn [deref mbind res_bind]. by rewrite Hc. Qed.

Lemma parse_width_const w c f posn nargs mr : (∀ z, w ≠ ArgWidth z) → width_ok w → is_byte c → ISDIGIT c = false → c ≠ 42 →
  parse_width (width_chars w ++ c :: f) posn nargs mr = Ok (-1, width_const w, posn, nargs, mr, c :: f).
Proof.
  intros Hna Hw Hcb Hdig Hstar. destruct w as [|n|z]; cbn [width_chars width_const width_ok app] in *; unfold parse_width.
  - cbn [deref mbind res_bind]. destruct (Z.eqb_spec c (chr "*")); [done|]. by rewrite Hdig.
  - destruct (show_nat_head n) as (x & ds & Es & Hx); [unfold INT_MAX, EXTSIZ in *; lia|].
    rewrite Es. cbn [app deref mbind res_bind]. destruct (Z.eqb_spec x (chr "*")) as [E|]; [change (chr "*") with 42 in E; lia|].
    rewrite ISDIGIT_spec, bool_decide_true by (unfold is_byte; lia).
    change (x :: ds ++ c :: f) with ((x :: ds) ++ c :: f). rewrite <-Es.
    rewrite read_int_show by (done || unfold INT_MAX, EXTSIZ in *; lia). cbn [mbind res_bind fst snd].
    by destruct (Z.eqb_spec n (-1)); [lia|].
  - by destruct (Hna z).
Qed.

Lemma parse_width_spec d tail posn nargs mr : directive_ok d →
  let stars := match d_width d with ArgWidth _ => 1 | _ => 0 end in
  parse_width (width_chars (d_width d) ++ prec_chars (d_prec d) ++ end_chars d tail) posn nargs mr =
  Ok (match d_width d with ArgWidth _ => posn | _ => -1 end, width_const (d_width d), posn + stars, nargs + stars, mr,
      prec_chars (d_prec d) ++ end_chars d tail).
Proof.
  intros [Hw _ _ _]. destruct (after_width_char d tail) as (c & f & Ec & Hcb & Hdig & _).
  assert (c ≠ 42) as Hstar.
  { destruct (end_char d tail) as (c' & f' & Ee & _ & _ & Hs & _). destruct (d_prec d); cbn in Ec; rewrite ?Ee in Ec; congruence. }
  rewrite Ec. destruct (d_width d) as [|n|z]; cbv zeta iota; [by rewrite parse_width_const, !Z.add_0_r..|].
  cbn [width_chars app]. unfold parse_width. cbn [deref mbind res_bind]. change (42 =? chr "*") with true. cbv iota. cbn [next tl].
  by rewrite parse_star_fresh.
Qed.

Lemma parse_prec_spec d tail posn nargs mr : directive_ok d →
  let stars := match d_prec d with ArgPrec _ => 1 | _ => 0 end in
  parse_prec (prec_chars (d_prec d) ++ end_chars d tail) posn nargs mr =
  Ok (match d_prec d with ArgPrec _ => posn | _ => -1 end, prec_const (d_prec d), posn + stars, nargs + stars, mr, end_chars d tail).
Proof.
  intros [_ Hp _ _]. destruct (end_char d tail) as (c & f & Ee & Hcb & Hdig & Hs & _ & Hdot). rewrite Ee.
  destruct (d_prec d) as [| |n|z]; cbn [prec_chars prec_const prec_ok app] in *; unfold parse_prec.
  - cbn [deref mbind res_bind]. destruct (Z.eqb_spec c (chr ".")); [done|]. by rewrite !Z.add_0_r.
  - cbn [deref mbind res_bind next tl]. change (46 =? chr ".") with true. cbv iota. destruct (Z.eqb_spec c (chr "*")); [done|].
    rewrite Hdig. by rewrite !Z.add_0_r.
  - cbn [deref mbind res_bind next tl]. change (46 =? chr ".") with true. cbv iota.
    destruct (show_nat_spec n) as (Hd & Hne & _); [unfold INT_MAX, EXTSIZ in *; lia|].
    pose proof (read_int_show n c f ltac:(unfold INT_MAX, EXTSIZ in *; lia) Hcb Hdig) as Hri.
    destruct (show_nat n) as [|x ds]; [done|]. apply Forall_cons in Hd as [Hx _]. cbn [app deref mbind res_bind] in *.
    destruct (Z.eqb_spec x (chr "*")) as [E|]; [change (chr "*") with 42 in E; lia|].
    rewrite ISDIGIT_spec, bool_decide_true by (unfold is_byte; lia). rewrite Hri. cbn [mbind res_bind fst snd]. by rewrite !Z.add_0_r.
  - cbn [deref mbind res_bind next tl]. change (46 =? chr ".") with true. cbv iota. change (42 =? chr "*") with true. cbv iota.
    by rewrite parse_star_fresh.
Qed.

Lemma parse_modifier_spec d tail i : no_mods i → slow_mod_ok (d_mod d) = true → mod_ok (d_mod d) (d_conv d) = true →
  parse_modifier (end_chars d tail) i = Ok (mod_info (d_mod d) i, conv_char (d_conv d) :: tail).
Proof.
  unfold no_mods, end_chars. destruct i; cbn. intros (-> & -> & -> & ->).
  destruct (d_mod d), (d_conv d); first [intros _ _; reflexivity|intros Hbad; vm_compute in Hbad; discriminate Hbad
    |intros _ Hbad; vm_compute in Hbad; discriminate Hbad].
Qed.

Lemma find_spec_items t l : literal t → find_spec (t ++ items_chars l) = Ok (t, items_chars l).
Proof. intros Ht. destruct (items_chars_head l) as (c & f & -> & Hc & _). by apply find_spec_literal. Qed.

Lemma first_not_flag d tail : directive_ok d → ∃ c f,
  width_chars (d_width d) ++ prec_chars (d_prec d) ++ end_chars d tail = c :: f ∧ not_flag c.
Proof.
  intros [Hw _ _ _]. destruct (end_char d tail) as (c & f & Ee & Hcb & Hdig & _).
  assert (not_flag c) as Hc.
  { unfold end_chars in Ee. unfold not_flag. destruct (d_mod d), (d_conv d); cbn in Ee; injection Ee as <- _; set_solver. }
  destruct (d_width d) as [|n|z]; cbn [width_chars app].
  - destruct (d_prec d); cbn [prec_chars app]; rewrite ?Ee; eexists _, _; split; try done; unfold not_flag; set_solver.
  - cbn in Hw. destruct (show_nat_head n) as (x & ds & Es & Hx); [unfold INT_MAX, EXTSIZ in *; lia|].
    rewrite Es. cbn [app]. eexists _, _. split; [done|]. unfold not_flag. rewrite !not_elem_of_cons. split_and!; try lia. apply not_elem_of_nil.
  - eexists _, _. split; [done|]. unfold not_flag. set_solver.
Qed.

(** One directive is parsed into its specification. *)
Lemma parse_one_spec_ok d posn mr t f : directive_ok d → slow_mod_ok (d_mod d) = true → find_spec (t ++ f) = Ok (t, f) →
  parse_one_spec (37 :: directive_chars d (t ++ f)) posn mr = Ok (spec_of d posn t f, arg_count d, mr).
Proof.
  intros Hd Hm Ht. unfold parse_one_spec. cbn [next tl]. rewrite parse_position_none by done. cbn [mbind res_bind].
  unfold directive_chars. destruct (first_not_flag d (t ++ f) Hd) as (c & f' & Ec & Hnf). rewrite Ec.
  change info0 with (raw_info []). rewrite parse_flags_spec by done. cbn [mbind res_bind app]. rewrite <-Ec.
  pose proof (raw_info_flags (d_flags d)) as Efl. cbv zeta in Efl. rewrite Efl.
  rewrite parse_width_spec by done. cbn [mbind res_bind]. rewrite parse_prec_spec by done. cbn [mbind res_bind].
  rewrite parse_modifier_spec by (done || apply Hd). cbn [mbind res_bind deref].
  change (set_spec (conv_char (d_conv d)) (mod_info (d_mod d) _)) with (parsed_info d).
  unfold spec_of, arg_count, data_count. destruct (spec_type (parsed_info d)) as [ty n]. cbn [fst snd]. change (-1 =? -1) with true. cbn [andb].
  assert (conv_char (d_conv d) =? 0 = false) as -> by (by destruct (d_conv d)). cbn [next tl].
  rewrite Ht. cbn [mbind res_bind fst snd]. unfold star_count.
  destruct (d_width d), (d_prec d), n as [|n]; cbn [Nat.eqb negb]; repeat (f_equal; try lia).
Qed.

(** ** The whole format *)

Fixpoint specs_of (posn : Z) (l : list item) : list printf_spec :=
  match l with [] => [] | (d, t) :: l' => spec_of d posn t (items_chars l') :: specs_of (posn + arg_count d) l' end.
Fixpoint total_args (l : list item) : Z :=
  match l with [] => 0 | (d, _) :: l' => arg_count d + total_args l' end.
Definition slow_ok (l : list item) : Prop := items_ok l ∧ Forall (λ it, slow_mod_ok (d_mod it.1) = true) l.

Lemma arg_count_nonneg d : 0 ≤ arg_count d.
Proof. unfold arg_count, star_count. destruct (d_width d), (d_prec d); lia. Qed.
Lemma total_args_nonneg l : 0 ≤ total_args l.
Proof. induction l as [|[d t] l IH]; cbn [total_args]; [lia|]. pose proof (arg_count_nonneg d). lia. Qed.

Lemma parse_specs_ok {F} `{Libc F} l : ∀ fuel posn mr st, slow_ok l → (length l < fuel)%nat →
  parse_specs (F := F) fuel (items_chars l) posn mr st = Go (specs_of posn l, posn + total_args l, mr) st.
Proof.
  induction l as [|[d t] l IH]; intros fuel posn mr st [Hok Hsl] Hf; (destruct fuel as [|fuel]; [cbn in Hf; lia|]).
  { cbn. by rewrite Z.add_0_r. }
  apply Forall_cons in Hok as [[Hd Ht] Hok]. apply Forall_cons in Hsl as [Hm Hsl]. cbn [fst snd] in *.
  cbn [items_chars parse_specs]. unfold plift, mbind, P_bind. cbn [deref]. change (37 =? 0) with false. cbv iota.
  rewrite parse_one_spec_ok by (done || by apply find_spec_items). cbn [spec_of next_fmt]. rewrite IH by (done || cbn in Hf; lia).
  cbn [specs_of total_args]. unfold mret, P_ret. do 3 f_equal. lia.
Qed.

(** Types *)
Definition types_of (d : directive) : list Z :=
  (match d_width d with ArgWidth _ => [PA_INT] | _ => [] end) ++ (match d_prec d with ArgPrec _ => [PA_INT] | _ => [] end) ++
  (if Nat.eqb (data_count d) 0 then [] else [(spec_type (parsed_info d)).1]).
Definition all_types (l : list item) : list Z := mjoin ((λ it, types_of it.1) <$> l).

Lemma data_count_le d : (data_count d ≤ 1)%nat.
Proof. unfold data_count, spec_type. repeat case_match; cbn; lia. Qed.

Lemma types_length d : Z.of_nat (length (types_of d)) = arg_count d.
Proof.
  unfold types_of, arg_count, star_count. pose proof (data_count_le d). rewrite !length_app.
  destruct (d_width d), (d_prec d), (data_count d) as [|[|k]]; cbn [Nat.eqb length]; lia.
Qed.

Lemma set_type_at pre x t rest k : k = Z.of_nat (length pre) → set_type k t (pre ++ x :: rest) = Ok ((pre ++ [t]) ++ rest).
Proof.
  intros ->. unfold set_type. rewrite length_app. cbn [length]. destruct (Z.leb_spec 0 (Z.of_nat (length pre))); [|lia].
  destruct (Z.ltb_spec (Z.of_nat (length pre)) (Z.of_nat (length pre + S (length rest)))); [|lia]. cbn [andb].
  rewrite Nat2Z.id, insert_app_r_alt, Nat.sub_diag by lia. cbn. by rewrite <-app_assoc.
Qed.

(** The types of one specification go where its arguments are. *)
Lemma spec_types_ok d t l pre x m : 
  spec_types (spec_of d (Z.of_nat (length pre)) t l) (pre ++ replicate (length (types_of d)) x ++ m) = Ok ((pre ++ types_of d) ++ m).
Proof.
  pose proof (data_count_le d) as Hc. unfold spec_types, spec_of. cbn [width_arg prec_arg ndata_args data_arg data_arg_type].
  unfold types_of, star_count. destruct (data_count d) as [|[|k]]; [| |lia]; cbn [Nat.eqb];
    destruct (d_width d), (d_prec d); change (-1 =? -1) with true; cbn [app length replicate mbind res_bind negb]; rewrite ?app_nil_r; try done;
    repeat match goal with
    | |- context [negb (?k =? -1)] => destruct (Z.eqb_spec k (-1)); [lia|]; cbn [negb]
    | |- context [set_type ?k ?t (?p ++ ?y :: ?r)] => rewrite (set_type_at p y t r k) by (rewrite ?length_app; cbn [length]; lia); cbn [mbind res_bind]
    end; by rewrite <-?app_assoc.
Qed.

Lemma fill_types_ok x l : ∀ pre, 
  fill_types (specs_of (Z.of_nat (length pre)) l) (pre ++ replicate (Z.to_nat (total_args l)) x) = Ok (pre ++ all_types l).
Proof.
  induction l as [|[d t] l IH]; intros pre; [done|]. cbn [specs_of total_args fill_types].
  pose proof (types_length d) as Hl. pose proof (total_args_nonneg l). 
  replace (Z.to_nat (arg_count d + total_args l)) with (length (types_of d) + Z.to_nat (total_args l))%nat by lia.
  rewrite replicate_add, spec_types_ok. cbn [mbind res_bind].
  replace (Z.of_nat (length pre) + arg_count d) with (Z.of_nat (length (pre ++ types_of d))) by (rewrite length_app; lia).
  rewrite IH. unfold all_types. cbn [fmap list_fmap mjoin list_join fst]. by rewrite <-app_assoc.
Qed.

(** Values *)
Definition canon (v : varg) : varg :=
  match v with VInt z => VInt (int32 z) | VLong z => VLong (int64 z) | _ => v end.

Lemma items_args_cons d t l : items_args ((d, t) :: l) = directive_args d ++ items_args l.
Proof. done. Qed.

(** A directive with a text has as many arguments as the parser counts. *)
Lemma data_count_arg se d u : directive_text se d = Some u → data_count d = length (option_list (d_arg d)).
Proof.
  unfold directive_text, data_count, parsed_info. intros Ht.
  destruct (d_conv d), (d_arg d) as [a|]; cbn [conv_label arg_text] in Ht; try done;
    destruct (d_mod d); reflexivity.
Qed.

Lemma args_length se d u : directive_text se d = Some u → Z.of_nat (length (directive_args d)) = arg_count d.
Proof.
  intros Ht. unfold directive_args, arg_count, star_count. rewrite (data_count_arg se d u Ht), !length_app.
  destruct (d_width d), (d_prec d); cbn [length]; lia.
Qed.

Section Values.
Context {F : Type} `{Sink F} `{Libc F}.

(** What the parser says of the type is what the directive asks for. *)
Lemma arg_value_ok se d u a ap r done (o : F) : directive_text se d = Some u → d_arg d = Some a → slow_mod_ok (d_mod d) = true →
  r_ap r = a :: ap →
  arg_value (spec_type (parsed_info d)).1 (state done o r) = Go (canon a) (state done o (with_ap ap r)).
Proof.
  intros Ht Ea Hm Eap. unfold directive_text in Ht. rewrite Ea in Ht. unfold parsed_info.
  assert (∀ A (take : varg → option A) (k : A → varg), take a ≠ None → (k <$> take a = Some (canon a)) →
    (x ← va_arg take; mret (k x)) (state done o r) = Go (canon a) (state done o (with_ap ap r))) as Hva.
  { intros A take k Hne Hk. unfold va_arg, mbind, P_bind, pget. cbn [p_ap state]. rewrite Eap.
    destruct (take a) as [x|]; [|done]. cbn in Hk. injection Hk as <-. done. }
  assert (is_long (info_of d) = is_long (mod_info (d_mod d) info0)) as Hlong.
  { unfold info_of. destruct (d_mod d); try done. unfold front_info. destruct (d_prec d), (d_width d) as [|wn|wz]; try done; cbn; by destruct (int32 wz <? 0). }
  destruct (d_conv d), a as [z|z| | |p m], (d_mod d); cbn [conv_label arg_text] in Ht; try done; try (vm_compute in Hm; discriminate Hm);
    try (unfold signed_value, unsigned_value in Ht; rewrite Hlong in Ht; done);
    try (rewrite Hlong in Ht; done);
    first [apply (Hva Z as_int VInt); done|apply (Hva Z as_long VLong); done|apply (Hva _ as_ptr (λ p, VPtr p.1 p.2)); done].
Qed.

Lemma arg_value_int z ap r done (o : F) : r_ap r = VInt z :: ap →
  arg_value PA_INT (state done o r) = Go (VInt (int32 z)) (state done o (with_ap ap r)).
Proof.
  intros E. change (arg_value (F := F) PA_INT) with (z ← va_arg (F := F) as_int; mret (VInt z)).
  unfold va_arg, mbind, P_bind, pget. cbn [p_ap state]. by rewrite E.
Qed.

Lemma fill_values_app ts1 ts2 : ∀ (st st1 st2 : pst F) v1 v2,
  fill_values ts1 st = Go v1 st1 → fill_values ts2 st1 = Go v2 st2 → fill_values (ts1 ++ ts2) st = Go (v1 ++ v2) st2.
Proof.
  induction ts1 as [|t ts1 IH]; intros st st1 st2 v1 v2 H1 H2; cbn [app fill_values] in *.
  - by injection H1 as <- ->.
  - unfold mbind, P_bind in *. destruct (arg_value t st) as [v st'| | | |]; try done.
    destruct (fill_values ts1 st') as [vs st''| | | |] eqn:Evs; try done. injection H1 as <- <-.
    by rewrite (IH _ _ _ _ _ Evs H2).
Qed.

Lemma fill_one t v (st st' : pst F) : arg_value t st = Go v st' → fill_values [t] st = Go [v] st'.
Proof. intros E. cbn [fill_values]. unfold mbind, P_bind. by rewrite E. Qed.

Lemma fill_directive se d u ap r done (o : F) : directive_text se d = Some u → slow_mod_ok (d_mod d) = true →
  r_ap r = directive_args d ++ ap →
  fill_values (types_of d) (state done o r) = Go (canon <$> directive_args d) (state done o (with_ap ap r)).
Proof.
  intros Ht Hm Eap. unfold types_of, directive_args in *. rewrite !fmap_app. rewrite <-!app_assoc in Eap.
  set (ap1 := (match d_prec d with ArgPrec z => [VInt z] | _ => [] end) ++ option_list (d_arg d) ++ ap) in *.
  set (ap2 := option_list (d_arg d) ++ ap) in *. change (with_ap ap r) with (with_ap ap (with_ap ap2 (with_ap ap1 r))).
  apply fill_values_app with (st1 := state done o (with_ap ap1 r)).
  { destruct (d_width d); cbn [fmap list_fmap app] in *; try (by rewrite <-Eap; destruct r). apply fill_one, arg_value_int. exact Eap. }
  apply fill_values_app with (st1 := state done o (with_ap ap2 (with_ap ap1 r))).
  { destruct (d_prec d); cbn [fmap list_fmap app] in *; first [done|by apply fill_one, arg_value_int]. }
  rewrite (data_count_arg se d u Ht). destruct (d_arg d) as [a|] eqn:Ea; cbn [option_list length Nat.eqb fmap list_fmap]; [|done].
  apply fill_one. by eapply arg_value_ok.
Qed.

Lemma fill_all se l : ∀ r t ap done (o : F), items_text se l = Some t → Forall (λ it, slow_mod_ok (d_mod it.1) = true) l →
  r_ap r = items_args l ++ ap →
  fill_values (all_types l) (state done o r) = Go (canon <$> items_args l) (state done o (with_ap ap r)).
Proof.
  induction l as [|[d lt] l IH]; intros r t ap done o Ht Hm Eap.
  { cbn in Eap. rewrite <-Eap. by destruct r. }
  cbn [items_text] in Ht. destruct (directive_text se d) as [u|] eqn:Eu; [|done]. cbn in Ht.
  destruct (items_text se l) as [v|] eqn:Ev; [|done]. apply Forall_cons in Hm as [Hmd Hm]. cbn [fst] in Hmd.
  rewrite items_args_cons in *. rewrite <-app_assoc in Eap. rewrite fmap_app.
  change (all_types ((d, lt) :: l)) with (types_of d ++ all_types l).
  eapply fill_values_app; [by eapply fill_directive|]. change (with_ap ap r) with (with_ap ap (with_ap (items_args l ++ ap) r)).
  by eapply IH.
Qed.
End Values.

(** ** Formatting *)

(** The specification with the arguments for width and precision filled in; unlike the fast
    loop, a negative width leaves the padding alone. *)
Definition slow_info (d : directive) : printf_info :=
  match d_width d with
  | ArgWidth z => if int32 z <? 0 then set_pad (pad (flags_info (d_flags d))) (info_of d) else info_of d
  | _ => info_of d
  end.

Lemma arg_text_pad se i c l a : left i = true → arg_text se (set_pad c i) l a = arg_text se i l a.
Proof.
  intros Hl. assert (∀ j base neg w, left j = true → number_text (set_pad c j) base neg w = number_text j base neg w) as Hn.
  { intros j base neg w Hj. unfold number_text. cbn [left set_pad]. by rewrite Hj. }
  destruct l, a as [[]|]; cbn [arg_text]; try done; unfold signed_value, unsigned_value; cbn [is_long is_char is_short set_pad];
    destruct (is_long i); try done; cbn [mbind option_bind fmap option_fmap option_map];
    repeat match goal with
    | |- context [unsigned_info (set_pad c i)] => change (unsigned_info (set_pad c i)) with (set_pad c (unsigned_info i))
    | |- context [pointer_info (set_pad c i)] => change (pointer_info (set_pad c i)) with (set_pad c (pointer_info i))
    end; by rewrite ?Hn.
Qed.

Lemma slow_info_text se d : arg_text se (slow_info d) (conv_label (d_conv d)) (d_arg d) = directive_text se d.
Proof.
  unfold slow_info, directive_text. destruct (d_width d) as [|n|z] eqn:Ew; try done. destruct (int32 z <? 0) eqn:Ez; [|done].
  apply arg_text_pad. unfold info_of, front_info. rewrite Ew. cbn [width_info]. rewrite Ez. by destruct (d_mod d), (d_prec d).
Qed.

Definition filled_width (d : directive) : printf_info :=
  match d_width d with
  | ArgWidth z => if int32 z <? 0 then set_left true (set_width (- int32 z) (parsed_info d)) else set_width (int32 z) (parsed_info d)
  | _ => parsed_info d
  end.
Lemma slow_info_filled d : slow_info d =
  match d_prec d with ArgPrec z => set_prec (if int32 z <? 0 then -1 else int32 z) (filled_width d) | _ => filled_width d end.
Proof.
  unfold slow_info, filled_width, info_of, front_info, parsed_info.
  destruct (d_width d) as [|n|z], (d_prec d), (d_mod d); try reflexivity; cbn; destruct (int32 z <? 0); reflexivity.
Qed.

Lemma slow_info_ok d : directive_ok d → info_ok (slow_info d).
Proof.
  intros Hd. pose proof (info_of_ok d Hd) as Hi. unfold slow_info. destruct (d_width d); try done. destruct (_ <? 0); [|done].
  destruct Hi. constructor; try done. cbn. destruct (_ && _); auto.
Qed.

Lemma slow_info_fields d : spec (slow_info d) = conv_char (d_conv d) ∧ group (slow_info d) = group (info_of d).
Proof. unfold slow_info. destruct (d_width d); try done. by destruct (_ <? 0). Qed.

Lemma slow_stored done d r :
  stored done (slow_info d) (conv_label (d_conv d)) (d_arg d) r = stored done (info_of d) (conv_label (d_conv d)) (d_arg d) r.
Proof. unfold slow_info. destruct (d_width d); try done. by destruct (_ <? 0). Qed.

(** The specification [s] finds in [values] what the directive [d] asks for. *)
Record refers (values : list varg) (d : directive) (s : printf_spec) : Prop := {
  rf_info : info s = parsed_info d;
  rf_width : match d_width d with
             | ArgWidth z => 0 ≤ width_arg s ∧ values !! Z.to_nat (width_arg s) = Some (VInt (int32 z))
             | _ => width_arg s = -1
             end;
  rf_prec : match d_prec d with
            | ArgPrec z => 0 ≤ prec_arg s ∧ values !! Z.to_nat (prec_arg s) = Some (VInt (int32 z))
            | _ => prec_arg s = -1
            end;
  rf_arg : match d_arg d with
           | Some a => 0 ≤ data_arg s ∧ values !! Z.to_nat (data_arg s) = Some (canon a)
           | None => True
           end;
}.

Section Slow.
Context {F : Type} `{Sink F} `{Libc F} `{!SinkLaws F} `{!PlainLibc F}.
Variable se : Z.

Lemma arg_member_at {A} (values : list varg) v k (take : varg → option A) a (st : pst F) :
  0 ≤ k → values !! Z.to_nat k = Some v → take v = Some a → arg_member values k take st = Go a st.
Proof. intros Hk Hv Ha. unfold arg_member. destruct (Z.ltb_spec k 0); [lia|]. by rewrite Hv, Ha. Qed.

Lemma int32_twice z : int32 (int32 z) = int32 z.
Proof. apply int32_small, int32_range. Qed.

Lemma fill_width_silent values s d (st : pst F) : directive_ok d → refers values d s →
  fill_width values s (parsed_info d) st = Go (filled_width d) st.
Proof.
  intros [Hw _ _ _] [_ Hrw _ _]. unfold fill_width, filled_width.
  destruct (d_width d) as [|n|z]; [by rewrite Hrw..|]. destruct Hrw as [Hk Hv]. destruct (Z.eqb_spec (width_arg s) (-1)); [lia|]. cbn [negb].
  unfold mbind, P_bind. rewrite (arg_member_at _ _ _ member_int (int32 z) st Hk Hv) by (cbn; by rewrite int32_twice).
  cbn in Hw. unfold INT_MAX, EXTSIZ in Hw. rewrite (int32_small (- int32 z)) by lia. by destruct (int32 z <? 0).
Qed.

Lemma fill_prec_silent values s d (st : pst F) : refers values d s → fill_prec values s (filled_width d) st = Go (slow_info d) st.
Proof.
  intros [_ _ Hrp _]. rewrite slow_info_filled. unfold fill_prec.
  destruct (d_prec d) as [| |n|z]; [by rewrite Hrp..|]. destruct Hrp as [Hk Hv]. destruct (Z.eqb_spec (prec_arg s) (-1)); [lia|]. cbn [negb].
  unfold mbind, P_bind. by rewrite (arg_member_at _ _ _ member_int (int32 z) st Hk Hv) by (cbn; by rewrite int32_twice).
Qed.

Lemma fetches_values values s d u r : directive_text (lc_strerror_r se) d = Some u → refers values d s →
  fetches (arg_fetch (F := F) values (data_arg s)) (d_arg d) r r.
Proof.
  intros Ht [_ _ _ Hra]. unfold directive_text in Ht. destruct (d_arg d) as [a|] eqn:Ea; [|done]. destruct Hra as [Hk Hv].
  assert ((∃ z, a = VInt z) ∨ (∃ z, a = VLong z) ∨ ∃ p m, a = VPtr p m) as [(z & ->)|[(z & ->)|(p & m & ->)]]
    by (destruct a; eauto; by destruct (d_conv d)).
  - intros dn o. eapply arg_member_at; [done..|]. cbn. by rewrite int32_twice.
  - intros dn o. eapply arg_member_at; [done..|]. cbn. rewrite int64_small; [done|]. unfold int64. pose proof (Z.mod_pos_bound (z + 2 ^ 63) (2 ^ 64)). lia.
  - intros dn o. by eapply arg_member_at.
Qed.

Lemma positional_buffer_silent i : info_ok i → ∃ work, (∀ st : pst F, positional_buffer i st = Go work st) ∧ (64 ≤ work_size work)%nat.
Proof.
  intros [Hw Hp _ _ _]. unfold positional_buffer, INT_MAX, EXTSIZ, WORK_BUFFER_SIZE in *. rewrite int32_small by lia.
  destruct (Z.ltb_spec 1000 (prec i `max` width i + 32)).
  - rewrite pl_alloc. eexists. split; [done|]. unfold work_size. change (default WORK_BUFFER_SIZE (Some ?x)) with x. lia.
  - exists None. split; [done|apply work_buffer_size].
Qed.

(** One directive, formatted from the collected values *)
Lemma emits_slow_directive done r values s d u :
  directive_ok d → literal (const_after s) → r_grouping r = NoGrouping → directive_text (lc_strerror_r se) d = Some u → refers values d s →
  emits done r (do_positional_spec se values s) tt (u ++ const_after s)
    (let r1 := stored done (info_of d) (conv_label (d_conv d)) (d_arg d) r in with_nspecs (S (r_nspecs r1)) r1).
Proof.
  intros Hd Hlit Hr Ht Href. unfold do_positional_spec. rewrite (rf_info _ _ _ Href).
  eapply emits_bind_silent; [intros o; by eapply fill_width_silent|]. cbv beta.
  eapply emits_bind_silent; [intros o; by eapply fill_prec_silent|]. cbv beta.
  pose proof (slow_info_ok d Hd) as Hi. destruct (positional_buffer_silent _ Hi) as (work & Ewb & Hwk).
  eapply emits_bind_silent; [intros o; apply Ewb|]. cbv beta. destruct (slow_info_fields d) as [Es Eg].
  assert (set_spec (int8 (spec (slow_info d))) (slow_info d) = slow_info d) as ->.
  { rewrite Es. assert (int8 (conv_char (d_conv d)) = conv_char (d_conv d)) as -> by (by destruct (d_conv d)).
    rewrite <-Es. by destruct (slow_info d). }
  assert (JUMP (spec (slow_info d)) step4_jumps = conv_label (d_conv d)) as -> by (rewrite Es; by destruct (d_conv d)).
  set (r1 := stored done (info_of d) (conv_label (d_conv d)) (d_arg d) r).
  eapply emits_seq with (r1 := r1) (a := tt).
  - unfold r1. rewrite <-slow_stored. apply emits_process; try done; [apply pl_strerror|by destruct Hd| |apply pl_fortify| |].
    + by eapply fetches_values.
    + intros _. rewrite Es. by destruct (d_conv d).
    + by rewrite slow_info_text.
  - eapply emits_bind_assoc with (t2 := []); [by apply emits_outstring, literal_bytes|intros dn; by apply emits_silent|by rewrite app_nil_r].
Qed.

Lemma emits_slow_items values l specs : Forall2 (λ it s, refers values it.1 s ∧ const_after s = it.2) l specs →
  ∀ done r t, items_ok l → r_grouping r = NoGrouping → items_text (lc_strerror_r se) l = Some t →
  ∃ r', emits (F := F) done r (positional_loop se values specs) tt t r' ∧
    r_mem r' = r_mem r ++ items_stores (lc_strerror_r se) done l.
Proof.
  induction 1 as [|[d lt] s l specs [Href Ec] Hrest IH]; intros dn r t Hok Hr Ht.
  { injection Ht as <-. exists r. split; [apply emits_ret|]. cbn. by rewrite app_nil_r. }
  apply Forall_cons in Hok as [[Hd Hlit] Hok]. cbn [fst snd] in *. subst lt.
  cbn [items_text] in Ht. destruct (directive_text (lc_strerror_r se) d) as [u|] eqn:Eu; [|done]. cbn in Ht.
  destruct (items_text (lc_strerror_r se) l) as [v|] eqn:Ev'; [|done]. cbn in Ht. injection Ht as <-.
  pose proof (emits_slow_directive dn r values s d u Hd Hlit Hr Eu Href) as Hdir. cbn [positional_loop].
  set (r2 := let r1 := stored dn (info_of d) (conv_label (d_conv d)) (d_arg d) r in with_nspecs (S (r_nspecs r1)) r1) in *.
  destruct (IH (dn + Z.of_nat (length (u ++ const_after s))) r2 v) as (r' & Hem & Em); try done.
  { unfold r2. cbn [with_nspecs r_grouping].
    by destruct (stored_fields dn (info_of d) (conv_label (d_conv d)) (d_arg d) r) as [_ ->]. }
  exists r'. split; [rewrite app_assoc; by eapply emits_seq|]. rewrite Em. unfold r2. cbn [with_nspecs r_mem].
  rewrite stored_mem. cbn [items_stores]. rewrite Eu. by rewrite <-app_assoc.
Qed.

(** Without explicit positions the arguments follow each other. *)
Lemma spec_of_refers values pre d post t f u : directive_text (lc_strerror_r se) d = Some u →
  values = pre ++ (canon <$> directive_args d) ++ post → refers values d (spec_of d (Z.of_nat (length pre)) t f).
Proof.
  intros Ht ->. unfold directive_args. rewrite !fmap_app.
  assert (∀ (a b : list varg) v c k, k = Z.of_nat (length a) → a ++ v :: b = c → 0 ≤ k ∧ c !! Z.to_nat k = Some v) as Hat.
  { intros a b v c k -> <-. split; [lia|]. by rewrite Nat2Z.id, list_lookup_middle. }
  constructor; [done|..]; cbn [width_arg prec_arg data_arg spec_of].
  - destruct (d_width d); [done..|]. eapply Hat; [done|]. cbn. by f_equal.
  - destruct (d_prec d); [done..|]. destruct (d_width d); cbn [fmap list_fmap app];
      first [eapply (Hat pre); [lia|reflexivity]|eapply (Hat (pre ++ [_])); [rewrite length_app; cbn [length]; lia|by rewrite <-app_assoc]].
  - rewrite (data_count_arg _ _ _ Ht). unfold star_count. destruct (d_arg d) as [a|]; [|done].
    change (length (option_list (Some a)) =? 0)%nat with false. change (canon <$> option_list (Some a)) with [canon a]. cbv iota.
    destruct (d_width d), (d_prec d); cbn [fmap list_fmap app];
      first [eapply (Hat pre); [lia|reflexivity]|eapply (Hat (pre ++ [_])); [rewrite length_app; cbn [length]; lia|by rewrite <-app_assoc]
            |eapply (Hat (pre ++ [_; _])); [rewrite length_app; cbn [length]; lia|by rewrite <-app_assoc]].
Qed.

Lemma specs_of_refer values l : ∀ pre t, items_text (lc_strerror_r se) l = Some t → values = pre ++ (canon <$> items_args l) →
  Forall2 (λ it s, refers values it.1 s ∧ const_after s = it.2) l (specs_of (Z.of_nat (length pre)) l).
Proof.
  induction l as [|[d lt] l IH]; intros pre t Ht Ev; [constructor|].
  cbn [items_text] in Ht. destruct (directive_text (lc_strerror_r se) d) as [u|] eqn:Eu; [|done]. cbn in Ht.
  destruct (items_text (lc_strerror_r se) l) as [v|] eqn:Ev'; [|done].
  rewrite items_args_cons, fmap_app in Ev. cbn [specs_of]. constructor.
  - split; [|done]. by eapply spec_of_refers.
  - replace (Z.of_nat (length pre) + arg_count d) with (Z.of_nat (length (pre ++ (canon <$> directive_args d))))
      by (rewrite length_app, length_fmap, Nat2Z.inj_add, (args_length _ _ _ Eu); done).
    apply (IH _ v); [done|]. by rewrite Ev, <-app_assoc.
Qed.

(** The slow path from its beginning *)
Lemma emits_positional done r l t : slow_ok l → no_rule r → r_nspecs r = 0%nat → r_ap r = items_args l →
  items_text (lc_strerror_r se) l = Some t → 
  ∃ r', emits (F := F) done r (printf_positional se (items_args l) (items_chars l)) tt t r' ∧
    r_mem r' = r_mem r ++ items_stores (lc_strerror_r se) done l.
Proof.
  intros [Hok Hsl] Hr Hn Eap Ht. unfold printf_positional.
  set (r1 := with_grouping NoGrouping r). set (r2 := with_ap [] r1).
  destruct (emits_slow_items _ l _ (specs_of_refer (canon <$> items_args l) l [] t Ht eq_refl) done r2 t Hok eq_refl Ht) as (r' & Hem & Em).
  exists r'. split; [|exact Em].
  eapply emits_bind_silent with (r1 := r1) (a := tt).
  { intros o. unfold ask_grouping_positional, mbind, P_bind, pget. cbn [p_grouping state]. destruct Hr as [-> | E].
    - destruct pl_grouping as (g & gl & -> & [-> | ->]); done.
    - rewrite E. unfold r1. destruct r; cbn in *. by subst. }
  eapply emits_bind_silent with (r1 := r1) (a := (specs_of 0 l, 0 + total_args l, 0)).
  { intros o. apply parse_specs_ok; [done|]. clear. induction l as [|[d u] l IH]; [cbn; lia|]. cbn [items_chars length].
    unfold directive_chars, end_chars. rewrite !length_app. cbn [length]. rewrite length_app. lia. }
  cbv beta iota zeta. pose proof (total_args_nonneg l). rewrite Z.add_0_l, Z.max_l, pl_alloc by lia. cbn [negb].
  eapply emits_bind_silent with (r1 := r1) (a := all_types l).
  { intros o. unfold plift. pose proof (fill_types_ok (if lc_fortify then -1 else 0) l []) as E. cbn [app] in E.
    change (Z.of_nat (length [])) with 0 in E. by rewrite E. }
  eapply emits_bind_silent with (r1 := r1) (a := tt).
  { intros o. unfold pmodify, r1. destruct r; cbn in *. by subst. }
  eapply emits_bind_silent with (r1 := r2) (a := canon <$> items_args l).
  { intros o. unfold r2. eapply fill_all; [done|done|]. unfold r1. cbn. by rewrite app_nil_r. }
  cbv beta. eapply emits_bind_silent with (r1 := r2) (a := 0%nat).
  { intros o. unfold pget. cbn. by rewrite Hn. }
  exact Hem.
Qed.
End Slow.

(** ** Theorems *)

(** C10: the slow path of [vfprintf] is equivalent to the fast one: on every format
    without explicit positions, whose integers do not use the modifiers [L] and [q],
    [printf_positional] parses the format into the directives it is made
    of, reads every argument once, in order and with its type, and after the literal text in
    front has the result, the bytes and the ["%n"] stores of the text that ISO C
    prescribes.  On a stream whose state is determined by what it took, such as an array,
    the whole call returns what [vfprintf] returns, with the same stream. *)
Theorem positional_equiv {F : Type} `{Sink F} `{Libc F} `{!SinkLaws F} `{!PlainLibc F} lead l errno (s : F) t :
  sink_ok s → literal lead → slow_ok l → items_text (lc_strerror_r errno) l = Some t →
  Z.of_nat (length (lead ++ t)) ≤ INT_MAX → fits s (lead ++ t) →
  let slow := (outstring lead ;; printf_positional errno (items_args l) (items_chars l)) (mkP 0 s (items_args l) [] Unasked errno 0) in
  (∃ ok s', took s s' (lead ++ t) ok ∧
    returned slow = Some (if ok : bool then Z.of_nat (length (lead ++ t)) else -1, s') ∧
    (ok = true → ∃ st, slow = Go tt st ∧ p_mem st = items_stores (lc_strerror_r errno) (Z.of_nat (length lead)) l)) ∧
  ((∀ ok1 s1 ok2 s2, took s s1 (lead ++ t) ok1 → took s s2 (lead ++ t) ok2 → ok1 = ok2 ∧ s1 = s2) →
    returned slow = returned (vfprintf (lead ++ items_chars l) (items_args l) errno s)).
Proof.
  intros Hs Hlead Hl Ht Hlen Hfits slow. set (r0 := mkR (items_args l) [] Unasked errno 0).
  change (mkP 0 s _ [] Unasked errno 0) with (state 0 s r0) in slow.
  destruct (emits_positional (F := F) errno (0 + Z.of_nat (length lead)) r0 l t Hl (or_introl eq_refl) eq_refl eq_refl Ht) as (r' & Hem & Em).
  assert (emits (F := F) 0 r0 (outstring lead ;; printf_positional errno (items_args l) (items_chars l)) tt (lead ++ t) r') as Hall.
  { eapply emits_seq; [by apply emits_outstring, literal_bytes|exact Hem]. }
  destruct (Hall s Hs Hfits ltac:(lia) ltac:(lia)) as (ok & s' & Htk & E). fold slow in E.
  assert (returned slow = Some (if ok : bool then Z.of_nat (length (lead ++ t)) else -1, s')) as Eret.
  { destruct ok; [by rewrite E|]. destruct E as (st & -> & Ed & <-). cbn. by rewrite Ed. }
  split.
  - exists ok, s'. split; [done|]. split; [done|]. intros ->. eexists. split; [exact E|exact Em].
  - intros Hdet. destruct (vfprintf_text lead l [] errno s t) as (ok2 & s2 & Htk2 & E2 & _); try done; [by destruct Hl|].
    rewrite app_nil_r in E2. destruct (Hdet _ _ _ _ Htk Htk2) as [-> ->]. by rewrite Eret, E2.
Qed.

Lemma positional_equiv_witness :
  let slow := (outstring (lit "id ") ;; printf_positional (F := list Z) (H0 := c_libc _) 0 (items_args sample_items) (items_chars sample_items))
    (mkP 0 [] (items_args sample_items) [] Unasked 0 0) in
  returned slow = Some (16, lit "id +0042|ff  |ab") ∧
  returned slow = returned (vfprintf (F := list Z) (H0 := c_libc _) (lit "id " ++ items_chars sample_items) (items_args sample_items) 0 []).
Proof.
  destruct (positional_equiv (F := list Z) (H0 := c_libc _) (PlainLibc0 := c_libc_plain _) (lit "id ") sample_items 0 [] (lit "+0042|ff  |ab"))
    as [(ok & s' & (-> & ->) & E & _) Heq].
  - exact I.
  - by apply literalb_ok.
  - split; [exact sample_ok|by repeat constructor].
  - by vm_compute.
  - by vm_compute.
  - exact I.
  - split; [exact E|]. apply Heq. clear. intros ok1 s1 ok2 s2 [-> ->] [-> ->]. split; reflexivity.
Defined.
