(* ===== verification/PrintfExplicit.v ===== *)
(** * glibc: formatted output with explicit positions

    Formats whose directives name their arguments (["%2$s %1$d"]), which [vfprintf]
    hands to [printf_positional] at the first of them.  The arguments may be named in any order
    and more than once, each by directives that agree on how it is read.  The theorem: the call
    writes the text of the directives, each with the argument it names. *)

From S2P Require Import Prelude CString Itoa Printf PrintfFast PrintfText PrintfFormat PrintfPositional.

(** ** Syntax *)

(** Which arguments a directive names, counted from 0: its value, its width and its precision, where
    it asks for them *)
Record positions := mkPos { at_data : nat; at_width : nat; at_prec : nat }.
Definition pitem : Type := positions * item.

Definition dollar (k : nat) : list Z := show_nat (Z.of_nat (S k)) ++ [36].
Definition pwidth_chars (p : positions) (w : wspec) : list Z :=
  match w with ArgWidth _ => 42 :: dollar (at_width p) | _ => width_chars w end.
Definition pprec_chars (p : positions) (q : pspec) : list Z :=
  match q with ArgPrec _ => 46 :: 42 :: dollar (at_prec p) | _ => prec_chars q end.

(** Directives that ask for nothing (["%%"], ["%m"]) are written as usual. *)
Definition pchars (p : positions) (d : directive) (tail : list Z) : list Z :=
  match d_arg d with
  | None => directive_chars d tail
  | Some _ =>
      dollar (at_data p) ++ (flag_char <$> d_flags d) ++ pwidth_chars p (d_width d) ++ pprec_chars p (d_prec d) ++ end_chars d tail
  end.
Fixpoint pitems_chars (l : list pitem) : list Z :=
  match l with [] => [0] | (p, (d, t)) :: l' => 37 :: pchars p d (t ++ pitems_chars l') end.

(** The arguments a directive names, and that they are what it asks for *)
Definition refs_of (p : positions) (d : directive) : list nat :=
  (match d_width d with ArgWidth _ => [at_width p] | _ => [] end) ++
  (match d_prec d with ArgPrec _ => [at_prec p] | _ => [] end) ++
  (match d_arg d with Some _ => [at_data p] | None => [] end).
Record agrees (args : list varg) (p : positions) (d : directive) : Prop := {
  ag_width z : d_width d = ArgWidth z → args !! at_width p = Some (VInt z);
  ag_prec z : d_prec d = ArgPrec z → args !! at_prec p = Some (VInt z);
  ag_arg a : d_arg d = Some a → args !! at_data p = Some a;
  ag_none : d_arg d = None → star_count d = 0;
}.

(** A format over [args]: valid directives and text, every argument named *)
Record explicit_ok (args : list varg) (l : list pitem) : Prop := {
  eo_items : slow_ok l.*2;
  eo_agrees : Forall (λ pi, agrees args pi.1 pi.2.1) l;
  eo_named j : (j < length args)%nat → ∃ pi, pi ∈ l ∧ j ∈ refs_of pi.1 pi.2.1;
  eo_first : ∃ p d t a l', l = (p, (d, t)) :: l' ∧ d_arg d = Some a;
  eo_count : Z.of_nat (length args) < INT_MAX - EXTSIZ;
}.

(** ** Parsing *)

Definition explicit_spec (p : positions) (d : directive) (t f : list Z) : printf_spec :=
  mkSpec (parsed_info d) (t ++ f) f t
    (match d_prec d with ArgPrec _ => Z.of_nat (at_prec p) | _ => -1 end)
    (match d_width d with ArgWidth _ => Z.of_nat (at_width p) | _ => -1 end)
    (match d_arg d with Some _ => Z.of_nat (at_data p) | None => -1 end)
    (spec_type (parsed_info d)).1 (data_count d).

Lemma read_position_dollar k f : Z.of_nat (S k) ≤ INT_MAX → read_position (dollar k ++ f) = Ok (Some (Z.of_nat (S k)), f).
Proof.
  intros Hk. unfold read_position, dollar. rewrite <-app_assoc. cbn [app]. rewrite read_int_show by (done || lia).
  cbn [mbind res_bind snd fst deref]. unfold INT_MAX in Hk. rewrite uint32_small by lia.
  by destruct (Z.eqb_spec (Z.of_nat (S k)) 0); [lia|].
Qed.

Lemma dollar_digit k f : Z.of_nat (S k) ≤ INT_MAX → ∃ x f', dollar k ++ f = x :: f' ∧ 49 ≤ x ≤ 57 ∧ ISDIGIT x = true.
Proof.
  intros Hk. destruct (show_nat_head (Z.of_nat (S k))) as (x & ds & Es & Hx); [unfold INT_MAX in *; lia|].
  exists x, ((ds ++ [36]) ++ f). unfold dollar. rewrite Es. split_and!; [done|lia..|]. by rewrite ISDIGIT_spec, bool_decide_true by (unfold is_byte; lia).
Qed.

Lemma position_known k mr : Z.of_nat (S k) ≤ INT_MAX →
  position_arg (Z.of_nat (S k)) = Z.of_nat k ∧ max_ref (Z.of_nat (S k)) mr = Z.max mr (Z.of_nat (S k)).
Proof.
  intros Hk. unfold position_arg, max_ref. change (uint32 (-1)) with (2 ^ 32 - 1). unfold INT_MAX in Hk.
  destruct (Z.eqb_spec (Z.of_nat (S k)) (2 ^ 32 - 1)); [lia|]. split; [lia|done].
Qed.

Lemma parse_position_dollar k f mr : Z.of_nat (S k) ≤ INT_MAX →
  parse_position (dollar k ++ f) mr = Ok (Z.of_nat k, Z.max mr (Z.of_nat (S k)), f).
Proof.
  intros Hk. unfold parse_position. destruct (dollar_digit k f Hk) as (x & f' & E & _ & Hx). rewrite E. cbn [deref mbind res_bind].
  rewrite Hx, <-E, read_position_dollar by done. cbn [mbind res_bind]. by destruct (position_known k mr Hk) as [-> ->].
Qed.

Lemma parse_star_dollar k f posn nargs mr : Z.of_nat (S k) ≤ INT_MAX →
  parse_star (dollar k ++ f) posn nargs mr = Ok (Z.of_nat k, posn, nargs, Z.max mr (Z.of_nat (S k)), f).
Proof.
  intros Hk. unfold parse_star. destruct (dollar_digit k f Hk) as (x & f' & E & _ & Hx). rewrite E. cbn [deref mbind res_bind].
  rewrite Hx, <-E, read_position_dollar by done. cbn [mbind res_bind]. destruct (position_known k mr Hk) as [-> ->].
  by destruct (Z.ltb_spec (Z.of_nat k) 0); [lia|].
Qed.

(** What follows the width begins with no digit and no star. *)
Lemma pprec_head p d tail : ∃ c f, pprec_chars p (d_prec d) ++ end_chars d tail = c :: f ∧ is_byte c ∧ ISDIGIT c = false ∧ c ≠ 42 ∧ not_flag c.
Proof.
  destruct (end_char d tail) as (c & f & Ee & Hcb & Hdig & Hs & _).
  assert (not_flag c) as Hc.
  { unfold end_chars in Ee. unfold not_flag. destruct (d_mod d), (d_conv d); cbn in Ee; injection Ee as <- _; set_solver. }
  destruct (d_prec d); cbn [pprec_chars prec_chars app]; rewrite ?Ee; eexists _, _; (split; [done|]); split_and!; try done; unfold not_flag; set_solver.
Qed.

Lemma pwidth_head p d tail : directive_ok d → ∃ c f,
  pwidth_chars p (d_width d) ++ pprec_chars p (d_prec d) ++ end_chars d tail = c :: f ∧ not_flag c.
Proof.
  intros [Hw _ _ _]. destruct (d_width d) as [|n|z]; cbn [pwidth_chars width_chars app].
  - destruct (pprec_head p d tail) as (c & f & E & _ & _ & _ & Hc). by exists c, f.
  - cbn in Hw. destruct (show_nat_head n) as (x & ds & Es & Hx); [unfold INT_MAX, EXTSIZ in *; lia|].
    rewrite Es. cbn [app]. eexists _, _. split; [done|]. unfold not_flag. rewrite !not_elem_of_cons. split_and!; try lia. apply not_elem_of_nil.
  - eexists _, _. split; [done|]. unfold not_flag. set_solver.
Qed.

Definition star_ref (w : bool) (k : nat) (mr : Z) : Z := if w then Z.max mr (Z.of_nat (S k)) else mr.
Definition width_star (d : directive) : bool := match d_width d with ArgWidth _ => true | _ => false end.
Definition prec_star (d : directive) : bool := match d_prec d with ArgPrec _ => true | _ => false end.

Lemma pparse_width p d tail posn nargs mr : directive_ok d → (width_star d = true → Z.of_nat (S (at_width p)) ≤ INT_MAX) →
  parse_width (pwidth_chars p (d_width d) ++ pprec_chars p (d_prec d) ++ end_chars d tail) posn nargs mr =
  Ok (match d_width d with ArgWidth _ => Z.of_nat (at_width p) | _ => -1 end, width_const (d_width d), posn, nargs,
      star_ref (width_star d) (at_width p) mr, pprec_chars p (d_prec d) ++ end_chars d tail).
Proof.
  intros [Hw _ _ _] Hk. unfold width_star in *. destruct (pprec_head p d tail) as (c & f & -> & Hcb & Hdig & Hs & _).
  destruct (d_width d) as [|n|z]; cbn [pwidth_chars star_ref] in *; [by rewrite parse_width_const..|].
  cbn [app]. unfold parse_width. cbn [deref mbind res_bind]. change (42 =? chr "*") with true. cbv iota. cbn [next tl].
  by rewrite parse_star_dollar by auto.
Qed.

Lemma pparse_prec p d tail posn nargs mr : directive_ok d → (prec_star d = true → Z.of_nat (S (at_prec p)) ≤ INT_MAX) →
  parse_prec (pprec_chars p (d_prec d) ++ end_chars d tail) posn nargs mr =
  Ok (match d_prec d with ArgPrec _ => Z.of_nat (at_prec p) | _ => -1 end, prec_const (d_prec d), posn, nargs,
      star_ref (prec_star d) (at_prec p) mr, end_chars d tail).
Proof.
  intros Hd Hk. pose proof (parse_prec_spec d tail posn nargs mr Hd) as E. unfold prec_star in *.
  destruct (d_prec d) as [| |n|z]; cbn [pprec_chars star_ref] in *; cbv zeta iota in E; [by rewrite E, !Z.add_0_r..|].
  cbn [app]. unfold parse_prec. cbn [deref mbind res_bind next tl]. change (46 =? chr ".") with true. cbv iota.
  cbn [deref mbind res_bind next tl]. change (42 =? chr "*") with true. cbv iota. by rewrite parse_star_dollar by auto.
Qed.

Definition has_arg (d : directive) : bool := match d_arg d with Some _ => true | None => false end.
Definition max_refs (p : positions) (d : directive) (mr : Z) : Z :=
  star_ref (prec_star d) (at_prec p) (star_ref (width_star d) (at_width p) (star_ref (has_arg d) (at_data p) mr)).

Lemma star_count_none d : star_count d = 0 → width_star d = false ∧ prec_star d = false.
Proof. unfold star_count, width_star, prec_star. by destruct (d_width d), (d_prec d). Qed.

(** One directive is parsed into its specification; it takes no argument in turn. *)
Lemma parse_explicit se p d posn mr t f u : directive_ok d → slow_mod_ok (d_mod d) = true → find_spec (t ++ f) = Ok (t, f) →
  directive_text se d = Some u → (∀ j, j ∈ refs_of p d → Z.of_nat (S j) ≤ INT_MAX) → (d_arg d = None → star_count d = 0) →
  parse_one_spec (37 :: pchars p d (t ++ f)) posn mr = Ok (explicit_spec p d t f, 0, max_refs p d mr).
Proof.
  intros Hd Hm Hf Ht Hrefs Hnone. unfold pchars, max_refs, has_arg, explicit_spec. pose proof (data_count_arg _ _ _ Ht) as Hc.
  unfold refs_of in Hrefs. destruct (d_arg d) as [a|] eqn:Ea.
  - unfold parse_one_spec. cbn [next tl]. rewrite parse_position_dollar by (apply Hrefs; set_solver). cbn [mbind res_bind].
    destruct (pwidth_head p d (t ++ f) Hd) as (c & f' & Ec & Hnf). rewrite Ec.
    change info0 with (raw_info []). rewrite parse_flags_spec by done. cbn [mbind res_bind app]. rewrite <-Ec.
    pose proof (raw_info_flags (d_flags d)) as Efl. cbv zeta in Efl. rewrite Efl.
    rewrite pparse_width by (done || intros Hs; apply Hrefs; unfold width_star in Hs; destruct (d_width d); set_solver). cbn [mbind res_bind].
    rewrite pparse_prec by (done || intros Hs; apply Hrefs; unfold prec_star in Hs; destruct (d_prec d); set_solver). cbn [mbind res_bind].
    rewrite parse_modifier_spec by (done || apply Hd). cbn [mbind res_bind deref].
    change (set_spec (conv_char (d_conv d)) (mod_info (d_mod d) _)) with (parsed_info d).
    unfold data_count in *. destruct (spec_type (parsed_info d)) as [ty n]. cbn [fst snd] in *.
    destruct (Z.eqb_spec (Z.of_nat (at_data p)) (-1)); [lia|]. cbn [andb].
    assert (conv_char (d_conv d) =? 0 = false) as -> by (by destruct (d_conv d)). cbn [next tl].
    rewrite Hf. by cbn [mbind res_bind fst snd].
  - rewrite parse_one_spec_ok by done. specialize (Hnone eq_refl). destruct (star_count_none d Hnone) as [Ew Ep]. rewrite Ew, Ep. cbn [star_ref].
    unfold spec_of, arg_count. change (length (option_list None)) with 0%nat in Hc. rewrite Hnone, Hc. cbn [Nat.eqb].
    unfold width_star, prec_star in Ew, Ep. by destruct (d_width d), (d_prec d).
Qed.

Fixpoint explicit_specs (l : list pitem) : list printf_spec :=
  match l with [] => [] | (p, (d, t)) :: l' => explicit_spec p d t (pitems_chars l') :: explicit_specs l' end.
Definition all_refs (l : list pitem) (mr : Z) : Z := foldl (λ mr pi, max_refs pi.1 pi.2.1 mr) mr l.

Lemma pitems_find t l : literal t → find_spec (t ++ pitems_chars l) = Ok (t, pitems_chars l).
Proof. intros Ht. destruct l as [|[p [d u]] l]; cbn [pitems_chars]; apply find_spec_literal; auto. Qed.

Lemma parse_specs_explicit {F} `{Libc F} se l : ∀ fuel posn mr t (st : pst F), slow_ok l.*2 → items_text se l.*2 = Some t →
  (∀ pi j, pi ∈ l → j ∈ refs_of pi.1 pi.2.1 → Z.of_nat (S j) ≤ INT_MAX) → (∀ pi, pi ∈ l → d_arg pi.2.1 = None → star_count pi.2.1 = 0) →
  (length l < fuel)%nat →
  parse_specs fuel (pitems_chars l) posn mr st = Go (explicit_specs l, posn, all_refs l mr) st.
Proof.
  induction l as [|[p [d lt]] l IH]; intros fuel posn mr t st [Hok Hsl] Ht Hrefs Hnone Hf; (destruct fuel as [|fuel]; [cbn in Hf; lia|]); [done|].
  rewrite fmap_cons in *. apply Forall_cons in Hok as [[Hd Hlit] Hok]. apply Forall_cons in Hsl as [Hm Hsl]. cbn [fst snd] in *.
  cbn [items_text] in Ht. destruct (directive_text se d) as [u|] eqn:Eu; [|done]. cbn in Ht.
  destruct (items_text se l.*2) as [v|] eqn:Ev; [|done].
  cbn [pitems_chars parse_specs]. unfold plift, mbind, P_bind. cbn [deref]. change (37 =? 0) with false. cbv iota.
  rewrite (parse_explicit se p d posn mr lt (pitems_chars l) u) by
    (done || (by apply pitems_find) || (intros j Hj; apply (Hrefs (p, (d, lt)) j); [set_solver|done]) || (apply (Hnone (p, (d, lt))); set_solver)).
  change (next_fmt (explicit_spec p d lt (pitems_chars l))) with (pitems_chars l).
  rewrite (IH fuel (posn + 0) (max_refs p d mr) v); [|by split|done|intros pi j Hpi; apply Hrefs; set_solver|intros pi Hpi; apply Hnone; set_solver|cbn in Hf; lia].
  by rewrite Z.add_0_r.
Qed.

(** How many arguments there are *)
Lemma star_ref_bounds w k mr n : (w = true → Z.of_nat (S k) ≤ n) → mr ≤ n →
  mr ≤ star_ref w k mr ≤ n ∧ (w = true → Z.of_nat (S k) ≤ star_ref w k mr).
Proof. intros Hk Hm. unfold star_ref. destruct w; [specialize (Hk eq_refl)|]; split; try done; lia. Qed.

Lemma elem_refs p d j : j ∈ refs_of p d ↔
  width_star d = true ∧ j = at_width p ∨ prec_star d = true ∧ j = at_prec p ∨ has_arg d = true ∧ j = at_data p.
Proof. unfold refs_of, width_star, prec_star, has_arg. destruct (d_width d), (d_prec d), (d_arg d); set_solver. Qed.

Lemma max_refs_bounds p d mr n : (∀ j, j ∈ refs_of p d → Z.of_nat (S j) ≤ n) → mr ≤ n →
  mr ≤ max_refs p d mr ≤ n ∧ ∀ j, j ∈ refs_of p d → Z.of_nat (S j) ≤ max_refs p d mr.
Proof.
  intros Hr Hm. unfold max_refs.
  destruct (star_ref_bounds (has_arg d) (at_data p) mr n) as [B1 S1]; [intros; apply Hr, elem_refs; auto|done|]. set (m1 := star_ref _ _ mr) in *.
  destruct (star_ref_bounds (width_star d) (at_width p) m1 n) as [B2 S2]; [intros; apply Hr, elem_refs; auto|lia|]. set (m2 := star_ref _ _ m1) in *.
  destruct (star_ref_bounds (prec_star d) (at_prec p) m2 n) as [B3 S3]; [intros; apply Hr, elem_refs; auto|lia|]. split; [lia|].
  intros j [[Hs ->]|[[Hs ->]|[Hs ->]]]%elem_refs; [specialize (S2 Hs)|specialize (S3 Hs)|specialize (S1 Hs)]; lia.
Qed.

Lemma all_refs_bounds l n : ∀ mr, (∀ pi j, pi ∈ l → j ∈ refs_of pi.1 pi.2.1 → Z.of_nat (S j) ≤ n) → mr ≤ n →
  mr ≤ all_refs l mr ≤ n ∧ ∀ pi j, pi ∈ l → j ∈ refs_of pi.1 pi.2.1 → Z.of_nat (S j) ≤ all_refs l mr.
Proof.
  induction l as [|[p [d t]] l IH]; intros mr Hr Hm; [cbn; split; [lia|set_solver]|].
  destruct (max_refs_bounds p d mr n) as [Hb Hj]; [intros j Hj; apply (Hr (p, (d, t)) j); [set_solver|done]|done|].
  destruct (IH (max_refs p d mr)) as [Hb' Hj']; [intros pi j Hpi; apply Hr; set_solver|lia|].
  change (all_refs ((p, (d, t)) :: l) mr) with (all_refs l (max_refs p d mr)). split; [lia|].
  intros pi j Hpi Hin. apply elem_of_cons in Hpi as [->|Hpi]; [|by apply (Hj' pi)]. specialize (Hj j Hin). lia.
Qed.

(** ** Types and values *)

Section Values.
Context {F : Type} `{Sink F} `{Libc F}.

(** An argument of type [t] is read as [a]. *)
Definition suits (t : Z) (a : varg) : Prop := ∀ ap r done (o : F), r_ap r = a :: ap →
  arg_value t (state done o r) = Go (canon a) (state done o (with_ap ap r)).

(** The types of the arguments [refs] are known. *)
Definition typed (args : list varg) (types : list Z) (refs : nat → Prop) : Prop :=
  length types = length args ∧ ∀ j, refs j → ∃ t a, types !! j = Some t ∧ args !! j = Some a ∧ suits t a.

Lemma set_typed args types (refs : nat → Prop) k t a : typed args types refs → args !! k = Some a → suits t a →
  ∃ types', set_type (Z.of_nat k) t types = Ok types' ∧ typed args types' (λ j, j = k ∨ refs j).
Proof.
  intros [Hl Hr] Ha Hs. pose proof (lookup_lt_Some _ _ _ Ha) as Hk. unfold set_type.
  destruct (Z.leb_spec 0 (Z.of_nat k)); [|lia]. destruct (Z.ltb_spec (Z.of_nat k) (Z.of_nat (length types))); [|lia]. cbn [andb].
  eexists. split; [done|]. rewrite Nat2Z.id. split; [by rewrite length_insert|]. intros j Hj.
  destruct (decide (j = k)) as [->|Hne]; [exists t, a; by rewrite list_lookup_insert_eq by lia|].
  destruct Hj as [?|Hj]; [done|]. rewrite list_lookup_insert_ne by done. by apply Hr.
Qed.

Lemma typed_weaken args types (r1 r2 : nat → Prop) : typed args types r1 → (∀ j, r2 j → r1 j) → typed args types r2.
Proof. intros [Hl Hr] Hw. split; [done|]. auto. Qed.

Lemma suits_int z : suits PA_INT (VInt z).
Proof. intros ap r done o E. by apply arg_value_int. Qed.

Lemma spec_typed se args types (refs : nat → Prop) p d t f u : typed args types refs → agrees args p d → slow_mod_ok (d_mod d) = true →
  directive_text se d = Some u →
  ∃ types', spec_types (explicit_spec p d t f) types = Ok types' ∧ typed args types' (λ j, j ∈ refs_of p d ∨ refs j).
Proof.
  intros Hty [Aw Ap Aa An] Hm Ht. unfold spec_types, explicit_spec. cbn [width_arg prec_arg ndata_args data_arg data_arg_type].
  assert (∃ t1, (if negb ((match d_width d with ArgWidth _ => Z.of_nat (at_width p) | _ => -1 end) =? -1)
    then set_type (match d_width d with ArgWidth _ => Z.of_nat (at_width p) | _ => -1 end) PA_INT types else Ok types) = Ok t1 ∧
    typed args t1 (λ j, width_star d = true ∧ j = at_width p ∨ refs j)) as (t1 & -> & H1).
  { unfold width_star. destruct (d_width d) as [|n|z]; [exists types; split; [done|]; apply (typed_weaken _ _ _ _ Hty); naive_solver..|].
    destruct (Z.eqb_spec (Z.of_nat (at_width p)) (-1)); [lia|].
    destruct (set_typed args types refs (at_width p) PA_INT (VInt z) Hty (Aw z eq_refl) (suits_int z)) as (t1 & E & H1).
    exists t1. split; [done|]. apply (typed_weaken _ _ _ _ H1). naive_solver. }
  cbn [mbind res_bind].
  assert (∃ t2, (if negb ((match d_prec d with ArgPrec _ => Z.of_nat (at_prec p) | _ => -1 end) =? -1)
    then set_type (match d_prec d with ArgPrec _ => Z.of_nat (at_prec p) | _ => -1 end) PA_INT t1 else Ok t1) = Ok t2 ∧
    typed args t2 (λ j, prec_star d = true ∧ j = at_prec p ∨ width_star d = true ∧ j = at_width p ∨ refs j)) as (t2 & -> & H2).
  { unfold prec_star. destruct (d_prec d) as [| |n|z]; [exists t1; split; [done|]; apply (typed_weaken _ _ _ _ H1); naive_solver..|].
    destruct (Z.eqb_spec (Z.of_nat (at_prec p)) (-1)); [lia|].
    destruct (set_typed args t1 _ (at_prec p) PA_INT (VInt z) H1 (Ap z eq_refl) (suits_int z)) as (t2 & E & H2).
    exists t2. split; [done|]. apply (typed_weaken _ _ _ _ H2). naive_solver. }
  cbn [mbind res_bind]. rewrite (data_count_arg _ _ _ Ht). destruct (d_arg d) as [a|] eqn:Ea; cbn [option_list length].
  - destruct (set_typed args t2 _ (at_data p) (spec_type (parsed_info d)).1 a H2 (Aa a eq_refl)) as (t3 & -> & H3).
    { intros ap r dn o Eap. by eapply arg_value_ok. }
    exists t3. split; [done|]. apply (typed_weaken _ _ _ _ H3). intros j. rewrite elem_refs. unfold has_arg. rewrite Ea. naive_solver.
  - exists t2. split; [done|]. apply (typed_weaken _ _ _ _ H2). intros j. rewrite elem_refs. unfold has_arg. rewrite Ea. naive_solver.
Qed.

Lemma fill_typed se args l : ∀ types (refs : nat → Prop) t, typed args types refs → Forall (λ pi, agrees args pi.1 pi.2.1) l →
  Forall (λ it, slow_mod_ok (d_mod it.1) = true) l.*2 → items_text se l.*2 = Some t →
  ∃ types', fill_types (explicit_specs l) types = Ok types' ∧
    typed args types' (λ j, (∃ pi, pi ∈ l ∧ j ∈ refs_of pi.1 pi.2.1) ∨ refs j).
Proof.
  induction l as [|[p [d lt]] l IH]; intros types refs t Hty Hag Hsl Ht.
  { exists types. split; [done|]. apply (typed_weaken _ _ _ _ Hty). intros j [(pi & Hpi & _)|?]; [by apply not_elem_of_nil in Hpi|done]. }
  rewrite fmap_cons in *. apply Forall_cons in Hag as [Ha Hag]. apply Forall_cons in Hsl as [Hm Hsl]. cbn [fst snd] in *.
  cbn [items_text] in Ht. destruct (directive_text se d) as [u|] eqn:Eu; [|done]. cbn in Ht. destruct (items_text se l.*2) as [v|] eqn:Ev; [|done].
  cbn [explicit_specs fill_types].
  destruct (spec_typed se args types refs p d lt (pitems_chars l) u Hty Ha Hm Eu) as (t1 & -> & H1). cbn [mbind res_bind].
  destruct (IH t1 _ v H1 Hag Hsl eq_refl) as (t2 & -> & H2). exists t2. split; [done|]. apply (typed_weaken _ _ _ _ H2).
  intros j [(pi & [->|Hpi]%elem_of_cons & Hj)|Hj]; [right; by left|left; by exists pi|right; by right].
Qed.

Lemma fill_values_suits types args : Forall2 suits types args → ∀ r ap done (o : F), r_ap r = args ++ ap →
  fill_values types (state done o r) = Go (canon <$> args) (state done o (with_ap ap r)).
Proof.
  induction 1 as [|t a types args Hs Hrest IH]; intros r ap done o E; cbn [app] in E.
  { rewrite <-E. by destruct r. }
  cbn [fill_values]. unfold mbind, P_bind. rewrite (Hs _ r done o E). rewrite (IH (with_ap (args ++ ap) r) ap) by done. done.
Qed.
End Values.

(** ** The call *)

Section Calls.
Context {F : Type} `{Sink F} `{Libc F} `{!SinkLaws F} `{!PlainLibc F}.
Variable se : Z.

Lemma explicit_refers args p d t f : agrees args p d → refers (canon <$> args) d (explicit_spec p d t f).
Proof.
  intros [Aw Ap Aa _]. constructor; [done|..]; cbn [width_arg prec_arg data_arg explicit_spec].
  - destruct (d_width d) as [|n|z]; [done..|]. split; [lia|]. by rewrite Nat2Z.id, list_lookup_fmap, (Aw z eq_refl).
  - destruct (d_prec d) as [| |n|z]; [done..|]. split; [lia|]. by rewrite Nat2Z.id, list_lookup_fmap, (Ap z eq_refl).
  - destruct (d_arg d) as [a|]; [|done]. split; [lia|]. by rewrite Nat2Z.id, list_lookup_fmap, (Aa a eq_refl).
Qed.

Lemma explicit_specs_refer args (l : list pitem) : Forall (λ pi, agrees args pi.1 pi.2.1) l →
  Forall2 (λ it s, refers (canon <$> args) it.1 s ∧ const_after s = it.2) l.*2 (explicit_specs l).
Proof.
  induction 1 as [|[p [d t]] l Ha Hag IH]; [constructor|]. cbn [explicit_specs]. rewrite fmap_cons. constructor; [|done].
  split; [by apply explicit_refers|done].
Qed.

Lemma refs_bound args (l : list pitem) pi j : Forall (λ pi, agrees args pi.1 pi.2.1) l → pi ∈ l → j ∈ refs_of pi.1 pi.2.1 → (j < length args)%nat.
Proof.
  intros Hag Hpi Hj. apply (proj1 (Forall_forall _ _) Hag) in Hpi as [Aw Ap Aa _]. apply elem_refs in Hj.
  destruct Hj as [[Hs ->]|[[Hs ->]|[Hs ->]]]; unfold width_star, prec_star, has_arg in Hs.
  - destruct (d_width pi.2.1) as [| |z]; [discriminate Hs..|]. exact (lookup_lt_Some _ _ _ (Aw z eq_refl)).
  - destruct (d_prec pi.2.1) as [| | |z]; [discriminate Hs..|]. exact (lookup_lt_Some _ _ _ (Ap z eq_refl)).
  - destruct (d_arg pi.2.1) as [a|]; [|discriminate Hs]. exact (lookup_lt_Some _ _ _ (Aa a eq_refl)).
Qed.

(** As many arguments are collected as there are. *)
Lemma all_refs_count args (l : list pitem) : explicit_ok args l → Z.max 0 (all_refs l 0) = Z.of_nat (length args).
Proof.
  intros [_ Hag Hnamed _ _].
  destruct (all_refs_bounds l (Z.of_nat (length args)) 0) as [Hb Hj]; [|lia|].
  { intros pi j Hpi Hin. pose proof (refs_bound args l pi j Hag Hpi Hin). lia. }
  destruct (decide (length args = 0%nat)); [lia|]. destruct (Hnamed (length args - 1)%nat ltac:(lia)) as (pi & Hpi & Hin).
  specialize (Hj pi _ Hpi Hin). lia.
Qed.

Lemma emits_explicit done r args extra l t : explicit_ok args l → no_rule r → r_nspecs r = 0%nat →
  items_text (lc_strerror_r se) l.*2 = Some t →
  ∃ r', emits (F := F) done r (printf_positional se (args ++ extra) (pitems_chars l)) tt t r' ∧
    r_mem r' = r_mem r ++ items_stores (lc_strerror_r se) done l.*2.
Proof.
  intros Hl Hr Hn Ht. pose proof Hl as [[Hok Hsl] Hag Hnamed _ Hcount]. unfold printf_positional.
  set (r1 := with_grouping NoGrouping r). set (r2 := with_ap (args ++ extra) r1). set (r3 := with_ap extra r2).
  destruct (emits_slow_items se _ _ _ (explicit_specs_refer args l Hag) done r3 t Hok eq_refl Ht) as (r' & Hem & Em).
  exists r'. split; [|exact Em].
  eapply emits_bind_silent with (r1 := r1) (a := tt).
  { intros o. unfold ask_grouping_positional, mbind, P_bind, pget. cbn [p_grouping state]. destruct Hr as [-> | E].
    - destruct pl_grouping as (g & gl & -> & [-> | ->]); done.
    - rewrite E. unfold r1. destruct r; cbn in *. by subst. }
  eapply emits_bind_silent with (r1 := r1) (a := (explicit_specs l, 0, all_refs l 0)).
  { intros o. eapply parse_specs_explicit; [by split|exact Ht|..].
    - intros pi j Hpi Hin. pose proof (refs_bound args l pi j Hag Hpi Hin). unfold INT_MAX, EXTSIZ in *. lia.
    - intros pi Hpi. by apply (proj1 (Forall_forall _ _) Hag) in Hpi as [_ _ _ ?].
    - clear. induction l as [|[p [d u]] l IH]; [cbn; lia|]. cbn [pitems_chars length].
      unfold pchars, directive_chars, end_chars. destruct (d_arg d); rewrite !length_app; cbn [length]; rewrite length_app; lia. }
  cbv beta iota zeta. rewrite (all_refs_count args l Hl), pl_alloc. cbn [negb].
  set (types0 := replicate _ _).
  assert (typed (F := F) args types0 (λ _, False)) as H0t by (split; [unfold types0; rewrite length_replicate; lia|done]).
  destruct (fill_typed (F := F) (lc_strerror_r se) args l types0 _ t H0t Hag Hsl Ht) as (types & Eft & [Hlen Hty]).
  eapply emits_bind_silent with (r1 := r1) (a := types); [intros o; unfold plift; by rewrite Eft|].
  eapply emits_bind_silent with (r1 := r2) (a := tt); [done|].
  eapply emits_bind_silent with (r1 := r3) (a := canon <$> args).
  { intros o. unfold r3. apply fill_values_suits; [|done]. apply Forall2_same_length_lookup. split; [done|].
    intros j ty a Ety Ea. destruct (Hty j) as (ty' & a' & E1 & E2 & Hs); [left; apply Hnamed; by eapply lookup_lt_Some|]. by simplify_eq. }
  cbv beta. eapply emits_bind_silent with (r1 := r3) (a := 0%nat).
  { intros o. unfold pget. cbn. by rewrite Hn. }
  exact Hem.
Qed.

(** The fast loop leaves at a directive with a position. *)
Lemma first_positional k f fuel (st : pst F) : Z.of_nat (S k) < INT_MAX - EXTSIZ → (0 < fuel)%nat →
  vf_loop fuel se (37 :: dollar k ++ f) st = Positional st.
Proof.
  intros Hk Hf. destruct fuel as [|fuel]; [lia|]. cbn [vf_loop next tl]. unfold mbind at 1, P_bind at 1.
  assert (do_spec se (dollar k ++ f) info0 st = Positional st) as ->; [|done].
  destruct (dollar_digit k f) as (x & f' & E & Hx & _); [unfold INT_MAX, EXTSIZ in *; lia|].
  assert (do_spec se (dollar k ++ f) info0 = do_width se (dollar k ++ f) (set_spec x info0)) as ->.
  { rewrite E. clear -Hx. assert (x ∈ seqZ 49 9) as Hin by (apply elem_of_seqZ; lia). vm_compute in Hin.
    repeat (apply elem_of_cons in Hin as [->|Hin]; [reflexivity|]). by apply not_elem_of_nil in Hin. }
  unfold do_width, dollar. rewrite <-app_assoc. cbn [app].
  rewrite read_int_show by (done || unfold INT_MAX, EXTSIZ in *; lia). unfold plift, mbind, P_bind. cbn [fst snd width set_width].
  destruct (width_buffer_silent (F := F) (Z.of_nat (S k))) as (work & Ew & _); [lia|]. by rewrite Ew.
Qed.
End Calls.

(** ** Theorems *)

(** C11: explicit positions.  On a format whose directives name their arguments by
    position, in any order and any number of times, [vfprintf] leaves the fast loop
    and writes the text of the directives, each with the arguments it names; result,
    failures and ["%n"] stores are as for any other format, and nothing faults.  The
    formats meant are those in which the first directive takes an argument, no directive uses
    the modifiers [L] and [q], every argument up to the last is named by some
    directive, as POSIX demands, the directives that name one agree on how it is
    passed, and directives without an argument, such as ["%%"], have no ["*"]. *)
Theorem explicit_positions_render {F : Type} `{Sink F} `{Libc F} `{!SinkLaws F} `{!PlainLibc F} lead l args extra errno (s : F) t :
  sink_ok s → literal lead → explicit_ok args l → items_text (lc_strerror_r errno) l.*2 = Some t →
  Z.of_nat (length (lead ++ t)) ≤ INT_MAX → fits s (lead ++ t) →
  ∃ ok s', took s s' (lead ++ t) ok ∧
    returned (vfprintf (lead ++ pitems_chars l) (args ++ extra) errno s) =
      Some (if ok : bool then Z.of_nat (length (lead ++ t)) else -1, s') ∧
    (ok = true → ∃ st, vfprintf (lead ++ pitems_chars l) (args ++ extra) errno s = Go tt st ∧
      p_mem st = items_stores (lc_strerror_r errno) (Z.of_nat (length lead)) l.*2).
Proof.
  intros Hs Hlead Hl Ht Hlen Hfits. unfold vfprintf. rewrite pitems_find by done.
  set (r0 := mkR (args ++ extra) [] Unasked errno 0). change (mkP 0 s _ [] Unasked errno 0) with (state 0 s r0).
  pose proof Hlen as Hlen'. rewrite length_app in Hlen'.
  destruct (emits_outstring (F := F) 0 r0 lead (literal_bytes _ Hlead) s Hs (fits_l _ _ _ Hfits)) as (ok1 & s1 & Htk1 & E1); [lia..|].
  cbv beta delta [mbind P_bind]. destruct ok1.
  2: { destruct E1 as (st & E1 & Ed & <-). exists false, (p_out st). rewrite E1. split; [by apply took_more|]. split; [cbn; by rewrite Ed|done]. }
  rewrite E1. set (st1 := state (0 + Z.of_nat (length lead)) s1 r0).
  assert (vfprintf_body errno (pitems_chars l) st1 = Positional st1) as ->.
  { pose proof Hl as [_ Hag _ (p & d & lt & a & l' & -> & Ea) Hcount]. apply Forall_cons in Hag as [[_ _ Aa _] _].
    pose proof (lookup_lt_Some _ _ _ (Aa a Ea)). cbn [fst snd] in *. unfold vfprintf_body. cbn [pitems_chars deref]. unfold pchars. rewrite Ea.
    unfold plift, mbind at 1, P_bind at 1. change (37 =? 0) with false. cbv iota. apply first_positional; [lia|cbn; lia]. }
  destruct (emits_explicit errno (0 + Z.of_nat (length lead)) r0 args extra l t Hl (or_introl eq_refl) eq_refl Ht) as (r' & Hem & Em).
  destruct (Hem s1 (took_ok _ _ _ _ Htk1) (fits_r _ _ _ _ Hfits Htk1) ltac:(lia) ltac:(lia)) as (ok & s' & Htk & E).
  exists ok, s'. split; [by eapply took_app|]. unfold st1. destruct ok.
  - rewrite E. split; [cbn; do 3 f_equal; rewrite length_app; lia|]. intros _. eexists. split; [done|exact Em].
  - destruct E as (st & -> & Ed & <-). split; [cbn; by rewrite Ed|done].
Qed.

(** ["%2$s:%1$0*3$d%%"] *)
Definition sample_explicit : list pitem :=
  [(mkPos 1 0 0, (mkD [] NoWidth NoPrec NoMod Conv_s (Some (VPtr 4096 (lit "abc" ++ [0]))), lit ":"));
   (mkPos 0 2 0, (mkD [FZero] (ArgWidth 4) NoPrec NoMod Conv_d (Some (VInt 42)), []));
   (mkPos 0 0 0, (mkD [] NoWidth NoPrec NoMod Conv_percent None, []))].
Definition sample_args : list varg := [VInt 42; VPtr 4096 (lit "abc" ++ [0]); VInt 4].

Lemma sample_explicit_ok : explicit_ok sample_args sample_explicit.
Proof.
  constructor.
  - split; [|by repeat constructor]. repeat (apply Forall_cons_2; [split; [|by apply literalb_ok]|]); [..|apply Forall_nil_2];
      constructor; cbn; unfold INT_MAX, EXTSIZ; try done; try (split; reflexivity).
    change (bytes_ok (lit "abc" ++ [0])). apply Forall_app. split; [apply lit_bytes|by repeat constructor].
  - repeat (apply Forall_cons_2; [constructor; cbn; intros; by simplify_eq|]). apply Forall_nil_2.
  - intros j Hj. destruct j as [|[|[|j]]]; [| | |cbn in Hj; lia]; eexists; split;
      [by apply (list_elem_of_lookup_2 _ 1)|cbn; set_solver|by apply (list_elem_of_lookup_2 _ 0)|cbn; set_solver|by apply (list_elem_of_lookup_2 _ 1)|cbn; set_solver].
  - by repeat eexists.
  - by vm_compute.
Qed.

Lemma explicit_positions_render_witness :
  returned (vfprintf (F := list Z) (H0 := c_libc _) (lit "= %2$s:%1$0*3$d%%" ++ [0]) sample_args 0 []) = Some (11, lit "= abc:0042%").
Proof.
  destruct (explicit_positions_render (F := list Z) (H0 := c_libc _) (PlainLibc0 := c_libc_plain _) (lit "= ") sample_explicit sample_args [] 0 [] (lit "abc:0042%"))
    as (ok & s' & (-> & ->) & E & _).
  - exact I.
  - by apply literalb_ok.
  - exact sample_explicit_ok.
  - by vm_compute.
  - by vm_compute.
  - exact I.
  - exact E.
Defined.
