(* ===== verification/PrintfUnbuffered.v ===== *)
(** * glibc: formatted output to unbuffered streams

    [buffered_vfprintf] of [glibc-2.27/stdio-common/vfprintf.c]: a call on an
    unbuffered stream (the standard error stream) formats into a buffer of
    [_IO_BUFSIZ] bytes on the stack, whose stream hands what it holds to the target
    when it is full, and flushes the rest at the end.

    A target that takes only a part of the buffer does not end the call: the
    helper moves the rest to the front of the buffer and goes on.  The interface [ExactSink]
    says what it needs of the target, namely that it took as many bytes as it
    reports; unbuffered files have it. *)

From S2P Require Import Prelude CString Machine StdioWrite Itoa Printf PrintfFast PrintfText PrintfFormat PrintfStreams.

(** ** The helper stream *)

Definition BUFSIZ : nat := Z.to_nat 8192.

(** [struct helper_file]: the bytes from [_IO_write_base] to [_IO_write_ptr] and
    [_put_stream] *)
Record helper_file (F : Type) := mkHelper { h_area : list Z; h_put : F }.
Arguments mkHelper {F} h_area h_put.
Arguments h_area {F} h.
Arguments h_put {F} h.

Section Ops.
Context {F : Type} `{Sink F}.

(** [static int _IO_helper_overflow (_IO_FILE *s, int c)], which ends with another
    [_IO_putc_unlocked]; whether it returns something else than EOF *)
Fixpoint helper_overflow (fuel : nat) (c : Z) (h : helper_file F) : res (bool * helper_file F) :=
  match fuel with
  | O => Bad Unspecified
  | S fuel' =>
      r ← (match h_area h with
           | [] => Ok (true, h)
           | _ =>
               r ← sputn (h_area h) (h_put h);
               let '(written, target) := r in
               if (written =? 0) || (written =? uint64 EOF) then Ok (false, mkHelper (h_area h) target)
               else if decide (written ≤ Z.of_nat (length (h_area h))) then
                 Ok (true, mkHelper (drop (Z.to_nat written) (h_area h)) target)
               else Bad OutOfBounds
           end);
      let '(ok, h) := r in
      if negb ok then Ok (false, h)
      else if decide (BUFSIZ ≤ length (h_area h))%nat then helper_overflow fuel' c h
      else Ok (true, mkHelper (h_area h ++ [uint8 c]) (h_put h))
  end.

(** [_IO_putc_unlocked (c, hp)] *)
Definition helper_putc (c : Z) (h : helper_file F) : res (bool * helper_file F) :=
  if decide (BUFSIZ ≤ length (h_area h))%nat then helper_overflow 2 (uint8 c) h
  else Ok (true, mkHelper (h_area h ++ [uint8 c]) (h_put h)).

(** [_IO_default_xsputn (hp, data, n)]: the loop, with what is left *)
Fixpoint helper_loop (fuel : nat) (d : list Z) (h : helper_file F) : res (nat * helper_file F) :=
  match fuel with
  | O => Bad Unspecified
  | S fuel' =>
      let count := Nat.min (BUFSIZ - length (h_area h)) (length d) in
      let h := mkHelper (h_area h ++ take count d) (h_put h) in
      match drop count d with
      | [] => Ok (0%nat, h)
      | c :: d' =>
          r ← helper_overflow 2 (uint8 c) h;
          let '(ok, h) := r in
          if ok : bool then helper_loop fuel' d' h else Ok (S (length d'), h)
      end
  end.
Definition helper_xsputn (d : list Z) (h : helper_file F) : res (Z * helper_file F) :=
  match d with
  | [] => Ok (0, h)
  | _ => r ← helper_loop (S (length d)) d h; Ok (Z.of_nat (length d - r.1), r.2)
  end.

#[global] Instance helper_sink : Sink (helper_file F) := {| sputn := helper_xsputn; sputc := helper_putc |}.

(** [static int buffered_vfprintf (_IO_FILE *s, const CHAR_T *format, _IO_va_list args)]:
    the result and the stream *)
Definition buffered_vfprintf `{Libc (helper_file F)} (format : list Z) (ap : list varg) (errno : Z) (s : F) : res (option (Z * F)) :=
  r ← finished (vfprintf format ap errno (mkHelper [] s));
  match r with
  | None => Ok None
  | Some (result, h) =>
      let to_flush := int32 (Z.of_nat (length (h_area h))) in
      if 0 <? to_flush then
        r ← sputn (h_area h) (h_put h);
        Ok (Some (if negb (int32 r.1 =? to_flush) then -1 else result, r.2))
      else Ok (Some (result, h_put h))
  end.
End Ops.

(** ** Streams that report exactly what they took *)

(** [gets s s' d]: from [s] to [s'] the stream took [d], and nothing else. *)
Class ExactSink (F : Type) `{Sink F} := {
  ex_ok : F → Prop;
  gets : F → F → list Z → Prop;
  gets_ok s s' d : gets s s' d → ex_ok s';
  gets_nil s : ex_ok s → gets s s [];
  gets_app s s1 s2 d1 d2 : gets s s1 d1 → gets s1 s2 d2 → gets s s2 (d1 ++ d2);
  sputn_gets d s : ex_ok s → d ≠ [] → bytes_ok d →
    ∃ k s', sputn d s = Ok (Z.of_nat k, s') ∧ (k ≤ length d)%nat ∧ gets s s' (take k d);
}.

Section Laws.
Context {F : Type} `{Sink F} `{!ExactSink F}.

Definition helper_ok (h : helper_file F) : Prop := (length (h_area h) ≤ BUFSIZ)%nat ∧ bytes_ok (h_area h) ∧ ex_ok (h_put h).

(** From [h] to [h'] the target got what was in the buffer and then the bytes [d],
    except for those that are in the buffer now, and for [r] at the end when it failed. *)
Definition handed (h h' : helper_file F) (d r : list Z) : Prop :=
  helper_ok h' ∧ ∃ x, h_area h ++ d = x ++ h_area h' ++ r ∧ gets (h_put h) (h_put h') x.

Lemma handed_app h h1 h2 d1 d2 r : handed h h1 d1 [] → handed h1 h2 d2 r → handed h h2 (d1 ++ d2) r.
Proof.
  intros (_ & x1 & E1 & G1) (Hok & x2 & E2 & G2). split; [done|]. exists (x1 ++ x2). split; [|by eapply gets_app].
  rewrite app_nil_r in E1. by rewrite app_assoc, E1, <-app_assoc, E2, <-app_assoc.
Qed.

Lemma handed_more h h' d r e : handed h h' d r → handed h h' (d ++ e) (r ++ e).
Proof. intros (Hok & x & E & G). split; [done|]. exists x. split; [|done]. by rewrite app_assoc, E, <-!app_assoc. Qed.

Lemma one_byte c : is_byte c → bytes_ok [c].
Proof. intros Hc. constructor; [done|constructor]. Qed.

(** Bytes that fit into the buffer *)
Lemma handed_room h d : helper_ok h → bytes_ok d → (length (h_area h) + length d ≤ BUFSIZ)%nat →
  handed h (mkHelper (h_area h ++ d) (h_put h)) d [].
Proof.
  intros (Hl & Hb & Ht) Hd Hr. split.
  - split_and!; cbn [h_area h_put]; [rewrite length_app; lia|by apply Forall_app|done].
  - exists []. split; [by rewrite app_nil_r|by apply gets_nil].
Qed.

Lemma overflow_handed c h : helper_ok h → is_byte c →
  ∃ ok h', helper_overflow 2 c h = Ok (ok, h') ∧ handed h h' [c] (if ok : bool then [] else [c]).
Proof.
  intros Hh Hc. pose proof Hh as (Hl & Hb & Ht). cbn [helper_overflow]. rewrite (uint8_small c) by exact Hc.
  destruct (h_area h) as [|x a] eqn:Ea.
  { cbn [mbind res_bind negb]. rewrite decide_False by (rewrite Ea; unfold BUFSIZ; cbn [length]; lia).
    eexists true, _. split; [done|]. apply handed_room; [done|by apply one_byte|]. rewrite Ea. unfold BUFSIZ. cbn [length]. lia. }
  rewrite <-Ea in *. destruct (sputn_gets (h_area h) (h_put h) Ht ltac:(by rewrite Ea) Hb) as (k & t & -> & Hk & Hg).
  cbn [mbind res_bind]. change (uint64 EOF) with (2 ^ 64 - 1).
  assert (Z.of_nat k =? 2 ^ 64 - 1 = false) as -> by (apply Z.eqb_neq; unfold BUFSIZ in Hl; lia). rewrite orb_false_r.
  destruct (Z.eqb_spec (Z.of_nat k) 0) as [E0|E0]; cbn [mbind res_bind negb].
  - replace k with 0%nat in Hg by lia. rewrite take_0 in Hg. eexists false, _. split; [done|]. split.
    + split_and!; cbn; [done|done|by eapply gets_ok].
    + exists []. by split.
  - rewrite decide_True by lia. cbn [mbind res_bind negb h_area h_put]. rewrite Nat2Z.id.
    rewrite decide_False by (rewrite length_drop; lia). eexists true, _. split; [done|]. split.
    + split_and!; cbn [h_area h_put]; [rewrite length_app, length_drop; cbn [length]; lia| |by eapply gets_ok].
      apply Forall_app. split; [by apply Forall_drop|by apply one_byte].
    + exists (take k (h_area h)). cbn [h_area h_put]. split; [|done]. by rewrite app_nil_r, app_assoc, take_drop.
Qed.

Lemma putc_handed c h : helper_ok h → is_byte c →
  ∃ ok h', helper_putc c h = Ok (ok, h') ∧ handed h h' [c] (if ok : bool then [] else [c]).
Proof.
  intros Hh Hc. unfold helper_putc. rewrite (uint8_small c) by exact Hc. destruct (decide _) as [E|E]; [by apply overflow_handed|].
  eexists true, _. split; [done|]. apply handed_room; [done|by apply one_byte|cbn [length]; lia].
Qed.

Lemma loop_handed fuel : ∀ d h, helper_ok h → bytes_ok d → (length d < fuel)%nat →
  ∃ h' r, helper_loop fuel d h = Ok (length r, h') ∧ handed h h' d r ∧ (length r ≤ length d)%nat.
Proof.
  induction fuel as [|fuel IH]; intros d h Hh Hd Hf; [lia|]. cbn [helper_loop].
  set (count := Nat.min (BUFSIZ - length (h_area h)) (length d)). set (h1 := mkHelper _ _).
  assert (handed h h1 (take count d) []) as H1.
  { apply handed_room; [done|by apply Forall_take|]. rewrite length_take. destruct Hh as [? _]. lia. }
  destruct (drop count d) as [|c d'] eqn:Ed.
  { exists h1, []. split; [done|]. assert (length (drop count d) = 0)%nat as E by (by rewrite Ed). rewrite length_drop in E.
    rewrite take_ge in H1 by lia. split; [done|cbn; lia]. }
  assert (length (drop count d) = S (length d')) as El by (by rewrite Ed). rewrite length_drop in El.
  assert (bytes_ok (c :: d')) as [Hc Hd']%Forall_cons by (rewrite <-Ed; by apply Forall_drop).
  assert (d = take count d ++ [c] ++ d') as Edd by (cbn [app]; by rewrite <-Ed, take_drop). rewrite (uint8_small c) by exact Hc.
  destruct (overflow_handed c h1 (proj1 H1) Hc) as (ok & h2 & -> & H2). cbn [mbind res_bind]. destruct ok.
  - destruct (IH d' h2 (proj1 H2) Hd' ltac:(lia)) as (h3 & r & E3 & H3 & Hr). exists h3, r. split; [done|]. split; [|lia].
    rewrite Edd. eapply handed_app; [done|]. by eapply handed_app.
  - exists h2, (c :: d'). split; [done|]. split; [|cbn [length]; lia].
    rewrite Edd. eapply handed_app; [done|]. apply (handed_more _ _ [c] [c] d'), H2.
Qed.

#[global] Program Instance helper_laws : SinkLaws (helper_file F) := {|
  sink_ok := helper_ok;
  fits _ _ := True;
  took h h' d ok := ∃ r, handed h h' d r ∧ if ok : bool then r = [] else r ≠ [];
|}.
Next Obligation. cbn beta. by intros h h' d ok (r & [? _] & _). Qed.
Next Obligation.
  cbn beta. intros h Hh. exists []. split; [|done]. split; [done|]. exists []. split; [done|]. apply gets_nil, Hh.
Qed.
Next Obligation. cbn beta. intros h h1 h2 d1 d2 ok (? & H1 & ->) (r & H2 & Hr). exists r. split; [by eapply handed_app|done]. Qed.
Next Obligation. cbn beta. intros h h' d e (r & H1 & Hr). exists (r ++ e). split; [by apply handed_more|by destruct r]. Qed.
Next Obligation. done. Qed.
Next Obligation. done. Qed.
Next Obligation.
  cbn beta. intros d h Hh _ Hd Hl. cbn [sputn helper_sink]. unfold helper_xsputn. destruct d as [|c d].
  - exists 0, h. split; [done|]. split; [|lia]. exists []. split; [|done]. split; [done|]. exists []. split; [done|]. apply gets_nil, Hh.
  - destruct (loop_handed (S (length (c :: d))) (c :: d) h Hh Hd ltac:(lia)) as (h' & r & -> & H1 & Hr). cbn [mbind res_bind fst snd].
    eexists _, h'. split; [done|]. split; [|lia]. exists r. split; [done|].
    destruct (Z.eqb_spec (Z.of_nat (length (c :: d) - length r)) (Z.of_nat (length (c :: d)))) as [E|E].
    + destruct r; [done|]. cbn [length] in *. lia.
    + intros ->. cbn [length] in E. lia.
Qed.
Next Obligation.
  cbn beta. intros c h Hh _ Hc. destruct (putc_handed c h Hh Hc) as (ok & h' & E & H1). exists ok, h'. split; [done|].
  eexists. split; [done|]. by destruct ok.
Qed.
End Laws.

(** ** What a call reports *)

Section Calls.
Context {F : Type} `{Sink F} `{!ExactSink F} `{Libc (helper_file F)} `{!PlainLibc (helper_file F)}.

(** The end of [buffered_vfprintf], from a helper that has got all of [text] or
    all but [r] *)
Lemma flush_reports (h : helper_file F) s text r result : handed (mkHelper [] s) h text r → r = [] ∨ result = -1 ∧ r ≠ [] →
  result = Z.of_nat (length text) ∨ result = -1 ∧ r ≠ [] →
  ∃ k ret s', (let to_flush := int32 (Z.of_nat (length (h_area h))) in
      if 0 <? to_flush then
        r ← sputn (h_area h) (h_put h);
        Ok (Some (if negb (int32 r.1 =? to_flush) then -1 else result, r.2))
      else Ok (Some (result, h_put h))) = Ok (Some (ret, s')) ∧
    gets s s' (take k text) ∧
    (ret = Z.of_nat (length text) ∧ k = length text ∨ ret = -1 ∧ (k < length text)%nat).
Proof.
  intros ((Hl & Hb & Ht) & x & E & Hg) Hr Hres. cbn [h_area h_put app] in *. cbv zeta.
  assert (length text = length x + length (h_area h) + length r)%nat as Hlen by (rewrite E, !length_app; lia).
  assert (∀ k, (k ≤ length (h_area h))%nat → take (length x + k) text = x ++ take k (h_area h)) as Htake.
  { intros k Hk. rewrite E, take_app_ge by lia. replace (length x + k - length x)%nat with k by lia. by rewrite take_app_le by lia. }
  assert (∀ k, (k ≤ length (h_area h))%nat → int32 (Z.of_nat k) = Z.of_nat k) as Hi by (intros k Hk; apply int32_small; unfold BUFSIZ in Hl; lia).
  assert (r ≠ [] → 0 < length r)%nat as Hrl by (destruct r; [done|cbn; lia]).
  rewrite Hi by lia. destruct (Z.ltb_spec 0 (Z.of_nat (length (h_area h)))) as [Hpos|Hzero].
  - destruct (sputn_gets (h_area h) (h_put h) Ht) as (k & t & -> & Hk & Hg'); [by destruct (h_area h)|done|].
    cbn [mbind res_bind fst snd]. exists (length x + k)%nat. eexists _, t. split; [done|]. split; [rewrite Htake by done; by eapply gets_app|].
    rewrite Hi by done. destruct (Z.eqb_spec (Z.of_nat k) (Z.of_nat (length (h_area h)))) as [Ek|Ek]; cbn [negb].
    + destruct Hres as [->|[-> Hne]]; [|right; split; [done|specialize (Hrl Hne); lia]].
      destruct Hr as [->|[? _]]; [left; split; [done|cbn in Hlen; lia]|lia].
    + right. split; [done|lia].
  - destruct (h_area h) eqn:Ea; [|cbn [length] in Hzero; lia]. exists (length x + 0)%nat. eexists _, _. split; [done|].
    split; [rewrite Htake by (cbn; lia); cbn; by rewrite app_nil_r|]. cbn [length] in *.
    destruct Hres as [->|[-> Hne]]; [|right; split; [done|specialize (Hrl Hne); lia]].
    destruct Hr as [->|[? _]]; [left; split; [done|cbn in Hlen; lia]|lia].
Qed.

Lemma buffered_text lead l errno s t : ex_ok s → literal lead → items_ok l → items_text (lc_strerror_r errno) l = Some t →
  Z.of_nat (length (lead ++ t)) ≤ INT_MAX →
  ∃ k ret s', buffered_vfprintf (lead ++ items_chars l) (items_args l) errno s = Ok (Some (ret, s')) ∧
    gets s s' (take k (lead ++ t)) ∧
    (ret = Z.of_nat (length (lead ++ t)) ∧ k = length (lead ++ t) ∨ ret = -1 ∧ (k < length (lead ++ t))%nat).
Proof.
  intros Hs Hlead Hl Ht Hlen. unfold buffered_vfprintf.
  assert (sink_ok (mkHelper [] s)) as Hh by (split_and!; [cbn; lia|constructor|done]).
  destruct (vfprintf_text lead l [] errno (mkHelper [] s) t) as (ok & h & (r & Hd & Hr) & E & _); try done.
  rewrite app_nil_r in E. rewrite (finished_returned _ _ E). cbn [mbind res_bind].
  eapply flush_reports; [done|destruct ok; auto|destruct ok; auto].
Qed.
End Calls.

(** ** Unbuffered files *)

Section Files.
Context `{Writes}.

(** [vfprintf (s, format, ap)] on a file, with the test of [UNBUFFERED_P] *)
Definition stream_vfprintf `{Libc ostream} `{Libc (helper_file ostream)} (format : list Z) (ap : list varg) (errno : Z) (s : ostream) :
    res (option (Z * ostream)) :=
  if o_unbuf s then buffered_vfprintf format ap errno s else finished (vfprintf format ap errno s).

Context `{!WriteLaws}.

(** A stream with [_IO_UNBUFFERED], such as the standard error stream; its buffer is
    the one byte [_shortbuf]. *)
Definition unbuf_ok (s : ostream) : Prop :=
  out_ok s ∧ o_readonly s = false ∧ o_unbuf s = true ∧ o_line s = false ∧ o_area s = [] ∧ (bufsize s ≤ 1)%nat.

Lemma start_putting_unbuf s : unbuf_ok s →
  unbuf_ok (start_putting s) ∧ o_buf (start_putting s) = Some 1%nat ∧ o_file (start_putting s) = o_file s.
Proof.
  intros (Hs & Hr & Hu & Hl & Ha & Hb). unfold start_putting, odoallocbuf. unfold out_ok in Hs.
  destruct (o_buf s) as [n|] eqn:Eb.
  - destruct Hs as (Hn & _ & Hp & He). unfold bufsize in Hb. rewrite Eb in Hb. cbn in Hb. assert (n = 1%nat) as -> by lia.
    rewrite Hp. rewrite bool_decide_true by (by eexists). cbn [negb orb].
    split_and!; try done. split_and!; try done; [|unfold bufsize; by rewrite Eb]. unfold out_ok. rewrite Eb, Ha. split_and!; done || (cbn; lia).
  - destruct Hs as (_ & _ & Hp). rewrite Hp. cbn [negb orb]. rewrite Hu. cbn. rewrite ?Hu, ?Hl. cbn.
    split_and!; try done. split_and!; try done. unfold out_ok. cbn. rewrite ?Hu, ?Hl. cbn. split_and!; done || lia.
Qed.

(** An unbuffered file reports the bytes that are in the file. *)
Lemma xsputn_unbuf d s : unbuf_ok s → d ≠ [] →
  ∃ k s', file_xsputn d s = Ok (Z.of_nat k, s') ∧ (k ≤ length d)%nat ∧ unbuf_ok s' ∧ o_file s' = o_file s ++ take k d.
Proof.
  intros Hs Hd. pose proof Hs as (Hok & Hr & Hu & Hl & Ha & _). unfold file_xsputn, xsputn_room.
  assert (o_end s = 0%nat) as He by (unfold out_ok in Hok; destruct (o_buf s); [destruct Hok as (_ & _ & _ & ->); by rewrite Hu, orb_true_r|by destruct Hok as (_ & ? & _)]).
  rewrite decide_False by (by destruct d). rewrite Hl, Ha, He. cbn [andb]. rewrite decide_False by (cbn; lia). cbn [Nat.min].
  rewrite take_0, drop_0. cbn [app]. rewrite bool_decide_false by (by destruct d). cbn [andb].
  assert (put_area [] 0 s = s) as Eput by (unfold put_area; rewrite <-Ha, <-He; by destruct s). rewrite Eput.
  unfold overflow. rewrite Hr. destruct (start_putting_unbuf s Hs) as ((Hok1 & Hr1 & Hu1 & Hl1 & Ha1 & _) & Hb1 & Hf1).
  set (s1 := start_putting s) in *. clearbody s1. unfold do_flush. rewrite Ha1. cbn [do_write mbind res_bind negb].
  unfold bufsize. rewrite Hb1. cbn [default]. rewrite (decide_False (P := (128 ≤ 1)%nat)) by lia. rewrite Nat.sub_0_r.
  rewrite decide_False by (by destruct d). rewrite take_ge by lia.
  destruct (new_do_write_spec d s1) as (k & s2 & -> & Hk & Hf2 & Hk2 & Ha2 & He2 & _). cbn [mbind res_bind].
  unfold okind in Hk2. injection Hk2 as K1 K2 K3 K4 K5.
  assert (unbuf_ok s2) as Hs2.
  { split_and!; try congruence; [|unfold bufsize; rewrite K1, Hb1; cbn; lia]. unfold out_ok in *. rewrite K1, Hb1 in *. rewrite Ha2, He2, K2, K3, K4, Hu1, orb_true_r.
    destruct Hok1 as (_ & _ & -> & _). split_and!; done || (cbn; lia). }
  rewrite Hf1 in Hf2. destruct (decide _) as [E|E].
  - exists k, s2. split_and!; [|done..]. do 3 f_equal. lia.
  - assert (k = length d) as -> by lia. rewrite drop_ge by lia. unfold default_xsputn. cbn [length]. rewrite decide_True by done. cbn [mbind res_bind].
    exists (length d), s2. split_and!; [|done..]. do 3 f_equal. lia.
Qed.

#[global] Program Instance unbuffered_exact : ExactSink ostream := {|
  ex_ok := unbuf_ok;
  gets s s' d := unbuf_ok s' ∧ o_file s' = o_file s ++ d;
|}.
Next Obligation. by intros s s' d [? _]. Qed.
Next Obligation. cbn beta. intros s Hs. by rewrite app_nil_r. Qed.
Next Obligation. cbn beta. intros s s1 s2 d1 d2 [_ E1] [Hs E2]. by rewrite E2, E1, app_assoc. Qed.
Next Obligation.
  cbn beta. intros d s Hs Hd _. destruct (xsputn_unbuf d s Hs Hd) as (k & s' & E & Hk & Hs' & Hf). by exists k, s'.
Qed.

(** C32: what [fprintf] to an unbuffered file reports is true.  Whatever [write]
    does, also when it fails in the middle and the helper stream tries again,
    the file gets a prefix of the text, in order and once, all of it when the
    result is its length, and less than all of it when the result is -1; there is no other
    result. *)
Theorem unbuffered_reports `{Libc ostream} `{Libc (helper_file ostream)} `{!PlainLibc (helper_file ostream)} lead l errno s t :
  unbuf_ok s → literal lead → items_ok l → items_text (lc_strerror_r errno) l = Some t →
  Z.of_nat (length (lead ++ t)) ≤ INT_MAX →
  ∃ k ret s', stream_vfprintf (lead ++ items_chars l) (items_args l) errno s = Ok (Some (ret, s')) ∧
    unbuf_ok s' ∧ o_file s' = o_file s ++ take k (lead ++ t) ∧
    (ret = Z.of_nat (length (lead ++ t)) ∧ k = length (lead ++ t) ∨ ret = -1 ∧ (k < length (lead ++ t))%nat).
Proof.
  intros Hs Hlead Hl Ht Hlen. unfold stream_vfprintf. pose proof Hs as (_ & _ & -> & _).
  destruct (buffered_text (F := ostream) (ExactSink0 := unbuffered_exact) lead l errno s t Hs Hlead Hl Ht Hlen) as (k & ret & s' & E & [Hs' Hf] & Hret). by exists k, ret, s'.
Qed.
End Files.

(** The standard error stream, on a device whose second [write] fails and whose others take three bytes *)
Definition stderr_stream : ostream := mkOut [] 0 None false false true false false false None [] 0 0.
#[local] Instance three_then_fail : Writes := {|
  sys_write n want := if decide (n = 1%nat) then inl 28 else inr (Nat.min 3 want); sys_close := 0; sys_obufsize := 4096; sys_isatty := true |}.

Lemma three_then_fail_laws : WriteLaws.
Proof.
  constructor; [|cbn; lia]. intros n want k Hw. unfold sys_write, three_then_fail. destruct (decide _); [done|]. intros E. assert (k = Nat.min 3 want) as -> by congruence. lia.
Qed.

Lemma unbuffered_reports_witness :
  ∃ k ret s', stream_vfprintf (H0 := c_libc _) (H1 := c_libc _) (lit "id " ++ items_chars sample_items) (items_args sample_items) 0 stderr_stream =
    Ok (Some (ret, s')) ∧ o_file s' = take k (lit "id +0042|ff  |ab").
Proof.
  destruct (unbuffered_reports (H := three_then_fail) (H0 := three_then_fail_laws) (H1 := c_libc _) (H2 := c_libc _) (PlainLibc0 := c_libc_plain _)
    (lit "id ") sample_items 0 stderr_stream (lit "+0042|ff  |ab")) as (k & ret & s' & E & _ & Hf & _).
  - unfold unbuf_ok, out_ok, bufsize. cbn. split_and!; done || lia.
  - by apply literalb_ok.
  - exact sample_ok.
  - by vm_compute.
  - by vm_compute.
  - exists k, ret, s'. split; [exact E|exact Hf].
Defined.
