(* ===== verification/PrintfFaults.v ===== *)
(** * Where [vfprintf] goes wrong

    Closed runs of the model, on the stream that takes everything: inputs for
    which the code leaves its arrays, reads an argument with the wrong type or
    aborts. *)

From S2P Require Import Prelude CString Itoa Printf PrintfFast PrintfText PrintfFormat.

(** A locale that groups: one group of three digits and no further, as the
    element [CHAR_MAX] of [grouping] says; and one where every group has
    three. *)
Definition grouping_libc (grouping : list Z) : Libc (list Z) := {|
  lc_alloc _ := true; lc_strerror_r _ := lit "Success"; lc_wcrtomb c := None; lc_wcsrtombs _ _ := Ok None;
  lc_i18n_number_rewrite l := l; lc_thousands_sep := lit "," ++ [0]; lc_grouping := grouping;
  lc_printf_fp _ _ s := Ok (-1, s); lc_printf_fphex _ _ s := Ok (-1, s); lc_fortify := false; lc_readonly_area := true;
|}.

(** The modifier [L] of an integer: a [long long] on the fast path, but
    [parse_one_spec] does not set [is_long] for it, so that the same directive
    with a position reads an [int]. *)
Theorem positional_long_long_misread :
  returned (vfprintf (H0 := c_libc _) (lit "%Ld" ++ [0]) [VLong (2 ^ 40 + 7)] 0 []) = Some (13, lit "1099511627783") ∧
  vfprintf (H0 := c_libc _) (lit "%1$Ld" ++ [0]) [VLong (2 ^ 40 + 7)] 0 [] = Fault BadVarArg.
Proof. by vm_compute. Qed.

(** [copy_rest] of [group_number] computes its length as [front_ptr - s], which is
    negative: a locale whose grouping ends with [CHAR_MAX] makes [memmove] copy
    almost all of memory. *)
Theorem grouping_end_faults :
  returned (vfprintf (H0 := grouping_libc [3; 0]) (lit "%'d" ++ [0]) [VInt 1234567] 0 []) = Some (9, lit "1,234,567") ∧
  vfprintf (H0 := grouping_libc [3; 127; 0]) (lit "%'d" ++ [0]) [VInt 1234567] 0 [] = Fault OutOfBounds.
Proof. by vm_compute. Qed.

(** [printf_unknown] prints a width of [int] into twelve bytes with
    [_itoa_word], which takes an unsigned long: the width [INT_MIN], which
    negation leaves negative, has twenty digits. *)
Theorem unknown_width_overflows :
  returned (vfprintf (H0 := c_libc _) (lit "%1$*1$y" ++ [0]) [VInt (- 2 ^ 31 + 1)] 0 []) = Some (13, lit "%-2147483647y") ∧
  vfprintf (H0 := c_libc _) (lit "%1$*1$y" ++ [0]) [VInt (- 2 ^ 31)] 0 [] = Fault OutOfBounds.
Proof. by vm_compute. Qed.

(** When exactly [INT_MAX] characters are written, further padding fails the
    assertion of [done_add], which ends the process, where a further character
    or string makes the call return -1. *)
Theorem padding_aborts (out : list Z) ap mem g e n c text : text ≠ [] →
  let st := mkP INT_MAX out ap mem g e n in
  PAD c 1 st = Aborted ∧ (∃ st', outchar c st = AllDone st' ∧ p_done st' = -1) ∧
  (∃ st', outstring text st = AllDone st' ∧ p_done st' = -1 ∧ p_errno st' = EOVERFLOW).
Proof.
  intros Hne st. split_and!; [by vm_compute|by eexists|].
  unfold outstring, mbind, P_bind, pget, pstream. cbn [p_done p_out st]. change (uint64 INT_MAX <=? INT_MAX) with true.
  cbn [negb sputn text_sink]. rewrite Z.eqb_refl. cbn [negb]. destruct (Z.ltb_spec (INT_MAX - INT_MAX) (Z.of_nat (length text))) as [|Hle].
  - by eexists.
  - destruct text; [done|]. cbn [length] in Hle. lia.
Qed.
